(* ===== verification/_CoqProject ===== *)
-Q . S2P
Prelude.v
GoStrings.v
GoRuntime.v
Identity.v
Model.v
World.v
Lifecycle.v
Providers.v
Hierarchy.v
Config.v
Sql.v
KeyStore.v
KeyVersionStore.v
StoreInvariant.v
StoreTheorems.v
StoreTypes.v
Validator.v
KeyOperator.v
Orchestrator.v
KeyAction.v
KeyActionTheorems.v
TaskTheorems.v
AdminKeys.v
AgentServices.v
RemoteKeys.v
AgentRegistry.v
SecureMem.v
SecureMemTheorems.v
AesGcm.v
Cryptor.v
Sealers.v
Vault.v
SpecYaml.v
KeyProcessor.v
RootManager.v
RootKeyService.v
SealingSafety.v
ManagerSafety.v
SealingEffects.v
SealingTheorems.v
SealingLaws.v
ManagerLaws.v
SealerServiceTheorems.v
RootManagerTheorems.v
Kmip.v
KmipTheorems.v
SealingSamples.v
Worker.v
Actions.v
Wiring.v
GrpcConn.v
GoText.v
Output.v
Terminal.v
ClientAuth.v
KmipServer.v
ClientCommands.v
Process.v
Cursor.v
CommandTree.v
ClientServer.v
