(* ===== verification/Prelude.v ===== *)
(** * Krypton: a verification library

    Krypton (module github.com/openkcm/krypton) manages hierarchies of
    cryptographic keys for tenants.  A root process owns the configuration, the
    database of keys and the admin API; agents own segments of the key hierarchy
    and receive their part of each key from the root.  This library models the
    program in Rocq as executable definitions that follow the Go code function by
    function, and proves what makes its parts correct.

    ** The parts of the program and how they meet

    - An operator calls the admin key service (pkg/api/v1/proto/admin/keys).
      Each call validates its request (pkg/validator), and in one database
      transaction (pkg/store) upserts a key (internal/keyoperator) or plans an
      action on a key tree (internal/orchestrator/keyaction.go), and hands a job
      group to the orbital scheduler.
    - The scheduler turns each job into tasks (taskresolver.go) and runs the task
      handlers (task.go, announce_task.go).  A handler resolves the key and its
      versions, seals key material when the key lives on the root, or sends the
      key and the version to the agent that manages it, and records the outcome.
    - An agent receives tenants, keys and key versions
      (pkg/api/v1/proto/agents/...) and stores them in its own database.
    - Agents register at the root and send heartbeats
      (pkg/api/v1/proto/agents/service.go); a worker of the root (cmd/root) ages
      the registrations.  An interceptor admits peers by the URI of their
      certificate (internal/interceptor, internal/identity).
    - Key material lives in secure memory (internal/securemem): locked pages that
      are wiped before they are released.  A key version's secret is generated
      there, encrypted by a cryptor (internal/cryptor), sealed by the parent key
      (internal/keyprocessor, internal/sealer) and stored in a vault
      (internal/vault); it is resolved the other way round.  The root key is
      sealed by a provider that the root key service configures.  Other processes
      seal through the sealer service (pkg/api/v1/proto/sealer), and clients
      fetch secrets over KMIP (internal/kmip).
    - The command line client (cli, pkg/authn) logs in, connects with what the
      login stored, selects a tenant, calls the admin services and shows keys
      and actions.
    - The main functions (cmd/root, cmd/agent) load the configuration, build the
      components in order, serve, and stop them on a signal.
    - The configuration (internal/config, internal/spec) says which kinds of keys
      there are, in which order they wrap each other, and which process holds
      which segment; it is validated when a process starts.

    ** The files

    The Go runtime.  GoStrings: the string, number and UUID functions the code
    uses.  GoRuntime: errors as trees ([errors.Is], [errors.As]), results that
    are a value, an error, a panic or non-termination, and the state monad
    [comp] of the code's effects, with the relational frame [respects] and its
    hint databases.  World: the state of a process (database, memory, vault,
    responses, a tick that numbers the reads of the clock, of randomness and the
    statements that may fail) and the class [Env] of everything the environment
    decides.

    The data.  Model (pkg/model, internal/core, internal/clock): keys, key
    versions, tenants, labels, key trees.  Lifecycle (internal/keylifecycle,
    internal/spec/keyusage.go): life cycle states, transitions, permitted usages.
    Identity (internal/identity): identity URIs and selectors.  Providers: the
    specifications of secrets, sealers, cryptors and vaults.  Hierarchy
    (internal/spec): labels, key specifications, hierarchies, topologies, the
    checks of segments against them.  Config (internal/config): the
    configuration of a root, its validation, what an agent is given.

    The store.  Sql (pkg/store/sql: transactor, migrate, tenant, agent), KeyStore
    (key.go), KeyVersionStore (keyversion.go): each SQL statement as a function on
    tables that are finite maps, with the columns' types (UUID text is
    canonicalised or refused, INT is 32 bits), the unique and foreign key
    constraints of migrate.go, and an error at any statement.  StoreInvariant:
    the invariant of the schema.  StoreTheorems: what the calls promise.
    StoreTypes: a semantic typing of every call over the types of the columns.

    The key operations.  Validator (pkg/validator), KeyOperator
    (internal/keyoperator), Orchestrator (internal/orchestrator: error.go,
    keyoperator.go, task.go, handler.go), KeyAction (keyaction.go, the resolvers,
    announce_task.go, builder.go), with KeyActionTheorems and TaskTheorems.

    The services.  AdminKeys (pkg/api/v1/proto/admin/keys), AgentServices (the
    agents' tenants, keys and keyversions services, the admin tenant service),
    RemoteKeys (a key task of the root composed with the services of the agent it
    calls), AgentRegistry (the registration service, one run of the worker of cmd/root,
    the interceptor), Actions (pkg/api/v1/proto/admin/actions and what
    cli/cmd/action.go reads of an action).  Wiring (orchestrator.go, options.go,
    jobgroup.go and the handlers that cmd/root registers): the callbacks of the
    scheduler routed to the handlers by type.  Cursor (pkg/store/sql/cursor.go).

    Secrets.  SecureMem (internal/securemem): regions of memory with their
    mapping and protection, [Data] objects, vaults of a handler, [Run], the stats
    handler of gRPC; every system call may fail.  AesGcm (the class [GCM] of the
    cipher and the slices of secure memory), Cryptor (internal/cryptor), Sealers
    (internal/sealer, internal/secret: the record [Sealer] of two operations, the
    static sealer, loading of secrets), Vault (internal/vault: SQLite and
    OpenBao), SpecYaml (the YAML methods of the specifications), KeyProcessor (processor.go, manager.go, remotemanager.go),
    RootManager (rootmanager.go), RootKeyService (the root key service and, as
    module SealerService, the sealer service), Kmip (internal/kmip), KmipServer
    (server.go: the listener).  Their
    theorems: SecureMemTheorems (the invariant [wf] of secure memory and a
    weakest-precondition calculus [wpe] over it), SealingSafety and ManagerSafety
    (every outcome, faults included), SealingEffects (which objects a call
    changes, when nothing fails), SealingTheorems (the cryptor), SealingLaws (the
    law every sealer satisfies, and secrets under it), ManagerLaws (the law for
    the levels of a hierarchy), SealerServiceTheorems, RootManagerTheorems,
    KmipTheorems, with the witnesses of all of them in SealingSamples.

    Processes and clients.  Worker (internal/worker) as an event system of
    goroutines, GrpcConn (internal/grpcconn).  GoText (runes and aligned columns
    of the Go library), Output (cli/output), Terminal (cli/output/terminal and the
    selection of cli/cmd/select.go), ClientAuth (pkg/authn, cli/state, the logins
    and the connection of cli/cmd, internal/config/tls.go), ClientCommands (the
    commands of cli/cmd over the client's files and a trace of connections, calls
    and output), CommandTree (the tree of commands and flags, cli/main.go),
    ClientServer (the commands against the admin services of a root), Process (both main functions as traces of steps of which any may
    fail, and the loading of their configuration).

    Names are those of the code.  A method of a type is the function of its
    name, prefixed by the type where two types share the name; a field is
    prefixed by the initials of its record; a pointer that may be nil is an
    [option]; an error result is [goerror] for a pure function and [Err] in the
    monad; a transaction step is a function on the state the steps share.

    ** Interfaces

    Components are proved against classes that say what they rely on:
    [KeyManager] (sealing does not touch the database), [RemoteAgents] (nor does
    a call to an agent; both may fail), [JobGroupPreparer] (orbital keeps its
    jobs in its own tables), [JobCodec] and [CursorCodec] (JSON and base64 texts
    read back as what was written), [Regexp] and [Collation] (any), [Env].
    ManagerSafety proves for the manager of the key processor what [KeyManager]
    promises.  The record law [sealer_law] says what a sealer promises (what it
    seals it unseals, and nothing else in memory changes except new objects that
    hold what a residue [R] allows); it is proved for the static sealer (no
    residue), for a remote parent that keeps the promise of its service
    ([remote_parent], no residue), for the root manager (copies of the secrets of
    its providers) and by induction for every level of a manager, and the sealer
    service and KMIP are proved against it.  Cursor discharges [CursorCodec] for
    the base64 text, leaving JSON as the class [CursorJson].  Libraries are the
    classes [GCM] (AES-GCM), [OpenBao], [SealerClient], [Yaml], [OsEnv],
    [Pki], [ClientCodec], [Orbital] (the scheduler), [Cobra] (command lines) and
    the arguments of GrpcConn, Actions, Output and KmipServer; [Server] is what the
    services answer a client, which ClientServer discharges with the admin
    services on the states a root goes through, and [Host] what the operating
    system and the steps of a process answer.  Every
    class has a concrete instance in a module of samples, which the witnesses
    use.

    ** What the theorems show

    - The store: all-or-nothing transactions; the invariant of the schema is
      preserved by every sequence of calls and nothing is ever removed from it;
      rows keep the types of their columns, stored and answered;
      the state update of a key is a compare-and-swap; ancestors, descendants and
      pages of keys are complete, exact and ordered; the name filter is literal;
      a database stays with its node; authenticated data identifies a version.
    - The life cycle: the table is the NIST SP 800-57 state machine, a retired
      key never comes back, usages by state.
    - Actions: planning moves exactly the keys that need it and schedules exactly
      those, layer by layer; a job resolves into one task per key, and on a root
      the orchestrator that main builds runs each task of an activation with the
      handler registered for it; a task always
      settles and says truthfully what it left behind; a key of an agent that a
      task completed is on that agent, with the same version; the admin calls make only
      transitions the life cycle allows and change nothing when they fail; an
      agent's answer for a key version is truthful.
    - The configuration: hierarchy validation accepts exactly the well-formed
      hierarchies; in a validated deployment every agent's first key has a parent
      in the segment of its provider, and every agent can register.
    - The agents: registrations age by their last heartbeat; a peer is admitted
      by exactly the configured URIs; identities and selectors parse back, and
      selectors match what they describe.
    - Secrets: whatever calls are made and whichever fail, bytes other than zero
      are only in memory that a live object owns; a handler's vaults are destroyed
      as [Run] promises; encryption is authenticated and reversible and has the
      expected length; a created secret resolves, sealing along the hierarchy is
      reversible, ends, and leaves no key of the manager; a call of the sealer
      service and a KMIP connection leave memory as it was, up to the copies of
      the provider's secret that a root manager leaves and the collector's
      clean-up wipes; a specification
      survives YAML, and a provider that was created seals and unseals for the
      root key; a KMIP client reaches
      the keys of its certificate's tenant only, and errors of the backend do not
      reach the wire.
    - Processes and clients: a root builds the stores, managers and the
      orchestrator before it serves, also when its server fails, and
      serves behind TLS and the interceptor when authentication is configured; an
      agent registers before it serves and deregisters when it ends in order; a
      command of the client makes at most one connection, which the stored token
      grants, and closes it; every command line is refused or is exactly one of
      these commands or a login, with the flags it needs; a key that was announced
      is shown by [get key] whatever the root did meanwhile; the selected tenant is
      the one the next commands name; the scheduler has one run at a time and every run
      ends after its context; the connection registry is all or nothing; the
      action of an announcement leads back to the key; the client's files are
      replaced whole, a connection is what the stored token grants, and the tenant
      that is picked is the tenant that is stored.
    - Some theorems record where the code differs from what it means to do: a
      rejected transition is reported as a missing key; announcing an active key
      again resets it, and answers labels that are not stored; a root that is not called "root" validates but its agents
      cannot register; a healthy agent can be dropped in one run of the worker;
      a provider's secret stays in memory after sealing until it is collected; a scheduler whose caller's
      context ended refuses to start again; a line break in a tenant's name
      selects another tenant; the selector does not notice the end of its input;
      a root has no handlers for suspending and deactivating, so those keys stay
      pending; an agent seals over connections without TLS, whatever
      authentication is configured; the heartbeat interval equals the silence after
      which an agent is unhealthy; lists of keys print times unformatted as JSON; no
      limit on a list of keys is a limit of fifty.

    ** Bounds and fuel

    The two recursive SQL queries run with [cte_fuel] rounds, one more than the
    table has keys; with that fuel they stop unless the parent references are
    cyclic, and then the result is [Diverge], which is also what the database
    does: [get_parent_keys_ancestors] and [get_descendant_keys_layers] prove that
    running out of fuel means an infinite chain.  Listing page by page
    ([list_all]) is given as many rounds as the table has keys, and is proved to
    finish.  The manager unseals a key with its parent, and so on up the
    hierarchy: [manager_sealer n] climbs [n] levels, and [manager_sealing_ends]
    proves that as many levels as the key has ancestors suffice.  The selector
    reads from a list of reads; an answer that has not come is [None].  Every
    other loop is over a list.  Integers are [Z] with the wrap of
    their width where the code can exceed it ([wrap32], [wrap64]).

    ** What is not modelled

    A transaction runs without interleaving with others: this is the isolation
    the code relies on, and what happens when two transactions race is seen only
    through the compare-and-swap.  A failed commit restores the database: a commit
    whose outcome the client cannot know is idealised away.  The operations of
    secure memory and of the connection registry are atomic, as their mutexes
    make them; only the scheduler is modelled with interleaved goroutines.  The
    clean-up that the garbage collector runs for a forgotten object is a
    definition ([NewData_cleanup]), but when it runs is not modelled, so the
    runs of [Run] (which asks for a collection) and of the sealers are without
    it.  The copies that gRPC and Go's
    heap hold of a request, logging and the texts of error messages are left out;
    an error is known by the sentinels and status codes it carries.  A cancelled
    context is a fault like that of a system call.  The theorems that say a call
    succeeds or leaves memory as it was are about environments without faults
    ([NoFaults]); those of SecureMemTheorems, SealingSafety, ManagerSafety and
    TaskTheorems are not.  Maps are walked in an order
    the environment chooses ([e_order]), except in [NewManager] and in
    [ParentName], which walk them in the order of their keys: an agent with
    several remote parents gets one fixed pick of them.  [registration_config] is
    the configuration part of [AgentService.Register]; marshalling and the store
    write follow it.  [ListKeys] does not run out of memory for a huge limit, and
    [uuid_column] accepts fewer spellings of a UUID than PostgreSQL.  The YAML and JSON
    libraries, the gRPC and KMIP transports (the TLS handshake among them), the scheduler orbital and the splitting
    of a command line are input and output around the modelled code.  In
    Process a step of a main function is an outcome of the environment, which is
    an error or none: what the
    step does, a panic included, is in the file of its component, and the two are not composed.  The
    Darwin variant of secure memory is not modelled.

    This file holds the tactics and the generic lemmas the components share. *)

From stdpp Require Export base tactics decidable gmap sets list strings sorting pretty.
From stdpp Require Export relations.


(** ** Tactics shared by the components *)

(** Case analysis on every [match]/[if] scrutinee of the goal, keeping the
    equations. *)
Ltac split_match :=
  match goal with
  | |- context [match ?x with _ => _ end] =>
      lazymatch x with
      | context [match _ with _ => _ end] => fail
      | _ => let E := fresh "E" in destruct x eqn:E
      end
  end.

(** The same in a hypothesis. *)
Ltac split_match_in H :=
  match type of H with
  | context [match ?x with _ => _ end] =>
      lazymatch x with
      | context [match _ with _ => _ end] => fail
      | _ => let E := fresh "E" in destruct x eqn:E
      end
  end.

(** Turn boolean tests of the code into the propositions they decide. *)
Ltac to_prop :=
  repeat match goal with
  | H : bool_decide _ = true |- _ => apply bool_decide_eq_true_1 in H
  | H : bool_decide _ = false |- _ => apply bool_decide_eq_false_1 in H
  | H : negb _ = true |- _ => apply negb_true_iff in H
  | H : negb _ = false |- _ => apply negb_false_iff in H
  | H : (_ && _)%bool = true |- _ => apply andb_true_iff in H; destruct H
  | H : (_ || _)%bool = false |- _ => apply orb_false_iff in H; destruct H
  | H : (_ && _)%bool = false |- _ => apply andb_false_iff in H; destruct H
  | H : (_ || _)%bool = true |- _ => apply orb_true_iff in H; destruct H
  | H : Z.ltb _ _ = true |- _ => apply Z.ltb_lt in H
  | H : Z.ltb _ _ = false |- _ => apply Z.ltb_ge in H
  | H : Z.leb _ _ = true |- _ => apply Z.leb_le in H
  | H : Z.leb _ _ = false |- _ => apply Z.leb_gt in H
  | H : Z.eqb _ _ = true |- _ => apply Z.eqb_eq in H
  | H : Z.eqb _ _ = false |- _ => apply Z.eqb_neq in H
  | H : Nat.eqb _ _ = true |- _ => apply Nat.eqb_eq in H
  | H : Nat.eqb _ _ = false |- _ => apply Nat.eqb_neq in H
  end.

(** ** Lists *)

Section lists.
Context {A : Type}.

(** [find_index p l]: position of the first element satisfying [p], as the
    [for i, x := range l] search loops of the code compute it. *)
Fixpoint find_index (p : A → bool) (l : list A) : option nat :=
  match l with
  | [] => None
  | x :: l' => if p x then Some 0 else S <$> find_index p l'
  end.

Lemma find_index_Some p (l : list A) i :
  find_index p l = Some i ↔
  (∃ x, l !! i = Some x ∧ p x = true) ∧
  (∀ j y, j < i → l !! j = Some y → p y = false).
Proof.
  revert i; induction l as [|x l IH]; intros i; simpl.
  - split; [done|]. by intros [(? & ? & ?) _].
  - destruct (p x) eqn:Hp; split.
    + intros [= <-]. split; [by exists x|]. intros; lia.
    + intros [(y & Hy & Hpy) Hlt]. destruct i as [|i]; [done|].
      specialize (Hlt 0 x). simpl in Hlt. rewrite Hlt in Hp; [done|lia|done].
    + rewrite fmap_Some. intros (j & Hj & ->). apply IH in Hj as [(y & ? & ?) Hlt].
      split; [by exists y|]. intros [|k] z Hk Hz; simpl in Hz; simplify_eq; [done|].
      eapply Hlt; [|done]. lia.
    + intros [(y & Hy & Hpy) Hlt]. destruct i as [|i]; simpl in Hy; [congruence|].
      rewrite fmap_Some. exists i. split; [|done]. apply IH. split; [by exists y|].
      intros j z Hj Hz. apply (Hlt (S j)); [lia|done].
Qed.

Lemma find_index_None p (l : list A) :
  find_index p l = None ↔ ∀ x, x ∈ l → p x = false.
Proof.
  induction l as [|x l IH]; simpl.
  - split; [|done]. intros _ y Hy. by apply elem_of_nil in Hy.
  - destruct (p x) eqn:Hp.
    + split; [done|]. intros H. specialize (H x). rewrite H in Hp; [done|]. left.
    + rewrite fmap_None, IH. split.
      * intros H y. rewrite elem_of_cons. intros [->|?]; [done|by apply H].
      * intros H y Hy. apply H. by right.
Qed.

Lemma find_index_lt p (l : list A) i : find_index p l = Some i → i < length l.
Proof.
  intros [(x & Hx & _) _]%find_index_Some. by eapply lookup_lt_Some.
Qed.

(** A list of lists has no duplicates when no element is in two places. *)
Lemma NoDup_mjoin (ll : list (list A)) :
  (∀ n l, ll !! n = Some l → NoDup l) →
  (∀ n m l1 l2 x, ll !! n = Some l1 → ll !! m = Some l2 → x ∈ l1 → x ∈ l2 → n = m) →
  NoDup (mjoin ll).
Proof.
  induction ll as [|l ll IH]; intros Hn Hd; cbn [mjoin list_join]; [constructor|].
  apply NoDup_app. split_and!.
  - by apply (Hn 0).
  - intros x Hx (l2 & Hx2 & [m Hm]%list_elem_of_lookup)%list_elem_of_join.
    by specialize (Hd 0 (S m) l l2 x eq_refl Hm Hx Hx2).
  - apply IH; [intros n; apply (Hn (S n))|]. intros n m l1 l2 x H1 H2 Hx1 Hx2.
    by injection (Hd (S n) (S m) l1 l2 x H1 H2 Hx1 Hx2).
Qed.
End lists.

(** ** Paths in finite graphs *)

Section paths.
Context {A : Type} (R : relation A).

(** Positions [i] and [i + m] of a path are [m] steps apart. *)
Lemma path_segment (l : list A) :
  (∀ i a b, l !! i = Some a → l !! S i = Some b → R a b) →
  ∀ m i a b, l !! i = Some a → l !! (i + m) = Some b → nsteps R m a b.
Proof.
  intros Hl m. induction m as [|m IH]; intros i a b Ha Hb.
  - rewrite Nat.add_0_r in Hb. simplify_eq. constructor.
  - destruct (lookup_lt_is_Some_2 l (S i)) as [c Hc].
    { apply lookup_lt_Some in Hb. lia. }
    eapply nsteps_l; [by eapply Hl|]. eapply IH; [exact Hc|].
    by replace (S i + m) with (i + S m) by lia.
Qed.

Lemma not_NoDup_lookup `{!EqDecision A} (l : list A) :
  ¬ NoDup l → ∃ i m x, 0 < m ∧ l !! i = Some x ∧ l !! (i + m) = Some x.
Proof.
  induction l as [|x l IH]; intros Hnd; [destruct Hnd; constructor|].
  destruct (decide (x ∈ l)) as [[j Hj]%list_elem_of_lookup|Hx].
  - exists 0, (S j), x. split; [lia|done].
  - destruct IH as (i & m & y & ? & ? & ?); [|by exists (S i), m, y].
    intros ?. apply Hnd. by constructor.
Qed.

(** A path longer than the number of its possible nodes runs through a cycle. *)
Lemma nsteps_pigeonhole `{!EqDecision A} (nodes : list A) n x y :
  (∀ a b, R a b → b ∈ nodes) → x ∈ nodes → length nodes ≤ n → nsteps R n x y →
  ∃ i m z, 0 < m ∧ nsteps R i x z ∧ nsteps R m z z.
Proof.
  intros HR Hx Hn (l & Hlen & Hh & _ & Hl)%nsteps_list. rewrite head_lookup in Hh.
  destruct (not_NoDup_lookup l) as (i & m & z & Hm & Hi & Hj).
  - intros Hnd. assert (length l ≤ length nodes); [|lia].
    apply submseteq_length, NoDup_submseteq; [done|].
    intros z [[|i] Hi]%list_elem_of_lookup; [by simplify_eq|].
    destruct (lookup_lt_is_Some_2 l i) as [a Ha]; [apply lookup_lt_Some in Hi; lia|].
    by eapply HR, Hl.
  - exists i, m, z. split_and!; [done| |].
    + by eapply (path_segment l Hl i 0).
    + by eapply (path_segment l Hl m i).
Qed.

Lemma nsteps_cycle m z t : nsteps R m z z → nsteps R (t * m) z z.
Proof.
  intros Hz. induction t as [|t IH]; simpl; [constructor|]. by eapply nsteps_trans.
Qed.
End paths.
