(* ===== verification/GoStrings.v ===== *)
(** * Strings of the Go standard library

    The operations of packages [strings], [strconv], [slices] and [uuid] the
    modelled code calls, on byte strings.  [TrimSpace] removes the ASCII white
    space of Go's [unicode.IsSpace]; [itoa] is the decimal printer behind
    [%d] and [strconv.Itoa]. *)

From S2P Require Import Prelude.
From Stdlib Require Import Ascii.

Local Open Scope string_scope.

#[local] Arguments String.append !_ _ / : simpl nomatch.

(** ** Characters of a string *)

Fixpoint chars (s : string) : list ascii :=
  match s with EmptyString => [] | String c s' => c :: chars s' end.

Fixpoint unchars (l : list ascii) : string :=
  match l with [] => EmptyString | c :: l' => String c (unchars l') end.

Lemma unchars_chars s : unchars (chars s) = s.
Proof. induction s; simpl; congruence. Qed.

Lemma chars_unchars l : chars (unchars l) = l.
Proof. induction l; simpl; congruence. Qed.

Lemma chars_app s t : chars (s +:+ t) = (chars s ++ chars t)%list.
Proof. induction s; simpl; congruence. Qed.

Lemma str_app_nil_r s : s +:+ "" = s.
Proof. induction s; simpl; congruence. Qed.

Lemma str_app_assoc s t u : s +:+ (t +:+ u) = (s +:+ t) +:+ u.
Proof. induction s; simpl; congruence. Qed.

#[export] Instance chars_inj : Inj (=) (=) chars.
Proof. intros s t H. by rewrite <- (unchars_chars s), H, unchars_chars. Qed.

(** [strings.ContainsAny(s, cs)]. *)
Definition contains_any (s : string) (cs : list ascii) : bool :=
  existsb (λ c, bool_decide (c ∈ cs)) (chars s).

Lemma contains_any_false s cs :
  contains_any s cs = false ↔ ∀ c, c ∈ chars s → c ∉ cs.
Proof.
  unfold contains_any. induction (chars s) as [|c l IH]; simpl.
  - split; [|done]. intros _ c Hc. by apply elem_of_nil in Hc.
  - rewrite orb_false_iff, IH, bool_decide_eq_false. set_solver.
Qed.

(** [strings.HasPrefix] and [strings.CutPrefix]. *)
Fixpoint cut_prefix (s p : string) {struct p} : option string :=
  match p, s with
  | EmptyString, _ => Some s
  | String c p', String d s' => if Ascii.eqb c d then cut_prefix s' p' else None
  | String _ _, EmptyString => None
  end.

Definition has_prefix (s p : string) : bool :=
  match cut_prefix s p with Some _ => true | None => false end.

Lemma cut_prefix_Some s p r : cut_prefix s p = Some r ↔ s = p +:+ r.
Proof.
  revert s; induction p as [|c p IH]; intros s; simpl.
  - split; congruence.
  - destruct s as [|d s]; [by split|].
    destruct (Ascii.eqb_spec c d) as [->|Hne].
    + rewrite IH. split; [by intros ->|by intros [=->]].
    + split; [done|]. intros [=]. congruence.
Qed.

Lemma cut_prefix_app p r : cut_prefix (p +:+ r) p = Some r.
Proof. by apply cut_prefix_Some. Qed.

(** ** Splitting *)

(** [strings.Split(s, sep)] for a one-byte separator: never empty. *)
Fixpoint split_chars (sep : ascii) (l : list ascii) : list (list ascii) :=
  match l with
  | [] => [[]]
  | c :: l' =>
      if Ascii.eqb c sep then [] :: split_chars sep l'
      else match split_chars sep l' with
           | p :: ps => (c :: p) :: ps
           | [] => [[c]]
           end
  end.

Definition split (sep : ascii) (s : string) : list string :=
  unchars <$> split_chars sep (chars s).

(** [strings.Cut(s, sep)] for a one-byte separator. *)
Fixpoint cut_chars (sep : ascii) (l : list ascii) : list ascii * option (list ascii) :=
  match l with
  | [] => ([], None)
  | c :: l' =>
      if Ascii.eqb c sep then ([], Some l')
      else let '(b, a) := cut_chars sep l' in (c :: b, a)
  end.

(** Go returns [after = ""] and [found = false] when the separator is absent. *)
Definition cut (sep : ascii) (s : string) : string * string * bool :=
  let '(b, a) := cut_chars sep (chars s) in
  match a with
  | Some r => (unchars b, unchars r, true)
  | None => (unchars b, "", false)
  end.

(** [strings.Join(parts, sep)]. *)
Fixpoint join (sep : string) (parts : list string) : string :=
  match parts with
  | [] => ""
  | [p] => p
  | p :: ps => p +:+ sep +:+ join sep ps
  end.

Lemma split_chars_no_sep sep l :
  sep ∉ l → split_chars sep l = [l].
Proof.
  induction l as [|c l IH]; simpl; [done|]. rewrite not_elem_of_cons.
  intros [Hc Hl]. destruct (Ascii.eqb_spec c sep) as [->|_]; [done|]. by rewrite IH.
Qed.

Lemma split_chars_app_sep sep l r :
  sep ∉ l → split_chars sep (l ++ sep :: r) = l :: split_chars sep r.
Proof.
  induction l as [|c l IH]; simpl.
  - intros _. by rewrite Ascii.eqb_refl.
  - rewrite not_elem_of_cons. intros [Hc Hl].
    destruct (Ascii.eqb_spec c sep) as [->|_]; [done|]. by rewrite IH.
Qed.

Lemma split_chars_nonempty sep l : split_chars sep l ≠ [].
Proof.
  destruct l as [|c l]; simpl; [done|]. destruct (Ascii.eqb _ _); [done|].
  by destruct (split_chars sep l).
Qed.

(** The pieces of a split never contain the separator. *)
Lemma split_chars_pieces sep l : Forall (λ p, sep ∉ p) (split_chars sep l).
Proof.
  induction l as [|c l IH]; simpl.
  - constructor; [|done]. apply not_elem_of_nil.
  - destruct (Ascii.eqb_spec c sep) as [->|Hne].
    + constructor; [apply not_elem_of_nil|done].
    + destruct (split_chars sep l) as [|p ps]; [repeat constructor; set_solver|].
      apply Forall_cons in IH as [Hp Hps]. constructor; [|done].
      rewrite not_elem_of_cons. done.
Qed.

Lemma cut_chars_no_sep sep l : sep ∉ l → cut_chars sep l = (l, None).
Proof.
  induction l as [|c l IH]; simpl; [done|]. rewrite not_elem_of_cons.
  intros [Hc Hl]. destruct (Ascii.eqb_spec c sep) as [->|_]; [done|]. by rewrite IH.
Qed.

Lemma cut_chars_app_sep sep l r : sep ∉ l → cut_chars sep (l ++ sep :: r) = (l, Some r).
Proof.
  induction l as [|c l IH]; simpl.
  - intros _. by rewrite Ascii.eqb_refl.
  - rewrite not_elem_of_cons. intros [Hc Hl].
    destruct (Ascii.eqb_spec c sep) as [->|_]; [done|]. by rewrite IH.
Qed.

Lemma cut_chars_inv sep l b a :
  cut_chars sep l = (b, a) →
  (sep ∉ b) ∧ (l = match a with Some r => b ++ sep :: r | None => b end)%list.
Proof.
  revert b a; induction l as [|c l IH]; intros b a; simpl.
  - intros [= <- <-]. split; [apply not_elem_of_nil|done].
  - destruct (Ascii.eqb_spec c sep) as [->|Hne].
    + intros [= <- <-]. split; [apply not_elem_of_nil|done].
    + destruct (cut_chars sep l) as [b' a'] eqn:E. intros [= <- <-].
      destruct (IH _ _ eq_refl) as [Hb Hl]. split; [by rewrite not_elem_of_cons|].
      destruct a'; simpl; congruence.
Qed.

Lemma cut_no_sep sep s : sep ∉ chars s → cut sep s = (s, "", false).
Proof. intros H. unfold cut. by rewrite cut_chars_no_sep, unchars_chars. Qed.

Lemma cut_app_sep sep b a : sep ∉ chars b → cut sep (b +:+ String sep a) = (b, a, true).
Proof. intros H. unfold cut. by rewrite chars_app; simpl; rewrite cut_chars_app_sep, !unchars_chars. Qed.

Lemma cut_inv sep s b a f :
  cut sep s = (b, a, f) →
  sep ∉ chars b ∧ (f = true ∧ s = b +:+ String sep a ∨ f = false ∧ s = b ∧ a = "").
Proof.
  unfold cut. destruct (cut_chars sep (chars s)) as [lb la] eqn:E. apply cut_chars_inv in E as [Hb Hl].
  destruct la as [la|]; intros [= <- <- <-]; rewrite chars_unchars; (split; [done|]).
  - left. split; [done|]. apply (inj chars). rewrite chars_app. simpl. by rewrite !chars_unchars.
  - right. split; [done|]. split; [|done]. apply (inj chars). by rewrite chars_unchars.
Qed.

Lemma split_no_sep sep s : sep ∉ chars s → split sep s = [s].
Proof. intros H. unfold split. rewrite split_chars_no_sep by done. simpl. by rewrite unchars_chars. Qed.

Lemma split_app_sep sep s t : sep ∉ chars s → split sep (s +:+ String sep t) = s :: split sep t.
Proof.
  intros H. unfold split. rewrite chars_app. simpl. rewrite split_chars_app_sep by done. simpl.
  by rewrite unchars_chars.
Qed.

(** Splitting undoes joining, and joining undoes splitting. *)
Lemma split_join sep parts :
  parts ≠ [] → Forall (λ p, sep ∉ chars p) parts → split sep (join (String sep "") parts) = parts.
Proof.
  induction parts as [|p [|q ps] IH]; [done| |]; intros _ [Hp Hps]%Forall_cons.
  - by apply split_no_sep.
  - change (join (String sep "") (p :: q :: ps)) with (p +:+ String sep (join (String sep "") (q :: ps))).
    rewrite split_app_sep by done. by rewrite IH.
Qed.

Lemma join_cons sep p ps : ps ≠ [] → join sep (p :: ps) = p +:+ sep +:+ join sep ps.
Proof. by destruct ps. Qed.

Lemma join_split sep s : join (String sep "") (split sep s) = s.
Proof.
  apply (inj chars). rewrite <-(unchars_chars s) at 1. generalize (chars s) as l. clear s.
  unfold split. intros l. rewrite chars_unchars.
  assert (∀ (p : list ascii) ps, chars (join (String sep "") (unchars <$> (p :: ps))) =
    (p ++ match ps with [] => [] | _ => sep :: chars (join (String sep "") (unchars <$> ps)) end)%list) as Hj.
  { intros p [|q ps]; simpl; [by rewrite chars_unchars, app_nil_r|].
    rewrite chars_app, chars_unchars. simpl. done. }
  induction l as [|c l IH]; [done|]. simpl.
  pose proof (split_chars_nonempty sep l) as Hne.
  destruct (Ascii.eqb_spec c sep) as [->|Hc].
  - rewrite Hj. destruct (split_chars sep l); [done|]. simpl. by rewrite <-IH.
  - destruct (split_chars sep l) as [|q ps]; [done|]. rewrite Hj in IH |- *. simpl. by rewrite <-IH.
Qed.

Lemma split_pieces sep s : Forall (λ p, sep ∉ chars p) (split sep s).
Proof.
  unfold split. apply Forall_fmap. eapply Forall_impl; [apply split_chars_pieces|].
  intros p Hp. simpl. by rewrite chars_unchars.
Qed.

Lemma split_nonempty sep s : split sep s ≠ [].
Proof. unfold split. intros H%fmap_nil_inv. by apply split_chars_nonempty in H. Qed.

(** ** Trimming, replacing, printing *)

Definition is_space (c : ascii) : bool :=
  let n := nat_of_ascii c in (Nat.eqb n 32 || (Nat.leb 9 n && Nat.leb n 13))%bool.

Fixpoint trim_left (l : list ascii) : list ascii :=
  match l with
  | c :: l' => if is_space c then trim_left l' else l
  | [] => []
  end.

(** [strings.TrimSpace]. *)
Definition trim_space (s : string) : string :=
  unchars (rev (trim_left (rev (trim_left (chars s))))).

(** [strings.ReplaceAll(s, old, new)] for a one-byte [old]. *)
Fixpoint replace_all (s : string) (old : ascii) (new : string) : string :=
  match s with
  | EmptyString => EmptyString
  | String c s' =>
      if Ascii.eqb c old then new +:+ replace_all s' old new
      else String c (replace_all s' old new)
  end.

Definition itoa (z : Z) : string := pretty z.

#[export] Instance itoa_inj : Inj (=) (=) itoa.
Proof. apply pretty_Z_inj. Qed.

(** Byte-wise string order, as [cmp.Compare] and [slices.Sorted] use it. *)
Definition string_le (s t : string) : Prop := String.leb s t = true.
#[export] Instance string_le_dec : RelDecision string_le.
Proof. intros s t. unfold string_le. apply _. Defined.

(** ** UUIDs

    [uuid.Parse] accepts the hyphenated form, the same in braces or after
    [urn:uuid:], and the 32 bare hexadecimal digits, letters in either case.
    [uuid_parse] returns the canonical text ([UUID.String]): lower case and
    hyphenated.  A [uuid] column reads the same spellings except the URN and
    returns the canonical text; [uuid_column] is that conversion. *)

Definition hex_lower (c : ascii) : option ascii :=
  let n := nat_of_ascii c in
  if (Nat.leb 48 n && Nat.leb n 57)%bool then Some c
  else if (Nat.leb 97 n && Nat.leb n 102)%bool then Some c
  else if (Nat.leb 65 n && Nat.leb n 70)%bool then Some (ascii_of_nat (n + 32))
  else None.

(** A template says where the digits ([true]) and the hyphens ([false]) are. *)
Fixpoint scan (t : list bool) (l : list ascii) : option (list ascii) :=
  match t, l with
  | [], [] => Some []
  | true :: t', c :: l' => d ← hex_lower c; ds ← scan t' l'; Some (d :: ds)
  | false :: t', c :: l' => if Ascii.eqb c "-" then scan t' l' else None
  | _, _ => None
  end.

Fixpoint emit (t : list bool) (ds : list ascii) : list ascii :=
  match t, ds with
  | true :: t', d :: ds' => d :: emit t' ds'
  | false :: t', _ => "-"%char :: emit t' ds
  | _, _ => []
  end.

Definition uuid_template : list bool :=
  replicate 8 true ++ [false] ++ replicate 4 true ++ [false] ++ replicate 4 true ++
  [false] ++ replicate 4 true ++ [false] ++ replicate 12 true.

Definition uuid_digits (l : list ascii) : option (list ascii) :=
  match length l with
  | 36 => scan uuid_template l
  | 32 => scan (replicate 32 true) l
  | 38 => match l with
          | c :: l' =>
              if (Ascii.eqb c "{" && bool_decide (last l' = Some "}"%char))%bool
              then scan uuid_template (take 36 l') else None
          | [] => None
          end
  | 45 => r ← cut_prefix (unchars l) "urn:uuid:"; scan uuid_template (chars r)
  | _ => None
  end.

Definition uuid_parse (s : string) : option string :=
  ds ← uuid_digits (chars s); Some (unchars (emit uuid_template ds)).

Definition is_valid_uuid (s : string) : bool :=
  match uuid_parse s with Some _ => true | None => false end.

Definition uuid_column (s : string) : option string :=
  if has_prefix s "urn:uuid:" then None else uuid_parse s.

Definition is_digit (d : ascii) : Prop := hex_lower d = Some d.

Lemma hex_lower_is_digit c d : hex_lower c = Some d → is_digit d.
Proof.
  intros H. destruct c as [[] [] [] [] [] [] [] []]; vm_compute in H; simplify_eq;
    vm_compute; reflexivity.
Qed.

Lemma scan_digits t l ds :
  scan t l = Some ds → Forall is_digit ds ∧ length ds = length (List.filter id t).
Proof.
  revert l ds; induction t as [|[] t IH]; intros l ds; simpl.
  - destruct l; [|done]. by intros [= <-].
  - destruct l as [|c l]; [done|]. intros (d & Hd & (ds' & Hds & [= <-])%bind_Some)%bind_Some.
    destruct (IH _ _ Hds) as [H1 H2]. split; [|simpl; lia].
    constructor; [by eapply hex_lower_is_digit|done].
  - destruct l as [|c l]; [done|]. destruct (Ascii.eqb _ _); [|done]. apply IH.
Qed.

Lemma scan_emit t ds :
  Forall is_digit ds → length ds = length (List.filter id t) → scan t (emit t ds) = Some ds.
Proof.
  revert ds; induction t as [|[] t IH]; intros ds Hd Hl; simpl in *.
  - by destruct ds.
  - destruct ds as [|d ds]; [done|]. apply Forall_cons in Hd as [Hd Hds].
    rewrite Hd. simpl. rewrite IH; [done|done|]. simpl in Hl. lia.
  - by apply IH.
Qed.

Lemma emit_length t ds :
  length ds = length (List.filter id t) → length (emit t ds) = length t.
Proof.
  revert ds; induction t as [|[] t IH]; intros ds Hl; simpl in *; [done|..].
  - destruct ds as [|d ds]; [done|]. simpl in *. rewrite IH; lia.
  - by rewrite IH.
Qed.

Lemma emit_chars t ds c :
  Forall is_digit ds → c ∈ emit t ds → is_digit c ∨ c = "-"%char.
Proof.
  revert ds; induction t as [|[] t IH]; intros ds Hd; simpl.
  - by intros ?%elem_of_nil.
  - destruct ds as [|d ds]; [by intros ?%elem_of_nil|]. apply Forall_cons in Hd as [Hd Hds].
    rewrite elem_of_cons. intros [->|?]; [by left|by eapply IH].
  - rewrite elem_of_cons. intros [->|?]; [by right|by eapply IH].
Qed.

Lemma uuid_digits_ok l ds :
  uuid_digits l = Some ds → Forall is_digit ds ∧ length ds = 32.
Proof.
  unfold uuid_digits. intros H.
  assert (∀ t l', scan t l' = Some ds → length (List.filter id t) = 32 →
            Forall is_digit ds ∧ length ds = 32) as Hs.
  { intros t l' [? ->]%scan_digits. done. }
  repeat split_match_in H; try done; try (by eapply Hs; [exact H|]).
  apply bind_Some in H as (r & _ & H). by eapply Hs.
Qed.

Lemma uuid_digits_36 l ds :
  length l = 36 → scan uuid_template l = Some ds → uuid_digits l = Some ds.
Proof. unfold uuid_digits. by intros ->. Qed.

#[local] Opaque uuid_template.

(** Parsing the canonical text gives it back: canonical texts are fixed points. *)
Lemma uuid_parse_canonical s c : uuid_parse s = Some c → uuid_parse c = Some c.
Proof.
  unfold uuid_parse. intros (ds & [Hd Hl]%uuid_digits_ok & [= <-])%bind_Some.
  rewrite chars_unchars, (uuid_digits_36 _ ds); [done| |].
  - by rewrite emit_length.
  - by apply scan_emit.
Qed.

(** A canonical text holds only digits and hyphens: no colon, no slash. *)
Lemma uuid_parse_chars s c a :
  uuid_parse s = Some c → a ∈ chars c → is_digit a ∨ a = "-"%char.
Proof.
  unfold uuid_parse. intros (ds & [Hd Hl]%uuid_digits_ok & [= <-])%bind_Some.
  rewrite chars_unchars. by apply emit_chars.
Qed.

Lemma uuid_parse_length s c : uuid_parse s = Some c → length (chars c) = 36.
Proof.
  unfold uuid_parse. intros (ds & [Hd Hl]%uuid_digits_ok & [= <-])%bind_Some.
  rewrite chars_unchars. by rewrite emit_length.
Qed.

Lemma uuid_column_canonical s c : uuid_column s = Some c → uuid_column c = Some c.
Proof.
  unfold uuid_column. destruct (has_prefix s _); [done|]. intros H.
  destruct (has_prefix c _) eqn:Hp; [|by eapply uuid_parse_canonical].
  exfalso. unfold has_prefix in Hp. destruct (cut_prefix c _) as [r|] eqn:Hc; [|done].
  apply cut_prefix_Some in Hc as ->.
  destruct (uuid_parse_chars _ _ "u"%char H) as [Hd|]; [left|done|done].
Qed.

Lemma uuid_column_parse s c : uuid_column s = Some c → uuid_parse s = Some c.
Proof. unfold uuid_column. by destruct (has_prefix _ _). Qed.
