(* ===== verification/GoRuntime.v ===== *)
(** * Go errors, results and effectful computations

    - [error]: the error values the code builds.  A sentinel made by
      [errors.New] is compared by identity, so it is represented by its
      package-qualified name; [EWrap] is [fmt.Errorf] with one or more [%w]
      verbs and [errors.Join] (the text around the causes is not modelled);
      [EStatus] is a gRPC status with the detail code [proto.ErrDetailsWithCode]
      attaches; [EOrbital] is [orchestrator.OrbitalOperatorError], which has no
      [Unwrap] method, so [errors.Is] does not look at its cause; [EForeign] is
      an error of a library or driver that no sentinel of the code matches.
    - [result]: what a call returns; [Panic] is a Go panic and [Diverge] a
      statement that does not terminate.
    - [comp S A]: a computation that may change a state of type [S].  The state
      changes made before an error stay, as in Go. *)

From S2P Require Import Prelude GoStrings.

Local Open Scope string_scope.

(** ** Errors *)

(** [google.golang.org/grpc/codes], the codes the services return. *)
Inductive grpc_code :=
  | InvalidArgument | NotFound | FailedPrecondition | Internal
  | Unauthenticated | PermissionDenied | Unimplemented | Unavailable.

(** [proto.Code], the detail code of [proto.ErrorDetails]. *)
Inductive detail_code := ERROR_CODE_UNSPECIFIED | ERROR_CODE_ABORT | ERROR_CODE_RETRY.

(** [orchestrator.orbitalStatus]: a string type with three declared constants. *)
Inductive orbital_status :=
  | orbitalStatusContinue | orbitalStatusFail | orbitalStatusComplete
  | orbitalStatusOther (s : string).

Inductive error :=
  | ESentinel (name : string)
  | EWrap (causes : list error)
  | EStatus (code : grpc_code) (detail : option detail_code)
  | EOrbital (status : orbital_status) (retryBackoff : Z) (cause : option error)
  | EForeign (what : string).

#[export] Instance grpc_code_eq_dec : EqDecision grpc_code.
Proof. solve_decision. Defined.
#[export] Instance detail_code_eq_dec : EqDecision detail_code.
Proof. solve_decision. Defined.
#[export] Instance orbital_status_eq_dec : EqDecision orbital_status.
Proof. solve_decision. Defined.

(** [errors.Is(err, target)] for a sentinel [target]. *)
Fixpoint errors_Is (e : error) (target : string) : bool :=
  match e with
  | ESentinel n => String.eqb n target
  | EWrap cs =>
      (fix any (l : list error) : bool :=
         match l with [] => false | c :: l' => (errors_Is c target || any l')%bool end) cs
  | _ => false
  end.

(** [errors.AsType[*OrbitalOperatorError](err)]: the first one in the tree. *)
Fixpoint errors_AsOrbital (e : error) : option (orbital_status * Z * option error) :=
  match e with
  | EOrbital st b c => Some (st, b, c)
  | EWrap cs =>
      (fix first (l : list error) :=
         match l with
         | [] => None
         | c :: l' => match errors_AsOrbital c with Some r => Some r | None => first l' end
         end) cs
  | _ => None
  end.

(** [fmt.Errorf("%w: %w", sentinel, err)]. *)
Definition wrap2 (sentinel : string) (e : error) : error := EWrap [ESentinel sentinel; e].
(** [fmt.Errorf("...: %w", ..., err)]. *)
Definition wrap1 (e : error) : error := EWrap [e].
(** [errors.Join(errs...)]: nil errors are dropped, nil when none is left. *)
Definition errors_Join (es : list (option error)) : option error :=
  match omap id es with [] => None | es' => Some (EWrap es') end.
(** [proto.ErrDetailsWithCode(status.New(c, _), d)]. *)
Definition ErrDetailsWithCode (c : grpc_code) (d : detail_code) : error := EStatus c (Some d).

(** ** Results *)

Inductive result (A : Type) : Type :=
  | Ok (a : A)
  | Err (e : error)
  | Panic
  | Diverge.
Arguments Ok {A} _.
Arguments Err {A} _.
Arguments Panic {A}.
Arguments Diverge {A}.

Definition is_ok {A} (r : result A) : bool := match r with Ok _ => true | _ => false end.

(** ** Pure fallible code: [nil] or an error *)

(** A Go function that returns only an [error]: [None] is [nil]. *)
Notation goerror := (option error).

(** ** Computations *)

Definition comp (S A : Type) : Type := S → result A * S.

#[export] Instance comp_ret {S} : MRet (comp S) := λ A a s, (Ok a, s).

#[export] Instance comp_bind {S} : MBind (comp S) := λ A B k m s,
  match m s with
  | (Ok a, s') => k a s'
  | (Err e, s') => (Err e, s')
  | (Panic, s') => (Panic, s')
  | (Diverge, s') => (Diverge, s')
  end.

Section ops.
Context {S : Type}.

Definition throw {A} (e : error) : comp S A := λ s, (Err e, s).
Definition panic {A} : comp S A := λ s, (Panic, s).
Definition diverge {A} : comp S A := λ s, (Diverge, s).
Definition gets {A} (f : S → A) : comp S A := λ s, (Ok (f s), s).
Definition modify (f : S → S) : comp S () := λ s, (Ok (), f s).

(** [x, err := m()]: the error becomes a value; panics keep unwinding. *)
Definition try {A} (m : comp S A) : comp S (A + error) := λ s,
  match m s with
  | (Ok a, s') => (Ok (inl a), s')
  | (Err e, s') => (Ok (inr e), s')
  | (Panic, s') => (Panic, s')
  | (Diverge, s') => (Diverge, s')
  end.

(** [if err := check(); err != nil { return err }]. *)
Definition check (e : goerror) : comp S () :=
  match e with None => mret () | Some e => throw e end.

(** [defer cleanup()] around the rest of the function: it runs on return,
    on error and on panic, and its own outcome is discarded. *)
Definition defer (cleanup : comp S ()) {A} (body : comp S A) : comp S A := λ s,
  match body s with
  | (Diverge, s') => (Diverge, s')
  | (r, s') => (r, (cleanup s').2)
  end.

(** A deferred function that looks at the value the function returns. *)
Definition defer_with {A} (cleanup : option A → comp S ()) (body : comp S A) : comp S A := λ s,
  match body s with
  | (Diverge, s') => (Diverge, s')
  | (Ok a, s') => (Ok a, (cleanup (Some a) s').2)
  | (r, s') => (r, (cleanup None s').2)
  end.

(** [for _, x := range l { a = f(a, x) }] with early return on error. *)
Fixpoint foldM {A B} (f : A → B → comp S A) (a : A) (l : list B) : comp S A :=
  match l with
  | [] => mret a
  | x :: l' => a' ← f a x; foldM f a' l'
  end.
End ops.

(** ** Reasoning about computations *)

Section bind_eqs.
Context {S A B : Type}.
Implicit Types (m : comp S A) (k : A → comp S B) (s : S).

Lemma bind_run m k s :
  (m ≫= k) s =
  match m s with
  | (Ok a, s') => k a s'
  | (Err e, s') => (Err e, s')
  | (Panic, s') => (Panic, s')
  | (Diverge, s') => (Diverge, s')
  end.
Proof. done. Qed.
Lemma bind_Ok m k s a s' : m s = (Ok a, s') → (m ≫= k) s = k a s'.
Proof. intros H. unfold mbind, comp_bind. by rewrite H. Qed.
Lemma bind_Err m k s e s' : m s = (Err e, s') → (m ≫= k) s = (Err e, s').
Proof. intros H. unfold mbind, comp_bind. by rewrite H. Qed.
Lemma bind_Panic m k s s' : m s = (Panic, s') → (m ≫= k) s = (Panic, s').
Proof. intros H. unfold mbind, comp_bind. by rewrite H. Qed.

(** The only way a sequence succeeds. *)
Lemma bind_inv_Ok m k s b s' :
  (m ≫= k) s = (Ok b, s') → ∃ a s1, m s = (Ok a, s1) ∧ k a s1 = (Ok b, s').
Proof. unfold mbind, comp_bind. destruct (m s) as [[] ?]; naive_solver. Qed.

(** How a sequence fails. *)
Lemma bind_inv_Err m k s e s' :
  (m ≫= k) s = (Err e, s') →
  m s = (Err e, s') ∨ ∃ a s1, m s = (Ok a, s1) ∧ k a s1 = (Err e, s').
Proof. unfold mbind, comp_bind. destruct (m s) as [[] ?]; naive_solver. Qed.

Lemma bind_ret_l (a : A) k s : (mret a ≫= k) s = k a s.
Proof. done. Qed.
End bind_eqs.

(** [respects R m]: whatever its outcome, [m] relates the state before to the
    state after by [R].  With [R] a preorder this composes, so invariants
    ([R s s' := I s → I s']) and frames ([R s s' := f s = f s']) of a handler
    follow from those of the operations it calls. *)
Definition respects {S A} (R : relation S) (m : comp S A) : Prop := ∀ s, R s (m s).2.

(** The preorder of an invariant and the one of an unchanged observation. *)
Definition keeps {S} (I : S → Prop) : relation S := λ s s', I s → I s'.
Definition unchanged {S T} (f : S → T) : relation S := λ s s', f s' = f s.

#[export] Instance keeps_preorder {S} (I : S → Prop) : PreOrder (keeps I).
Proof. split; unfold keeps; red; naive_solver. Qed.
#[export] Instance unchanged_preorder {S T} (f : S → T) : PreOrder (unchanged f).
Proof. split; unfold unchanged; red; congruence. Qed.

Create HintDb respects.
#[export] Hint Extern 0 (PreOrder _) => apply _ : respects.

Section respects.
Context {S : Type} (R : relation S) `{!PreOrder R}.

Lemma respects_ret {A} (a : A) : respects R (mret a).
Proof. intros s. simpl. reflexivity. Qed.
Lemma respects_throw {A} e : respects R (throw e : comp S A).
Proof. intros s. simpl. reflexivity. Qed.
Lemma respects_panic {A} : respects R (panic : comp S A).
Proof. intros s. simpl. reflexivity. Qed.
Lemma respects_diverge {A} : respects R (diverge : comp S A).
Proof. intros s. simpl. reflexivity. Qed.
Lemma respects_gets {A} (f : S → A) : respects R (gets f).
Proof. intros s. simpl. reflexivity. Qed.

Lemma respects_bind {A B} (m : comp S A) (k : A → comp S B) :
  respects R m → (∀ a, respects R (k a)) → respects R (m ≫= k).
Proof.
  intros Hm Hk s. specialize (Hm s). unfold mbind, comp_bind.
  destruct (m s) as [[a| | |] s'] eqn:E; simpl in *; [|done..].
  etrans; [exact Hm|apply Hk].
Qed.

Lemma respects_try {A} (m : comp S A) : respects R m → respects R (try m).
Proof.
  intros Hm s. specialize (Hm s). unfold try.
  by destruct (m s) as [[] s'].
Qed.

Lemma respects_check e : respects R (check e).
Proof. destruct e; [apply respects_throw|apply respects_ret]. Qed.

Lemma respects_defer {A} (c : comp S ()) (m : comp S A) :
  respects R c → respects R m → respects R (defer c m).
Proof.
  intros Hc Hm s. specialize (Hm s). unfold defer.
  destruct (m s) as [[] s']; simpl in *; [etrans; [exact Hm|apply Hc]..|done].
Qed.

Lemma respects_defer_with {A} (c : option A → comp S ()) (m : comp S A) :
  (∀ a, respects R (c a)) → respects R m → respects R (defer_with c m).
Proof.
  intros Hc Hm s. specialize (Hm s). unfold defer_with.
  destruct (m s) as [[] s']; simpl in *; [etrans; [exact Hm|apply Hc]..|done].
Qed.

Lemma respects_foldM {A B} (f : A → B → comp S A) a l :
  (∀ a x, x ∈ l → respects R (f a x)) → respects R (foldM f a l).
Proof.
  revert a; induction l as [|x l IH]; intros a Hf; simpl; [apply respects_ret|].
  apply respects_bind; [apply Hf; left|]. intros a'. apply IH.
  intros a'' y Hy. apply Hf. by right.
Qed.
End respects.

(** Split a handler into the operations it calls; what is left is closed by the
    lemmas of the database [respects]. *)
Ltac respects_step :=
  lazymatch goal with
  | |- respects _ (mret _) => apply respects_ret; apply _
  | |- respects _ (throw _) => apply respects_throw; apply _
  | |- respects _ panic => apply respects_panic; apply _
  | |- respects _ diverge => apply respects_diverge; apply _
  | |- respects _ (gets _) => apply respects_gets; apply _
  | |- respects _ (check _) => apply respects_check; apply _
  | |- respects _ (try _) => apply respects_try
  | |- respects _ (defer _ _) => apply respects_defer; [apply _|..]
  | |- respects _ (defer_with _ _) => apply respects_defer_with; [apply _|intros ?|]
  | |- respects _ (_ ≫= _) => apply respects_bind; [apply _|..|intros ?]
  | |- respects _ (foldM _ _ _) => apply respects_foldM; [apply _|intros ???]
  | |- respects _ (match ?x with _ => _ end) => destruct x eqn:?
  | |- respects _ (let _ := _ in _) => cbv zeta
  end.
Ltac solve_respects := repeat (respects_step || (progress eauto with respects)).

(** Symbolic execution of a successful run: decompose the binds of [H]. *)
Ltac inv_ok H :=
  lazymatch type of H with
  | (_ ≫= _) _ = (Ok _, _) =>
      let a := fresh "a" in let s := fresh "s" in
      let H1 := fresh H in
      apply bind_inv_Ok in H as (a & s & H1 & H)
  end.

(** ** Unwinding of sequences of steps that thread local variables *)

Lemma bind_try {S A B} (m : comp S A) (k : A + error → comp S B) s :
  (try m ≫= k) s =
  match m s with
  | (Ok a, s') => k (inl a) s'
  | (Err e, s') => k (inr e) s'
  | (Panic, s') => (Panic, s')
  | (Diverge, s') => (Diverge, s')
  end.
Proof. unfold try, mbind, comp_bind. by destruct (m s) as [[] ?]. Qed.

Lemma foldM_app {S A B} (f : A → B → comp S A) a l1 l2 s :
  foldM f a (l1 ++ l2) s = (a' ← foldM f a l1; foldM f a' l2) s.
Proof.
  revert a s; induction l1 as [|x l1 IH]; intros a s; simpl; [done|].
  unfold mbind, comp_bind. destruct (f a x s) as [[] s']; [|done..].
  rewrite IH. done.
Qed.

Lemma errors_Is_wrap2 sn e t :
  errors_Is (wrap2 sn e) t = (String.eqb sn t || errors_Is e t)%bool.
Proof. simpl. by rewrite orb_false_r. Qed.

Lemma errors_Is_wrap1 e t : errors_Is (wrap1 e) t = errors_Is e t.
Proof. simpl. by rewrite orb_false_r. Qed.

(** ** Which errors a computation can return *)

(** [m] returns: with a value, or with an error in [E]. *)
Definition throws {S A} (E : error → Prop) (m : comp S A) : Prop := ∀ s,
  match (m s).1 with
  | Ok _ => True
  | Err e => E e
  | Panic | Diverge => False
  end.

Create HintDb throws.

Section throws.
Context {S : Type} (E : error → Prop).

Lemma throws_ret {A} (a : A) : throws E (mret a : comp S A).
Proof. done. Qed.
Lemma throws_throw {A} e : E e → throws E (throw e : comp S A).
Proof. intros He s. exact He. Qed.
Lemma throws_gets {A} (f : S → A) : throws E (gets f).
Proof. done. Qed.
Lemma throws_modify (f : S → S) : throws E (modify f).
Proof. done. Qed.
Lemma throws_bind {A B} (m : comp S A) (k : A → comp S B) :
  throws E m → (∀ a, throws E (k a)) → throws E (m ≫= k).
Proof.
  intros Hm Hk s. specialize (Hm s). unfold mbind, comp_bind.
  destruct (m s) as [[] s']; simpl in *; try done. apply Hk.
Qed.
Lemma throws_try {A} (m : comp S A) : throws E m → throws E (try m).
Proof. intros Hm s. specialize (Hm s). unfold try. by destruct (m s) as [[] ?]. Qed.
Lemma throws_foldM {A B} (f : A → B → comp S A) a l :
  (∀ a x, throws E (f a x)) → throws E (foldM f a l).
Proof.
  intros Hf. revert a. induction l as [|x l IH]; intros a; [apply throws_ret|].
  apply throws_bind; [apply Hf|apply IH].
Qed.
End throws.

(** Split a computation; what is left is closed by the database [throws]. *)
Ltac throws_step :=
  lazymatch goal with
  | |- throws _ (mret _) => apply throws_ret
  | |- throws _ (throw _) => apply throws_throw; try reflexivity
  | |- throws _ (gets _) => apply throws_gets
  | |- throws _ (modify _) => apply throws_modify
  | |- throws _ (try _) => apply throws_try
  | |- throws _ (_ ≫= _) => apply throws_bind; [|intros ?]
  | |- throws _ (foldM _ _ _) => apply throws_foldM; intros ??
  | |- throws _ (match ?x with _ => _ end) => destruct x eqn:?
  | |- throws _ (let _ := _ in _) => cbv zeta
  end.
Ltac solve_throws := repeat (throws_step || (progress eauto with throws)).
