(* ===== verification/Identity.v ===== *)
(** * Identities and selectors: internal/identity

    [kryptonid://] URIs (identity.go) and the patterns that select them
    (selector.go): parsing, printing, matching.  The URI a string parses from is
    determined up to a trailing slash; a selector and its text determine each
    other. *)

From S2P Require Import Prelude GoStrings GoRuntime.
From Stdlib Require Import Ascii.

Local Open Scope string_scope.
#[local] Arguments String.append !_ _ / : simpl nomatch.

Definition Scheme : string := "kryptonid".
(** [*], [/], tab, line feed, carriage return, space. *)
Definition invalidChars : list ascii :=
  ["*"; "/"; ascii_of_nat 9; ascii_of_nat 10; ascii_of_nat 13; " "]%char.

Definition ErrInvalidScheme : string := "identity.ErrInvalidScheme".
Definition ErrEmptyDomain : string := "identity.ErrEmptyDomain".
Definition ErrInvalidCharacters : string := "identity.ErrInvalidCharacters".
Definition ErrInvalidPath : string := "identity.ErrInvalidPath".
Definition ErrEmptyField : string := "identity.ErrEmptyField".
Definition ErrInvalidSelectorPath : string := "identity.ErrInvalidSelectorPath".

Notation Domain := string (only parsing).
Record Field := mkField { f_Type : string; f_Name : string }.
#[export] Instance Field_eq_dec : EqDecision Field.
Proof. solve_decision. Defined.
Record Identity := mkIdentity { id_Domain : Domain; id_Fields : list Field }.

(** ** Identities *)

(** [Domain.Validate]. *)
Definition Domain_Validate (d : Domain) : goerror :=
  if String.eqb d "" then Some (ESentinel ErrEmptyDomain)
  else if contains_any d invalidChars then Some (ESentinel ErrInvalidCharacters)
  else None.

(** The body of the loop of [Field.Validate]. *)
Definition validate_part (v : string) : goerror :=
  if String.eqb v "" then Some (ESentinel ErrEmptyField)
  else if contains_any v invalidChars then Some (ESentinel ErrInvalidCharacters)
  else None.

(** [Field.Validate]. *)
Definition Field_Validate (f : Field) : goerror :=
  match validate_part (f_Type f) with
  | Some e => Some e
  | None => validate_part (f_Name f)
  end.

(** The loop of [Identity.URI]. *)
Fixpoint write_fields (fs : list Field) : string :=
  match fs with
  | [] => ""
  | f :: fs' => String "/" (f_Type f +:+ String "/" (f_Name f +:+ write_fields fs'))
  end.

(** [Identity.URI]. *)
Definition Identity_URI (id : Identity) : string :=
  Scheme +:+ "://" +:+ id_Domain id +:+ write_fields (id_Fields id).

(** The loop of [Parse]; indexing past the end would panic. *)
Fixpoint parse_pairs (parts : list string) : result (list Field) :=
  match parts with
  | [] => Ok []
  | [_] => Panic
  | t :: n :: parts' =>
      match Field_Validate (mkField t n) with
      | Some e => Err e
      | None =>
          match parse_pairs parts' with
          | Ok fs => Ok (mkField t n :: fs)
          | r => r
          end
      end
  end.

(** [Parse]. *)
Definition Parse (uri : string) : result Identity :=
  match cut_prefix uri (Scheme +:+ "://") with
  | None => Err (ESentinel ErrInvalidScheme)
  | Some after =>
      let '(d, path, _) := cut "/" after in
      match Domain_Validate d with
      | Some e => Err e
      | None =>
          if String.eqb path "" then Ok (mkIdentity d [])
          else
            let parts := split "/" path in
            if negb (Nat.eqb (length parts mod 2) 0) then Err (ESentinel ErrInvalidPath)
            else match parse_pairs parts with
                 | Ok fields => Ok (mkIdentity d fields)
                 | Err e => Err e
                 | Panic => Panic
                 | Diverge => Diverge
                 end
      end
  end.

(** ** Selectors *)

Definition AnyName : string := "*".
Definition AnyRemaining : string := "**".

Record FieldSelector := mkFieldSelector { fs_Type : string; fs_Name : string }.
Record Selector := mkSelector { s_Domain : Domain; s_Fields : list FieldSelector }.

(** [FieldSelector.Matches]. *)
Definition FieldSelector_Matches (fs : FieldSelector) (f : Field) : bool :=
  if String.eqb (fs_Type fs) AnyRemaining then true
  else if negb (String.eqb (fs_Type fs) (f_Type f)) then false
  else if (String.eqb (fs_Name fs) AnyName || String.eqb (fs_Name fs) AnyRemaining)%bool then true
  else String.eqb (fs_Name fs) (f_Name f).

(** [FieldSelector.Validate]. *)
Definition FieldSelector_Validate (fs : FieldSelector) : goerror :=
  if String.eqb (fs_Type fs) AnyRemaining then None
  else if String.eqb (fs_Type fs) "" then Some (ESentinel ErrEmptyField)
  else if contains_any (fs_Type fs) invalidChars then Some (ESentinel ErrInvalidCharacters)
  else if (String.eqb (fs_Name fs) AnyName || String.eqb (fs_Name fs) AnyRemaining)%bool then None
  else if String.eqb (fs_Name fs) "" then Some (ESentinel ErrEmptyField)
  else if contains_any (fs_Name fs) invalidChars then Some (ESentinel ErrInvalidCharacters)
  else None.

(** The loop of [Selector.Matches] from position [i] on; [n] counts the selectors
    in all. *)
Fixpoint match_fields (n i : nat) (sel : list FieldSelector) (fields : list Field) : bool :=
  match sel with
  | [] => Nat.eqb (length fields) n
  | fs :: sel' =>
      if String.eqb (fs_Type fs) AnyRemaining then true
      else match fields !! i with
           | None => false
           | Some f =>
               if negb (FieldSelector_Matches fs f) then false
               else if String.eqb (fs_Name fs) AnyRemaining then true
               else match_fields n (S i) sel' fields
           end
  end.

(** [Selector.Matches]. *)
Definition Selector_Matches (s : Selector) (id : Identity) : bool :=
  if negb (String.eqb (s_Domain s) (id_Domain id)) then false
  else match_fields (length (s_Fields s)) 0 (s_Fields s) (id_Fields id).

(** The loop of [Selector.String]. *)
Fixpoint write_selectors (fs : list FieldSelector) : string :=
  match fs with
  | [] => ""
  | f :: fs' =>
      if String.eqb (fs_Type f) AnyRemaining then String "/" (fs_Type f)
      else String "/" (fs_Type f +:+ String "/" (fs_Name f +:+ write_selectors fs'))
  end.

(** [Selector.String]. *)
Definition Selector_String (s : Selector) : string :=
  Scheme +:+ "://" +:+ s_Domain s +:+ write_selectors (s_Fields s).

(** The first loop of [parseFields]: [**] before the last part. *)
Fixpoint early_remaining (parts : list string) : bool :=
  match parts with
  | [] | [_] => false
  | p :: parts' => String.eqb p AnyRemaining || early_remaining parts'
  end.

(** The second loop of [parseFields]. *)
Fixpoint parse_selectors (parts : list string) : result (list FieldSelector) :=
  match parts with
  | [] => Ok []
  | p :: rest =>
      if String.eqb p AnyRemaining then Ok [mkFieldSelector AnyRemaining ""]
      else match rest with
           | [] => Err (wrap1 (ESentinel ErrInvalidSelectorPath))
           | n :: parts' =>
               match FieldSelector_Validate (mkFieldSelector p n) with
               | Some e => Err e
               | None =>
                   if String.eqb n AnyRemaining then Ok [mkFieldSelector p n]
                   else match parse_selectors parts' with
                        | Ok fs => Ok (mkFieldSelector p n :: fs)
                        | r => r
                        end
               end
           end
  end.

(** [parseFields]. *)
Definition parseFields (path : string) : result (list FieldSelector) :=
  if String.eqb path "" then Err (wrap1 (ESentinel ErrInvalidSelectorPath))
  else
    let parts := split "/" path in
    if early_remaining parts then Err (wrap1 (ESentinel ErrInvalidSelectorPath))
    else parse_selectors parts.

(** [ParseSelector]. *)
Definition ParseSelector (raw : string) : result Selector :=
  match cut_prefix raw (Scheme +:+ "://") with
  | None => Err (ESentinel ErrInvalidScheme)
  | Some after =>
      let '(d, path, _) := cut "/" after in
      match Domain_Validate d with
      | Some e => Err e
      | None =>
          match parseFields path with
          | Ok fields => Ok (mkSelector d fields)
          | Err e => Err e
          | Panic => Panic
          | Diverge => Diverge
          end
      end
  end.

Example parse_example :
  Parse "kryptonid://acme-corp/node/root" = Ok (mkIdentity "acme-corp" [mkField "node" "root"]).
Proof. reflexivity. Qed.
Example parse_selector_example :
  ParseSelector "kryptonid://acme-corp/node/**" = Ok (mkSelector "acme-corp" [mkFieldSelector "node" "**"]).
Proof. reflexivity. Qed.

(** ** Parsing and printing identities *)

Definition valid_part (v : string) : Prop := v ≠ "" ∧ ∀ c, c ∈ chars v → c ∉ invalidChars.

Lemma validate_part_None v : validate_part v = None ↔ valid_part v.
Proof.
  unfold validate_part, valid_part. destruct (String.eqb_spec v ""); [naive_solver|].
  destruct (contains_any v invalidChars) eqn:E.
  - split; [done|]. intros [_ H]. rewrite (proj2 (contains_any_false v invalidChars) H) in E. done.
  - pose proof (proj1 (contains_any_false v invalidChars) E). naive_solver.
Qed.

Lemma Domain_Validate_None d : Domain_Validate d = None ↔ valid_part d.
Proof.
  rewrite <-validate_part_None. unfold Domain_Validate, validate_part.
  destruct (String.eqb d ""); [done|]. by destruct (contains_any _ _).
Qed.

Definition valid_field (f : Field) : Prop := valid_part (f_Type f) ∧ valid_part (f_Name f).

Lemma Field_Validate_None f : Field_Validate f = None ↔ valid_field f.
Proof.
  unfold valid_field. rewrite <-!validate_part_None. unfold Field_Validate.
  destruct (validate_part (f_Type f)); naive_solver.
Qed.

Lemma valid_part_no_slash v : valid_part v → "/"%char ∉ chars v.
Proof. intros [_ H] Hin. apply (H _ Hin). unfold invalidChars. set_solver. Qed.

(** An identity whose parts are non-empty and free of the reserved characters. *)
Definition valid_identity (id : Identity) : Prop :=
  valid_part (id_Domain id) ∧ Forall valid_field (id_Fields id).

(** The parts of a path: type, name, type, name, ... *)
Fixpoint flatten_fields (fs : list Field) : list string :=
  match fs with [] => [] | f :: fs' => f_Type f :: f_Name f :: flatten_fields fs' end.

Lemma write_fields_join fs :
  fs ≠ [] → write_fields fs = String "/" (join "/" (flatten_fields fs)).
Proof.
  induction fs as [|f [|g fs] IH]; [done| |]; intros _.
  { simpl. by rewrite str_app_nil_r. }
  cbn [write_fields]. cbn [write_fields] in IH. rewrite IH by done.
  cbn [flatten_fields]. rewrite !(join_cons "/") by done. done.
Qed.

Lemma parse_pairs_flatten fs : Forall valid_field fs → parse_pairs (flatten_fields fs) = Ok fs.
Proof.
  induction 1 as [|f fs Hf _ IH]; [done|]. cbn [flatten_fields parse_pairs].
  rewrite (proj2 (Field_Validate_None (mkField (f_Type f) (f_Name f))) Hf), IH. by destruct f.
Qed.

Lemma parse_pairs_Ok fs : ∀ parts,
  parse_pairs parts = Ok fs → parts = flatten_fields fs ∧ Forall valid_field fs.
Proof.
  induction fs as [|f fs IH]; intros [|t [|m parts]]; cbn [parse_pairs]; try done;
    destruct (Field_Validate (mkField t m)) as [e|] eqn:E; try done;
    destruct (parse_pairs parts) as [fs'|e'| |] eqn:Ep; try done.
  intros [= <- ->]. destruct (IH _ Ep) as [-> Hv]. split; [done|]. constructor; [|done].
  by apply Field_Validate_None.
Qed.

Lemma flatten_fields_even fs : length (flatten_fields fs) mod 2 = 0.
Proof.
  induction fs as [|f fs IH]; [done|].
  change (length (flatten_fields (f :: fs))) with (2 + length (flatten_fields fs)).
  by rewrite Nat.Div0.add_mod, IH.
Qed.

Lemma flatten_no_slash fs :
  Forall valid_field fs → Forall (λ p, "/"%char ∉ chars p) (flatten_fields fs).
Proof.
  induction 1 as [|f fs [Ht Hn] _ IH]; [constructor|].
  cbn [flatten_fields]. repeat constructor; try done; by apply valid_part_no_slash.
Qed.

Lemma join_nonempty fs : Forall valid_field fs → fs ≠ [] → join "/" (flatten_fields fs) ≠ "".
Proof.
  intros H Hne. destruct fs as [|f fs]; [done|]. apply Forall_cons in H as [[[Ht _] _] _].
  cbn [flatten_fields]. rewrite join_cons by done. by destruct (f_Type f).
Qed.

Lemma split_path fs :
  Forall valid_field fs → fs ≠ [] → split "/" (join "/" (flatten_fields fs)) = flatten_fields fs.
Proof. intros H Hne. apply split_join; [by destruct fs|by apply flatten_no_slash]. Qed.

(** C39: parsing accepts the URIs of valid identities and, for an identity without
    fields, also that URI with a slash behind it, which printing never produces;
    it accepts nothing else and returns that identity.  So what is printed parses
    back to the identity it was printed from, and printing what was parsed gives
    the text back up to that slash. *)
Theorem parse_iff_printed uri id :
  Parse uri = Ok id ↔
  valid_identity id ∧
  (uri = Identity_URI id ∨ id_Fields id = [] ∧ uri = Identity_URI id +:+ "/").
Proof.
  unfold Parse, Identity_URI, valid_identity. split.
  - destruct (cut_prefix uri (Scheme +:+ "://")) as [after|] eqn:Ec; [|done].
    apply cut_prefix_Some in Ec as ->. destruct (cut "/" after) as [[d path] found] eqn:Ecut.
    apply cut_inv in Ecut as [Hd Hafter].
    destruct (Domain_Validate d) eqn:Ed; [done|]. apply Domain_Validate_None in Ed.
    destruct (String.eqb_spec path "") as [->|Hp].
    + intros [= <-]. cbn [id_Domain id_Fields write_fields]. split; [by split|]. destruct Hafter as [[_ ->]|(_ & -> & _)]; [right|left].
      * split; [done|]. by rewrite str_app_nil_r, !str_app_assoc.
      * by rewrite str_app_nil_r.
    + destruct (Nat.eqb_spec (length (split "/" path) mod 2) 0); [|done]. simpl negb. cbv iota.
      destruct (parse_pairs _) as [fs|e'| |] eqn:Ep; try done. intros [= <-]. cbn [id_Domain id_Fields].
      apply parse_pairs_Ok in Ep as [Hs Hv]. split; [done|]. left.
      destruct Hafter as [[_ ->]|(_ & _ & ->)]; [|done].
      assert (fs ≠ []) as Hne by (intros ->; by apply (split_nonempty "/" path)).
      rewrite write_fields_join by done. rewrite <-Hs, join_split, !str_app_assoc. done.
  - intros [[Hd Hf] [->|[Hn ->]]].
    + destruct id as [d fs]. cbn [id_Domain id_Fields] in *. rewrite str_app_assoc, cut_prefix_app.
      apply Domain_Validate_None in Hd as Hd'. apply valid_part_no_slash in Hd as Hs.
      destruct (decide (fs = [])) as [->|Hne].
      { cbn [write_fields]. rewrite str_app_nil_r, cut_no_sep by done. by rewrite Hd'. }
      rewrite write_fields_join, cut_app_sep, Hd' by done.
      rewrite (proj2 (String.eqb_neq _ _)) by (by apply join_nonempty).
      rewrite split_path, flatten_fields_even, parse_pairs_flatten by done. done.
    + destruct id as [d fs]. simpl in Hn, Hd. subst fs. cbn [id_Domain id_Fields write_fields].
      replace ((Scheme +:+ "://" +:+ d +:+ "") +:+ "/") with ((Scheme +:+ "://") +:+ (d +:+ "/"))
        by (by rewrite str_app_nil_r, !str_app_assoc).
      rewrite cut_prefix_app, cut_app_sep by (by apply valid_part_no_slash).
      by apply Domain_Validate_None in Hd as ->.
Qed.

(** ** Parsing and printing selectors *)

(** What a selector's fields look like: valid types, names that are valid or
    [*], and [**] at most once, at the end, as a type alone or as a name. *)
Fixpoint canonical_fields (fs : list FieldSelector) : Prop :=
  match fs with
  | [] => False
  | f :: fs' =>
      (f = mkFieldSelector AnyRemaining "" ∧ fs' = []) ∨
      (valid_part (fs_Type f) ∧
       ((fs_Name f = AnyRemaining ∧ fs' = []) ∨
        ((fs_Name f = AnyName ∨ valid_part (fs_Name f)) ∧ (fs' = [] ∨ canonical_fields fs'))))
  end.

Definition canonical_selector (s : Selector) : Prop :=
  valid_part (s_Domain s) ∧ canonical_fields (s_Fields s).

Fixpoint flatten_selectors (fs : list FieldSelector) : list string :=
  match fs with
  | [] => []
  | f :: fs' =>
      if String.eqb (fs_Type f) AnyRemaining then [fs_Type f]
      else fs_Type f :: fs_Name f :: flatten_selectors fs'
  end.

Lemma valid_part_not_any v : valid_part v → String.eqb v AnyRemaining = false ∧ String.eqb v AnyName = false.
Proof.
  intros [_ H]. split; apply String.eqb_neq; intros ->; apply (H "*"%char); unfold invalidChars; set_solver.
Qed.

Lemma FieldSelector_Validate_None t n :
  String.eqb t AnyRemaining = false →
  FieldSelector_Validate (mkFieldSelector t n) = None ↔
  valid_part t ∧ (n = AnyRemaining ∨ n = AnyName ∨ valid_part n).
Proof.
  intros Ht. unfold FieldSelector_Validate. simpl. rewrite Ht. rewrite <-!validate_part_None. unfold validate_part.
  destruct (String.eqb_spec t ""); [naive_solver|]. destruct (contains_any t _); [naive_solver|].
  destruct (String.eqb_spec n AnyName), (String.eqb_spec n AnyRemaining); simpl; [naive_solver..|].
  destruct (String.eqb_spec n ""); [naive_solver|]. destruct (contains_any n _); naive_solver.
Qed.

Lemma flatten_selectors_nonempty fs : fs ≠ [] → flatten_selectors fs ≠ [].
Proof. destruct fs as [|f fs]; [done|]. simpl. by destruct (String.eqb _ _). Qed.

Lemma canonical_nonempty fs : canonical_fields fs → fs ≠ [].
Proof. by intros H ->. Qed.

Lemma write_selectors_join fs :
  canonical_fields fs → write_selectors fs = String "/" (join "/" (flatten_selectors fs)).
Proof.
  induction fs as [|f fs IH]; [done|]. cbn [canonical_fields write_selectors flatten_selectors].
  intros [[-> ->]|[Ht H]]; [done|]. rewrite (proj1 (valid_part_not_any _ Ht)).
  destruct H as [[_ ->]|[_ [->|H]]]; [cbn; by rewrite str_app_nil_r..|].
  rewrite IH by done. rewrite !join_cons; [done| |done].
  by apply flatten_selectors_nonempty, canonical_nonempty.
Qed.

Lemma flatten_selectors_parse fs :
  canonical_fields fs →
  early_remaining (flatten_selectors fs) = false ∧ parse_selectors (flatten_selectors fs) = Ok fs.
Proof.
  induction fs as [|f fs IH]; [done|]. cbn [canonical_fields flatten_selectors].
  intros [[-> ->]|[Ht H]]; [done|]. destruct (valid_part_not_any _ Ht) as [Ht' _]. rewrite Ht'.
  destruct f as [t n]; simpl in *.
  assert (FieldSelector_Validate (mkFieldSelector t n) = None) as Hv.
  { apply FieldSelector_Validate_None; [done|]. naive_solver. }
  destruct H as [[-> ->]|[Hn H]]; simpl; rewrite Ht', Hv; simpl.
  { done. }
  assert (String.eqb n AnyRemaining = false) as Hn'.
  { destruct Hn as [->|Hn]; [done|]. by destruct (valid_part_not_any _ Hn). }
  rewrite Hn'. destruct H as [->|H]; [done|]. destruct (IH H) as [-> ->].
  destruct (flatten_selectors fs) eqn:E; [|done].
  by destruct (flatten_selectors_nonempty fs); [apply canonical_nonempty|].
Qed.

Lemma early_remaining_head p q parts :
  early_remaining (p :: q :: parts) = false → String.eqb p AnyRemaining = false ∧ early_remaining (q :: parts) = false.
Proof. cbn [early_remaining]. by rewrite orb_false_iff. Qed.

Lemma parse_selectors_Ok fs : ∀ parts,
  parts ≠ [] → early_remaining parts = false → parse_selectors parts = Ok fs →
  canonical_fields fs ∧ parts = flatten_selectors fs.
Proof.
  induction fs as [|f fs IH]; intros [|t rest] Hne He; try done; cbn [parse_selectors].
  - destruct (String.eqb t AnyRemaining); [done|]. destruct rest as [|n parts]; [done|].
    destruct (FieldSelector_Validate _); [done|]. destruct (String.eqb n AnyRemaining); [done|].
    by destruct (parse_selectors parts).
  - destruct (String.eqb_spec t AnyRemaining) as [->|Ht].
    { intros [= <- <-]. destruct rest; [|by apply early_remaining_head in He as [? _]]. split; [by left|done]. }
    destruct rest as [|n parts]; [done|]. apply early_remaining_head in He as [Ht' He].
    destruct (FieldSelector_Validate _) eqn:Ev; [done|]. apply FieldSelector_Validate_None in Ev as [Hvt Hvn]; [|done].
    destruct (String.eqb_spec n AnyRemaining) as [->|Hn].
    { intros [= <- <-]. destruct parts; [|by apply early_remaining_head in He as [? _]].
      cbn [canonical_fields flatten_selectors fs_Type fs_Name]. rewrite Ht'. split; [right; by auto|done]. }
    destruct (parse_selectors parts) as [fs'|e| |] eqn:Ep; try done. intros [= <- ->].
    cbn [canonical_fields flatten_selectors fs_Type fs_Name]. rewrite Ht'.
    destruct parts as [|q parts]; [injection Ep as <-; split; [right; naive_solver|done]|].
    apply IH in Ep as [Hc ->]; [|done|by apply early_remaining_head in He as [_ ?]].
    split; [right; naive_solver|done].
Qed.

Lemma selector_pieces fs :
  canonical_fields fs → Forall (λ p, "/"%char ∉ chars p) (flatten_selectors fs).
Proof.
  assert ("/"%char ∉ chars AnyRemaining ∧ "/"%char ∉ chars AnyName) as [HR HN] by (split; apply (bool_decide_unpack _); done).
  induction fs as [|f fs IH]; [done|]. cbn [canonical_fields flatten_selectors].
  intros [[-> ->]|[Ht H]]; [by repeat constructor|]. rewrite (proj1 (valid_part_not_any _ Ht)).
  constructor; [by apply valid_part_no_slash|].
  destruct H as [[-> ->]|[Hn H]]; [by repeat constructor|]. constructor.
  - destruct Hn as [->|Hn]; [done|]. by apply valid_part_no_slash.
  - destruct H as [->|H]; [constructor|auto].
Qed.

Lemma selector_path_nonempty fs : canonical_fields fs → join "/" (flatten_selectors fs) ≠ "".
Proof.
  destruct fs as [|f fs]; [done|]. cbn [canonical_fields flatten_selectors].
  intros [[-> ->]|[Ht _]]; [done|]. rewrite (proj1 (valid_part_not_any _ Ht)), join_cons by done.
  destruct Ht as [Ht _]. by destruct (fs_Type f).
Qed.

(** [ParseSelector] accepts a text exactly when it is the text of a selector
    in canonical form, and returns that selector: a pattern and its text
    determine each other, and [**] is always last. *)
Theorem parse_selector_iff_printed raw s :
  ParseSelector raw = Ok s ↔ canonical_selector s ∧ raw = Selector_String s.
Proof.
  unfold ParseSelector, Selector_String, canonical_selector, parseFields. split.
  - destruct (cut_prefix raw (Scheme +:+ "://")) as [after|] eqn:Ec; [|done].
    apply cut_prefix_Some in Ec as ->. destruct (cut "/" after) as [[d path] found] eqn:Ecut.
    apply cut_inv in Ecut as [Hd Hafter].
    destruct (Domain_Validate d) eqn:Ed; [done|]. apply Domain_Validate_None in Ed.
    destruct (String.eqb_spec path "") as [->|Hp]; [done|].
    destruct (early_remaining _) eqn:Ee; [done|].
    destruct (parse_selectors _) as [fs|e| |] eqn:Ep; try done. intros [= <-]. cbn [s_Domain s_Fields].
    apply parse_selectors_Ok in Ep as [Hc Hs]; [|apply split_nonempty|done].
    split; [done|]. rewrite write_selectors_join, <-Hs, join_split by done.
    destruct Hafter as [[_ ->]|(_ & _ & ->)]; [|done]. by rewrite !str_app_assoc.
  - destruct s as [d fs]. cbn [s_Domain s_Fields]. intros [[Hd Hc] ->].
    rewrite write_selectors_join, str_app_assoc, cut_prefix_app by done.
    rewrite cut_app_sep by (by apply valid_part_no_slash).
    apply Domain_Validate_None in Hd as ->.
    rewrite (proj2 (String.eqb_neq _ _)) by (by apply selector_path_nonempty).
    rewrite split_join; [|by apply flatten_selectors_nonempty, canonical_nonempty|by apply selector_pieces].
    by destruct (flatten_selectors_parse fs Hc) as [-> ->].
Qed.

(** ** What a selector selects *)

(** The documented meaning of a pattern, field by field. *)
Inductive selects : list FieldSelector → list Field → Prop :=
  | selects_end : selects [] []
  | selects_any f fs l : fs_Type f = AnyRemaining → selects (f :: fs) l
  | selects_tail f fs x l :
      fs_Type f = f_Type x → fs_Name f = AnyRemaining → selects (f :: fs) (x :: l)
  | selects_field f fs x l :
      fs_Type f = f_Type x → fs_Name f = AnyName ∨ fs_Name f = f_Name x →
      selects fs l → selects (f :: fs) (x :: l).

Lemma match_fields_spec sel : ∀ n i fields,
  (n = i + length sel)%nat → (i ≤ length fields)%nat →
  match_fields n i sel fields = true ↔ selects sel (drop i fields).
Proof.
  induction sel as [|f sel IH]; intros n i fields Hn Hi; cbn [match_fields].
  - rewrite Nat.eqb_eq. simpl in Hn. split.
    + intros Hl. rewrite drop_ge by lia. constructor.
    + intros Hs. assert (drop i fields = []) as H by (by inversion Hs).
      apply (f_equal length) in H. rewrite length_drop in H. simpl in H. lia.
  - destruct (String.eqb_spec (fs_Type f) AnyRemaining) as [Ht|Ht].
    { split; [|done]. intros _. by constructor. }
    destruct (fields !! i) as [x|] eqn:Ex.
    2:{ apply lookup_ge_None_1 in Ex. rewrite drop_ge by lia. split; [done|]. by inversion 1. }
    rewrite (drop_S _ _ _ Ex). apply lookup_lt_Some in Ex.
    specialize (IH n (S i) fields ltac:(simpl in Hn; lia) ltac:(lia)).
    unfold FieldSelector_Matches. rewrite (proj2 (String.eqb_neq _ _) Ht).
    destruct (String.eqb_spec (fs_Type f) (f_Type x)) as [Hx|Hx]; simpl.
    2:{ split; [done|]. inversion 1; congruence. }
    destruct (String.eqb_spec (fs_Name f) AnyRemaining) as [Hr|Hr].
    { rewrite orb_true_r. simpl. split; [|done]. intros _. by apply selects_tail. }
    rewrite orb_false_r. destruct (String.eqb_spec (fs_Name f) AnyName) as [Ha|Ha]; simpl.
    { rewrite IH. split; [by constructor; auto|]. inversion 1; congruence. }
    destruct (String.eqb_spec (fs_Name f) (f_Name x)) as [Hm|Hm]; simpl.
    + rewrite IH. split; [by constructor; auto|]. inversion 1; congruence.
    + split; [done|]. inversion 1; naive_solver congruence.
Qed.

(** [Selector.Matches] accepts an identity exactly when the domains agree and
    the fields are those the pattern describes: exact types and names, [*] for
    one name, [**] for everything from its position on. *)
Theorem selector_matches_iff_selects s id :
  Selector_Matches s id = true ↔ s_Domain s = id_Domain id ∧ selects (s_Fields s) (id_Fields id).
Proof.
  unfold Selector_Matches. destruct (String.eqb_spec (s_Domain s) (id_Domain id)) as [Hd|Hd]; simpl.
  - rewrite match_fields_spec by (simpl; lia). rewrite drop_0. naive_solver.
  - naive_solver.
Qed.
