(* ===== verification/Model.v ===== *)
(** * The data model: pkg/model and internal/core

    Keys, key versions, tenants, labels and agent registrations.  The Go types
    [KeyLifeCycleState], [KeyProcessingStatus], [KeyVersionProcessingState],
    [KeyKind] and [AgentRegistrationStatus] are string types with declared
    constants: any string is a value of them, and they are kept as strings so
    that the checks for known values mean something.  A [*string] or [*int]
    field is an [option].  Timestamps ([clock.UnixNano], an [int64]) and Go
    [int]s are integers. *)

From S2P Require Import Prelude GoStrings.
From Stdlib Require Import Ascii.

Local Open Scope string_scope.

Notation KeyKind := string (only parsing).
Notation KeyLifeCycleState := string (only parsing).
Notation KeyProcessingStatus := string (only parsing).
Notation KeyVersionProcessingState := string (only parsing).
Notation AgentRegistrationStatus := string (only parsing).
Notation UnixNano := Z (only parsing).
Notation Labels := (gmap string string) (only parsing).

(** ** Life cycle states, processing status *)

Definition KeyLifeCyclePreActivation : KeyLifeCycleState := "pre-activation".
Definition KeyLifeCycleActive : KeyLifeCycleState := "active".
Definition KeyLifeCycleSuspended : KeyLifeCycleState := "suspended".
Definition KeyLifeCycleDeactivated : KeyLifeCycleState := "deactivated".
Definition KeyLifeCycleCompromised : KeyLifeCycleState := "compromised".
Definition KeyLifeCycleDestroyed : KeyLifeCycleState := "destroyed".

Definition KeyProcessingPending : KeyProcessingStatus := "pending".
Definition KeyProcessingInProgress : KeyProcessingStatus := "in-progress".
Definition KeyProcessingCompleted : KeyProcessingStatus := "completed".
Definition KeyProcessingFailed : KeyProcessingStatus := "failed".

Definition allKeyStatus : gset string :=
  {[ KeyProcessingPending; KeyProcessingInProgress; KeyProcessingCompleted; KeyProcessingFailed ]}.

Definition IsKnownKeyStatus (s : KeyProcessingStatus) : bool := bool_decide (s ∈ allKeyStatus).

(** [KeyProcessingStatus.IsOneOf]. *)
Definition IsOneOf (s : KeyProcessingStatus) (statuses : list KeyProcessingStatus) : bool :=
  bool_decide (s ∈ statuses).

(** ** Keys *)

Record KeyProcessingState := mkKeyProcessingState {
  ps_Status : KeyProcessingStatus;
  ps_JobID : string;
}.

Record Key := mkKey {
  k_ID : string;
  k_Name : string;
  k_TenantID : string;
  k_Kind : KeyKind;
  k_ParentID : option string;
  k_ManagedBy : string;
  k_Labels : Labels;
  k_LifeCycleState : KeyLifeCycleState;
  k_ProcessingState : KeyProcessingState;
  k_CreatedAt : UnixNano;
  k_UpdatedAt : UnixNano;
}.

Notation k_Status k := (ps_Status (k_ProcessingState k)).

#[export] Instance KeyProcessingState_eq_dec : EqDecision KeyProcessingState.
Proof. solve_decision. Defined.
#[export] Instance Key_eq_dec : EqDecision Key.
Proof. solve_decision. Defined.

(** [equalStringPtr]. *)
Definition equalStringPtr (a b : option string) : bool :=
  match a, b with
  | None, None => true
  | Some x, Some y => String.eqb x y
  | _, _ => false
  end.

(** [Key.IsSame]: the receiver and the argument may be nil. *)
Definition IsSame (k other : option Key) : bool :=
  match k, other with
  | Some k, Some other =>
      if negb (equalStringPtr (k_ParentID k) (k_ParentID other)) then false
      else (String.eqb (k_Name k) (k_Name other) &&
            String.eqb (k_TenantID k) (k_TenantID other) &&
            String.eqb (k_ManagedBy k) (k_ManagedBy other) &&
            String.eqb (k_Kind k) (k_Kind other))%bool
  | _, _ => false
  end.

(** What a key is for the upsert: everything but its id, labels and states. *)
Definition key_identity (k : Key) : string * string * string * string * option string :=
  (k_Name k, k_TenantID k, k_ManagedBy k, k_Kind k, k_ParentID k).

Lemma IsSame_spec k k' :
  IsSame (Some k) (Some k') = true ↔ key_identity k = key_identity k'.
Proof.
  unfold IsSame, key_identity, equalStringPtr.
  destruct (k_ParentID k), (k_ParentID k'); simpl;
    repeat match goal with |- context [String.eqb ?a ?b] => destruct (String.eqb_spec a b) end;
    simpl; split; congruence.
Qed.

(** ** Key trees: layers of keys, root layer first *)

Notation KeyTree := (list (list Key)) (only parsing).

(** An [iter.Seq] is represented by the sequence of the values it yields; a
    consumer that stops early sees a prefix of it. *)
Definition IterKeysByLayerAsc (kt : KeyTree) : list (list Key) := kt.
Definition IterKeysByLayerDsc (kt : KeyTree) : list (list Key) := rev kt.

Definition layer_kind (layer : list Key) : list KeyKind :=
  match layer with [] => [] | k :: _ => [k_Kind k] end.

Definition IterLayerAsc (kt : KeyTree) : list KeyKind := kt ≫= layer_kind.
Definition IterLayerDsc (kt : KeyTree) : list KeyKind := rev kt ≫= layer_kind.

Lemma IterLayer_rev kt : IterLayerDsc kt = rev (IterLayerAsc kt).
Proof.
  unfold IterLayerDsc, IterLayerAsc. induction kt as [|l kt IH]; simpl; [done|].
  rewrite bind_app, IH, rev_app_distr. simpl. by destruct l as [|k l]; rewrite ?app_nil_r.
Qed.

(** ** Key versions *)

Definition KeyVersionUsable : KeyVersionProcessingState := "usable".
Definition KeyVersionReWrapping : KeyVersionProcessingState := "re-wrapping".
Definition KeyVersionActivating : KeyVersionProcessingState := "activating".

Definition allKeyVersionStates : gset string :=
  {[ KeyVersionUsable; KeyVersionReWrapping; KeyVersionActivating ]}.

Definition IsKnownKeyVersionState (state : string) : bool :=
  bool_decide (state ∈ allKeyVersionStates).

Record KeyVersion := mkKeyVersion {
  kv_TenantID : string;
  kv_KeyID : string;
  kv_Version : Z;
  kv_Revision : Z;
  kv_ParentKeyID : option string;
  kv_ParentKeyVersion : option Z;
  kv_LifeCycleState : KeyLifeCycleState;
  kv_ProcessingState : KeyVersionProcessingState;
  kv_Labels : Labels;
  kv_CreatedAt : UnixNano;
  kv_UpdatedAt : UnixNano;
}.

#[export] Instance KeyVersion_eq_dec : EqDecision KeyVersion.
Proof. solve_decision. Defined.

(** [KeyVersion.WithLabels]: a copy, the receiver is a value. *)
Definition WithLabels (kv : KeyVersion) (ls : Labels) : KeyVersion :=
  mkKeyVersion (kv_TenantID kv) (kv_KeyID kv) (kv_Version kv) (kv_Revision kv)
    (kv_ParentKeyID kv) (kv_ParentKeyVersion kv) (kv_LifeCycleState kv)
    (kv_ProcessingState kv) ls (kv_CreatedAt kv) (kv_UpdatedAt kv).

(** [KeyVersion.AAD]: [fmt.Appendf(nil, "%s:%s:%d:%d", ...)]. *)
Definition AAD (kv : KeyVersion) : string :=
  kv_TenantID kv +:+ ":" +:+ kv_KeyID kv +:+ ":" +:+ itoa (kv_Version kv) +:+ ":" +:+
  itoa (kv_Revision kv).

(** ** Labels *)

Definition ReservedLabelPrefix : string := "krypton:".

Definition IsReservedKey (k : string) : bool := has_prefix k ReservedLabelPrefix.

(** [Labels.HasReserved]: Go's map iteration order is unspecified; the model
    returns the first reserved key of the map's enumeration. *)
Definition HasReserved (l : Labels) : option string :=
  head (List.filter IsReservedKey (map_to_list l).*1).

Lemma HasReserved_None l :
  HasReserved l = None ↔ ∀ k, is_Some (l !! k) → IsReservedKey k = false.
Proof.
  unfold HasReserved. rewrite head_None. split.
  - intros H k [v Hv]. destruct (IsReservedKey k) eqn:E; [|done]. exfalso.
    assert (k ∈ List.filter IsReservedKey (map_to_list l).*1) as Hin; [|by rewrite H in Hin; apply elem_of_nil in Hin].
    apply list_elem_of_In, filter_In. split; [|done]. apply list_elem_of_In, list_elem_of_fmap.
    exists (k, v). split; [done|]. by apply elem_of_map_to_list.
  - intros H. destruct (List.filter _ _) as [|k ks] eqn:E; [done|]. exfalso.
    assert (In k (List.filter IsReservedKey (map_to_list l).*1)) as Hin by (rewrite E; by left).
    apply filter_In in Hin as [Hin Hk]. apply list_elem_of_In, list_elem_of_fmap in Hin as ([k' v] & -> & Hin).
    apply elem_of_map_to_list in Hin. simpl in Hk. rewrite H in Hk; [done|]. by exists v.
Qed.

(** [Labels.String]: sorted [key=value] pairs joined by commas. *)
Definition Labels_String (l : Labels) : string :=
  if bool_decide (l = ∅) then ""
  else join "," ((λ k, k +:+ "=" +:+ default "" (l !! k)) <$>
                   merge_sort string_le (map_to_list l).*1).

(** ** Tenants and agent registrations *)

Record Tenant := mkTenant {
  t_ID : string;
  t_Name : string;
  t_Labels : Labels;
  t_CreatedAt : UnixNano;
  t_UpdatedAt : UnixNano;
}.

Definition AgentRegistrationStatusRegistered : AgentRegistrationStatus := "registered".
Definition AgentRegistrationStatusHealthy : AgentRegistrationStatus := "healthy".
Definition AgentRegistrationStatusUnhealthy : AgentRegistrationStatus := "unhealthy".
Definition AgentRegistrationStatusDeregistered : AgentRegistrationStatus := "de-registered".

Record AgentRegistration := mkAgentRegistration {
  ar_Name : string;
  ar_InstanceID : string;
  ar_Status : AgentRegistrationStatus;
  ar_LastHeartbeat : UnixNano;
  ar_CreatedAt : UnixNano;
  ar_UpdatedAt : UnixNano;
}.

#[export] Instance Tenant_eq_dec : EqDecision Tenant.
Proof. solve_decision. Defined.
#[export] Instance AgentRegistration_eq_dec : EqDecision AgentRegistration.
Proof. solve_decision. Defined.

(** ** The authenticated data identifies a key version *)

Lemma no_sep_app_inj (sep : ascii) (a b a' b' : list ascii) :
  sep ∉ a → sep ∉ a' → (a ++ sep :: b)%list = (a' ++ sep :: b')%list → a = a' ∧ b = b'.
Proof.
  intros Ha Ha' H.
  assert (cut_chars sep (a ++ sep :: b) = cut_chars sep (a' ++ sep :: b')) as E by by rewrite H.
  rewrite !cut_chars_app_sep in E by done. by injection E as -> ->.
Qed.

(** The characters of a decimal number. *)
Lemma itoa_no_char c z :
  (∀ n, (n < 10)%N → pretty_N_char n ≠ c) → c ≠ "-"%char → c ∉ chars (itoa z).
Proof.
  intros Hc Hm.
  assert (∀ x s, c ∉ chars s → c ∉ chars (pretty_N_go x s)) as Hgo.
  { intros x. induction (N.lt_wf_0 x) as [x _ IH]. intros s Hs.
    assert (x = 0 ∨ 0 < x)%N as [->|?] by lia; [by rewrite pretty_N_go_0|].
    rewrite pretty_N_go_step by done. apply IH; [by apply N.div_lt|].
    simpl. rewrite not_elem_of_cons. split; [|done].
    intros E. by eapply (Hc (x `mod` 10)%N); [apply N.mod_lt|]. }
  assert (c ≠ "0"%char) as H0 by (intros ->; by apply (Hc 0%N)).
  unfold itoa, pretty, pretty_Z. destruct z as [|p|p]; simpl; rewrite ?not_elem_of_cons.
  - split; [done|]. apply not_elem_of_nil.
  - unfold pretty, pretty_positive, pretty, pretty_N. case_decide; simpl; [set_solver|].
    apply Hgo, not_elem_of_nil.
  - split; [done|]. unfold pretty, pretty_positive, pretty, pretty_N.
    case_decide; simpl; [set_solver|]. apply Hgo, not_elem_of_nil.
Qed.
Lemma itoa_no_digit c z : (∀ n, n < 10 → pretty_N_char (N.of_nat n) ≠ c) → c ≠ "-"%char → c ∉ chars (itoa z).
Proof. intros Hc. apply itoa_no_char. intros n Hn. rewrite <-(N2Nat.id n). apply Hc. lia. Qed.
Lemma itoa_no_colon z : ":"%char ∉ chars (itoa z).
Proof. apply itoa_no_digit; [|done]. intros n Hn. do 10 (destruct n as [|n]; [done|]). lia. Qed.

Lemma uuid_no_colon s c : uuid_parse s = Some c → ":"%char ∉ chars c.
Proof.
  intros H Hin. destruct (uuid_parse_chars _ _ _ H Hin) as [Hd|Hd]; [|done].
  by vm_compute in Hd.
Qed.

Lemma AAD_chars kv :
  chars (AAD kv) =
  (chars (kv_TenantID kv) ++ ":"%char :: chars (kv_KeyID kv) ++ ":"%char ::
   chars (itoa (kv_Version kv)) ++ ":"%char :: chars (itoa (kv_Revision kv)))%list.
Proof. unfold AAD. by rewrite !chars_app. Qed.
