(* ===== verification/World.v ===== *)
(** * The world a Krypton process acts on

    The state every handler may change: the SQL database (the tables of
    pkg/store/sql/migrate.go), the secure memory of internal/securemem, the rows
    of the vaults, and the response a task handler fills in (an object its caller
    owns, so a rolled back transaction does not undo what was written to it).  Whatever the process does not decide (the time, fresh
    UUIDs, random bytes, and which statement or system call fails) comes from
    an environment [Env]: an oracle indexed by a tick counter that every such
    event advances.  The theorems hold for every environment, so for every
    schedule of failures, unless they say otherwise. *)

From S2P Require Import Prelude GoStrings GoRuntime Model.
From Stdlib Require Import Ascii.

Local Open Scope string_scope.

(** ** Database *)

(** [sql.Node]: which schema the database was migrated to. *)
Inductive Node := Root | Agent.

#[export] Instance Node_eq_dec : EqDecision Node.
Proof. solve_decision. Defined.

(** Primary keys: [keys(id)], [key_versions(tenant_id, key_id, version,
    revision)], [tenants(id)], [agent_registrations(name, instance_id)]. *)
Notation kv_ident := (string * string * Z * Z)%type (only parsing).

Record DB := mkDB {
  db_tables : gset string;          (* the tables that were created *)
  db_node : option Node;            (* the row of schema_meta *)
  db_tenants : gmap string Tenant;
  db_agents : gmap (string * string) AgentRegistration;
  db_keys : gmap string Key;
  db_kvs : gmap kv_ident KeyVersion;
}.

Definition empty_db : DB := mkDB ∅ None ∅ ∅ ∅ ∅.

Definition set_schema (tables : gset string) (n : option Node) (d : DB) : DB :=
  mkDB tables n (db_tenants d) (db_agents d) (db_keys d) (db_kvs d).
Definition set_tenants (m : gmap string Tenant) (d : DB) : DB :=
  mkDB (db_tables d) (db_node d) m (db_agents d) (db_keys d) (db_kvs d).
Definition set_agents (m : gmap (string * string) AgentRegistration) (d : DB) : DB :=
  mkDB (db_tables d) (db_node d) (db_tenants d) m (db_keys d) (db_kvs d).
Definition set_keys (m : gmap string Key) (d : DB) : DB :=
  mkDB (db_tables d) (db_node d) (db_tenants d) (db_agents d) m (db_kvs d).
Definition set_kvs (m : gmap kv_ident KeyVersion) (d : DB) : DB :=
  mkDB (db_tables d) (db_node d) (db_tenants d) (db_agents d) (db_keys d) m.

(** ** Secure memory *)

Notation loc := positive (only parsing).

(** A region of anonymous memory that [mmap] returned: its bytes, whether
    [mprotect] lets them be written, and whether it is still mapped. *)
Record Region := mkRegion {
  r_bytes : string;
  r_writable : bool;
  r_mapped : bool;
}.

(** [securemem.Data]: the name, the region its slice points to ([None] is the
    nil slice) and the protection flag. *)
Record Data := mkData {
  d_name : string;
  d_data : option loc;
  d_isReadOnly : bool;
}.

(** The memory internal/securemem manages: the [Data] objects, the regions, the
    [MemVault] objects (a map from names to [Data] objects), and the next
    unused location.  Objects are reached through locations, so that two holders
    of one object see each other's changes. *)
Record secmem := mkSecmem {
  sm_heap : gmap loc Data;
  sm_mem : gmap loc Region;
  sm_mvs : gmap loc (gmap string loc);
  sm_next : loc;
}.

Definition empty_secmem : secmem := mkSecmem ∅ ∅ ∅ 1%positive.

(** ** Vaults *)

(** A row of a vault: key material and authenticated data. *)
Record VaultRow := mkVaultRow { vr_material : string; vr_aad : string }.

(** ** Task responses *)

(** What a task handler writes to its [orbital.HandlerResponse], one constructor
    per method; the message of [Fail] is not modelled. *)
Inductive response :=
  | RContinueAndWaitFor (d : Z)
  | RFail
  | RComplete.

(** ** World *)

Record world := mkWorld {
  w_db : DB;
  w_tick : nat;
  w_sm : secmem;
  w_vault : gmap (string * kv_ident) VaultRow;
  w_resp : list response;   (* the calls made on the response, last call last *)
}.

Definition set_db (d : DB) (w : world) : world :=
  mkWorld d (w_tick w) (w_sm w) (w_vault w) (w_resp w).
Definition tick (w : world) : world :=
  mkWorld (w_db w) (S (w_tick w)) (w_sm w) (w_vault w) (w_resp w).
Definition set_sm (m : secmem) (w : world) : world :=
  mkWorld (w_db w) (w_tick w) m (w_vault w) (w_resp w).
Definition set_vault (v : gmap (string * kv_ident) VaultRow) (w : world) : world :=
  mkWorld (w_db w) (w_tick w) (w_sm w) v (w_resp w).
Definition add_resp (r : response) (w : world) : world :=
  mkWorld (w_db w) (w_tick w) (w_sm w) (w_vault w) (w_resp w ++ [r])%list.

Notation M := (comp world).

(** A call that leaves this process, or this database: it returns, with a value
    or with an error that is no task disposition, and writes neither to the
    tables of this process nor to the response of the task. *)
Definition outbound {A} (m : M A) : Prop := ∀ w,
  w_db (m w).2 = w_db w ∧ w_resp (m w).2 = w_resp w ∧
  match (m w).1 with
  | Ok _ => True
  | Err e => errors_AsOrbital e = None
  | Panic | Diverge => False
  end.

(** ** Environment *)

Class Env := {
  e_clock : nat → Z;              (* time.Now().UnixNano() at a tick *)
  e_uuid : nat → string;          (* uuid.New().String() at a tick *)
  e_rand : nat → nat → ascii;     (* crypto/rand at a tick: byte number i *)
  e_fault : nat → bool;           (* does the statement or system call fail? *)
  e_order : nat → list (string * positive) → list (string * positive);
                                  (* the order in which a map is ranged over *)
  e_uuid_canonical : ∀ n, uuid_column (e_uuid n) = Some (e_uuid n);
  e_order_perm : ∀ n l, e_order n l ≡ₚ l;
}.

Section effects.
Context {ENV : Env}.

(** [clock.Now()]. *)
Definition clock_Now : M UnixNano := λ w, (Ok (e_clock (w_tick w)), tick w).

(** [uuid.New().String()]. *)
Definition uuid_New : M string := λ w, (Ok (e_uuid (w_tick w)), tick w).

(** [rand.Read] of [n] bytes. *)
Definition rand_Read (n : nat) : M string :=
  λ w, (Ok (unchars (e_rand (w_tick w) <$> seq 0 n)), tick w).

(** A call that leaves the process: it fails when the environment says so. *)
Definition external (what : string) : M () := λ w,
  if e_fault (w_tick w) then (Err (EForeign what), tick w) else (Ok (), tick w).

(** The entries of a map, in the order [range] visits them. *)
Definition range_map (m : gmap string loc) : M (list (string * loc)) := λ w,
  (Ok (e_order (w_tick w) (map_to_list m)), tick w).

(** [model.NewKey]. *)
Definition NewKey (tenantID name kind : string) (parentID : option string)
    (managedBy : string) (labels : Labels) : M Key :=
  now ← clock_Now;
  id ← uuid_New;
  mret (mkKey id name tenantID kind parentID managedBy labels
          KeyLifeCyclePreActivation
          (mkKeyProcessingState KeyProcessingPending "") now now).

(** [model.NewKeyVersion]. *)
Definition NewKeyVersion (tenantID keyID : string) (version : Z)
    (parentKeyID : option string) (parentKeyVersion : option Z) : M KeyVersion :=
  now ← clock_Now;
  mret (mkKeyVersion tenantID keyID version 1 parentKeyID parentKeyVersion
          KeyLifeCycleActive KeyVersionUsable ∅ now now).

(** [model.NewTenant]. *)
Definition NewTenant (name : string) (labels : Labels) : M Tenant :=
  now ← clock_Now;
  id ← uuid_New;
  mret (mkTenant id name labels now now).
End effects.

(** No statement or system call fails. *)
Class NoFaults `{Env} : Prop := no_faults : ∀ n, e_fault n = false.

(** ** Frames: which part of the world an effect leaves alone *)

Section frames.
Context {ENV : Env} (R : relation world) `{!PreOrder R}.
Hypothesis R_tick : ∀ w, R w (tick w).

Lemma respects_clock_Now : respects R clock_Now.
Proof. intros w. apply R_tick. Qed.
Lemma respects_uuid_New : respects R uuid_New.
Proof. intros w. apply R_tick. Qed.
Lemma respects_rand_Read n : respects R (rand_Read n).
Proof. intros w. apply R_tick. Qed.
Lemma respects_external what : respects R (external what).
Proof. intros w. unfold external. destruct (e_fault _); apply R_tick. Qed.

Lemma respects_NewKey t n k p m l : respects R (NewKey t n k p m l).
Proof. unfold NewKey. solve_respects; eauto using respects_clock_Now, respects_uuid_New. Qed.
Lemma respects_NewKeyVersion t k v p pv : respects R (NewKeyVersion t k v p pv).
Proof. unfold NewKeyVersion. solve_respects; eauto using respects_clock_Now. Qed.
Lemma respects_NewTenant n l : respects R (NewTenant n l).
Proof. unfold NewTenant. solve_respects; eauto using respects_clock_Now, respects_uuid_New. Qed.
End frames.

(** [db_rel P]: the database before and after are related by [P]; ticks do not
    matter to it. *)
Definition db_rel (P : relation DB) : relation world := λ w w', P (w_db w) (w_db w').

#[export] Instance db_rel_preorder P `{!PreOrder P} : PreOrder (db_rel P).
Proof.
  split; unfold db_rel.
  - intros w. reflexivity.
  - intros w1 w2 w3 H1 H2. etrans; eauto.
Qed.

Section db_frames.
Context {ENV : Env} (P : relation DB) `{!PreOrder P}.

Lemma db_rel_tick w : db_rel P w (tick w).
Proof. unfold db_rel. simpl. reflexivity. Qed.
Lemma db_rel_clock_Now : respects (db_rel P) clock_Now.
Proof. apply respects_clock_Now; apply db_rel_tick. Qed.
Lemma db_rel_uuid_New : respects (db_rel P) uuid_New.
Proof. apply respects_uuid_New; apply db_rel_tick. Qed.
Lemma db_rel_external what : respects (db_rel P) (external what).
Proof. apply respects_external; apply db_rel_tick. Qed.
Lemma db_rel_NewKey t n k p m l : respects (db_rel P) (NewKey t n k p m l).
Proof. apply respects_NewKey; [apply _|apply db_rel_tick]. Qed.
Lemma db_rel_NewKeyVersion t k v p pv : respects (db_rel P) (NewKeyVersion t k v p pv).
Proof. apply respects_NewKeyVersion; [apply _|apply db_rel_tick]. Qed.
Lemma db_rel_NewTenant n l : respects (db_rel P) (NewTenant n l).
Proof. apply respects_NewTenant; [apply _|apply db_rel_tick]. Qed.
End db_frames.

#[export] Hint Resolve db_rel_clock_Now db_rel_uuid_New db_rel_external db_rel_NewKey
  db_rel_NewKeyVersion db_rel_NewTenant : respects.
