(* ===== verification/Lifecycle.v ===== *)
(** * Key usages and the key life cycle

    Module [KeyUsage] models internal/spec/keyusage.go, the bitmask of
    permitted operations; module [Lifecycle] models internal/keylifecycle: the
    NIST SP 800-57 state machine, its transition table and the operations each
    state permits.  The table is refined by an abstract state machine
    ([nist_step], an inductive relation over six states), and the safety
    properties are proved over whole sequences of validated transitions. *)

From S2P Require Import Prelude GoStrings GoRuntime Model.
From Stdlib Require Import Ascii.

Local Open Scope string_scope.

Module KeyUsage.
Local Open Scope Z_scope.

(** [KeyUsage uint]; the constants are [1 << iota]. *)
Notation t := Z (only parsing).

Definition KeyUsageNone : t := 0.
Definition KeyUsageEncrypt : t := Z.shiftl 1 0.
Definition KeyUsageDecrypt : t := Z.shiftl 1 1.
Definition KeyUsageWrap : t := Z.shiftl 1 2.
Definition KeyUsageUnwrap : t := Z.shiftl 1 3.
Definition KeyUsageLink : t := Z.shiftl 1 4.
Definition KeyUsageRotate : t := Z.shiftl 1 5.

Definition validKeyUsages : list t :=
  [KeyUsageEncrypt; KeyUsageDecrypt; KeyUsageWrap; KeyUsageUnwrap; KeyUsageLink; KeyUsageRotate].

Definition validKeyUsageNames : gmap Z string :=
  list_to_map [(KeyUsageEncrypt, "encrypt"); (KeyUsageDecrypt, "decrypt");
               (KeyUsageWrap, "wrap"); (KeyUsageUnwrap, "unwrap");
               (KeyUsageLink, "link"); (KeyUsageRotate, "rotate")].

(** [KeyUsage.Has]. *)
Definition Has (u usage : t) : bool :=
  if Z.eqb usage 0 then false else Z.eqb (Z.land u usage) usage.

(** One round of the loop of [KeyUsage.String]: the mask seen so far and the
    text written so far. *)
Definition string_step (u : t) (st : t * string) (validUsage : t) : t * string :=
  let '(allKeyUsage, sb) := st in
  let allKeyUsage := Z.lor allKeyUsage validUsage in
  if Has u validUsage then
    (allKeyUsage,
     sb +:+ (if Nat.ltb 0 (String.length sb) then "|" else "") +:+
     default "" (validKeyUsageNames !! validUsage))
  else (allKeyUsage, sb).

(** [KeyUsage.String]. *)
Definition String_ (u : t) : string :=
  if Z.eqb u KeyUsageNone then "none"
  else
    let '(allKeyUsage, sb) := fold_left (string_step u) validKeyUsages (0, "") in
    let extraFlags := Z.ldiff u allKeyUsage in
    if Z.eqb extraFlags 0 then sb
    else sb +:+ (if Nat.ltb 0 (String.length sb) then "|" else "") +:+
         "unknown(" +:+ itoa extraFlags +:+ ")".

Lemma Has_spec u v :
  Has u v = true ↔ v ≠ 0 ∧ ∀ i, Z.testbit v i = true → Z.testbit u i = true.
Proof.
  unfold Has. destruct (Z.eqb_spec v 0) as [->|Hv]; [naive_solver|].
  rewrite Z.eqb_eq. split.
  - intros H. split; [done|]. intros i Hi. rewrite <- H, Z.land_spec in Hi.
    by apply andb_true_iff in Hi as [? _].
  - intros [_ H]. apply Z.bits_inj'. intros i _. rewrite Z.land_spec.
    destruct (Z.testbit v i) eqn:E; [by rewrite (H i E)|]. apply andb_false_r.
Qed.

Lemma Has_0 v : Has 0 v = false.
Proof. unfold Has. destruct (Z.eqb_spec v 0); [done|]. rewrite Z.land_0_l. by apply Z.eqb_neq. Qed.

(** A mask permits what a part of it permits. *)
Lemma Has_sub u v v' : Has v v' = true → Has u v = true → Has u v' = true.
Proof. rewrite !Has_spec. naive_solver. Qed.
End KeyUsage.

Module Lifecycle.
Import KeyUsage.

Definition ErrInvalidKeyStateTransition : string := "keylifecycle.ErrInvalidKeyStateTransition".
Definition ErrOperationNotAllowedInState : string := "keylifecycle.ErrOperationNotAllowedInState".

(** [defaultLifecycle.transitions]. *)
Definition transitions : gmap string (gset string) :=
  <[KeyLifeCyclePreActivation :=
      {[KeyLifeCycleDestroyed; KeyLifeCycleActive; KeyLifeCycleCompromised]}]> (
  <[KeyLifeCycleActive :=
      {[KeyLifeCycleDestroyed; KeyLifeCycleDeactivated; KeyLifeCycleSuspended;
        KeyLifeCycleCompromised]}]> (
  <[KeyLifeCycleSuspended :=
      {[KeyLifeCycleDestroyed; KeyLifeCycleDeactivated; KeyLifeCycleCompromised;
        KeyLifeCycleActive]}]> (
  <[KeyLifeCycleDeactivated := {[KeyLifeCycleDestroyed; KeyLifeCycleCompromised]}]> (
  <[KeyLifeCycleCompromised := {[KeyLifeCycleDestroyed]}]> (
  <[KeyLifeCycleDestroyed := ∅]> ∅))))).

(** [defaultLifecycle.stateUsages]. *)
Definition stateUsages : gmap string Z :=
  <[KeyLifeCyclePreActivation := KeyUsageLink]> (
  <[KeyLifeCycleActive :=
      Z.lor (Z.lor (Z.lor (Z.lor KeyUsageEncrypt KeyUsageDecrypt) KeyUsageUnwrap) KeyUsageWrap)
            KeyUsageRotate]> (
  <[KeyLifeCycleSuspended := Z.lor KeyUsageDecrypt KeyUsageUnwrap]> (
  <[KeyLifeCycleDeactivated := Z.lor KeyUsageDecrypt KeyUsageUnwrap]> (
  <[KeyLifeCycleCompromised := Z.lor KeyUsageDecrypt KeyUsageUnwrap]> (
  <[KeyLifeCycleDestroyed := KeyUsageNone]> ∅))))).

(** [IsKnown]. *)
Definition IsKnown (s : KeyLifeCycleState) : bool :=
  match transitions !! s with Some _ => true | None => false end.

(** [ValidateTransition]. *)
Definition ValidateTransition (from to : KeyLifeCycleState) : goerror :=
  match transitions !! from with
  | None => Some (wrap1 (ESentinel ErrInvalidKeyStateTransition))
  | Some ts =>
      if bool_decide (to ∈ ts) then None
      else Some (wrap1 (ESentinel ErrInvalidKeyStateTransition))
  end.

(** [ValidateKeyUsage]. *)
Definition ValidateKeyUsage (s : KeyLifeCycleState) (op : Z) : goerror :=
  match stateUsages !! s with
  | None => Some (wrap1 (ESentinel ErrOperationNotAllowedInState))
  | Some ops =>
      if Has ops op then None
      else Some (wrap1 (ESentinel ErrOperationNotAllowedInState))
  end.

(** [GetAllowedTransitions]: the order of a Go map iteration is unspecified. *)
Definition GetAllowedTransitions (s : KeyLifeCycleState) : list KeyLifeCycleState :=
  match transitions !! s with None => [] | Some ts => elements ts end.

(** [GetAllowedKeyUsages]. *)
Definition GetAllowedKeyUsages (s : KeyLifeCycleState) : Z :=
  match stateUsages !! s with None => KeyUsageNone | Some ops => ops end.

(** ** The abstract state machine of NIST SP 800-57 *)

Inductive nist_state :=
  PreActivation | Active | Suspended | Deactivated | Compromised | Destroyed.

Inductive nist_step : nist_state → nist_state → Prop :=
  | step_activate : nist_step PreActivation Active
  | step_suspend : nist_step Active Suspended
  | step_resume : nist_step Suspended Active
  | step_deactivate s : s = Active ∨ s = Suspended → nist_step s Deactivated
  | step_compromise s : s ≠ Compromised → s ≠ Destroyed → nist_step s Compromised
  | step_destroy s : s ≠ Destroyed → nist_step s Destroyed.

(** The name the code gives to a state. *)
Definition state_name (s : nist_state) : KeyLifeCycleState :=
  match s with
  | PreActivation => KeyLifeCyclePreActivation
  | Active => KeyLifeCycleActive
  | Suspended => KeyLifeCycleSuspended
  | Deactivated => KeyLifeCycleDeactivated
  | Compromised => KeyLifeCycleCompromised
  | Destroyed => KeyLifeCycleDestroyed
  end.

#[export] Instance state_name_inj : Inj (=) (=) state_name.
Proof. intros [] []; by vm_compute. Qed.

Lemma IsKnown_spec s : IsKnown s = true ↔ ∃ n, s = state_name n.
Proof.
  unfold IsKnown. split.
  - unfold transitions. rewrite !lookup_insert. intros H.
    repeat case_decide; subst; [by exists PreActivation|by exists Active|by exists Suspended|
      by exists Deactivated|by exists Compromised|by exists Destroyed|done].
  - by intros [[] ->].
Qed.

Lemma ValidateTransition_names a b :
  ValidateTransition (state_name a) (state_name b) = None ↔ nist_step a b.
Proof.
  split.
  - destruct a, b; vm_compute; intros H; try discriminate H; constructor; (done || by auto).
  - intros H. destruct a, b; first [by vm_compute | exfalso; inversion H; intuition congruence].
Qed.

Lemma ValidateTransition_to_known from to :
  ValidateTransition from to = None → IsKnown from = true ∧ IsKnown to = true.
Proof.
  unfold ValidateTransition. intros H. split; [by unfold IsKnown; destruct (transitions !! from)|].
  destruct (transitions !! from) as [ts|] eqn:E; [|done].
  case_bool_decide as Hin; [|done]. clear H.
  unfold transitions in E. rewrite !lookup_insert in E.
  repeat case_decide; simplify_eq;
    (rewrite ?elem_of_union, ?elem_of_singleton in Hin; naive_solver).
Qed.

Lemma ValidateTransition_error from to e :
  ValidateTransition from to = Some e → errors_Is e ErrInvalidKeyStateTransition = true.
Proof. unfold ValidateTransition. repeat case_match; naive_solver. Qed.

(** A sequence of transitions each of which the code accepted. *)
Definition accepted (from to : KeyLifeCycleState) : Prop := ValidateTransition from to = None.

Lemma accepted_rtc_abstract a to :
  rtc accepted (state_name a) to → ∃ b, to = state_name b ∧ rtc nist_step a b.
Proof.
  intros H. apply rtc_nsteps in H as [n H]. revert a H.
  induction n as [|n IH]; intros a H; inversion H as [|? ? y ? Hs Hr]; subst.
  - exists a. split; [done|constructor].
  - destruct (ValidateTransition_to_known _ _ Hs) as [_ Hk].
    apply IsKnown_spec in Hk as [c ->]. destruct (IH _ Hr) as (b & -> & ?).
    exists b. split; [done|]. econstructor; [|done]. by apply ValidateTransition_names.
Qed.

(** Ranks: no transition lowers the rank, and only suspend/resume keep it. *)
Definition rank (s : nist_state) : nat :=
  match s with
  | PreActivation => 0 | Active | Suspended => 1 | Deactivated => 2
  | Compromised => 3 | Destroyed => 4
  end.

Lemma nist_step_rank a b : nist_step a b → (rank a ≤ rank b)%nat ∧ (1 ≤ rank b)%nat.
Proof. destruct 1 as [| | |s [->| ->]|[]|[]]; simpl; split; (lia || done). Qed.

Lemma nist_rtc_rank a b : rtc nist_step a b → (rank a ≤ rank b)%nat.
Proof. induction 1 as [|a b c H _ IH]; [done|]. apply nist_step_rank in H. lia. Qed.

Lemma destroyed_final b : ¬ nist_step Destroyed b.
Proof. inversion 1; naive_solver. Qed.

(** ** Properties *)

(** C15: [ValidateTransition] accepts exactly the transitions of the NIST
    SP 800-57 state machine, on every pair of strings: an unknown state is
    neither left nor entered. *)
Theorem transition_refinement from to :
  ValidateTransition from to = None ↔
  ∃ a b, from = state_name a ∧ to = state_name b ∧ nist_step a b.
Proof.
  split.
  - intros H. destruct (ValidateTransition_to_known _ _ H) as [Hf Ht].
    apply IsKnown_spec in Hf as [a ->]. apply IsKnown_spec in Ht as [b ->].
    exists a, b. by rewrite <- ValidateTransition_names.
  - intros (a & b & -> & -> & H). by apply ValidateTransition_names.
Qed.

(** Along any sequence of accepted transitions a key never comes back to
    pre-activation, a deactivated, compromised or destroyed key is never
    active or suspended again, and a destroyed key stays destroyed. *)
Theorem lifecycle_no_resurrection from to :
  rtc accepted from to → IsKnown from = true →
  (from ≠ KeyLifeCyclePreActivation → to ≠ KeyLifeCyclePreActivation) ∧
  (from ∈ [KeyLifeCycleDeactivated; KeyLifeCycleCompromised; KeyLifeCycleDestroyed] →
   to ≠ KeyLifeCycleActive ∧ to ≠ KeyLifeCycleSuspended) ∧
  (from = KeyLifeCycleDestroyed → to = KeyLifeCycleDestroyed).
Proof.
  intros H Hk. apply IsKnown_spec in Hk as [a ->].
  apply accepted_rtc_abstract in H as (b & -> & H%nist_rtc_rank).
  destruct a, b; simpl in H; try lia; vm_compute; repeat split; intros; set_solver.
Qed.

Lemma lifecycle_no_resurrection_witness :
  rtc accepted KeyLifeCycleActive KeyLifeCycleDestroyed ∧
  (KeyLifeCycleDestroyed ≠ KeyLifeCyclePreActivation).
Proof.
  assert (rtc accepted KeyLifeCycleActive KeyLifeCycleDestroyed) as H.
  { apply rtc_l with KeyLifeCycleSuspended; [by vm_compute|].
    apply rtc_l with KeyLifeCycleDeactivated; [by vm_compute|].
    apply rtc_once. by vm_compute. }
  split; [exact H|].
  apply (lifecycle_no_resurrection KeyLifeCycleActive KeyLifeCycleDestroyed H eq_refl).
  by vm_compute.
Defined.

(** Which operations a state permits: encrypting, wrapping and rotating
    only an active key; linking a provider only before activation; decrypting
    and unwrapping from activation until destruction; nothing afterwards or in
    an unknown state.  A combined request is permitted only if each part is. *)
Theorem usage_by_state s :
  (ValidateKeyUsage s KeyUsageEncrypt = None ↔ s = KeyLifeCycleActive) ∧
  (ValidateKeyUsage s KeyUsageWrap = None ↔ s = KeyLifeCycleActive) ∧
  (ValidateKeyUsage s KeyUsageRotate = None ↔ s = KeyLifeCycleActive) ∧
  (ValidateKeyUsage s KeyUsageLink = None ↔ s = KeyLifeCyclePreActivation) ∧
  (ValidateKeyUsage s KeyUsageDecrypt = None ↔
     s ∈ [KeyLifeCycleActive; KeyLifeCycleSuspended; KeyLifeCycleDeactivated;
          KeyLifeCycleCompromised]) ∧
  (ValidateKeyUsage s KeyUsageUnwrap = None ↔
     s ∈ [KeyLifeCycleActive; KeyLifeCycleSuspended; KeyLifeCycleDeactivated;
          KeyLifeCycleCompromised]) ∧
  (∀ op op', Has op op' = true → ValidateKeyUsage s op = None → ValidateKeyUsage s op' = None).
Proof.
  do 6 (split; [unfold ValidateKeyUsage, stateUsages; rewrite !lookup_insert;
    repeat case_decide; subst; vm_compute; (split; [intros; (done || set_solver) | intros; (done || set_solver)])|]).
  intros op op' Hop. unfold ValidateKeyUsage. destruct (stateUsages !! s) as [ops|]; [|done].
  destruct (Has ops op) eqn:E; [|done]. intros _. by rewrite (Has_sub _ _ _ Hop E).
Qed.
End Lifecycle.
