(* ===== verification/Providers.v ===== *)
(** * Provider specifications

    The configuration values that select a secret source, a sealer, a cryptor
    and a vault, with their validation: internal/secret (secretprovider, inline,
    envvar), internal/sealer/sealerprovider and staticsecret,
    internal/cryptor/cryptorprovider, internal/vault/vaultprovider with the
    configurations of sqlitevault and openbaovault.  A Go interface value that
    may be nil is an [option] of a sum of the types that implement it.  Reading
    and writing these values as YAML is not modelled. *)

From S2P Require Import Prelude GoStrings GoRuntime.
From Stdlib Require Import Ascii.

Local Open Scope string_scope.

(** ** [base64.StdEncoding] decoding *)

Module Base64.
Definition value (c : ascii) : option nat :=
  let n := nat_of_ascii c in
  if (Nat.leb 65 n && Nat.leb n 90)%bool then Some (n - 65)
  else if (Nat.leb 97 n && Nat.leb n 122)%bool then Some (n - 71)
  else if (Nat.leb 48 n && Nat.leb n 57)%bool then Some (n + 4)
  else if Nat.eqb n 43 then Some 62
  else if Nat.eqb n 47 then Some 63
  else None.

(** The decoder skips carriage returns and line feeds. *)
Definition skip_newlines (l : list ascii) : list ascii :=
  List.filter (λ c, negb (Nat.eqb (nat_of_ascii c) 10 || Nat.eqb (nat_of_ascii c) 13)) l.

Fixpoint quads (l : list ascii) : option (list ascii) :=
  match l with
  | [] => Some []
  | a :: b :: c :: d :: l' =>
      if bool_decide (l' = []) && Ascii.eqb d "=" then
        if Ascii.eqb c "=" then
          x ← value a; y ← value b; Some [ascii_of_nat (4 * x + Nat.div y 16)]
        else
          x ← value a; y ← value b; z ← value c;
          Some [ascii_of_nat (4 * x + Nat.div y 16);
                ascii_of_nat (16 * Nat.modulo y 16 + Nat.div z 4)]
      else
        x ← value a; y ← value b; z ← value c; t ← value d; r ← quads l';
        Some (ascii_of_nat (4 * x + Nat.div y 16) ::
              ascii_of_nat (16 * Nat.modulo y 16 + Nat.div z 4) ::
              ascii_of_nat (64 * Nat.modulo z 4 + t) :: r)
  | _ => None
  end%bool.

Definition StdDecodeString (s : string) : option string :=
  unchars <$> quads (skip_newlines (chars s)).

(** *** Encoding *)

Definition alphabet : list ascii :=
  chars "ABCDEFGHIJKLMNOPQRSTUVWXYZabcdefghijklmnopqrstuvwxyz0123456789+/".
Definition digit (n : nat) : ascii := nth n alphabet "A"%char.

Fixpoint encode (l : list ascii) : list ascii :=
  match l with
  | [] => []
  | [a] =>
      let a := nat_of_ascii a in
      [digit (Nat.div a 4); digit (16 * Nat.modulo a 4); "="%char; "="%char]
  | [a; b] =>
      let a := nat_of_ascii a in let b := nat_of_ascii b in
      [digit (Nat.div a 4); digit (16 * Nat.modulo a 4 + Nat.div b 16);
       digit (4 * Nat.modulo b 16); "="%char]
  | a :: b :: c :: l' =>
      let a := nat_of_ascii a in let b := nat_of_ascii b in let c := nat_of_ascii c in
      digit (Nat.div a 4) :: digit (16 * Nat.modulo a 4 + Nat.div b 16) ::
      digit (4 * Nat.modulo b 16 + Nat.div c 64) :: digit (Nat.modulo c 64) :: encode l'
  end.

Definition StdEncodeToString (s : string) : string := unchars (encode (chars s)).

(** What decoding needs to know of a digit. *)
Lemma digit_ok n : n < 64 →
  value (digit n) = Some n ∧ Ascii.eqb (digit n) "=" = false ∧
  (Nat.eqb (nat_of_ascii (digit n)) 10 || Nat.eqb (nat_of_ascii (digit n)) 13)%bool = false.
Proof.
  intros Hn. assert (Forall (λ n, value (digit n) = Some n ∧ Ascii.eqb (digit n) "=" = false ∧
    (Nat.eqb (nat_of_ascii (digit n)) 10 || Nat.eqb (nat_of_ascii (digit n)) 13)%bool = false) (seq 0 64)) as H.
  { repeat constructor. }
  rewrite Forall_forall in H. apply H, elem_of_seq. lia.
Qed.
Lemma value_digit n : n < 64 → value (digit n) = Some n.
Proof. intros H. apply (digit_ok n H). Qed.
Lemma digit_not_pad n : n < 64 → Ascii.eqb (digit n) "=" = false.
Proof. intros H. apply (digit_ok n H). Qed.

Lemma byte_lt c : nat_of_ascii c < 256.
Proof. apply nat_ascii_bounded. Qed.

Lemma list_ind3 {A} (P : list A → Prop) :
  P [] → (∀ a, P [a]) → (∀ a b, P [a; b]) → (∀ a b c l, P l → P (a :: b :: c :: l)) → ∀ l, P l.
Proof.
  intros H0 H1 H2 H3. fix IH 1. intros [|a [|b [|c l]]]; [apply H0|apply H1|apply H2|apply H3, IH].
Qed.

(** Digits lie in the alphabet. *)
Lemma sextets a b c : a < 256 → b < 256 → c < 256 →
  Nat.div a 4 < 64 ∧ 16 * Nat.modulo a 4 < 64 ∧ 16 * Nat.modulo a 4 + Nat.div b 16 < 64 ∧
  4 * Nat.modulo b 16 < 64 ∧ 4 * Nat.modulo b 16 + Nat.div c 64 < 64 ∧ Nat.modulo c 64 < 64.
Proof.
  intros. pose proof (Nat.div_mod_eq a 4). pose proof (Nat.div_mod_eq b 16). pose proof (Nat.div_mod_eq c 64).
  pose proof (Nat.mod_upper_bound a 4). pose proof (Nat.mod_upper_bound b 16). pose proof (Nat.mod_upper_bound c 64). lia.
Qed.

(** The bytes are recovered from the digits. *)
Lemma octets a b c : a < 256 → b < 256 → c < 256 →
  let x := Nat.div a 4 in let y := 16 * Nat.modulo a 4 + Nat.div b 16 in
  let z := 4 * Nat.modulo b 16 + Nat.div c 64 in
  4 * x + Nat.div y 16 = a ∧ 16 * Nat.modulo y 16 + Nat.div z 4 = b ∧
  64 * Nat.modulo z 4 + Nat.modulo c 64 = c.
Proof.
  intros Ha Hb Hc. cbv zeta.
  pose proof (Nat.div_mod_eq a 4). pose proof (Nat.div_mod_eq b 16). pose proof (Nat.div_mod_eq c 64).
  pose proof (Nat.mod_upper_bound a 4). pose proof (Nat.mod_upper_bound b 16). pose proof (Nat.mod_upper_bound c 64).
  rewrite (Nat.mul_comm 16), (Nat.mul_comm 4 (Nat.modulo b 16)).
  rewrite !Nat.div_add_l, !(Nat.add_comm (_ * _) (Nat.div _ _)), !Nat.Div0.mod_add by lia.
  rewrite !(Nat.div_small (Nat.div b 16) 16), !(Nat.div_small (Nat.div c 64) 4),
    !(Nat.mod_small (Nat.div b 16) 16), !(Nat.mod_small (Nat.div c 64) 4) by lia. lia.
Qed.

Lemma skip_newlines_digit n l : n < 64 → skip_newlines (digit n :: l) = digit n :: skip_newlines l.
Proof. intros H. unfold skip_newlines. simpl. by rewrite (proj2 (proj2 (digit_ok n H))). Qed.

#[local] Arguments digit : simpl never.
#[local] Arguments value : simpl never.
#[local] Arguments Nat.div : simpl never.
#[local] Arguments Nat.modulo : simpl never.
#[local] Arguments Nat.mul : simpl never.
#[local] Arguments ascii_of_nat : simpl never.
#[local] Arguments nat_of_ascii : simpl never.

Lemma quads_encode l : quads (skip_newlines (encode l)) = Some l.
Proof.
  induction l as [|a|a b|a b c l IH] using list_ind3; [done|..].
  - pose proof (byte_lt a). destruct (sextets (nat_of_ascii a) 0 0) as (H1 & H2 & _); [lia..|].
    destruct (octets (nat_of_ascii a) 0 0) as (E1 & _ & _); [lia..|].
    cbn [encode]. rewrite !skip_newlines_digit by done. cbn. rewrite !value_digit by done. cbn.
    cbn in E1. rewrite Nat.add_0_r in E1. rewrite E1. by rewrite ascii_nat_embedding.
  - pose proof (byte_lt a) as Ba. pose proof (byte_lt b) as Bb.
    destruct (sextets (nat_of_ascii a) (nat_of_ascii b) 0) as (H1 & _ & H2 & H3 & _); [lia..|].
    destruct (octets (nat_of_ascii a) (nat_of_ascii b) 0) as (E1 & E2 & _); [lia..|].
    cbn [encode]. rewrite !skip_newlines_digit by done. cbn [skip_newlines List.filter quads].
    cbn. rewrite (digit_not_pad _ H3), !value_digit by done. cbn.
    cbn in E1, E2. rewrite !Nat.add_0_r in E2. rewrite E1, E2. by rewrite !ascii_nat_embedding.
  - pose proof (byte_lt a) as Ba. pose proof (byte_lt b) as Bb. pose proof (byte_lt c) as Bc.
    destruct (sextets (nat_of_ascii a) (nat_of_ascii b) (nat_of_ascii c)) as (H1 & _ & H2 & _ & H3 & H4); [lia..|].
    destruct (octets (nat_of_ascii a) (nat_of_ascii b) (nat_of_ascii c)) as (E1 & E2 & E3); [lia..|].
    cbn [encode]. rewrite !skip_newlines_digit by done. cbn [quads].
    rewrite (digit_not_pad _ H4), andb_false_r, !value_digit, IH by done. cbn [mbind option_bind].
    rewrite E1, E2, E3. by rewrite !ascii_nat_embedding.
Qed.

Lemma decode_encode s : StdDecodeString (StdEncodeToString s) = Some s.
Proof.
  unfold StdDecodeString, StdEncodeToString. rewrite chars_unchars, quads_encode. simpl.
  by rewrite unchars_chars.
Qed.
End Base64.

(** ** Secret sources *)

(** [aes256gcm.KeySize]. *)
Definition KeySize : nat := 32.

Inductive SecretConfig :=
  | EnvVarConfig (Name : string)
  | InlineConfig (Secret : string).

Definition envvar_Type : string := "envvar".
Definition inline_Type : string := "inline".

Definition ErrSecretEmpty : string := "inline.ErrSecretEmpty".
Definition ErrBase64Decode : string := "inline.ErrBase64Decode".
Definition ErrKeySize : string := "inline.ErrKeySize".
Definition ErrUnknownSecretType : string := "secretprovider.ErrUnknownType".

(** [envvar.Config.ValidateSecretConfig] and [inline.Config.ValidateSecretConfig]. *)
Definition ValidateSecretConfig (c : SecretConfig) : goerror :=
  match c with
  | EnvVarConfig name =>
      if String.eqb name "" then Some (EForeign "environment variable name must not be empty")
      else None
  | InlineConfig secret =>
      if String.eqb secret "" then Some (ESentinel ErrSecretEmpty)
      else match Base64.StdDecodeString secret with
           | None => Some (wrap2 ErrBase64Decode (EForeign "base64"))
           | Some b =>
               if negb (Nat.eqb (String.length b) KeySize)
               then Some (wrap1 (ESentinel ErrKeySize)) else None
           end
  end.

Record SecretSpec := mkSecretSpec {
  ss_Type : string;
  ss_Config : option SecretConfig;
}.

(** [secretprovider.Spec.Validate]. *)
Definition SecretSpec_Validate (s : SecretSpec) : goerror :=
  if String.eqb (ss_Type s) "" then Some (wrap1 (ESentinel ErrUnknownSecretType))
  else match ss_Config s with
       | Some c => ValidateSecretConfig c
       | None => None
       end.

(** ** Sealers *)

Inductive SealerConfig := StaticSecretConfig (Secret : SecretSpec).
Inductive SealerAuth := StaticSecretAuth.

Definition TypeStaticSecret : string := "aes256gcm-staticsecret".
Definition ErrSealerNameEmpty : string := "sealerprovider.ErrSealerNameEmpty".
Definition ErrUnknownSealerType : string := "sealer.ErrUnknownType".

Definition ValidateSealerConfig (c : SealerConfig) : goerror :=
  match c with StaticSecretConfig s => SecretSpec_Validate s end.

(** [staticsecret.Auth.ValidateSealerAuth]: no credentials are needed. *)
Definition ValidateSealerAuth (a : SealerAuth) : goerror :=
  match a with StaticSecretAuth => None end.

Record SealerSpec := mkSealerSpec {
  sl_Name : string;
  sl_Type : string;
  sl_Config : option SealerConfig;
  sl_Auth : option SealerAuth;
}.

Definition or_else (e : goerror) (k : goerror) : goerror :=
  match e with Some _ => e | None => k end.

Lemma or_else_None e k : or_else e k = None ↔ e = None ∧ k = None.
Proof. destruct e; simpl; naive_solver. Qed.

(** [sealerprovider.Spec.Validate]. *)
Definition SealerSpec_Validate (s : SealerSpec) : goerror :=
  if String.eqb (sl_Name s) "" then Some (ESentinel ErrSealerNameEmpty)
  else or_else (match sl_Config s with Some c => ValidateSealerConfig c | None => None end)
       (or_else (match sl_Auth s with Some a => ValidateSealerAuth a | None => None end)
        None).

(** [sealerprovider.newSealer] and [ValidateType]. *)
Definition newSealer (t : string) : option (SealerConfig * SealerAuth) :=
  if String.eqb t TypeStaticSecret
  then Some (StaticSecretConfig (mkSecretSpec "" None), StaticSecretAuth) else None.

Definition ValidateType (t : string) : goerror :=
  match newSealer t with
  | Some _ => None
  | None => Some (wrap1 (ESentinel ErrUnknownSealerType))
  end.

(** ** Cryptors *)

Inductive CryptorConfig := AES256GCMConfig.

Definition ErrCryptorNameEmpty : string := "cryptorprovider.ErrCryptorNameEmpty".

Definition ValidateCryptorConfig (c : CryptorConfig) : goerror :=
  match c with AES256GCMConfig => None end.

Record CryptorSpec := mkCryptorSpec {
  cr_Name : string;
  cr_Type : string;
  cr_Config : option CryptorConfig;
}.

(** [cryptorprovider.Spec.Validate]. *)
Definition CryptorSpec_Validate (s : CryptorSpec) : goerror :=
  if String.eqb (cr_Name s) "" then Some (ESentinel ErrCryptorNameEmpty)
  else match cr_Config s with Some c => ValidateCryptorConfig c | None => None end.

(** ** Vaults *)

Inductive VaultConfig :=
  | InMemoryConfig
  | FileConfig (Path : string)
  | OpenBaoConfig (Address : string).

Definition TypeUnsafeMemory : string := "unsafe-sqlite-memory".
Definition TypeUnsafe : string := "unsafe-sqlite".
Definition TypeOpenBao : string := "openbao".

Definition ErrVaultNameEmpty : string := "vaultprovider.ErrVaultNameEmpty".
Definition ErrUnknownVaultType : string := "vault.ErrUnknownType".

Definition ValidateVaultConfig (c : VaultConfig) : goerror :=
  match c with
  | InMemoryConfig => None
  | FileConfig path =>
      if String.eqb path "" then Some (EForeign "path must not be empty") else None
  | OpenBaoConfig address =>
      if String.eqb address "" then Some (EForeign "address is required") else None
  end.

(** [vaultprovider.newConfig]. *)
Definition newVaultConfig (t : string) : option VaultConfig :=
  if String.eqb t TypeUnsafeMemory then Some InMemoryConfig
  else if String.eqb t TypeUnsafe then Some (FileConfig "")
  else if String.eqb t TypeOpenBao then Some (OpenBaoConfig "")
  else None.

Record VaultSpec := mkVaultSpec {
  vs_Name : string;
  vs_Type : string;
  vs_Config : option VaultConfig;
}.

(** [vaultprovider.Spec.Validate]. *)
Definition VaultSpec_Validate (s : VaultSpec) : goerror :=
  if String.eqb (vs_Name s) "" then Some (ESentinel ErrVaultNameEmpty)
  else match newVaultConfig (vs_Type s) with
       | None => Some (wrap1 (ESentinel ErrUnknownVaultType))
       | Some _ =>
           match vs_Config s with Some c => ValidateVaultConfig c | None => None end
       end.

(** A secret that passes validation and is written inline is an AES-256 key. *)
Lemma inline_secret_size s :
  ValidateSecretConfig (InlineConfig s) = None →
  ∃ b, Base64.StdDecodeString s = Some b ∧ String.length b = KeySize.
Proof.
  simpl. destruct (String.eqb s ""); [done|].
  destruct (Base64.StdDecodeString s) as [b|]; [|done].
  destruct (Nat.eqb_spec (String.length b) KeySize); [|done]. by exists b.
Qed.
