(* ===== verification/Hierarchy.v ===== *)
(** * Key hierarchies, label specifications and the deployment topology

    internal/spec: label requirements (labelvalidator.go, labelrequirement.go,
    labelsspec.go), key specifications (keyspec.go), the ordered key hierarchy
    (keyhierarchy.go), hierarchy segments, key bindings and the topology
    (topology.go), the root key (rootkey.go) and the validation of segments and
    topology against the hierarchy (hierarchy_validation.go).

    Go's regular expressions are a parameter ([Regexp]).  A Go [map] that the
    code iterates is a [gmap]; where several entries are wrong, which error is
    reported first is unspecified in Go and follows the enumeration of the map
    in the model. *)

From S2P Require Import Prelude GoStrings GoRuntime Model Lifecycle Providers.
From Stdlib Require Import Ascii.

Local Open Scope string_scope.

(** [regexp.Compile] and [Regexp.MatchString]. *)
Class Regexp := regexp_Compile : string → option (string → bool).

(** ** Labels *)

Module LabelsSpec.
Section labels.
Context `{!Regexp}.

Definition ValidatorTypeRegex : string := "regex".
Definition ValidatorTypeEnum : string := "enum".
Definition ValidatorTypeRegexKey : string := "pattern".
Definition ValidatorTypeEnumKey : string := "values".

Definition ErrLabelValidatorInvalidType : string := "spec.ErrLabelValidatorInvalidType".
Definition ErrLabelValidatorMissingRegexPattern : string := "spec.ErrLabelValidatorMissingRegexPattern".
Definition ErrLabelValidatorInvalidRegexPattern : string := "spec.ErrLabelValidatorInvalidRegexPattern".
Definition ErrLabelValidatorMissingEnumValues : string := "spec.ErrLabelValidatorMissingEnumValues".
Definition ErrLabelValidatorEnumFailed : string := "spec.ErrLabelValidatorEnumFailed".
Definition ErrLabelValidatorRegexFailed : string := "spec.ErrLabelValidatorRegexFailed".
Definition ErrLabelsValidationFailed : string := "spec.ErrLabelsValidationFailed".
Definition ErrLabelsSpecRequirementEmpty : string := "spec.ErrLabelsSpecRequirementEmpty".

Record LabelValidator := mkLabelValidator {
  lv_Type : string;
  lv_Params : gmap string string;
}.

(** What [LabelValidator.init] compiles once and caches. *)
Record compiled := mkCompiled {
  c_regex : option (string → bool);
  c_enums : gset string;
}.

Definition init (lv : LabelValidator) : compiled + error :=
  if String.eqb (lv_Type lv) ValidatorTypeRegex then
    match lv_Params lv !! ValidatorTypeRegexKey with
    | None => inr (ESentinel ErrLabelValidatorMissingRegexPattern)
    | Some pattern =>
        match regexp_Compile pattern with
        | None => inr (wrap1 (ESentinel ErrLabelValidatorInvalidRegexPattern))
        | Some r => inl (mkCompiled (Some r) ∅)
        end
    end
  else if String.eqb (lv_Type lv) ValidatorTypeEnum then
    match lv_Params lv !! ValidatorTypeEnumKey with
    | None => inr (ESentinel ErrLabelValidatorMissingEnumValues)
    | Some valueStr =>
        inl (mkCompiled None (list_to_set (trim_space <$> split "," valueStr)))
    end
  else inr (ESentinel ErrLabelValidatorInvalidType).

Definition validateEnum (c : compiled) (value : string) : goerror :=
  if bool_decide (c_enums c = ∅) then Some (ESentinel ErrLabelValidatorMissingEnumValues)
  else if bool_decide (value ∈ c_enums c) then None
  else Some (wrap1 (ESentinel ErrLabelValidatorEnumFailed)).

Definition validateRegex (c : compiled) (value : string) : goerror :=
  match c_regex c with
  | None => Some (ESentinel ErrLabelValidatorMissingRegexPattern)
  | Some r => if r value then None else Some (wrap1 (ESentinel ErrLabelValidatorRegexFailed))
  end.

(** [LabelValidator.validate]; the receiver may be nil. *)
Definition validate (lv : option LabelValidator) (value : string) : goerror :=
  match lv with
  | None => None
  | Some lv =>
      match init lv with
      | inr e => Some e
      | inl c =>
          if String.eqb (lv_Type lv) ValidatorTypeRegex then validateRegex c value
          else if String.eqb (lv_Type lv) ValidatorTypeEnum then validateEnum c value
          else Some (wrap1 (ESentinel ErrLabelValidatorInvalidType))
      end
  end.

Record LabelRequirement := mkLabelRequirement {
  lr_IsRequired : bool;
  lr_Validator : option LabelValidator;
}.

(** [LabelRequirement.init]. *)
Definition requirement_init (lr : LabelRequirement) : goerror :=
  match lr_Validator lr with
  | None => None
  | Some lv => match init lv with inl _ => None | inr e => Some e end
  end.

Record t := mk {
  ls_Requirements : gmap string LabelRequirement;
  ls_AllowUserLabels : bool;
}.

(** The first error of a loop. *)
Fixpoint first_error {A} (f : A → goerror) (l : list A) : goerror :=
  match l with
  | [] => None
  | x :: l' => or_else (f x) (first_error f l')
  end.

(** The body of the first loop of [LabelsSpec.Validate]. *)
Definition check_requirement (l : Labels) (r : string * LabelRequirement) : goerror :=
  let '(reqName, req) := r in
  match l !! reqName with
  | None =>
      if lr_IsRequired req then Some (wrap1 (ESentinel ErrLabelsValidationFailed)) else None
  | Some value =>
      match lr_Validator req with
      | None => None
      | Some v => match validate (Some v) value with Some e => Some (wrap1 e) | None => None end
      end
  end.

(** [LabelsSpec.Validate]. *)
Definition Validate (ls : t) (l : Labels) : goerror :=
  or_else (first_error (check_requirement l) (map_to_list (ls_Requirements ls)))
    (if ls_AllowUserLabels ls then None
     else first_error (λ lbName, if bool_decide (is_Some (ls_Requirements ls !! lbName)) then None
                                 else Some (wrap1 (ESentinel ErrLabelsValidationFailed)))
            (map_to_list l).*1).

(** [LabelsSpec.Merge]: [maps.Copy] overwrites with the source's entries. *)
Definition Merge (ls src : t) : t :=
  mk (ls_Requirements src ∪ ls_Requirements ls) (ls_AllowUserLabels src).

(** [LabelsSpec.init]. *)
Definition spec_init (ls : t) : goerror :=
  if (negb (ls_AllowUserLabels ls) && bool_decide (ls_Requirements ls = ∅))%bool
  then Some (wrap1 (ESentinel ErrLabelsSpecRequirementEmpty))
  else first_error (λ '(_, req), requirement_init req) (map_to_list (ls_Requirements ls)).

Lemma first_error_None {A} (f : A → goerror) l :
  first_error f l = None ↔ ∀ x, x ∈ l → f x = None.
Proof.
  induction l as [|x l IH]; simpl; [set_solver|].
  unfold or_else. destruct (f x) eqn:E; [split; [done|]|].
  - intros Hall. rewrite (Hall x) in E; [done|]. left.
  - rewrite IH. set_solver.
Qed.
End labels.
End LabelsSpec.

Notation first_error := LabelsSpec.first_error.

(** ** Key specifications *)

Module KeySpec.
Import KeyUsage.

Definition KeyRoleRoot : string := "root".
Definition KeyRoleKek : string := "kek".
Definition KeyRoleDek : string := "dek".
Definition KeyRoleTek : string := "tek".

(** [cryptor.KeyAlgorithmAES256]. *)
Definition KeyAlgorithmAES256 : string := "AES256".

Definition validKeyAlgorithms : gset string := {[KeyAlgorithmAES256]}.
Definition validKeyRoles : gset string := {[KeyRoleRoot; KeyRoleKek; KeyRoleDek; KeyRoleTek]}.

Definition ErrKeySpecKindEmpty : string := "spec.ErrKeySpecKindEmpty".
Definition ErrKeySpecRoleInvalid : string := "spec.ErrKeySpecRoleInvalid".
Definition ErrKeySpecAlgorithmInvalid : string := "spec.ErrKeySpecAlgorithmInvalid".

Record t := mk {
  ks_Kind : KeyKind;
  ks_Role : string;
  ks_Algorithm : string;
  ks_LabelsSpec : LabelsSpec.t;
}.

Definition IsSupportedAlgorithm (alg : string) : bool := bool_decide (alg ∈ validKeyAlgorithms).

(** [KeySpec.Usage]. *)
Definition Usage (k : t) : Z :=
  if bool_decide (ks_Role k ∈ [KeyRoleRoot; KeyRoleKek; KeyRoleTek])
  then Z.lor KeyUsageWrap KeyUsageUnwrap
  else if String.eqb (ks_Role k) KeyRoleDek then Z.lor KeyUsageEncrypt KeyUsageDecrypt
  else KeyUsageNone.

(** [KeySpec.Validate]. *)
Definition Validate `{!Regexp} (k : t) : goerror :=
  if String.eqb (ks_Kind k) "" then Some (ESentinel ErrKeySpecKindEmpty)
  else if negb (bool_decide (ks_Role k ∈ validKeyRoles)) then Some (ESentinel ErrKeySpecRoleInvalid)
  else if negb (IsSupportedAlgorithm (ks_Algorithm k))
  then Some (ESentinel ErrKeySpecAlgorithmInvalid)
  else LabelsSpec.spec_init (ks_LabelsSpec k).

Lemma Validate_role `{!Regexp} k :
  Validate k = None → ks_Kind k ≠ "" ∧ ks_Role k ∈ validKeyRoles.
Proof.
  unfold Validate. destruct (String.eqb_spec (ks_Kind k) ""); [done|].
  destruct (bool_decide (ks_Role k ∈ validKeyRoles)) eqn:E; simpl; [|done].
  by apply bool_decide_eq_true in E.
Qed.
End KeySpec.

Notation KeySpec := KeySpec.t.
Import KeySpec.

(** ** The ordered key hierarchy *)

Definition ErrKeyHierarchyNameEmpty : string := "spec.ErrKeyHierarchyNameEmpty".
Definition ErrKeyHierarchyKeysListEmpty : string := "spec.ErrKeyHierarchyKeysListEmpty".
Definition ErrKeyHierarchyFirstKeyNotRoot : string := "spec.ErrKeyHierarchyFirstKeyNotRoot".
Definition ErrKeyHierarchyDuplicateKind : string := "spec.ErrKeyHierarchyDuplicateKind".
Definition ErrKeyHierarchyDuplicateRoot : string := "spec.ErrKeyHierarchyDuplicateRoot".
Definition ErrKeyHierarchyLastKeyNotDek : string := "spec.ErrKeyHierarchyLastKeyNotDek".
Definition ErrKeyHierarchyInvalidIntermediateKey : string := "spec.ErrKeyHierarchyInvalidIntermediateKey".
Definition ErrKeyHierarchyKindNotFound : string := "spec.ErrKeyHierarchyKindNotFound".
Definition ErrKeyHierarchyInvalidRange : string := "spec.ErrKeyHierarchyInvalidRange".

Record HierarchySegment := mkHierarchySegment {
  hs_StartKind : string;
  hs_EndKind : string;
}.

Module KeyHierarchy.
Record t := mk {
  h_Name : string;
  h_KeySpecs : list KeySpec;
}.

Section ops.
Context `{!Regexp}.

(** The [switch i] of the loop body: the role a key must have at its place. *)
Definition check_role (keyLen i : nat) (k : KeySpec) : goerror :=
  if Nat.eqb i 0 then
    if negb (String.eqb (ks_Role k) KeyRoleRoot)
    then Some (ESentinel ErrKeyHierarchyFirstKeyNotRoot) else None
  else if Nat.eqb i (keyLen - 1) then
    if negb (String.eqb (ks_Role k) KeyRoleDek)
    then Some (ESentinel ErrKeyHierarchyLastKeyNotDek) else None
  else if String.eqb (ks_Role k) KeyRoleRoot then Some (ESentinel ErrKeyHierarchyDuplicateRoot)
  else if String.eqb (ks_Role k) KeyRoleDek
  then Some (ESentinel ErrKeyHierarchyInvalidIntermediateKey)
  else None.

(** The loop of [KeyHierarchy.Validate]: index, remaining keys, kinds seen. *)
Fixpoint validate_loop (keyLen i : nat) (ks : list KeySpec) (seenKind : gset string) : goerror :=
  match ks with
  | [] => None
  | k :: ks' =>
      match KeySpec.Validate k with
      | Some err => Some (wrap1 err)
      | None =>
          match check_role keyLen i k with
          | Some err => Some err
          | None =>
              if bool_decide (ks_Kind k ∈ seenKind)
              then Some (ESentinel ErrKeyHierarchyDuplicateKind)
              else validate_loop keyLen (S i) ks' ({[ks_Kind k]} ∪ seenKind)
          end
      end
  end.

(** [KeyHierarchy.Validate]. *)
Definition Validate (h : t) : goerror :=
  if String.eqb (h_Name h) "" then Some (ESentinel ErrKeyHierarchyNameEmpty)
  else let keyLen := length (h_KeySpecs h) in
       if Nat.eqb keyLen 0 then Some (ESentinel ErrKeyHierarchyKeysListEmpty)
       else validate_loop keyLen 0 (h_KeySpecs h) ∅.
End ops.

Definition has_kind (kind : KeyKind) (k : KeySpec) : bool := String.eqb (ks_Kind k) kind.

(** [KeyHierarchy.FindKeySpec]; Go's second result is the [option]. *)
Definition FindKeySpec (h : t) (kind : KeyKind) : option KeySpec :=
  i ← find_index (has_kind kind) (h_KeySpecs h); h_KeySpecs h !! i.

(** [KeyHierarchy.IndexOf]: -1 when the kind is absent. *)
Definition IndexOf (h : t) (kind : KeyKind) : Z :=
  match find_index (has_kind kind) (h_KeySpecs h) with
  | Some i => Z.of_nat i
  | None => -1
  end.

(** [KeyHierarchy.FindParentKeySpec]. *)
Definition FindParentKeySpec (h : t) (kind : KeyKind) : option KeySpec :=
  let idx := IndexOf h kind in
  if (idx <=? 0)%Z then None else h_KeySpecs h !! Z.to_nat (idx - 1).

(** The Go slice expression [h.KeySpecs[startIdx : endIdx+1]]. *)
Definition slice (l : list KeySpec) (startIdx endIdx : Z) : list KeySpec :=
  take (Z.to_nat (endIdx + 1 - startIdx)) (drop (Z.to_nat startIdx) l).

(** [KeyHierarchy.KindsBetween]. *)
Definition KindsBetween (h : t) (start end_ : KeyKind) : list KeySpec + error :=
  let startIdx := IndexOf h start in
  if (startIdx <? 0)%Z then inr (wrap1 (ESentinel ErrKeyHierarchyKindNotFound))
  else let endIdx := IndexOf h end_ in
       if (endIdx <? 0)%Z then inr (wrap1 (ESentinel ErrKeyHierarchyKindNotFound))
       else if (endIdx <? startIdx)%Z then inr (ESentinel ErrKeyHierarchyInvalidRange)
       else inl (slice (h_KeySpecs h) startIdx endIdx).

(** [KeyHierarchy.SegmentContains]. *)
Definition SegmentContains (h : t) (seg : HierarchySegment) (kind : KeyKind) : bool :=
  let start := IndexOf h (hs_StartKind seg) in
  let end_ := IndexOf h (hs_EndKind seg) in
  let idx := IndexOf h kind in
  if ((start <? 0) || (end_ <? 0) || (idx <? 0))%Z%bool then false
  else ((start <=? idx) && (idx <=? end_))%Z%bool.

(** *** What validation establishes *)

(** The role a valid hierarchy has at position [i] of [n]. *)
Definition role_at (n i : nat) (role : string) : Prop :=
  if Nat.eqb i 0 then role = KeyRoleRoot
  else if Nat.eqb i (n - 1) then role = KeyRoleDek
  else role = KeyRoleKek ∨ role = KeyRoleTek.

(** The declarative reading of a well-formed hierarchy: named, not empty, a
    root first, a data key last, wrapping keys in between, no kind twice, and
    every key specification valid by itself. *)
Record wf `{!Regexp} (h : t) : Prop := {
  wf_name : h_Name h ≠ "";
  wf_nonempty : h_KeySpecs h ≠ [];
  wf_specs : ∀ k, k ∈ h_KeySpecs h → KeySpec.Validate k = None;
  wf_roles : ∀ i k, h_KeySpecs h !! i = Some k → role_at (length (h_KeySpecs h)) i (ks_Role k);
  wf_kinds : NoDup (ks_Kind <$> h_KeySpecs h);
}.

Section facts.
Context `{!Regexp}.

Lemma check_role_None n i k :
  ks_Role k ∈ validKeyRoles → check_role n i k = None ↔ role_at n i (ks_Role k).
Proof.
  intros Hv. unfold check_role, role_at.
  destruct (Nat.eqb i 0); [destruct (String.eqb_spec (ks_Role k) KeyRoleRoot); simpl; naive_solver|].
  destruct (Nat.eqb i (n - 1));
    [destruct (String.eqb_spec (ks_Role k) KeyRoleDek); simpl; naive_solver|].
  destruct (String.eqb_spec (ks_Role k) KeyRoleRoot) as [->|];
    [split; [done|by intros [|]]|].
  destruct (String.eqb_spec (ks_Role k) KeyRoleDek) as [->|];
    [split; [done|by intros [|]]|].
  split; [|done]. intros _. unfold validKeyRoles in Hv. set_solver.
Qed.

Lemma validate_loop_None n ks : ∀ i seen,
  validate_loop n i ks seen = None ↔
  (∀ k, k ∈ ks → KeySpec.Validate k = None) ∧
  (∀ j k, ks !! j = Some k → role_at n (i + j) (ks_Role k)) ∧
  NoDup (ks_Kind <$> ks) ∧ (∀ k, k ∈ ks → ks_Kind k ∉ seen).
Proof.
  induction ks as [|k ks IH]; intros i seen; simpl.
  { split; [|done]. intros _. split_and!; [set_solver|done|constructor|set_solver]. }
  destruct (KeySpec.Validate k) eqn:Hk.
  { split; [done|]. intros (Hs & _). rewrite (Hs k) in Hk; [done|left]. }
  assert (ks_Role k ∈ validKeyRoles) as Hr by (by apply Validate_role in Hk as [_ Hk]).
  pose proof (check_role_None n i k Hr) as Hrole.
  destruct (check_role n i k) eqn:Ec.
  { split; [done|]. intros (_ & Hs & _). specialize (Hs 0 k eq_refl).
    rewrite Nat.add_0_r in Hs. naive_solver. }
  case_bool_decide as Hseen.
  { split; [done|]. intros (_ & _ & _ & Hs). destruct (Hs k); [left|done]. }
  rewrite IH, NoDup_cons. split.
  - intros (Hs & Hroles & Hnd & Hns). split_and!.
    + intros k'. rewrite elem_of_cons. naive_solver.
    + intros [|j] k'; simpl; [intros [= <-]; rewrite Nat.add_0_r; naive_solver|].
      rewrite <-Nat.add_succ_comm. apply Hroles.
    + intros (k' & Heq & Hin)%list_elem_of_fmap. apply Hns in Hin. set_solver.
    + done.
    + intros k'. rewrite elem_of_cons. intros [->|Hin]; [done|].
      apply Hns in Hin. set_solver.
  - intros (Hs & Hroles & [Hni Hnd] & Hns). split_and!.
    + intros k' ?. apply Hs. by right.
    + intros j k' Hj. rewrite Nat.add_succ_comm. by apply (Hroles (S j)).
    + done.
    + intros k' Hin. rewrite not_elem_of_union, not_elem_of_singleton. split.
      * intros E. apply Hni. rewrite <-E. by apply list_elem_of_fmap_2.
      * apply Hns. by right.
Qed.

Lemma Validate_wf h : Validate h = None ↔ wf h.
Proof.
  unfold Validate. destruct (String.eqb_spec (h_Name h) "") as [E|Hn].
  { split; [done|]. by intros [??]. }
  destruct (Nat.eqb_spec (length (h_KeySpecs h)) 0) as [E|Hl].
  { apply nil_length_inv in E. split; [done|]. by intros []. }
  rewrite validate_loop_None. split.
  - intros (? & ? & ? & ?). split; try done. intros E. by rewrite E in Hl.
  - intros []. split_and!; try done.
Qed.

(** C28: [KeyHierarchy.Validate] accepts exactly the well-formed hierarchies: a
    name, at least one key, a root key first and only there, a data key last
    when there is more than one, wrapping keys in between, distinct kinds and
    valid key specifications. *)
Theorem validate_iff_wf h :
  Validate h = None ↔ wf h.
Proof. apply Validate_wf. Qed.
End facts.

Lemma has_kind_spec kind k : has_kind kind k = true ↔ ks_Kind k = kind.
Proof. unfold has_kind. apply String.eqb_eq. Qed.

Lemma IndexOf_found h kind i :
  IndexOf h kind = Z.of_nat i → ∃ k, h_KeySpecs h !! i = Some k ∧ ks_Kind k = kind.
Proof.
  unfold IndexOf. destruct (find_index _ _) as [j|] eqn:E; [|lia].
  intros ->%Nat2Z.inj. apply find_index_Some in E as [(k & Hk & Hp) _].
  exists k. by rewrite <-has_kind_spec.
Qed.

Lemma IndexOf_range h kind :
  IndexOf h kind = (-1)%Z ∨ (0 <= IndexOf h kind < Z.of_nat (length (h_KeySpecs h)))%Z.
Proof.
  unfold IndexOf. destruct (find_index _ _) as [j|] eqn:E; [|by left].
  apply find_index_lt in E. right. lia.
Qed.

(** With distinct kinds, the position of a key is the index of its kind. *)
Lemma IndexOf_unique h i k :
  NoDup (ks_Kind <$> h_KeySpecs h) → h_KeySpecs h !! i = Some k →
  IndexOf h (ks_Kind k) = Z.of_nat i.
Proof.
  intros Hnd Hi. unfold IndexOf.
  assert (find_index (has_kind (ks_Kind k)) (h_KeySpecs h) = Some i) as ->; [|done].
  apply find_index_Some. split; [exists k; by rewrite has_kind_spec|].
  intros j y Hj Hy. apply not_true_is_false. rewrite has_kind_spec. intros E.
  assert (j = i); [|lia]. eapply NoDup_lookup; [exact Hnd| |];
    rewrite list_lookup_fmap, fmap_Some; eauto.
Qed.

Lemma FindKeySpec_IndexOf h kind :
  FindKeySpec h kind = (if (IndexOf h kind <? 0)%Z then None
                        else h_KeySpecs h !! Z.to_nat (IndexOf h kind)).
Proof.
  unfold FindKeySpec, IndexOf. destruct (find_index _ _) as [i|]; simpl; [|done].
  destruct (Z.ltb_spec (Z.of_nat i) 0); [lia|]. by rewrite Nat2Z.id.
Qed.

Lemma FindKeySpec_kind h kind k :
  FindKeySpec h kind = Some k → k ∈ h_KeySpecs h ∧ ks_Kind k = kind.
Proof.
  unfold FindKeySpec. destruct (find_index _ _) as [i|] eqn:E; simpl; [|done].
  apply find_index_Some in E as [(k' & Hk' & Hp) _]. intros Hi. simplify_eq.
  split; [by eapply list_elem_of_lookup_2|]. by apply has_kind_spec.
Qed.

Lemma slice_elem l s e k :
  (0 <= s)%Z →
  k ∈ slice l s e ↔ ∃ i : nat, l !! i = Some k ∧ (s <= Z.of_nat i <= e)%Z.
Proof.
  intros Hs. unfold slice. rewrite list_elem_of_lookup. split.
  - intros [i Hi]. rewrite lookup_take_Some, lookup_drop in Hi. destruct Hi as [Hi Hlt].
    exists (Z.to_nat s + i). split; [done|]. lia.
  - intros (i & Hi & Hr). exists (i - Z.to_nat s).
    rewrite lookup_take_Some, lookup_drop. split; [|lia].
    replace (Z.to_nat s + (i - Z.to_nat s)) with i by lia. done.
Qed.

(** In a valid hierarchy [FindParentKeySpec] gives every key but the first
    exactly its predecessor, and the first none; the parent is never a data
    key, so a key is always wrapped by a key of a wrapping role. *)
Theorem parent_spec_is_predecessor `{!Regexp} h i k :
  Validate h = None → h_KeySpecs h !! i = Some k →
  match FindParentKeySpec h (ks_Kind k) with
  | None => i = 0
  | Some p => ∃ j, i = S j ∧ h_KeySpecs h !! j = Some p ∧ ks_Role p ≠ KeyRoleDek
  end.
Proof.
  intros [_ _ _ Hroles Hnd]%Validate_wf Hi.
  unfold FindParentKeySpec. rewrite (IndexOf_unique _ i) by done.
  destruct (Z.leb_spec (Z.of_nat i) 0); [lia|]. destruct i as [|j]; [lia|].
  replace (Z.to_nat (Z.of_nat (S j) - 1)) with j by lia.
  pose proof (lookup_lt_Some _ _ _ Hi).
  destruct (lookup_lt_is_Some_2 (h_KeySpecs h) j) as [p Hp]; [lia|].
  rewrite Hp. exists j. split_and!; [done..|].
  specialize (Hroles j p Hp). unfold role_at in Hroles.
  destruct (Nat.eqb_spec j 0); [by rewrite Hroles|].
  destruct (Nat.eqb_spec j (length (h_KeySpecs h) - 1)); [lia|].
  by destruct Hroles as [->| ->].
Qed.

Lemma KindsBetween_inv h start end_ ks :
  KindsBetween h start end_ = inl ks →
  (0 <= IndexOf h start <= IndexOf h end_)%Z ∧
  ks = slice (h_KeySpecs h) (IndexOf h start) (IndexOf h end_).
Proof.
  unfold KindsBetween. intros H. repeat split_match_in H; simplify_eq; to_prop. by split; [lia|].
Qed.

Lemma SegmentContains_between h seg kind :
  NoDup (ks_Kind <$> h_KeySpecs h) →
  SegmentContains h seg kind = true ↔
  ∃ ks, KindsBetween h (hs_StartKind seg) (hs_EndKind seg) = inl ks ∧ kind ∈ ks_Kind <$> ks.
Proof.
  intros Hnd. unfold SegmentContains. set (s := IndexOf h (hs_StartKind seg)).
  set (e := IndexOf h (hs_EndKind seg)). split.
  - intros H. split_match_in H; [done|]. to_prop. unfold KindsBetween. fold s e.
    destruct (Z.ltb_spec s 0); [lia|]. destruct (Z.ltb_spec e 0); [lia|].
    destruct (Z.ltb_spec e s); [lia|]. eexists; split; [done|].
    destruct (IndexOf_found h kind (Z.to_nat (IndexOf h kind))) as (k & Hk & <-); [lia|].
    apply list_elem_of_fmap_2. apply slice_elem; [lia|]. eexists; split; [done|lia].
  - intros (ks & [Hr ->]%KindsBetween_inv & Hin). fold s e in Hr, Hin.
    apply list_elem_of_fmap in Hin as (k & -> & Hin).
    apply slice_elem in Hin as (i & Hi & Hse); [|lia].
    rewrite (IndexOf_unique _ i) by done.
    destruct (Z.ltb_spec s 0); [lia|]. destruct (Z.ltb_spec e 0); [lia|].
    destruct (Z.ltb_spec (Z.of_nat i) 0); [lia|]. simpl.
    apply andb_true_iff. split; apply Z.leb_le; lia.
Qed.
End KeyHierarchy.

Notation KeyHierarchy := KeyHierarchy.t.
Import KeyHierarchy.

(** ** Topology: segments, key bindings, agents *)

Record KeyBinding := mkKeyBinding {
  kb_SealerSpec : option SealerSpec;
  kb_CryptorSpec : option CryptorSpec;
  kb_VaultSpec : option VaultSpec;
  kb_ParentKeyProvider : option string;   (* [ParentKeyProviderRef.AgentName] *)
}.

(** The zero [KeyBinding], what indexing a Go map at a missing key gives. *)
Definition zero_binding : KeyBinding := mkKeyBinding None None None None.

Notation Bindings := (gmap string KeyBinding) (only parsing).

Definition ErrStartKindEmpty : string := "spec.ErrStartKindEmpty".
Definition ErrEndKindEmpty : string := "spec.ErrEndKindEmpty".
Definition ErrParentKeyProviderAgentEmpty : string := "spec.ErrParentKeyProviderAgentEmpty".
Definition ErrAgentNameEmpty : string := "spec.ErrAgentNameEmpty".
Definition ErrKeyBindingsEmpty : string := "spec.ErrKeyBindingsEmpty".
Definition ErrBindingMissingSealerOrCryptor : string := "spec.ErrBindingMissingSealerOrCryptor".

(** [KeyBinding.HasRemoteParent]. *)
Definition HasRemoteParent (kb : KeyBinding) : bool :=
  match kb_ParentKeyProvider kb with
  | Some agent => negb (String.eqb agent "")
  | None => false
  end.

(** [HierarchySegment.Validate]. *)
Definition HierarchySegment_Validate (hs : HierarchySegment) : goerror :=
  if String.eqb (hs_StartKind hs) "" then Some (ESentinel ErrStartKindEmpty)
  else if String.eqb (hs_EndKind hs) "" then Some (ESentinel ErrEndKindEmpty)
  else None.

(** [KeyBinding.Validate]. *)
Definition KeyBinding_Validate (kb : KeyBinding) : goerror :=
  match kb_SealerSpec kb, kb_CryptorSpec kb with
  | None, None => Some (ESentinel ErrBindingMissingSealerOrCryptor)
  | sealer, cryptor =>
      or_else (match sealer with Some s => SealerSpec_Validate s | None => None end)
      (or_else (match cryptor with Some c => CryptorSpec_Validate c | None => None end)
      (or_else (match kb_VaultSpec kb with Some v => VaultSpec_Validate v | None => None end)
      (match kb_ParentKeyProvider kb with
       | Some agent => if String.eqb agent "" then Some (ESentinel ErrParentKeyProviderAgentEmpty) else None
       | None => None
       end)))
  end.

Record TopologySegment := mkTopologySegment {
  ts_Name : string;
  ts_Segment : HierarchySegment;
  ts_KeyBindings : Bindings;
  ts_SelectorLabels : gmap string string;
}.

(** [TopologySegment.Validate]. *)
Definition TopologySegment_Validate (ts : TopologySegment) : goerror :=
  if String.eqb (ts_Name ts) "" then Some (ESentinel ErrAgentNameEmpty)
  else or_else (HierarchySegment_Validate (ts_Segment ts))
    (if bool_decide (ts_KeyBindings ts = ∅) then Some (ESentinel ErrKeyBindingsEmpty) else None).

Module Topology.
Record t := mk { tp_Segments : list TopologySegment }.

(** [Topology.GetSegmentByName]. *)
Definition GetSegmentByName (tp : t) (name : string) : option TopologySegment :=
  i ← find_index (λ seg, String.eqb (ts_Name seg) name) (tp_Segments tp); tp_Segments tp !! i.

(** [Topology.Validate]. *)
Definition Validate (tp : t) : goerror :=
  first_error (λ seg, match TopologySegment_Validate seg with
                      | Some err => Some (wrap1 err) | None => None end) (tp_Segments tp).

(** The inner loop of [ParentName]; the order of a Go map is unspecified. *)
Definition remote_parents (bindings : Bindings) : list string :=
  omap (λ '(_, b), if HasRemoteParent b then kb_ParentKeyProvider b else None)
    (map_to_list bindings).

(** [Topology.ParentName]. *)
Definition ParentName (tp : t) (agentName : string) : option string :=
  head (tp_Segments tp ≫= λ seg,
          if negb (String.eqb (ts_Name seg) agentName) then []
          else remote_parents (ts_KeyBindings seg)).

(** [Topology.ChildrenNames]. *)
Definition ChildrenNames (tp : t) (parentAgent : string) : option (gset string) :=
  let cs : gset string := list_to_set (tp_Segments tp ≫= λ seg,
    (λ _, ts_Name seg) <$>
      filter (λ '(_, b), kb_ParentKeyProvider b = Some parentAgent)
        (map_to_list (ts_KeyBindings seg))) in
  if bool_decide (cs = ∅) then None else Some cs.

(** [ChildrenNames] lists exactly the agents one of whose bindings refers to
    the parent. *)
Lemma ChildrenNames_spec tp parent name :
  (∃ cs, ChildrenNames tp parent = Some cs ∧ name ∈ cs) ↔
  ∃ seg kind b, seg ∈ tp_Segments tp ∧ ts_Name seg = name ∧
    ts_KeyBindings seg !! kind = Some b ∧ kb_ParentKeyProvider b = Some parent.
Proof.
  unfold ChildrenNames. set (l := _ ≫= _).
  assert (name ∈ l ↔ ∃ seg kind b, seg ∈ tp_Segments tp ∧ ts_Name seg = name ∧
    ts_KeyBindings seg !! kind = Some b ∧ kb_ParentKeyProvider b = Some parent) as <-.
  { unfold l. rewrite list_elem_of_bind. setoid_rewrite list_elem_of_fmap. split.
    - intros (seg & ([kind b] & -> & Hin) & Hseg).
      apply list_elem_of_filter in Hin as [Hp Hin%elem_of_map_to_list].
      by exists seg, kind, b.
    - intros (seg & kind & b & Hseg & <- & Hb & Hp). exists seg. split; [|done].
      exists (kind, b). split; [done|]. apply list_elem_of_filter. split; [done|].
      by apply elem_of_map_to_list. }
  case_bool_decide as E.
  - split; [by intros (? & ? & ?)|]. intros Hin.
    apply (elem_of_list_to_set (C:=gset string)) in Hin. rewrite E in Hin. set_solver.
  - split; [intros (cs & [= <-] & Hin)|intros Hin; eexists; split; [done|]]; set_solver.
Qed.
End Topology.

Notation Topology := Topology.t.

(** ** The root key *)

Definition ErrRootKeyNoProviders : string := "spec.ErrRootKeyNoProviders".
Definition ErrRootKeyUnknownProvider : string := "spec.ErrRootKeyUnknownProvider".

Record RootKeySpec := mkRootKeySpec {
  rk_AllowedProviders : list string;
  rk_Vault : VaultSpec;
}.

(** [RootKeySpec.Validate]. *)
Definition RootKeySpec_Validate (s : RootKeySpec) : goerror :=
  if bool_decide (rk_AllowedProviders s = []) then Some (ESentinel ErrRootKeyNoProviders)
  else or_else (first_error (λ p, match ValidateType p with
                  | Some err => Some (wrap2 ErrRootKeyUnknownProvider err)
                  | None => None end) (rk_AllowedProviders s))
       (match VaultSpec_Validate (rk_Vault s) with Some err => Some (wrap1 err) | None => None end).

(** ** Segments and topology against the hierarchy *)

Module SegmentValidation.
Definition ErrSegmentStartKindNotInHierarchy : string := "spec.ErrSegmentStartKindNotInHierarchy".
Definition ErrSegmentEndKindNotInHierarchy : string := "spec.ErrSegmentEndKindNotInHierarchy".
Definition ErrSegmentStartAfterEnd : string := "spec.ErrSegmentStartAfterEnd".
Definition ErrSegmentBindingsMissing : string := "spec.ErrSegmentBindingsMissing".
Definition ErrSegmentBindingsExtra : string := "spec.ErrSegmentBindingsExtra".
Definition ErrRootSegmentStartNotFirst : string := "spec.ErrRootSegmentStartNotFirst".
Definition ErrRootSegmentEndIsTek : string := "spec.ErrRootSegmentEndIsTek".
Definition ErrAgentSegmentStartNotTek : string := "spec.ErrAgentSegmentStartNotTek".
Definition ErrAgentSegmentEndIsTek : string := "spec.ErrAgentSegmentEndIsTek".
Definition ErrAgentSegmentEndIsRoot : string := "spec.ErrAgentSegmentEndIsRoot".
Definition ErrAgentSegmentContainsRoot : string := "spec.ErrAgentSegmentContainsRoot".
Definition ErrAgentSegmentStartMissingParentKeyProvider : string :=
  "spec.ErrAgentSegmentStartMissingParentKeyProvider".
Definition ErrTekBindingMissingSealer : string := "spec.ErrTekBindingMissingSealer".
Definition ErrBindingMissingCryptor : string := "spec.ErrBindingMissingCryptor".
Definition ErrTopologyDuplicateSegmentName : string := "spec.ErrTopologyDuplicateSegmentName".
Definition ErrParentKeyProviderNotResolvable : string := "spec.ErrParentKeyProviderNotResolvable".
Definition ErrParentKeyProviderKeyNotInParentSegment : string :=
  "spec.ErrParentKeyProviderKeyNotInParentSegment".

Definition is_root (ks : KeySpec) : bool := String.eqb (ks_Role ks) KeyRoleRoot.

(** The role of a [KeySpec] looked up by kind; a missing one is the zero
    value, with the empty role. *)
Definition role_of (h : KeyHierarchy) (kind : string) : string :=
  match FindKeySpec h kind with Some ks => ks_Role ks | None => "" end.

(** [validateSegmentAgainstHierarchy]. *)
Definition validateSegmentAgainstHierarchy (h : KeyHierarchy) (seg : HierarchySegment)
    (bindings : Bindings) (exemptRoot : bool) : goerror :=
  let startIdx := IndexOf h (hs_StartKind seg) in
  if (startIdx <? 0)%Z then Some (wrap1 (ESentinel ErrSegmentStartKindNotInHierarchy))
  else let endIdx := IndexOf h (hs_EndKind seg) in
  if (endIdx <? 0)%Z then Some (wrap1 (ESentinel ErrSegmentEndKindNotInHierarchy))
  else if (endIdx <? startIdx)%Z then Some (ESentinel ErrSegmentStartAfterEnd)
  else
    let kindsInRange := slice (h_KeySpecs h) startIdx endIdx in
    let rangeSet : gset string := list_to_set (ks_Kind <$> kindsInRange) in
    or_else
      (first_error (λ ks,
         if (exemptRoot && is_root ks)%bool then None
         else if bool_decide (is_Some (bindings !! ks_Kind ks)) then None
         else Some (wrap1 (ESentinel ErrSegmentBindingsMissing))) kindsInRange)
      (first_error (λ kind,
         if bool_decide (kind ∈ rangeSet) then None
         else Some (wrap1 (ESentinel ErrSegmentBindingsExtra))) (map_to_list bindings).*1).

(** [ValidateSegmentAgainstHierarchy]. *)
Definition ValidateSegmentAgainstHierarchy (h : KeyHierarchy) (seg : HierarchySegment)
    (bindings : Bindings) : goerror :=
  validateSegmentAgainstHierarchy h seg bindings false.

Definition missing_cryptor (bindings : Bindings) (ks : KeySpec) : goerror :=
  let binding := default zero_binding (bindings !! ks_Kind ks) in
  match kb_CryptorSpec binding with
  | None => Some (wrap1 (ESentinel ErrBindingMissingCryptor))
  | Some _ => None
  end.

(** [ValidateRootSegment]. *)
Definition ValidateRootSegment (h : KeyHierarchy) (seg : HierarchySegment)
    (bindings : Bindings) : goerror :=
  or_else (validateSegmentAgainstHierarchy h seg bindings true)
    (if negb (IndexOf h (hs_StartKind seg) =? 0)%Z
     then Some (ESentinel ErrRootSegmentStartNotFirst)
     else if String.eqb (role_of h (hs_EndKind seg)) KeyRoleTek
     then Some (ESentinel ErrRootSegmentEndIsTek)
     else match KindsBetween h (hs_StartKind seg) (hs_EndKind seg) with
          | inr err => Some err
          | inl kindsInRange =>
              first_error (λ ks, if is_root ks then None else missing_cryptor bindings ks)
                kindsInRange
          end).

(** [ValidateAgentSegment]. *)
Definition ValidateAgentSegment (h : KeyHierarchy) (seg : HierarchySegment)
    (bindings : Bindings) : goerror :=
  or_else (ValidateSegmentAgainstHierarchy h seg bindings)
    (if negb (String.eqb (role_of h (hs_StartKind seg)) KeyRoleTek)
     then Some (ESentinel ErrAgentSegmentStartNotTek)
     else
       let isSingleKey := String.eqb (hs_StartKind seg) (hs_EndKind seg) in
       let endRole := role_of h (hs_EndKind seg) in
       if (negb isSingleKey && String.eqb endRole KeyRoleRoot)%bool
       then Some (ESentinel ErrAgentSegmentEndIsRoot)
       else if (negb isSingleKey && String.eqb endRole KeyRoleTek)%bool
       then Some (ESentinel ErrAgentSegmentEndIsTek)
       else
         let kindsInRange :=
           match KindsBetween h (hs_StartKind seg) (hs_EndKind seg) with
           | inl ks => ks | inr _ => [] end in
         or_else
           (first_error (λ ks, if is_root ks then Some (ESentinel ErrAgentSegmentContainsRoot)
                               else None) kindsInRange)
           (match bindings !! hs_StartKind seg with
            | None => Some (wrap1 (ESentinel ErrSegmentBindingsMissing))
            | Some startBinding =>
                match kb_ParentKeyProvider startBinding with
                | None => Some (ESentinel ErrAgentSegmentStartMissingParentKeyProvider)
                | Some _ =>
                    match kb_SealerSpec startBinding with
                    | None => Some (ESentinel ErrTekBindingMissingSealer)
                    | Some _ => first_error (missing_cryptor bindings) kindsInRange
                    end
                end
            end)).

(** The body of [validateBindingsParentProviders] for one binding. *)
Definition check_parent_provider (h : KeyHierarchy) (providers : gmap string HierarchySegment)
    (kb : string * KeyBinding) : goerror :=
  let '(kind, binding) := kb in
  match kb_ParentKeyProvider binding with
  | None => None
  | Some providerName =>
      match providers !! providerName with
      | None => Some (wrap1 (ESentinel ErrParentKeyProviderNotResolvable))
      | Some providerSeg =>
          let kindIdx := IndexOf h kind in
          if (kindIdx <=? 0)%Z then None
          else match h_KeySpecs h !! Z.to_nat (kindIdx - 1) with
               | None => None   (* not reached: the index is in range *)
               | Some parent =>
                   let parentIdx := IndexOf h (ks_Kind parent) in
                   let providerStartIdx := IndexOf h (hs_StartKind providerSeg) in
                   let providerEndIdx := IndexOf h (hs_EndKind providerSeg) in
                   if ((0 <=? providerStartIdx) && (0 <=? providerEndIdx))%Z%bool then
                     if ((parentIdx <? providerStartIdx) || (providerEndIdx <? parentIdx))%Z%bool
                     then Some (wrap1 (ESentinel ErrParentKeyProviderKeyNotInParentSegment))
                     else None
                   else None
               end
      end
  end.

(** [validateBindingsParentProviders]. *)
Definition validateBindingsParentProviders (h : KeyHierarchy) (bindings : Bindings)
    (ownerSeg : HierarchySegment) (providers : gmap string HierarchySegment) : goerror :=
  first_error (check_parent_provider h providers) (map_to_list bindings).

(** The first loop of [ValidateTopologyAgainstHierarchy]. *)
Fixpoint unique_names (segs : list TopologySegment) (uniqSegs : gset string) : goerror :=
  match segs with
  | [] => None
  | seg :: segs' =>
      if bool_decide (ts_Name seg ∈ uniqSegs)
      then Some (wrap1 (ESentinel ErrTopologyDuplicateSegmentName))
      else unique_names segs' ({[ts_Name seg]} ∪ uniqSegs)
  end.

Definition wrap_err (e : goerror) : goerror := wrap1 <$> e.

(** The table of parent key providers: the root, overwritten by agents. *)
Definition provider_table (rootSeg : HierarchySegment) (tp : Topology) :
    gmap string HierarchySegment :=
  foldl (λ m seg, <[ts_Name seg := ts_Segment seg]> m) {["root" := rootSeg]}
    (Topology.tp_Segments tp).

(** [ValidateTopologyAgainstHierarchy]. *)
Definition ValidateTopologyAgainstHierarchy (h : KeyHierarchy) (tp : Topology)
    (rootSeg : HierarchySegment) (rootBindings : Bindings) : goerror :=
  let segs := Topology.tp_Segments tp in
  or_else (unique_names segs ∅)
  (or_else (first_error (λ seg,
      wrap_err (ValidateAgentSegment h (ts_Segment seg) (ts_KeyBindings seg))) segs)
  (let providers := provider_table rootSeg tp in
   or_else (wrap_err (validateBindingsParentProviders h rootBindings rootSeg providers))
   (first_error (λ seg,
      wrap_err (validateBindingsParentProviders h (ts_KeyBindings seg) (ts_Segment seg) providers))
      segs))).

(** *** What validation establishes *)

Lemma segment_range h seg b ex :
  validateSegmentAgainstHierarchy h seg b ex = None →
  (0 <= IndexOf h (hs_StartKind seg) <= IndexOf h (hs_EndKind seg))%Z.
Proof.
  unfold validateSegmentAgainstHierarchy. intros H.
  repeat (split_match_in H; [done|]). to_prop. lia.
Qed.

Lemma segment_between h seg :
  (0 <= IndexOf h (hs_StartKind seg) <= IndexOf h (hs_EndKind seg))%Z →
  KindsBetween h (hs_StartKind seg) (hs_EndKind seg) =
    inl (slice (h_KeySpecs h) (IndexOf h (hs_StartKind seg)) (IndexOf h (hs_EndKind seg))).
Proof.
  intros H. unfold KindsBetween.
  destruct (Z.ltb_spec (IndexOf h (hs_StartKind seg)) 0); [lia|].
  destruct (Z.ltb_spec (IndexOf h (hs_EndKind seg)) 0); [lia|].
  destruct (Z.ltb_spec (IndexOf h (hs_EndKind seg)) (IndexOf h (hs_StartKind seg))); [lia|done].
Qed.

(** The keys of a segment, as the code slices them out of the hierarchy. *)
Definition segment_specs (h : KeyHierarchy) (seg : HierarchySegment) : list KeySpec :=
  match KindsBetween h (hs_StartKind seg) (hs_EndKind seg) with inl ks => ks | inr _ => [] end.

Lemma segment_specs_eq h seg b ex :
  validateSegmentAgainstHierarchy h seg b ex = None →
  segment_specs h seg =
    slice (h_KeySpecs h) (IndexOf h (hs_StartKind seg)) (IndexOf h (hs_EndKind seg)).
Proof. intros H%segment_range. unfold segment_specs. by rewrite segment_between. Qed.

Lemma segment_contains_specs h seg kind :
  NoDup (ks_Kind <$> h_KeySpecs h) →
  SegmentContains h seg kind = true ↔ kind ∈ ks_Kind <$> segment_specs h seg.
Proof.
  intros Hnd. rewrite SegmentContains_between by done. unfold segment_specs. split.
  - by intros (ks & -> & ?).
  - intros Hin. destruct (KindsBetween _ _ _) as [ks|e]; [by exists ks|set_solver].
Qed.

Lemma segment_bindings h seg b ex :
  validateSegmentAgainstHierarchy h seg b ex = None →
  (∀ ks, ks ∈ segment_specs h seg → ex = true ∧ is_root ks = true ∨ is_Some (b !! ks_Kind ks)) ∧
  (∀ kind, is_Some (b !! kind) → kind ∈ ks_Kind <$> segment_specs h seg).
Proof.
  intros H. rewrite (segment_specs_eq _ _ _ _ H). revert H.
  unfold validateSegmentAgainstHierarchy. intros H.
  repeat (split_match_in H; [done|]). apply or_else_None in H as [H1 H2].
  rewrite LabelsSpec.first_error_None in H1. rewrite LabelsSpec.first_error_None in H2. split.
  - intros ks Hks. specialize (H1 ks Hks). cbv beta in H1.
    destruct ex, (is_root ks); simpl in H1; auto; right; by case_bool_decide.
  - intros kind [v Hv]. specialize (H2 kind). cbv beta in H2. rewrite bool_decide_decide in H2.
    destruct (decide _) as [Hin|] in H2.
    + by apply elem_of_list_to_set in Hin.
    + discriminate H2. apply list_elem_of_fmap. exists (kind, v). split; [done|].
      by apply elem_of_map_to_list.
Qed.

Lemma segment_specs_elem h seg ks : ks ∈ segment_specs h seg → ks ∈ h_KeySpecs h.
Proof.
  unfold segment_specs. destruct (KindsBetween _ _ _) as [l|] eqn:E; [|set_solver].
  apply KindsBetween_inv in E as [Hr ->]. intros (i & Hi & _)%slice_elem; [|lia].
  by eapply list_elem_of_lookup_2.
Qed.

Lemma role_of_spec h ks :
  NoDup (ks_Kind <$> h_KeySpecs h) → ks ∈ h_KeySpecs h → role_of h (ks_Kind ks) = ks_Role ks.
Proof.
  intros Hnd [i Hi]%list_elem_of_lookup. unfold role_of.
  rewrite FindKeySpec_IndexOf, (IndexOf_unique _ i) by done.
  destruct (Z.ltb_spec (Z.of_nat i) 0); [lia|]. by rewrite Nat2Z.id, Hi.
Qed.

Lemma missing_cryptor_None b ks :
  missing_cryptor b ks = None →
  ∃ kb, b !! ks_Kind ks = Some kb ∧ is_Some (kb_CryptorSpec kb).
Proof.
  unfold missing_cryptor. destruct (b !! ks_Kind ks) as [kb|]; simpl; [|done].
  destruct (kb_CryptorSpec kb) eqn:E; [|done]. intros _. exists kb. by rewrite E.
Qed.

Lemma is_root_true ks : is_root ks = true ↔ ks_Role ks = KeyRoleRoot.
Proof. apply String.eqb_eq. Qed.

(** Everything [ValidateAgentSegment] checks, in terms of the segment's keys. *)
Lemma agent_segment_inv h seg b :
  ValidateAgentSegment h seg b = None →
  validateSegmentAgainstHierarchy h seg b false = None ∧
  role_of h (hs_StartKind seg) = KeyRoleTek ∧
  (hs_StartKind seg ≠ hs_EndKind seg → role_of h (hs_EndKind seg) ≠ KeyRoleTek) ∧
  (∀ ks, ks ∈ segment_specs h seg →
     ks_Role ks ≠ KeyRoleRoot ∧
     ∃ kb, b !! ks_Kind ks = Some kb ∧ is_Some (kb_CryptorSpec kb)) ∧
  (∃ kb, b !! hs_StartKind seg = Some kb ∧ is_Some (kb_ParentKeyProvider kb) ∧
     is_Some (kb_SealerSpec kb)).
Proof.
  unfold ValidateAgentSegment. intros [Hseg H]%or_else_None.
  fold (segment_specs h seg) in H.
  destruct (String.eqb_spec (role_of h (hs_StartKind seg)) KeyRoleTek) as [Ht|]; simpl in H; [|done].
  split_match_in H; [done|]. split_match_in H; [done|].
  apply or_else_None in H as [Hroot H]. rewrite LabelsSpec.first_error_None in Hroot.
  destruct (b !! hs_StartKind seg) as [kb|] eqn:Ekb; [|done].
  destruct (kb_ParentKeyProvider kb) eqn:Ep; [|done].
  destruct (kb_SealerSpec kb) eqn:Es; [|done].
  rewrite LabelsSpec.first_error_None in H. split_and!; try done.
  - intros Hne%String.eqb_neq Htek. by rewrite Hne, Htek in *.
  - intros ks Hks. split; [|by apply missing_cryptor_None, H].
    intros Hr. specialize (Hroot ks Hks). cbv beta in Hroot.
    apply is_root_true in Hr. by rewrite Hr in Hroot.
  - exists kb. rewrite Ep, Es. eauto.
Qed.

(** An agent segment that passes [ValidateAgentSegment] against a hierarchy
    with distinct kinds owns bindings for exactly the kinds of its range, none
    of them the root, each with a cryptor; it starts at a transport key whose
    binding names a parent key provider and a sealer. *)
Theorem agent_segment_sound h seg b :
  NoDup (ks_Kind <$> h_KeySpecs h) →
  ValidateAgentSegment h seg b = None →
  (∀ kind, is_Some (b !! kind) ↔ SegmentContains h seg kind = true) ∧
  (∀ kind, SegmentContains h seg kind = true →
     role_of h kind ≠ KeyRoleRoot ∧
     ∃ kb, b !! kind = Some kb ∧ is_Some (kb_CryptorSpec kb)) ∧
  role_of h (hs_StartKind seg) = KeyRoleTek ∧
  (∃ kb, b !! hs_StartKind seg = Some kb ∧ is_Some (kb_ParentKeyProvider kb) ∧
     is_Some (kb_SealerSpec kb)).
Proof.
  intros Hnd (Hseg & Ht & _ & Hks & Hstart)%agent_segment_inv.
  destruct (segment_bindings _ _ _ _ Hseg) as [Hb1 Hb2]. split_and!; [| |done..].
  - intros kind. rewrite segment_contains_specs by done. split; [apply Hb2|].
    intros (ks & -> & Hin)%list_elem_of_fmap. by destruct (Hb1 ks Hin) as [[? _]|].
  - intros kind. rewrite segment_contains_specs by done.
    intros (ks & -> & Hin)%list_elem_of_fmap. destruct (Hks ks Hin) as [Hr Hc].
    split; [|done]. rewrite (role_of_spec h ks); [done..|]. by eapply segment_specs_elem.
Qed.

Lemma unique_names_None segs : ∀ seen,
  unique_names segs seen = None →
  NoDup (ts_Name <$> segs) ∧ ∀ seg, seg ∈ segs → ts_Name seg ∉ seen.
Proof.
  induction segs as [|seg segs IH]; intros seen; simpl; [split; [constructor|set_solver]|].
  case_bool_decide as Hin; [done|]. intros [Hnd Hseen]%IH. split.
  - apply NoDup_cons. split; [|done]. intros (seg' & E & Hin')%list_elem_of_fmap.
    apply Hseen in Hin'. set_solver.
  - intros seg'. rewrite elem_of_cons. intros [->|Hin']; [done|]. apply Hseen in Hin'. set_solver.
Qed.

(** Who can provide parent keys under a name. *)
Definition provides (rootSeg : HierarchySegment) (tp : Topology) (name : string)
    (s : HierarchySegment) : Prop :=
  (name = "root" ∧ s = rootSeg) ∨
  ∃ seg, seg ∈ Topology.tp_Segments tp ∧ ts_Name seg = name ∧ ts_Segment seg = s.

Lemma provider_table_lookup rootSeg tp name s :
  provider_table rootSeg tp !! name = Some s → provides rootSeg tp name s.
Proof.
  unfold provider_table, provides. destruct tp as [segs]; simpl.
  induction segs as [|seg segs IH] using rev_ind; simpl.
  - intros [-> ->]%lookup_singleton_Some. by left.
  - rewrite foldl_app. simpl. intros [[<- <-]|[_ H]]%lookup_insert_Some.
    + right. exists seg. split; [set_solver|done].
    + destruct (IH H) as [?|(seg' & ? & ?)]; [by left|]. right. exists seg'. set_solver.
Qed.

Lemma wf_root_index `{!Regexp} h kind :
  KeyHierarchy.wf h → IndexOf h kind = 0%Z → role_of h kind = KeyRoleRoot.
Proof.
  intros [_ _ _ Hroles Hnd] Hi. destruct (IndexOf_found h kind 0 Hi) as (k & Hk & <-).
  rewrite role_of_spec; [by apply (Hroles 0)|done|by eapply list_elem_of_lookup_2].
Qed.

Lemma contains_index h seg kind :
  (0 <= IndexOf h (hs_StartKind seg))%Z → (0 <= IndexOf h (hs_EndKind seg))%Z →
  (IndexOf h (hs_StartKind seg) <= IndexOf h kind <= IndexOf h (hs_EndKind seg))%Z →
  SegmentContains h seg kind = true.
Proof.
  intros H1 H2 H3. unfold SegmentContains.
  destruct (Z.ltb_spec (IndexOf h (hs_StartKind seg)) 0); [lia|].
  destruct (Z.ltb_spec (IndexOf h (hs_EndKind seg)) 0); [lia|].
  destruct (Z.ltb_spec (IndexOf h kind) 0); [lia|]. simpl.
  apply andb_true_iff. split; apply Z.leb_le; lia.
Qed.

Lemma check_parent_provider_None h providers kind kb agent pseg p :
  NoDup (ks_Kind <$> h_KeySpecs h) →
  check_parent_provider h providers (kind, kb) = None →
  kb_ParentKeyProvider kb = Some agent → providers !! agent = Some pseg →
  (0 <= IndexOf h (hs_StartKind pseg))%Z → (0 <= IndexOf h (hs_EndKind pseg))%Z →
  FindParentKeySpec h kind = Some p →
  SegmentContains h pseg (ks_Kind p) = true.
Proof.
  intros Hnd H Ekb Epr Hs He Hp. simpl in H. rewrite Ekb, Epr in H.
  unfold FindParentKeySpec in Hp. split_match_in Hp; [done|]. rewrite Hp in H.
  apply contains_index; [done..|]. repeat split_match_in H; try done; to_prop; lia.
Qed.

Lemma topology_inv h tp rootSeg rootBindings :
  ValidateTopologyAgainstHierarchy h tp rootSeg rootBindings = None →
  NoDup (ts_Name <$> Topology.tp_Segments tp) ∧
  ∀ seg, seg ∈ Topology.tp_Segments tp →
    ValidateAgentSegment h (ts_Segment seg) (ts_KeyBindings seg) = None ∧
    ∀ kind kb, ts_KeyBindings seg !! kind = Some kb →
      check_parent_provider h (provider_table rootSeg tp) (kind, kb) = None.
Proof.
  unfold ValidateTopologyAgainstHierarchy, wrap_err.
  intros [Hu [Ha [_ Hp]%or_else_None]%or_else_None]%or_else_None.
  rewrite LabelsSpec.first_error_None in Ha. rewrite LabelsSpec.first_error_None in Hp.
  split; [by eapply unique_names_None|]. intros seg Hin.
  specialize (Ha seg Hin). specialize (Hp seg Hin). cbv beta in Ha, Hp.
  rewrite fmap_None in Ha, Hp. split; [done|]. intros kind kb Hkb.
  unfold validateBindingsParentProviders in Hp. rewrite LabelsSpec.first_error_None in Hp.
  apply Hp. by apply elem_of_map_to_list.
Qed.

(** C33: in a deployment whose hierarchy, root segment and topology all pass
    validation, agent names are distinct and every agent's first key has a
    parent in the hierarchy, held by the segment of the provider its binding
    names (the root or another agent of the topology). *)
Theorem topology_parent_resolves `{!Regexp} h tp rootSeg rootBindings :
  KeyHierarchy.Validate h = None →
  ValidateRootSegment h rootSeg rootBindings = None →
  ValidateTopologyAgainstHierarchy h tp rootSeg rootBindings = None →
  NoDup (ts_Name <$> Topology.tp_Segments tp) ∧
  ∀ seg, seg ∈ Topology.tp_Segments tp →
    ∃ kb agent pseg parent,
      ts_KeyBindings seg !! hs_StartKind (ts_Segment seg) = Some kb ∧
      kb_ParentKeyProvider kb = Some agent ∧
      provides rootSeg tp agent pseg ∧
      FindParentKeySpec h (hs_StartKind (ts_Segment seg)) = Some parent ∧
      SegmentContains h pseg (ks_Kind parent) = true.
Proof.
  intros Hwf%KeyHierarchy.Validate_wf Hroot [Hnd Hsegs]%topology_inv. split; [done|].
  intros seg Hseg. destruct (Hsegs seg Hseg) as [Ha Hp].
  destruct (agent_segment_inv _ _ _ Ha) as (Hv & Ht & _ & _ & (kb & Hkb & [agent Hagent] & _)).
  specialize (Hp _ _ Hkb). pose proof (wf_kinds _ Hwf) as Hk.
  destruct (provider_table rootSeg tp !! agent) as [pseg|] eqn:Epr;
    [|by simpl in Hp; rewrite Hagent, Epr in Hp].
  pose proof (provider_table_lookup _ _ _ _ Epr) as Hprov.
  assert (0 <= IndexOf h (hs_StartKind pseg) <= IndexOf h (hs_EndKind pseg))%Z as Hr.
  { destruct Hprov as [[_ ->]|(seg' & Hseg' & _ & <-)].
    - apply or_else_None in Hroot as [Hroot _]. by eapply segment_range.
    - destruct (Hsegs seg' Hseg') as [(Hv' & _)%agent_segment_inv _]. by eapply segment_range. }
  destruct (FindParentKeySpec h (hs_StartKind (ts_Segment seg))) as [p|] eqn:Efp.
  - exists kb, agent, pseg, p. split_and!; [done..|].
    eapply check_parent_provider_None; eauto; lia.
  - exfalso. unfold FindParentKeySpec in Efp. apply segment_range in Hv.
    destruct (Z.leb_spec (IndexOf h (hs_StartKind (ts_Segment seg))) 0) as [Hle|Hgt].
    + rewrite (wf_root_index h) in Ht; [done..|lia].
    + apply lookup_ge_None in Efp.
      destruct (IndexOf_range h (hs_StartKind (ts_Segment seg))); lia.
Qed.

(** *** A deployment that passes every check *)

Module Deployment.
#[local] Instance no_regexp : Regexp := λ _, None.

Definition labels : LabelsSpec.t := LabelsSpec.mk ∅ true.
Definition spec_ (kind role : string) : KeySpec :=
  KeySpec.mk kind role KeyAlgorithmAES256 labels.
Definition h : KeyHierarchy := KeyHierarchy.mk "h"
  [spec_ "K0" KeyRoleRoot; spec_ "K1" KeyRoleKek; spec_ "K2" KeyRoleTek; spec_ "K3" KeyRoleDek].
Definition crypt : CryptorSpec := mkCryptorSpec "c" "aes256gcm" None.
Definition seal : SealerSpec := mkSealerSpec "s" TypeStaticSecret None None.
Definition rootSeg := mkHierarchySegment "K0" "K1".
Definition rootBindings : Bindings := {["K1" := mkKeyBinding None (Some crypt) None None]}.
Definition agentSeg := mkHierarchySegment "K2" "K3".
Definition agentBindings : Bindings :=
  {["K2" := mkKeyBinding (Some seal) (Some crypt) None (Some "root");
    "K3" := mkKeyBinding None (Some crypt) None None]}.
Definition tp : Topology :=
  Topology.mk [mkTopologySegment "eu" agentSeg agentBindings ∅].

Lemma kinds_nodup : NoDup (ks_Kind <$> h_KeySpecs h).
Proof. by apply (bool_decide_unpack _); vm_compute. Qed.

Lemma parent_spec_is_predecessor_witness :
  match FindParentKeySpec h (ks_Kind (spec_ "K2" KeyRoleTek)) with
  | None => 2 = 0
  | Some p => ∃ j, 2 = S j ∧ h_KeySpecs h !! j = Some p ∧ ks_Role p ≠ KeyRoleDek
  end.
Proof.
  apply (KeyHierarchy.parent_spec_is_predecessor h 2 (spec_ "K2" KeyRoleTek));
    vm_compute; reflexivity.
Defined.

Lemma agent_segment_sound_witness :
  SegmentContains h agentSeg "K3" = true ∧ is_Some (agentBindings !! "K3").
Proof.
  assert (SegmentContains h agentSeg "K3" = true) as Hc by (vm_compute; reflexivity).
  split; [exact Hc|].
  apply (proj1 (agent_segment_sound h agentSeg agentBindings kinds_nodup eq_refl)). exact Hc.
Defined.

Lemma topology_parent_resolves_witness :
  ∃ agent parent,
    FindParentKeySpec h "K2" = Some parent ∧ provides rootSeg tp agent rootSeg ∧
    SegmentContains h rootSeg (ks_Kind parent) = true.
Proof.
  destruct (proj2 (topology_parent_resolves h tp rootSeg rootBindings eq_refl eq_refl eq_refl)
              (mkTopologySegment "eu" agentSeg agentBindings ∅) (list_elem_of_here _ _))
    as (kb & agent & pseg & parent & Hkb & Hag & Hprov & Hp & Hc).
  exists agent, parent. vm_compute in Hkb. injection Hkb as <-. vm_compute in Hag.
  injection Hag as <-.
  destruct Hprov as [[_ ->]|(seg & Hin & Hn & _)].
  - split; [exact Hp|]. split; [left; split; reflexivity|exact Hc].
  - exfalso. apply list_elem_of_singleton in Hin. subst seg. vm_compute in Hn. discriminate.
Defined.
End Deployment.
End SegmentValidation.
