(* ===== verification/Config.v ===== *)
(** * Configuration: internal/config

    The root's configuration, its validation (root.go, auth.go, connection.go,
    tls.go, kmip.go, address.go) and the configuration an agent is given when it
    registers (agent.go).  Reading YAML and files is not modelled: a
    configuration is the value that was decoded, and building TLS credentials
    from paths is left out. *)

From S2P Require Import Prelude GoStrings GoRuntime Identity Model World Lifecycle Providers.
From S2P Require Import Hierarchy.

Local Open Scope string_scope.

Definition AgentRole : string := "agent".
Definition RootRole : string := "root".
Definition defaultKeepAlive : Z := 30.
Definition AddressTypeGRPC : string := "grpc".
Definition AuthTypeMTLS : string := "mtls".

Definition ErrConfigNameEmpty : string := "config.ErrConfigNameEmpty".
Definition ErrRoleInvalid : string := "config.ErrRoleInvalid".
Definition ErrConfigKeyBindingsEmpty : string := "config.ErrConfigKeyBindingsEmpty".
Definition ErrAuthConfigMissing : string := "config.ErrAuthConfigMissing".
Definition ErrAgentNotAllowed : string := "config.ErrAgentNotAllowed".
Definition ErrIdentityConfigsMissing : string := "config.ErrIdentityConfigsMissing".
Definition ErrRootKeyMissing : string := "config.ErrRootKeyMissing".
Definition ErrInvalidConnectionConfig : string := "config.ErrInvalidConnectionConfig".
Definition ErrNoConnectionConfig : string := "config.ErrNoConnectionConfig".
Definition ErrConfigAddressEmpty : string := "config.ErrConfigAddressEmpty".
Definition ErrAddressTypeInvalid : string := "config.ErrAddressTypeInvalid".
Definition ErrUnknownAuthType : string := "config.ErrUnknownAuthType".
Definition ErrNilAuthConfig : string := "config.ErrNilAuthConfig".
Definition ErrInvalidIdentities : string := "config.ErrInvalidIdentities".
Definition ErrInvalidTLSConfig : string := "config.ErrInvalidTLSConfig".
Definition ErrKMIPEmptyBindAddr : string := "config.ErrKMIPEmptyBindAddr".
Definition ErrKMIPInvalidPort : string := "config.ErrKMIPInvalidPort".

Definition wrap_err (e : goerror) : goerror := wrap1 <$> e.

(** ** Leaves *)

Record Address := mkAddress { ad_Type : string; ad_URL : string }.

Definition Address_Validate (a : Address) : goerror :=
  if negb (String.eqb (ad_Type a) AddressTypeGRPC) then Some (wrap1 (ESentinel ErrAddressTypeInvalid))
  else if String.eqb (ad_URL a) "" then Some (ESentinel ErrConfigAddressEmpty)
  else None.

(** [TLSClient] and [TLSServer]: the same three paths. *)
Record TLSPaths := mkTLSPaths { tls_CertPath : string; tls_KeyPath : string; tls_CAPath : string }.

(** [TLSClient.Validate], [TLSServer.Validate]. *)
Definition TLS_Validate (c : TLSPaths) : goerror :=
  if (String.eqb (tls_CertPath c) "" || String.eqb (tls_KeyPath c) "" || String.eqb (tls_CAPath c) "")%bool
  then Some (ESentinel ErrInvalidTLSConfig) else None.

Record KMIP := mkKMIP { km_BindAddr : string; km_Port : Z; km_TLS : TLSPaths }.

Definition KMIP_Validate (c : KMIP) : goerror :=
  if String.eqb (km_BindAddr c) "" then Some (ESentinel ErrKMIPEmptyBindAddr)
  else if ((km_Port c <? 1) || (65535 <? km_Port c))%Z%bool then Some (wrap1 (ESentinel ErrKMIPInvalidPort))
  else TLS_Validate (km_TLS c).

Record MTLSConfig := mkMTLSConfig { mt_Server : TLSPaths; mt_Client : TLSPaths }.

Definition MTLSConfig_Validate (m : MTLSConfig) : goerror :=
  or_else (wrap_err (TLS_Validate (mt_Server m))) (wrap_err (TLS_Validate (mt_Client m))).

Record IdentityConfig := mkIdentityConfig { ic_Name : string; ic_URI : string }.

(** [RootAuthConfig] and [AgentAuthConfig]; [MTLSConfig] is the only [AuthConfig]. *)
Record RootAuthConfig := mkRootAuthConfig {
  ra_AuthType : string;
  ra_IdentityConfigs : list IdentityConfig;
  ra_Config : option MTLSConfig;
}.
Record AgentAuthConfig := mkAgentAuthConfig { aa_AuthType : string; aa_Config : option MTLSConfig }.

(** The loop of [RootAuthConfig.Validate]. *)
Definition validate_identity (i : IdentityConfig) : goerror :=
  if String.eqb (trim_space (ic_Name i)) "" then Some (wrap1 (ESentinel ErrInvalidIdentities))
  else match Parse (ic_URI i) with
       | Err err => Some (wrap1 (EWrap [ESentinel ErrInvalidIdentities; err]))
       | _ => None
       end.

Definition RootAuthConfig_Validate (c : RootAuthConfig) : goerror :=
  if negb (String.eqb (ra_AuthType c) AuthTypeMTLS) then Some (wrap1 (ESentinel ErrUnknownAuthType))
  else if bool_decide (ra_IdentityConfigs c = []) then Some (wrap1 (ESentinel ErrInvalidIdentities))
  else or_else (LabelsSpec.first_error validate_identity (ra_IdentityConfigs c))
    (match ra_Config c with
     | None => Some (ESentinel ErrNilAuthConfig)
     | Some m => MTLSConfig_Validate m
     end).

Definition AgentAuthConfig_Validate (c : AgentAuthConfig) : goerror :=
  if negb (String.eqb (aa_AuthType c) AuthTypeMTLS) then Some (wrap1 (ESentinel ErrUnknownAuthType))
  else match aa_Config c with
       | None => Some (ESentinel ErrNilAuthConfig)
       | Some m => MTLSConfig_Validate m
       end.

(** [IdentityConfigs.URIs]. *)
Definition URIs (ids : list IdentityConfig) : list string := ic_URI <$> ids.

(** ** Connections: connection.go *)

Record ConnectionConfig := mkConnectionConfig { cc_Name : string; cc_Address : Address }.
#[export] Instance Address_eq_dec : EqDecision Address.
Proof. solve_decision. Defined.
#[export] Instance ConnectionConfig_eq_dec : EqDecision ConnectionConfig.
Proof. solve_decision. Defined.
#[export] Instance IdentityConfig_eq_dec : EqDecision IdentityConfig.
Proof. solve_decision. Defined.

(** The loop of [ByNames] and of [AgentIdentities]: the first entry of each
    wanted name is taken and the name is no longer wanted; what is left. *)
Fixpoint take_first {A} (name : A → string) (l : list A) (wanted : gset string) : list A * gset string :=
  match l with
  | [] => ([], wanted)
  | x :: l' =>
      if bool_decide (name x ∈ wanted) then
        let '(res, rest) := take_first name l' (wanted ∖ {[name x]}) in (x :: res, rest)
      else take_first name l' wanted
  end.

(** [ConnectionConfigs.ByNames]. *)
Definition ByNames (cs : list ConnectionConfig) (agentNames : list string) :
    list ConnectionConfig + error :=
  match agentNames with
  | [] => inr (wrap1 (ESentinel ErrNoConnectionConfig))
  | _ =>
      let '(res, filters) := take_first cc_Name cs (list_to_set agentNames) in
      if bool_decide (filters = ∅) then inl res else inr (wrap1 (ESentinel ErrNoConnectionConfig))
  end.

(** [ConnectionConfig.validate]. *)
Definition ConnectionConfig_validate (c : ConnectionConfig) : goerror :=
  if String.eqb (cc_Name c) "" then Some (wrap1 (ESentinel ErrInvalidConnectionConfig))
  else match Address_Validate (cc_Address c) with
       | Some err => Some (EWrap [ESentinel ErrInvalidConnectionConfig; err])
       | None => None
       end.

(** The first loop of [ConnectionConfigs.Validate]: the names seen. *)
Fixpoint validate_connections (cs : list ConnectionConfig) (seen : gset string) : gset string + error :=
  match cs with
  | [] => inl seen
  | c :: cs' =>
      match ConnectionConfig_validate c with
      | Some err => inr err
      | None =>
          if bool_decide (cc_Name c ∈ seen) then inr (wrap1 (ESentinel ErrInvalidConnectionConfig))
          else validate_connections cs' ({[cc_Name c]} ∪ seen)
      end
  end.

(** ** The root: root.go *)

Record RootConfig := mkRootConfig {
  rc_Name : string;
  rc_Role : string;
  rc_Auth : option RootAuthConfig;
  rc_Segment : HierarchySegment;
  rc_SelectorLabels : Labels;
  rc_RootKey : option RootKeySpec;
  rc_KeyBindings : Bindings;
  rc_Hierarchy : KeyHierarchy;
  rc_Topology : Topology;
  rc_Connections : list ConnectionConfig;
  rc_KMIP : option KMIP;
}.

Definition segment_names (cfg : RootConfig) : list string := ts_Name <$> Topology.tp_Segments (rc_Topology cfg).

(** [ConnectionConfigs.Validate], for a root that is not nil. *)
Definition ConnectionConfigs_Validate (cs : list ConnectionConfig) (rc : RootConfig) : goerror :=
  match validate_connections cs ∅ with
  | inr err => Some err
  | inl seen =>
      or_else
        (LabelsSpec.first_error (λ name, if bool_decide (name ∈ seen) then None
                              else Some (wrap1 (ESentinel ErrInvalidConnectionConfig))) (segment_names rc))
        (if bool_decide (rc_Name rc ∈ seen) then None
         else Some (wrap1 (ESentinel ErrInvalidConnectionConfig)))
  end.

(** The loop of [ValidateAuthIdentities]: the names still expected. *)
Fixpoint check_identities (ids : list IdentityConfig) (seen expected : gset string) : gset string + error :=
  match ids with
  | [] => inl expected
  | i :: ids' =>
      if bool_decide (ic_Name i ∈ seen) then inr (wrap1 (ESentinel ErrInvalidIdentities))
      else check_identities ids' ({[ic_Name i]} ∪ seen) (expected ∖ {[ic_Name i]})
  end.

(** [IdentityConfigs.ValidateAuthIdentities]. *)
Definition ValidateAuthIdentities (ids : list IdentityConfig) (cfg : RootConfig) : goerror :=
  match check_identities ids ∅ (list_to_set (rc_Name cfg :: segment_names cfg)) with
  | inr err => Some err
  | inl expected =>
      if bool_decide (expected = ∅) then None else Some (wrap1 (ESentinel ErrInvalidIdentities))
  end.

(** [RootConfig.Validate]. *)
Definition RootConfig_Validate {RE : Regexp} (cfg : RootConfig) : goerror :=
  if String.eqb (rc_Name cfg) "" then Some (ESentinel ErrConfigNameEmpty)
  else if negb (String.eqb (rc_Role cfg) RootRole) then Some (wrap1 (ESentinel ErrRoleInvalid))
  else
  or_else (wrap_err (KeyHierarchy.Validate (rc_Hierarchy cfg)))
  (or_else (wrap_err (Topology.Validate (rc_Topology cfg)))
  (or_else (wrap_err (HierarchySegment_Validate (rc_Segment cfg)))
  (if bool_decide (rc_KeyBindings cfg = ∅) then Some (ESentinel ErrConfigKeyBindingsEmpty)
   else match rc_RootKey cfg with
   | None => Some (ESentinel ErrRootKeyMissing)
   | Some rk =>
       or_else (wrap_err (RootKeySpec_Validate rk))
       (or_else (wrap_err (SegmentValidation.ValidateRootSegment (rc_Hierarchy cfg) (rc_Segment cfg) (rc_KeyBindings cfg)))
       (or_else (wrap_err (SegmentValidation.ValidateTopologyAgainstHierarchy (rc_Hierarchy cfg) (rc_Topology cfg)
                             (rc_Segment cfg) (rc_KeyBindings cfg)))
       (or_else (match rc_KMIP cfg with Some k => wrap_err (KMIP_Validate k) | None => None end)
       (or_else (match rc_Auth cfg with
                 | Some a => or_else (wrap_err (RootAuthConfig_Validate a))
                               (wrap_err (ValidateAuthIdentities (ra_IdentityConfigs a) cfg))
                 | None => None
                 end)
         (wrap_err (ConnectionConfigs_Validate (rc_Connections cfg) cfg))))))
   end))).

(** [RootConfig.AgentIdentities]. *)
Definition AgentIdentities (cfg : RootConfig) (agentName : string) : list IdentityConfig + error :=
  match rc_Auth cfg with
  | None => inr (wrap1 (ESentinel ErrAuthConfigMissing))
  | Some auth =>
      let cns := {[rc_Name cfg]} ∪ default ∅ (Topology.ChildrenNames (rc_Topology cfg) agentName) in
      let '(res, rest) := take_first ic_Name (ra_IdentityConfigs auth) cns in
      let isAgentAllowed := existsb (λ id, String.eqb (ic_Name id) agentName) (ra_IdentityConfigs auth) in
      if negb isAgentAllowed then inr (wrap1 (ESentinel ErrAgentNotAllowed))
      else if negb (bool_decide (rest = ∅)) then inr (wrap1 (ESentinel ErrIdentityConfigsMissing))
      else inl res
  end.

(** ** Agents: agent.go *)

Record AgentConfig := mkAgentConfig {
  ac_Name : string;
  ac_KeyBindings : Bindings;
  ac_Connections : list ConnectionConfig;
  ac_IdentityConfigs : list IdentityConfig;
  ac_Segment : HierarchySegment;
  ac_SelectorLabels : Labels;
  ac_Role : string;
  ac_Hierarchy : KeyHierarchy;
  ac_KeepAlive : Z;
}.

(** [NewAgentConfig]. *)
Definition NewAgentConfig (h : KeyHierarchy) (seg : TopologySegment) (identities : list IdentityConfig)
    (connections : list ConnectionConfig) : AgentConfig :=
  mkAgentConfig (ts_Name seg) (ts_KeyBindings seg) connections identities (ts_Segment seg)
    (ts_SelectorLabels seg) AgentRole h defaultKeepAlive.

Record AgentBootstrapConfig := mkAgentBootstrapConfig {
  ab_Name : string;
  ab_Role : string;
  ab_Auth : option AgentAuthConfig;
  ab_KryptonRoot : Address;
}.

(** [AgentBootstrapConfig.Validate]. *)
Definition AgentBootstrapConfig_Validate (cfg : AgentBootstrapConfig) : goerror :=
  if String.eqb (ab_Name cfg) "" then Some (ESentinel ErrConfigNameEmpty)
  else if negb (String.eqb (ab_Role cfg) AgentRole) then Some (wrap1 (ESentinel ErrRoleInvalid))
  else or_else (wrap_err (Address_Validate (ab_KryptonRoot cfg)))
    (match ab_Auth cfg with Some a => wrap_err (AgentAuthConfig_Validate a) | None => None end).

(** ** Registration *)

(** The part of [AgentService.Register] that computes the agent's configuration
    (pkg/api/v1/proto/agents/service.go), with the code it fails with. *)
Definition registration_config (cfg : RootConfig) (agentName : string) : AgentConfig + error :=
  match Topology.GetSegmentByName (rc_Topology cfg) agentName with
  | None => inr (ErrDetailsWithCode NotFound ERROR_CODE_ABORT)
  | Some seg =>
      match (match rc_Auth cfg with Some _ => AgentIdentities cfg agentName | None => inl [] end) with
      | inr _ => inr (ErrDetailsWithCode FailedPrecondition ERROR_CODE_ABORT)
      | inl ids =>
          match Topology.ParentName (rc_Topology cfg) agentName with
          | None => inr (ErrDetailsWithCode FailedPrecondition ERROR_CODE_ABORT)
          | Some parentName =>
              match ByNames (rc_Connections cfg) [parentName] with
              | inr _ => inr (ErrDetailsWithCode FailedPrecondition ERROR_CODE_ABORT)
              | inl ccs => inl (NewAgentConfig (rc_Hierarchy cfg) seg ids ccs)
              end
          end
      end
  end.

(** ** What the loops compute *)

Lemma take_first_spec {A} (name : A → string) cs : ∀ filters res rest,
  take_first name cs filters = (res, rest) →
  rest = filters ∖ list_to_set (name <$> cs) ∧
  ∀ c, c ∈ res ↔ ∃ i, cs !! i = Some c ∧ name c ∈ filters ∧
                      ∀ j c', j < i → cs !! j = Some c' → name c' ≠ name c.
Proof.
  induction cs as [|c cs IH]; intros filters res rest; cbn [take_first fmap list_fmap list_to_set].
  - intros [= <- <-]. split; [by rewrite difference_empty_L|]. intros c.
    split; [by intros ?%elem_of_nil|]. by intros (i & Hi & _).
  - case_bool_decide as Hc.
    + destruct (take_first name cs (filters ∖ {[name c]})) as [res' rest'] eqn:E. intros [= <- <-].
      apply IH in E as [-> Hres]. split; [by rewrite difference_difference_l_L|].
      intros x. rewrite elem_of_cons, Hres. split.
      * intros [->|(i & Hi & [Hf Hne%not_elem_of_singleton]%elem_of_difference & Hj)].
        { exists 0. split_and!; [done..|]. lia. }
        exists (S i). split_and!; [done..|]. intros [|j] c' Hlt Hc'; [injection Hc' as <-; congruence|].
        eapply (Hj j); [lia|done].
      * intros ([|i] & Hi & Hf & Hj); [by left; injection Hi as ->|right]. exists i. split_and!; [done| |].
        -- pose proof (Hj 0 c ltac:(lia) eq_refl). apply elem_of_difference. split; [done|].
           apply not_elem_of_singleton. congruence.
        -- intros j c' Hlt Hc'. apply (Hj (S j)); [lia|done].
    + intros E. apply IH in E as [-> Hres]. split.
      { rewrite <-difference_difference_l_L. f_equal. symmetry. apply difference_disjoint_L.
        by apply disjoint_singleton_r. }
      intros x. rewrite Hres. split.
      * intros (i & Hi & Hf & Hj). exists (S i). split_and!; [done..|].
        intros [|j] c' Hlt Hc'; [injection Hc' as <-; congruence|]. eapply (Hj j); [lia|done].
      * intros ([|i] & Hi & Hf & Hj); [injection Hi as ->; done|]. exists i. split_and!; [done..|].
        intros j c' Hlt Hc'. apply (Hj (S j)); [lia|done].
Qed.

Lemma first_named_elem {A} (name : A → string) (l : list A) n :
  n ∈ name <$> l → ∃ i x, l !! i = Some x ∧ name x = n ∧ ∀ j y, j < i → l !! j = Some y → name y ≠ n.
Proof.
  induction l as [|x l IH]; [by intros ?%elem_of_nil|]. rewrite fmap_cons, elem_of_cons.
  destruct (decide (name x = n)) as [Hx|Hx].
  - intros _. exists 0, x. split_and!; [done..|]. lia.
  - intros [?|(i & y & Hi & Hy & Hj)%IH]; [congruence|]. exists (S i), y. split_and!; [done..|].
    intros [|j] z Hlt Hz; [injection Hz as <-; done|]. eapply Hj; [|done]. lia.
Qed.

(** Every wanted name that occurs gets its first entry, and only if all occur
    nothing is left. *)
Lemma take_first_all {A} (name : A → string) l wanted :
  wanted ⊆ list_to_set (name <$> l) →
  ∃ res, take_first name l wanted = (res, ∅) ∧
    (∀ x, x ∈ res → x ∈ l ∧ name x ∈ wanted) ∧ ∀ n, n ∈ wanted → ∃ x, x ∈ res ∧ name x = n.
Proof.
  intros Hw. destruct (take_first name l wanted) as [res rest] eqn:E.
  apply take_first_spec in E as [-> Hres]. exists res. split_and!.
  - f_equal. by apply subseteq_empty_difference_L.
  - intros x (i & Hi & Hn & _)%Hres. split; [by eapply list_elem_of_lookup_2|done].
  - intros n Hn. specialize (Hw n Hn). apply elem_of_list_to_set, first_named_elem in Hw as (i & x & Hi & <- & Hj).
    exists x. split; [|done]. apply Hres. eauto.
Qed.

Lemma ByNames_one cs n :
  n ∈ cc_Name <$> cs →
  ∃ c ccs, ByNames cs [n] = inl ccs ∧ c ∈ ccs ∧ c ∈ cs ∧ cc_Name c = n.
Proof.
  intros Hn. unfold ByNames. destruct (take_first_all cc_Name cs (list_to_set [n])) as (res & -> & Hin & Hall).
  { intros x. rewrite !elem_of_list_to_set, list_elem_of_singleton. by intros ->. }
  rewrite bool_decide_true by done. destruct (Hall n) as (c & Hc & <-).
  { by apply elem_of_list_to_set, list_elem_of_singleton. }
  exists c, res. split_and!; [done..| |done]. by apply Hin.
Qed.

Lemma validate_connections_inl cs : ∀ seen seen',
  validate_connections cs seen = inl seen' → seen' = seen ∪ list_to_set (cc_Name <$> cs).
Proof.
  induction cs as [|c cs IH]; intros seen seen'; cbn [validate_connections fmap list_fmap list_to_set].
  - intros [= <-]. by rewrite union_empty_r_L.
  - destruct (ConnectionConfig_validate c); [done|]. case_bool_decide; [done|]. intros ->%IH.
    by rewrite (union_comm_L _ seen), union_assoc_L.
Qed.

Lemma check_identities_inl ids : ∀ seen expected rest,
  check_identities ids seen expected = inl rest → rest = expected ∖ list_to_set (ic_Name <$> ids).
Proof.
  induction ids as [|i ids IH]; intros seen expected rest; cbn [check_identities fmap list_fmap list_to_set].
  - intros [= <-]. by rewrite difference_empty_L.
  - case_bool_decide; [done|]. intros ->%IH. by rewrite difference_difference_l_L.
Qed.

(** ** A validated root *)

Section validated.
Context {RE : Regexp} (cfg : RootConfig).
Hypothesis Hvalid : RootConfig_Validate cfg = None.

Notation tp := (rc_Topology cfg).

Lemma validated_parts :
  Topology.Validate tp = None ∧
  SegmentValidation.ValidateTopologyAgainstHierarchy (rc_Hierarchy cfg) tp (rc_Segment cfg) (rc_KeyBindings cfg) = None ∧
  (∀ auth, rc_Auth cfg = Some auth → ValidateAuthIdentities (ra_IdentityConfigs auth) cfg = None) ∧
  ConnectionConfigs_Validate (rc_Connections cfg) cfg = None.
Proof.
  revert Hvalid. unfold RootConfig_Validate, wrap_err. destruct (String.eqb _ _); [done|].
  destruct (negb _); [done|]. intros [_ [Ht [_ H]%or_else_None]%or_else_None]%or_else_None.
  destruct (bool_decide _); [done|]. destruct (rc_RootKey cfg); [|done].
  apply or_else_None in H as [_ [_ [Hh [_ [Ha Hc]%or_else_None]%or_else_None]%or_else_None]%or_else_None].
  rewrite fmap_None in Ht, Hh, Hc. split_and!; [done..| |done].
  intros auth E. rewrite E in Ha. apply or_else_None in Ha as [_ Ha]. by rewrite fmap_None in Ha.
Qed.

Lemma connected n : n = rc_Name cfg ∨ n ∈ segment_names cfg → n ∈ cc_Name <$> rc_Connections cfg.
Proof.
  intros Hn. destruct validated_parts as (_ & _ & _ & Hc). unfold ConnectionConfigs_Validate in Hc.
  destruct (validate_connections _ _) as [seen|] eqn:E; [|done].
  apply validate_connections_inl in E. rewrite union_empty_l_L in E.
  apply or_else_None in Hc as [Hs Hr]. rewrite LabelsSpec.first_error_None in Hs.
  apply (elem_of_list_to_set (C:=gset string)). rewrite <-E.
  destruct Hn as [->|Hn]; [by destruct (decide (rc_Name cfg ∈ seen)); [|rewrite bool_decide_false in Hr]|].
  specialize (Hs n Hn). cbv beta in Hs. by destruct (decide (n ∈ seen)); [|rewrite bool_decide_false in Hs].
Qed.

Lemma identified auth n :
  rc_Auth cfg = Some auth → n = rc_Name cfg ∨ n ∈ segment_names cfg →
  n ∈ ic_Name <$> ra_IdentityConfigs auth.
Proof.
  intros Ha Hn. destruct validated_parts as (_ & _ & Hi & _). specialize (Hi auth Ha).
  unfold ValidateAuthIdentities in Hi. destruct (check_identities _ _ _) as [rest|] eqn:E; [|done].
  apply check_identities_inl in E. case_bool_decide as Hr; [|done]. rewrite Hr in E.
  symmetry in E. apply empty_difference_subseteq_L in E.
  apply (elem_of_list_to_set (C:=gset string)), E, elem_of_list_to_set, elem_of_cons. tauto.
Qed.
End validated.

Section registration.
Context {RE : Regexp} (cfg : RootConfig).
Hypothesis Hvalid : RootConfig_Validate cfg = None.
Notation tp := (rc_Topology cfg).

Lemma segment_named seg : seg ∈ Topology.tp_Segments tp → Topology.GetSegmentByName tp (ts_Name seg) = Some seg.
Proof.
  intros Hseg. destruct (validated_parts cfg Hvalid) as (_ & Hh & _).
  apply SegmentValidation.topology_inv in Hh as [Hnd _]. unfold Topology.GetSegmentByName.
  apply list_elem_of_lookup in Hseg as [i Hi].
  destruct (find_index _ _) as [j|] eqn:E.
  - apply find_index_Some in E as [(x & Hx & Hn%String.eqb_eq) _]. simpl. rewrite Hx. f_equal.
    assert (i = j) as ->; [|congruence].
    eapply (NoDup_lookup _ i j _ Hnd); rewrite list_lookup_fmap; [by rewrite Hi|by rewrite Hx; simpl; f_equal].
  - apply find_index_None with (x:=seg) in E; [|by eapply list_elem_of_lookup_2]. by rewrite String.eqb_refl in E.
Qed.

(** What a binding of a segment may name as its provider. *)
Lemma provider_known seg kind kb agent :
  seg ∈ Topology.tp_Segments tp → ts_KeyBindings seg !! kind = Some kb →
  kb_ParentKeyProvider kb = Some agent → agent = "root" ∨ agent ∈ segment_names cfg.
Proof.
  intros Hseg Hkb Hag. destruct (validated_parts cfg Hvalid) as (_ & Hh & _).
  apply SegmentValidation.topology_inv in Hh as [_ Hs]. destruct (Hs seg Hseg) as [_ Hp].
  specialize (Hp kind kb Hkb). unfold SegmentValidation.check_parent_provider in Hp. rewrite Hag in Hp.
  destruct (_ !! agent) as [s|] eqn:E; [|done].
  apply SegmentValidation.provider_table_lookup in E as [[-> _]|(x & Hx & <- & _)]; [by left|right].
  unfold segment_names. by apply list_elem_of_fmap_2.
Qed.

Lemma parent_known seg :
  seg ∈ Topology.tp_Segments tp →
  ∃ parent, Topology.ParentName tp (ts_Name seg) = Some parent ∧
    (parent = "root" ∨ parent ∈ segment_names cfg).
Proof.
  intros Hseg. unfold Topology.ParentName. set (l := _ ≫= _).
  assert (∀ p, p ∈ l → p = "root" ∨ p ∈ segment_names cfg) as Hl.
  { intros p (x & Hp & Hx)%list_elem_of_bind. destruct (negb _); [by apply elem_of_nil in Hp|].
    unfold Topology.remote_parents in Hp. apply list_elem_of_omap in Hp as ([kind b] & Hb%elem_of_map_to_list & Hp).
    destruct (HasRemoteParent b); [|done]. by eapply provider_known. }
  destruct (validated_parts cfg Hvalid) as (Ht & Hh & _).
  apply SegmentValidation.topology_inv in Hh as [_ Hs]. destruct (Hs seg Hseg) as [Ha _].
  apply SegmentValidation.agent_segment_inv in Ha as (_ & _ & _ & _ & (kb & Hkb & [agent Hag] & _)).
  assert (agent ∈ l) as Hin.
  { apply list_elem_of_bind. exists seg. split; [|done]. rewrite String.eqb_refl. simpl.
    apply list_elem_of_omap. exists (hs_StartKind (ts_Segment seg), kb).
    split; [by apply elem_of_map_to_list|]. unfold HasRemoteParent. rewrite Hag.
    destruct (String.eqb_spec agent "") as [->|]; [exfalso|done].
    destruct (provider_known seg _ kb "" Hseg Hkb Hag) as [|(x & Hx & Hin)%list_elem_of_fmap]; [done|].
    unfold Topology.Validate in Ht. rewrite LabelsSpec.first_error_None in Ht. specialize (Ht x Hin). cbv beta in Ht.
    unfold TopologySegment_Validate in Ht. by rewrite <-Hx in Ht. }
  destruct l as [|p l']; [by apply elem_of_nil in Hin|]. exists p. split; [done|]. apply Hl. left.
Qed.

Lemma agent_identities_ok auth seg :
  rc_Auth cfg = Some auth → seg ∈ Topology.tp_Segments tp →
  ∃ ids, AgentIdentities cfg (ts_Name seg) = inl ids ∧
    (∃ i, i ∈ ids ∧ ic_Name i = rc_Name cfg) ∧
    ∀ child, (∃ cs, Topology.ChildrenNames tp (ts_Name seg) = Some cs ∧ child ∈ cs) →
      ∃ i, i ∈ ids ∧ ic_Name i = child.
Proof.
  intros Ha Hseg. unfold AgentIdentities. rewrite Ha.
  set (cns := {[rc_Name cfg]} ∪ default ∅ (Topology.ChildrenNames tp (ts_Name seg))).
  assert (∀ n, n ∈ cns → n = rc_Name cfg ∨ ∃ cs, Topology.ChildrenNames tp (ts_Name seg) = Some cs ∧ n ∈ cs) as Hc.
  { intros n [->%elem_of_singleton|Hn]%elem_of_union; [by left|right].
    destruct (Topology.ChildrenNames _ _) as [cs|]; [by eauto|]. by apply elem_of_empty in Hn. }
  destruct (take_first_all ic_Name (ra_IdentityConfigs auth) cns) as (res & -> & _ & Hall).
  { intros n Hn. apply elem_of_list_to_set, (identified cfg Hvalid); [done|].
    apply Hc in Hn as [->|H]; [by left|right].
    apply Topology.ChildrenNames_spec in H as (s & kind & b & Hs & <- & _).
    unfold segment_names. by apply list_elem_of_fmap_2. }
  assert (existsb (λ id, String.eqb (ic_Name id) (ts_Name seg)) (ra_IdentityConfigs auth) = true) as ->.
  { assert (ts_Name seg ∈ ic_Name <$> ra_IdentityConfigs auth) as (i & Hi & Hin)%list_elem_of_fmap.
    { apply (identified cfg Hvalid); [done|right]. unfold segment_names. by apply list_elem_of_fmap_2. }
    apply existsb_exists. exists i. split; [by apply list_elem_of_In|]. by apply String.eqb_eq. }
  simpl. rewrite bool_decide_true by done. exists res. split_and!; [done| |].
  - apply Hall. unfold cns. apply elem_of_union. left. by apply elem_of_singleton.
  - intros child (cs & Hcs & Hin). apply Hall. unfold cns. rewrite Hcs. apply elem_of_union. by right.
Qed.

(** C32: with a validated configuration of a root that is called "root", every
    agent of the topology can register: its configuration is built, it is the
    agent's segment, bindings and hierarchy, it holds a connection to the
    agent's parent and, when authentication is on, the identities of the root
    and of every child of the agent. *)
Theorem validated_root_registers_agents seg :
  rc_Name cfg = "root" → seg ∈ Topology.tp_Segments tp →
  ∃ ac parent c, registration_config cfg (ts_Name seg) = inl ac ∧
    ac_Name ac = ts_Name seg ∧ ac_Segment ac = ts_Segment seg ∧
    ac_KeyBindings ac = ts_KeyBindings seg ∧ ac_Hierarchy ac = rc_Hierarchy cfg ∧
    Topology.ParentName tp (ts_Name seg) = Some parent ∧
    c ∈ ac_Connections ac ∧ c ∈ rc_Connections cfg ∧ cc_Name c = parent ∧
    (rc_Auth cfg ≠ None →
     (∃ i, i ∈ ac_IdentityConfigs ac ∧ ic_Name i = rc_Name cfg) ∧
     ∀ child, (∃ cs, Topology.ChildrenNames tp (ts_Name seg) = Some cs ∧ child ∈ cs) →
       ∃ i, i ∈ ac_IdentityConfigs ac ∧ ic_Name i = child).
Proof.
  intros Hname Hseg. unfold registration_config. rewrite segment_named by done.
  destruct (parent_known seg Hseg) as (parent & Hp & Hk).
  destruct (ByNames_one (rc_Connections cfg) parent) as (c & ccs & Hb & Hc & Hin & Hn).
  { apply (connected cfg Hvalid). rewrite Hname. tauto. }
  destruct (rc_Auth cfg) as [auth|] eqn:Ha.
  - destruct (agent_identities_ok auth seg Ha Hseg) as (ids & -> & Hr & Hch).
    rewrite Hp, Hb. eexists _, parent, c. split_and!; try done.
  - rewrite Hp, Hb. eexists _, parent, c. by split_and!.
Qed.
End registration.

Module ConfigSamples.
Import SegmentValidation.Deployment.
#[local] Instance no_regexp : Regexp := λ _, None.

Definition address : Address := mkAddress AddressTypeGRPC "localhost:9090".
Definition root_key : RootKeySpec :=
  mkRootKeySpec [TypeStaticSecret] (mkVaultSpec "v" TypeUnsafeMemory (Some InMemoryConfig)).
(** A root of this name with one agent, below it. *)
Definition root_named (name : string) : RootConfig :=
  mkRootConfig name RootRole None rootSeg ∅ (Some root_key) rootBindings h tp
    [mkConnectionConfig name address; mkConnectionConfig "eu" address] None.
Definition eu : TopologySegment := mkTopologySegment "eu" agentSeg agentBindings ∅.

Lemma validated_root_registers_agents_witness :
  ∃ ac c, registration_config (root_named "root") "eu" = inl ac ∧ ac_Name ac = "eu" ∧
    c ∈ ac_Connections ac ∧ cc_Name c = "root".
Proof.
  destruct (validated_root_registers_agents (root_named "root") eq_refl eu eq_refl (list_elem_of_here _ _))
    as (ac & parent & c & Hr & Hn & _ & _ & _ & Hp & Hc & _ & Hcn & _).
  exists ac, c. split; [exact Hr|]. split; [exact Hn|]. split; [exact Hc|].
  vm_compute in Hp. injection Hp as <-. exact Hcn.
Defined.

(** A configuration of a root with another name validates, with a connection
    for the root and for every agent as validation demands, and yet the agent
    below the root cannot register: the hierarchy checks only know the root as
    "root", and no connection has that name; naming the root by its own name in
    the agent's bindings does not validate. *)
Theorem renamed_root_agent_cannot_register :
  RootConfig_Validate (root_named "krypton") = None ∧
  registration_config (root_named "krypton") "eu" = inr (ErrDetailsWithCode FailedPrecondition ERROR_CODE_ABORT) ∧
  SegmentValidation.ValidateTopologyAgainstHierarchy h
    (Topology.mk [mkTopologySegment "eu" agentSeg
       (<["K2" := mkKeyBinding (Some seal) (Some crypt) None (Some "krypton")]> agentBindings) ∅])
    rootSeg rootBindings ≠ None.
Proof. split; [vm_compute; reflexivity|]. split; [vm_compute; reflexivity|]. vm_compute. discriminate. Qed.
End ConfigSamples.
