(* ===== verification/Sql.v ===== *)
(** * The SQL layer: schema, statements, transactions, tenants and agents

    pkg/store/sql: migrate.go, transactor.go, tenant.go, agent.go and the
    interfaces of pkg/store they implement.

    A call of [ExecContext]/[QueryContext]/[QueryRowContext] is [statement]: it
    fails when the environment says so (lost connection, cancelled context, a
    serialization failure, text the server rejects) or when the table is
    missing; otherwise the effect of the statement on the tables follows, as
    PostgreSQL defines it.  A parameter of a [UUID] column is [arg_uuid]: text
    that is not a UUID is refused and what is stored and read back is the
    canonical text; a parameter of an [INT] column is [arg_int4].  The order of
    rows is unspecified unless the statement has an [ORDER BY]; the model then
    enumerates the table.  Scanning a row and the JSON of a label map give back
    the stored values.

    A transaction runs at serializable isolation, so its statements are one
    atomic step; a failed statement inside a transaction makes every later one
    of the same transaction fail in PostgreSQL, which the callers never observe
    since every caller returns the first error. *)

From S2P Require Import Prelude GoStrings GoRuntime Model World.
From Stdlib Require Import Ascii.

Local Open Scope string_scope.

(** ** Statements *)

Section statements.
Context {ENV : Env}.

Definition statement (table : string) : M () :=
  _ ← external ("sql: " +:+ table);
  d ← gets w_db;
  if bool_decide (table ∈ db_tables d) then mret ()
  else throw (EForeign ("relation does not exist: " +:+ table)).

Definition arg_uuid (s : string) : M string :=
  match uuid_column s with
  | Some c => mret c
  | None => throw (EForeign "invalid input syntax for type uuid")
  end.

Definition arg_uuid_null (s : option string) : M (option string) :=
  match s with
  | None => mret None
  | Some s => c ← arg_uuid s; mret (Some c)
  end.

Definition int4_ok (z : Z) : bool := ((-2147483648 <=? z) && (z <=? 2147483647))%Z%bool.

Definition arg_int4 (z : Z) : M Z :=
  if int4_ok z then mret z else throw (EForeign "out of range for type int4").

Definition arg_int4_null (z : option Z) : M (option Z) :=
  match z with
  | None => mret None
  | Some z => z' ← arg_int4 z; mret (Some z')
  end.

Definition get_db : M DB := gets w_db.
Definition update_db (f : DB → DB) : M () := modify (λ w, set_db (f (w_db w)) w).

(** *** Transactions *)

(** [Transactor.Transaction]: begin, run, commit; the database is restored on
    an error of [fn], a failed commit and a panic, which keeps unwinding.
    What [fn] did outside the database stays. *)
Definition Transaction {A} (fn : M A) : M A := λ w0,
  match external "begin" w0 with
  | (Err e, w) => (Err (wrap1 e), w)
  | (Panic, w) => (Panic, w)
  | (Diverge, w) => (Diverge, w)
  | (Ok _, w1) =>
      let rollback w := set_db (w_db w1) w in
      match fn w1 with
      | (Ok a, w2) =>
          match external "commit" w2 with
          | (Ok _, w3) => (Ok a, w3)
          | (Err e, w3) => (Err (wrap1 e), rollback w3)
          | (Panic, w3) => (Panic, rollback w3)
          | (Diverge, w3) => (Diverge, w3)
          end
      | (Err e, w2) => (Err e, rollback w2)
      | (Panic, w2) => (Panic, rollback w2)
      | (Diverge, w2) => (Diverge, w2)
      end
  end.

(** [store.ChainTransaction]: the variables the closures share are threaded
    from step to step. *)
Definition ChainTransaction {A} (steps : list (A → M A)) (a : A) : M A :=
  Transaction (foldM (λ a step, step a) a steps).
End statements.

(** ** Schema *)

Section migrate.
Context {ENV : Env}.

Definition schema_meta : string := "schema_meta".
Definition tenants : string := "tenants".
Definition agent_registrations : string := "agent_registrations".
Definition keys : string := "keys".
Definition key_versions : string := "key_versions".

(** [CREATE TABLE IF NOT EXISTS]. *)
Definition create_table (table : string) : M () :=
  _ ← external ("ddl: " +:+ table);
  update_db (λ d, set_schema ({[table]} ∪ db_tables d) (db_node d) d).

Definition parse_node (n : string) : option Node :=
  if String.eqb n "root" then Some Root
  else if String.eqb n "agent" then Some Agent else None.

(** [sql.Migrate].  Which foreign keys [keys] and [key_versions] carry depends
    on the node they were created for ([enforces_parents]). *)
Definition Migrate (n : string) : M () :=
  match parse_node n with
  | None => throw (EForeign "migrate: unknown node")
  | Some n =>
      _ ← create_table schema_meta;
      _ ← statement schema_meta;
      d ← get_db;
      _ ← match db_node d with
          | None =>
              _ ← statement schema_meta;
              update_db (λ d, set_schema (db_tables d) (Some n) d)
          | Some existing =>
              if bool_decide (existing = n) then mret ()
              else throw (EForeign "migrate: database already initialized as another node")
          end;
      let stmts := match n with
                   | Root => [tenants; agent_registrations; keys; key_versions]
                   | Agent => [tenants; keys; key_versions]
                   end in
      foldM (λ _ stmt, create_table stmt) () stmts
  end.

(** The tables of the root carry the foreign keys to parents. *)
Definition enforces_parents (d : DB) : bool :=
  match db_node d with Some Root => true | _ => false end.
End migrate.

(** ** Tenants *)

Definition ErrTenantNotFound : string := "store.ErrTenantNotFound".

Section tenants.
Context {ENV : Env}.

(** [TenantStore.UpsertTenant]: the returned tenant is the one passed in. *)
Definition UpsertTenant (tenant : Tenant) : M Tenant :=
  id ← arg_uuid (t_ID tenant);
  _ ← statement tenants;
  _ ← update_db (λ d,
    let created := match db_tenants d !! id with
                   | Some old => t_CreatedAt old | None => t_CreatedAt tenant end in
    set_tenants (<[id := mkTenant id (t_Name tenant) (t_Labels tenant) created
                           (t_UpdatedAt tenant)]> (db_tenants d)) d);
  mret tenant.

(** [TenantStore.GetTenant]. *)
Definition GetTenant (ID : string) : M Tenant :=
  id ← arg_uuid ID;
  _ ← statement tenants;
  d ← get_db;
  match db_tenants d !! id with
  | Some t => mret t
  | None => throw (ESentinel ErrTenantNotFound)
  end.

(** [TenantStore.ListTenants]. *)
Definition ListTenants : M (list Tenant) :=
  _ ← statement tenants;
  d ← get_db;
  mret (map_to_list (db_tenants d)).*2.
End tenants.

(** ** Agent registrations *)

Definition ErrAgentNotFound : string := "store.ErrAgentNotFound".
Definition ErrAgentQueryInvalid : string := "store.ErrAgentQueryInvalid".

Record UpdateAgentStatusQuery := mkUpdateAgentStatusQuery {
  ua_Name : string;
  ua_InstanceID : string;
  ua_FromStatus : list AgentRegistrationStatus;
  ua_ToStatus : AgentRegistrationStatus;
  ua_HeartbeatThreshold : Z;
}.

Section agents.
Context {ENV : Env}.

(** [AgentStore.Register]. *)
Definition Register (reg : AgentRegistration) : M AgentRegistration :=
  now ← clock_Now;
  id ← arg_uuid (ar_InstanceID reg);
  _ ← statement agent_registrations;
  d ← get_db;
  let created := match db_agents d !! (ar_Name reg, id) with
                 | Some old => ar_CreatedAt old | None => now end in
  let row := mkAgentRegistration (ar_Name reg) id (ar_Status reg) (ar_LastHeartbeat reg)
               created now in
  _ ← update_db (λ d, set_agents (<[(ar_Name reg, id) := row]> (db_agents d)) d);
  mret row.

(** [AgentStore.Get]. *)
Definition GetAgent (Name InstanceID : string) : M AgentRegistration :=
  id ← arg_uuid InstanceID;
  _ ← statement agent_registrations;
  d ← get_db;
  match db_agents d !! (Name, id) with
  | Some r => mret r
  | None => throw (ESentinel ErrAgentNotFound)
  end.

Definition stale (now threshold : Z) (r : AgentRegistration) : bool :=
  (threshold <? now - ar_LastHeartbeat r)%Z.

(** The [WHERE] clause [UpdateStatus] builds. *)
Definition agent_matches (q : UpdateAgentStatusQuery) (instance : option string) (now : Z)
    (r : AgentRegistration) : bool :=
  (bool_decide (ar_Status r ∈ ua_FromStatus q) &&
   (String.eqb (ua_Name q) "" || String.eqb (ar_Name r) (ua_Name q)) &&
   match instance with None => true | Some id => String.eqb (ar_InstanceID r) id end &&
   (if (0 <? ua_HeartbeatThreshold q)%Z then stale now (ua_HeartbeatThreshold q) r else true))%bool.

(** [AgentStore.UpdateStatus]. *)
Definition UpdateStatus (q : UpdateAgentStatusQuery) : M () :=
  if bool_decide (ua_FromStatus q = []) then throw (wrap1 (ESentinel ErrAgentQueryInvalid))
  else if String.eqb (ua_ToStatus q) "" then throw (wrap1 (ESentinel ErrAgentQueryInvalid))
  else
    now ← clock_Now;
    instance ← (if String.eqb (ua_InstanceID q) "" then mret None
                else id ← arg_uuid (ua_InstanceID q); mret (Some id));
    _ ← statement agent_registrations;
    update_db (λ d, set_agents
      ((λ r, if agent_matches q instance now r
             then mkAgentRegistration (ar_Name r) (ar_InstanceID r) (ua_ToStatus q)
                    (ar_LastHeartbeat r) (ar_CreatedAt r) now
             else r) <$> db_agents d) d).

(** [AgentStore.Delete]. *)
Definition DeleteAgents (status : AgentRegistrationStatus) (threshold : Z) : M () :=
  if String.eqb status "" then throw (wrap1 (ESentinel ErrAgentQueryInvalid))
  else if (threshold <=? 0)%Z then throw (wrap1 (ESentinel ErrAgentQueryInvalid))
  else
    now ← clock_Now;
    _ ← statement agent_registrations;
    update_db (λ d, set_agents
      (filter (λ p, (String.eqb (ar_Status p.2) status && stale now threshold p.2)%bool = false)
         (db_agents d)) d).

(** [AgentStore.List]. *)
Definition ListAgents (name : string) : M (list AgentRegistration) :=
  _ ← statement agent_registrations;
  d ← get_db;
  mret (filter (λ r, name = "" ∨ ar_Name r = name) (map_to_list (db_agents d)).*2).
End agents.

(** ** Frames of the SQL layer *)

Section sql_frames.
Context {ENV : Env} (P : relation DB) `{!PreOrder P}.

Lemma db_rel_arg_uuid s : respects (db_rel P) (arg_uuid s).
Proof. unfold arg_uuid. solve_respects. Qed.
Lemma db_rel_arg_uuid_null s : respects (db_rel P) (arg_uuid_null s).
Proof. unfold arg_uuid_null. solve_respects. apply db_rel_arg_uuid. Qed.
Lemma db_rel_arg_int4 z : respects (db_rel P) (arg_int4 z).
Proof. unfold arg_int4. solve_respects. Qed.
Lemma db_rel_arg_int4_null z : respects (db_rel P) (arg_int4_null z).
Proof. unfold arg_int4_null. solve_respects. apply db_rel_arg_int4. Qed.
Lemma db_rel_statement t : respects (db_rel P) (statement t).
Proof. unfold statement. solve_respects. Qed.
Lemma db_rel_get_db : respects (db_rel P) get_db.
Proof. unfold get_db. solve_respects. Qed.
Lemma db_rel_update_db f : (∀ d, P d (f d)) → respects (db_rel P) (update_db f).
Proof. intros H w. apply H. Qed.

Lemma db_rel_Transaction {A} (fn : M A) :
  respects (db_rel P) fn → respects (db_rel P) (Transaction fn).
Proof.
  intros Hfn w. unfold Transaction.
  pose proof (db_rel_external P "begin" w) as Hb. destruct (external "begin" w) as [[] w1]; try done.
  assert (∀ w', db_rel P w (set_db (w_db w1) w')) as Hrb by done.
  specialize (Hfn w1). destruct (fn w1) as [[] w2]; simpl in *; try apply Hrb.
  - pose proof (db_rel_external P "commit" w2) as Hc.
    destruct (external "commit" w2) as [[] w3]; simpl in *; try apply Hrb;
      (etrans; [exact Hb|]; etrans; [exact Hfn|exact Hc]).
  - etrans; [exact Hb|exact Hfn].
Qed.

Lemma db_rel_ChainTransaction {A} (steps : list (A → M A)) a :
  (∀ s x, s ∈ steps → respects (db_rel P) (s x)) →
  respects (db_rel P) (ChainTransaction steps a).
Proof.
  intros H. apply db_rel_Transaction, respects_foldM; [apply _|]. intros. by apply H.
Qed.
End sql_frames.

#[export] Hint Resolve db_rel_arg_uuid db_rel_arg_uuid_null db_rel_arg_int4 db_rel_arg_int4_null
  db_rel_statement db_rel_get_db db_rel_Transaction : respects.

(** How a statement and its arguments come out. *)
Section statement_results.
Context {ENV : Env}.

Lemma bind_get_db {A} (k : DB → M A) w : (get_db ≫= k) w = k (w_db w) w.
Proof. done. Qed.

Lemma statement_inv t w r w' :
  statement t w = (r, w') →
  w_db w' = w_db w ∧
  (r = Ok () ∧ t ∈ db_tables (w_db w) ∨ ∃ what, r = Err (EForeign what)).
Proof.
  unfold statement, external, mbind, comp_bind, gets, throw, mret, comp_ret.
  destruct (e_fault (w_tick w)); simpl; [intros [= <- <-]; eauto|].
  case_bool_decide; intros [= <- <-]; simpl; eauto.
Qed.

Lemma statement_Ok t w a w' :
  statement t w = (Ok a, w') → w_db w' = w_db w ∧ t ∈ db_tables (w_db w).
Proof. intros [? [[_ ?]|[? ?]]]%statement_inv; [done|congruence]. Qed.

Lemma statement_NoFaults {NF : NoFaults} t w :
  t ∈ db_tables (w_db w) → statement t w = (Ok (), tick w).
Proof.
  intros Ht. unfold statement, external, mbind, comp_bind, gets, mret, comp_ret.
  rewrite no_faults. simpl. by rewrite bool_decide_true.
Qed.

Lemma arg_uuid_inv s w r w' :
  arg_uuid s w = (r, w') →
  w' = w ∧ (∃ c, uuid_column s = Some c ∧ r = Ok c) ∨
  w' = w ∧ uuid_column s = None ∧ ∃ what, r = Err (EForeign what).
Proof.
  unfold arg_uuid, throw, mret, comp_ret.
  destruct (uuid_column s) as [c|]; intros [= <- <-]; [left|right]; eauto.
Qed.

Lemma arg_uuid_Ok s c w : uuid_column s = Some c → arg_uuid s w = (Ok c, w).
Proof. intros H. unfold arg_uuid. by rewrite H. Qed.

Lemma arg_uuid_inv_Ok s w c w' :
  arg_uuid s w = (Ok c, w') → w' = w ∧ uuid_column s = Some c.
Proof. intros [(-> & c' & ? & [= <-])|(_ & _ & ? & ?)]%arg_uuid_inv; [done|congruence]. Qed.

Lemma arg_uuid_null_inv_Ok s w c w' :
  arg_uuid_null s w = (Ok c, w') →
  w' = w ∧ match s with None => c = None | Some s => ∃ c', uuid_column s = Some c' ∧ c = Some c' end.
Proof.
  destruct s as [s|]; simpl; [|by intros [= <- <-]].
  intros (c' & s1 & [-> ?]%arg_uuid_inv_Ok & [= <- <-])%bind_inv_Ok. eauto.
Qed.

Lemma arg_int4_inv_Ok z w c w' : arg_int4 z w = (Ok c, w') → w' = w ∧ c = z.
Proof. unfold arg_int4. destruct (int4_ok z); [by intros [= <- <-]|done]. Qed.

Lemma arg_int4_null_inv_Ok z w c w' : arg_int4_null z w = (Ok c, w') → w' = w ∧ c = z.
Proof.
  destruct z as [z|]; simpl; [|by intros [= <- <-]].
  by intros (c' & s1 & [-> ->]%arg_int4_inv_Ok & [= <- <-])%bind_inv_Ok.
Qed.
End statement_results.

(** ** Transactions are all or nothing *)

Section atomicity.
Context {ENV : Env}.

Lemma external_db what w : w_db (external what w).2 = w_db w.
Proof. unfold external. by destruct (e_fault _). Qed.

(** A successful transaction is a successful run of its body on the database
    the transaction started from; anything else leaves the database alone. *)
Lemma Transaction_spec {A} (fn : M A) w :
  match Transaction fn w with
  | (Ok a, w') => ∃ w1 w2, fn w1 = (Ok a, w2) ∧ w_db w1 = w_db w ∧ w_db w' = w_db w2
  | (Err _, w') | (Panic, w') => w_db w' = w_db w
  | (Diverge, _) => ∃ w1, (fn w1).1 = Diverge ∧ w_db w1 = w_db w
  end.
Proof.
  unfold Transaction. pose proof (external_db "begin" w) as Hb.
  destruct (external "begin" w) as [[] w1] eqn:E1; simpl in *; try done.
  2:{ unfold external in E1. by destruct (e_fault _). }
  destruct (fn w1) as [[x| | |] w2] eqn:E2; simpl in *; try done.
  - pose proof (external_db "commit" w2) as Hc.
    destruct (external "commit" w2) as [[] w3] eqn:E3; simpl in *; try done.
    + by exists w1, w2.
    + unfold external in E3. by destruct (e_fault _).
  - exists w1. by rewrite E2.
Qed.

Lemma Transaction_Ok {A} (fn : M A) w a w' :
  Transaction fn w = (Ok a, w') →
  ∃ w1 w2, fn w1 = (Ok a, w2) ∧ w_db w1 = w_db w ∧ w_db w' = w_db w2.
Proof. intros H. pose proof (Transaction_spec fn w) as Hs. by rewrite H in Hs. Qed.

Lemma Transaction_Err {A} (fn : M A) w e w' :
  Transaction fn w = (Err e, w') → w_db w' = w_db w.
Proof. intros H. pose proof (Transaction_spec fn w) as Hs. by rewrite H in Hs. Qed.

(** C17: a chain of transaction steps is atomic: when it reports success, every
    step ran to success in order on the database the chain started from and
    exactly their combined effect is stored; when it reports an error (of any
    step, of begin or of commit) or panics, the stored data is what it was. *)
Theorem chain_transaction_atomic {A} (steps : list (A → M A)) (a : A) w :
  match ChainTransaction steps a w with
  | (Ok a', w') =>
      ∃ w1 w2, foldM (λ a step, step a) a steps w1 = (Ok a', w2) ∧
               w_db w1 = w_db w ∧ w_db w' = w_db w2
  | (Err _, w') | (Panic, w') => w_db w' = w_db w
  | (Diverge, _) => ∃ w1, (foldM (λ a step, step a) a steps w1).1 = Diverge ∧ w_db w1 = w_db w
  end.
Proof. apply Transaction_spec. Qed.
End atomicity.
