(* ===== verification/KeyVersionStore.v ===== *)
(** * The key version store: pkg/store/keyversion.go, pkg/store/sql/keyversion.go

    One definition per statement, as in [KeyStore]. *)

From S2P Require Import Prelude GoStrings GoRuntime Model World Sql KeyStore.
From Stdlib Require Import Ascii.

Local Open Scope string_scope.

Definition ErrKeyVersionNotFound : string := "store.ErrKeyVersionNotFound".
Definition ErrKeyVersionQueryInvalid : string := "store.ErrKeyVersionQueryInvalid".

(** [store.KeyVersionOrder], an [int] type with declared constants. *)
Definition KeyVersionOrderUnspecified : Z := 0.
Definition KeyVersionOrderVersionDesc : Z := 1.
Definition KeyVersionOrderCreatedAtDesc : Z := 2.
Definition KeyVersionOrderRevisionDesc : Z := 3.

Record ListKeyVersionsQuery := mkListKeyVersionsQuery {
  lv_TenantID : string;
  lv_KeyID : string;
  lv_Version : Z;
  lv_LifeCycleState : KeyLifeCycleState;
  lv_ProcessingState : KeyVersionProcessingState;
  lv_OrderBy : list Z;
  lv_Limit : Z;
}.

Record UpdateKeyVersionStatesQuery := mkUpdateKeyVersionStatesQuery {
  uv_TenantID : string;
  uv_KeyID : string;
  uv_Version : Z;
  uv_Revision : Z;
  uv_FromProcessingState : list KeyVersionProcessingState;
  uv_ToProcessingState : KeyVersionProcessingState;
  uv_FromLifeCycleState : list KeyLifeCycleState;
  uv_ToLifeCycleState : KeyLifeCycleState;
}.

Definition kv_id (kv : KeyVersion) : string * string * Z * Z :=
  (kv_TenantID kv, kv_KeyID kv, kv_Version kv, kv_Revision kv).

Section key_version_store.
Context {ENV : Env}.

(** The foreign keys of a row of [key_versions], after its insertion.  The
    parent reference is checked only when none of its columns is NULL. *)
Definition kv_refs_ok (d : DB) (kv : KeyVersion) : bool :=
  (bool_decide (is_Some (db_tenants d !! kv_TenantID kv)) &&
   match find_key d (kv_KeyID kv) (kv_TenantID kv) with Some _ => true | None => false end &&
   (if enforces_parents d then
      match kv_ParentKeyID kv, kv_ParentKeyVersion kv with
      | Some p, Some v =>
          bool_decide (is_Some (db_kvs d !! (kv_TenantID kv, p, v, kv_Revision kv)))
      | _, _ => true
      end
    else true))%bool.

(** [KeyVersionStore.CreateKeyVersion]: returns the version passed in. *)
Definition CreateKeyVersion (kv : KeyVersion) : M KeyVersion :=
  tenant ← arg_uuid (kv_TenantID kv);
  key ← arg_uuid (kv_KeyID kv);
  version ← arg_int4 (kv_Version kv);
  revision ← arg_int4 (kv_Revision kv);
  parent ← arg_uuid_null (kv_ParentKeyID kv);
  parentVersion ← arg_int4_null (kv_ParentKeyVersion kv);
  _ ← statement key_versions;
  d ← get_db;
  let row := mkKeyVersion tenant key version revision parent parentVersion
               (kv_LifeCycleState kv) (kv_ProcessingState kv) (kv_Labels kv)
               (kv_CreatedAt kv) (kv_UpdatedAt kv) in
  if bool_decide (is_Some (db_kvs d !! kv_id row))
  then throw (EForeign "duplicate key value violates unique constraint")
  else
    let d' := set_kvs (<[kv_id row := row]> (db_kvs d)) d in
    if kv_refs_ok d' row then
      _ ← update_db (λ _, d');
      mret kv
    else throw (EForeign "violates foreign key constraint").

(** [KeyVersionStore.GetKeyVersion]. *)
Definition GetKeyVersion (TenantID KeyID : string) (Version Revision : Z) : M KeyVersion :=
  tenant ← arg_uuid TenantID;
  key ← arg_uuid KeyID;
  version ← arg_int4 Version;
  revision ← arg_int4 Revision;
  _ ← statement key_versions;
  d ← get_db;
  match db_kvs d !! (tenant, key, version, revision) with
  | Some kv => mret kv
  | None => throw (ESentinel ErrKeyVersionNotFound)
  end.

(** [keyVersionOrderSQL]: the column a sort key orders by, descending. *)
Definition keyVersionOrderSQL (o : Z) : option (KeyVersion → Z) :=
  if (o =? KeyVersionOrderVersionDesc)%Z then Some kv_Version
  else if (o =? KeyVersionOrderCreatedAtDesc)%Z then Some kv_CreatedAt
  else if (o =? KeyVersionOrderRevisionDesc)%Z then Some kv_Revision
  else None.

(** [ORDER BY c1 DESC, c2 DESC, ...]. *)
Fixpoint order_le (cols : list (KeyVersion → Z)) (a b : KeyVersion) : Prop :=
  match cols with
  | [] => True
  | c :: cols' => (c b < c a)%Z ∨ c a = c b ∧ order_le cols' a b
  end.
#[global] Instance order_le_dec cols : RelDecision (order_le cols).
Proof. intros a b. induction cols; simpl; apply _. Defined.

Definition list_versions_condition (q : ListKeyVersionsQuery) (tenant : string)
    (key : option string) (kv : KeyVersion) : bool :=
  (String.eqb (kv_TenantID kv) tenant &&
   match key with None => true | Some id => String.eqb (kv_KeyID kv) id end &&
   ((lv_Version q =? 0)%Z || (kv_Version kv =? lv_Version q)%Z) &&
   opt_eq (lv_ProcessingState q) (kv_ProcessingState kv) &&
   opt_eq (lv_LifeCycleState q) (kv_LifeCycleState kv))%bool.

(** [KeyVersionStore.ListKeyVersions]. *)
Definition ListKeyVersions (q : ListKeyVersionsQuery) : M (list KeyVersion) :=
  match mapM keyVersionOrderSQL (lv_OrderBy q) with
  | None => throw (EForeign "unsupported key version order")
  | Some cols =>
      tenant ← arg_uuid (lv_TenantID q);
      key ← (if String.eqb (lv_KeyID q) "" then mret None
             else id ← arg_uuid (lv_KeyID q); mret (Some id));
      _ ← arg_int4 (lv_Version q);
      _ ← statement key_versions;
      d ← get_db;
      let rows := merge_sort (order_le cols)
                    (filter (λ kv, list_versions_condition q tenant key kv = true)
                       (map_to_list (db_kvs d)).*2) in
      mret (if (0 <? lv_Limit q)%Z then take (Z.to_nat (lv_Limit q)) rows else rows)
  end.

Definition set_version_states (state : KeyLifeCycleState) (ps : KeyVersionProcessingState)
    (now : Z) (kv : KeyVersion) : KeyVersion :=
  mkKeyVersion (kv_TenantID kv) (kv_KeyID kv) (kv_Version kv) (kv_Revision kv)
    (kv_ParentKeyID kv) (kv_ParentKeyVersion kv) state ps (kv_Labels kv) (kv_CreatedAt kv) now.

(** The compare part of [UpdateKeyVersionStates]. *)
Definition version_states_match (q : UpdateKeyVersionStatesQuery) (kv : KeyVersion) : bool :=
  (bool_decide (kv_ProcessingState kv ∈ uv_FromProcessingState q) &&
   bool_decide (kv_LifeCycleState kv ∈ uv_FromLifeCycleState q))%bool.

(** [KeyVersionStore.UpdateKeyVersionStates]. *)
Definition UpdateKeyVersionStates (q : UpdateKeyVersionStatesQuery) : M () :=
  if (String.eqb (uv_TenantID q) "" || String.eqb (uv_KeyID q) "" ||
      (uv_Version q =? 0)%Z || (uv_Revision q =? 0)%Z ||
      bool_decide (uv_FromProcessingState q = []) || String.eqb (uv_ToProcessingState q) "" ||
      bool_decide (uv_FromLifeCycleState q = []) || String.eqb (uv_ToLifeCycleState q) "")%bool
  then throw (wrap1 (ESentinel ErrKeyVersionQueryInvalid))
  else
    now ← clock_Now;
    tenant ← arg_uuid (uv_TenantID q);
    key ← arg_uuid (uv_KeyID q);
    version ← arg_int4 (uv_Version q);
    revision ← arg_int4 (uv_Revision q);
    _ ← statement key_versions;
    d ← get_db;
    match db_kvs d !! (tenant, key, version, revision) with
    | None => throw (ESentinel ErrKeyVersionNotFound)
    | Some kv =>
        if version_states_match q kv then
          update_db (set_kvs (<[(tenant, key, version, revision) :=
            set_version_states (uv_ToLifeCycleState q) (uv_ToProcessingState q) now kv]>
              (db_kvs d)))
        else throw (ESentinel ErrKeyVersionNotFound)
    end.
End key_version_store.
