(* ===== verification/StoreInvariant.v ===== *)
(** * The invariant of the database

    What the schema of migrate.go guarantees ([db_wf]), how the database can
    change ([db_grows]), and that every operation of every store keeps the
    first and stays within the second, whatever statement fails. *)

From S2P Require Import Prelude GoStrings GoRuntime Model World Sql KeyStore KeyVersionStore.

Local Open Scope string_scope.

(** ** The invariant of the database *)

(** What the schema guarantees: rows are stored under their keys in canonical
    form, names are unique per tenant, references resolve (to parents only on
    the root, whose tables carry those foreign keys). *)
Record db_wf (d : DB) : Prop := {
  wf_schema : db_node d = None →
    db_tables d ⊆ {[schema_meta]} ∧ db_keys d = ∅ ∧ db_kvs d = ∅;
  wf_tenant_id : ∀ id t, db_tenants d !! id = Some t → t_ID t = id ∧ uuid_column id = Some id;
  wf_agent_id : ∀ a r, db_agents d !! a = Some r → (ar_Name r, ar_InstanceID r) = a;
  wf_key_id : ∀ id k, db_keys d !! id = Some k → k_ID k = id ∧ uuid_column id = Some id;
  wf_key_refs : ∀ id k, db_keys d !! id = Some k → key_refs_ok d k = true;
  wf_key_names : ∀ id1 id2 k1 k2,
    db_keys d !! id1 = Some k1 → db_keys d !! id2 = Some k2 →
    k_TenantID k1 = k_TenantID k2 → k_Name k1 = k_Name k2 → id1 = id2;
  wf_kv_id : ∀ i kv, db_kvs d !! i = Some kv → kv_id kv = i;
  wf_kv_refs : ∀ i kv, db_kvs d !! i = Some kv → kv_refs_ok d kv = true;
}.

(** The tenant of a stored key is a canonical identifier. *)
Lemma wf_key_tenant d id k :
  db_wf d → db_keys d !! id = Some k → uuid_column (k_TenantID k) = Some (k_TenantID k).
Proof.
  intros Hwf Hk. pose proof (wf_key_refs _ Hwf _ _ Hk) as Hr. unfold key_refs_ok in Hr.
  apply andb_true_iff in Hr as [[t Ht]%bool_decide_eq_true _].
  by apply (wf_tenant_id _ Hwf) in Ht as [_ ?].
Qed.

(** How the database can change: tables, tenants, keys and versions are never
    removed, a database keeps its node, a key or version keeps everything but its
    states and its time of update, and a tenant its identifier and its time of
    creation. *)
Record db_grows (d d' : DB) : Prop := {
  grows_node : db_node d' = db_node d ∨ db_node d = None;
  grows_tables : db_tables d ⊆ db_tables d';
  grows_tenants : ∀ id t, db_tenants d !! id = Some t → ∃ t', db_tenants d' !! id = Some t' ∧
    t_ID t' = t_ID t ∧ t_CreatedAt t' = t_CreatedAt t;
  grows_keys : ∀ id k, db_keys d !! id = Some k → ∃ k', db_keys d' !! id = Some k' ∧
    k_ID k' = k_ID k ∧ key_identity k' = key_identity k ∧ k_Labels k' = k_Labels k ∧
    k_CreatedAt k' = k_CreatedAt k;
  grows_kvs : ∀ i kv, db_kvs d !! i = Some kv → ∃ kv', db_kvs d' !! i = Some kv' ∧
    kv_id kv' = kv_id kv ∧ kv_ParentKeyID kv' = kv_ParentKeyID kv ∧
    kv_ParentKeyVersion kv' = kv_ParentKeyVersion kv ∧ kv_Labels kv' = kv_Labels kv ∧
    kv_CreatedAt kv' = kv_CreatedAt kv;
}.

#[export] Instance db_grows_preorder : PreOrder db_grows.
Proof.
  split.
  - intros d. split; eauto 10.
  - intros d1 d2 d3 [n1 t1 e1 k1 v1] [n2 t2 e2 k2 v2]. split.
    + destruct n1 as [n1|], n2 as [n2|]; [left|right|right|right]; congruence.
    + set_solver.
    + intros id t Ht. destruct (e1 _ _ Ht) as (t' & Ht' & ?).
      destruct (e2 _ _ Ht') as (t'' & ? & ?). exists t''. destruct_and!. split_and!; congruence.
    + intros id k Hk. destruct (k1 _ _ Hk) as (k' & Hk' & ?).
      destruct (k2 _ _ Hk') as (k'' & ? & ?). exists k''. destruct_and!. split_and!; congruence.
    + intros i kv Hkv. destruct (v1 _ _ Hkv) as (kv' & Hkv' & ?).
      destruct (v2 _ _ Hkv') as (kv'' & ? & ?). exists kv''. destruct_and!. split_and!; congruence.
Qed.

(** Every operation keeps the invariant and only lets the database grow. *)
Definition db_evolves (d d' : DB) : Prop := (db_wf d → db_wf d') ∧ (db_wf d → db_grows d d').

#[export] Instance db_evolves_preorder : PreOrder db_evolves.
Proof.
  split; unfold db_evolves.
  - intros d. split; [done|]. intros. reflexivity.
  - intros d1 d2 d3 [? G1] [? G2]. split; [naive_solver|].
    intros Hwf. etrans; [apply G1|apply G2]; auto.
Qed.

Lemma key_identity_fields k k' :
  key_identity k' = key_identity k →
  k_Name k' = k_Name k ∧ k_TenantID k' = k_TenantID k ∧ k_ManagedBy k' = k_ManagedBy k ∧
  k_Kind k' = k_Kind k ∧ k_ParentID k' = k_ParentID k.
Proof. unfold key_identity. by intros [= -> -> -> -> ->]. Qed.

Lemma grows_has_tenant d d' id : db_grows d d' → is_Some (db_tenants d !! id) → is_Some (db_tenants d' !! id).
Proof. intros G [t Ht]. destruct (grows_tenants _ _ G _ _ Ht) as (t' & -> & _). eauto. Qed.

(** References that resolve keep resolving. *)
Lemma key_refs_grow d d' k :
  db_grows d d' → db_node d' = db_node d → key_refs_ok d k = true → key_refs_ok d' k = true.
Proof.
  intros G Hn. unfold key_refs_ok, enforces_parents. rewrite Hn.
  rewrite !andb_true_iff, !bool_decide_eq_true. intros [Ht Hp].
  split; [by eapply grows_has_tenant|]. destruct (db_node d) as [[]|]; [|done..].
  destruct (k_ParentID k) as [p|]; [|done]. destruct (db_keys d !! p) as [kp|] eqn:E; [|done].
  destruct (grows_keys _ _ G _ _ E) as (kp' & -> & _ & Hid & _).
  by apply key_identity_fields in Hid as (_ & -> & _).
Qed.

Lemma find_key_Some d id t k :
  find_key d id t = Some k ↔ db_keys d !! id = Some k ∧ k_TenantID k = t.
Proof.
  unfold find_key. destruct (db_keys d !! id) as [k'|]; [|naive_solver].
  destruct (String.eqb_spec (k_TenantID k') t); naive_solver.
Qed.

Lemma kv_refs_grow d d' kv :
  db_grows d d' → db_node d' = db_node d → kv_refs_ok d kv = true → kv_refs_ok d' kv = true.
Proof.
  intros G Hn. unfold kv_refs_ok, enforces_parents. rewrite Hn.
  rewrite !andb_true_iff, !bool_decide_eq_true. intros [[Ht Hk] Hp]. split_and!.
  - by eapply grows_has_tenant.
  - destruct (find_key d _ _) as [k|] eqn:E; [|done]. apply find_key_Some in E as [E Et].
    destruct (grows_keys _ _ G _ _ E) as (k' & E' & _ & Hid & _).
    apply key_identity_fields in Hid as (_ & Htid & _).
    assert (find_key d' (kv_KeyID kv) (kv_TenantID kv) = Some k') as ->; [|done].
    apply find_key_Some. split; congruence.
  - destruct (db_node d) as [[]|]; [|done..].
    destruct (kv_ParentKeyID kv) as [p|]; [|done]. destruct (kv_ParentKeyVersion kv) as [v|]; [|done].
    apply bool_decide_eq_true in Hp as [kv' Hp]. apply bool_decide_eq_true.
    destruct (grows_kvs _ _ G _ _ Hp) as (kv'' & -> & _). eauto.
Qed.

(** *** Updates of the tables *)

(** A change that keeps the node and the tables and grows the rest keeps the
    references; what is left to check is the new rows. *)
Lemma evolves_refs d d' :
  db_wf d → db_grows d d' → db_node d' = db_node d →
  (∀ id k, db_keys d' !! id = Some k →
     key_refs_ok d' k = true ∨ ∃ k0, db_keys d !! id = Some k0 ∧ key_identity k = key_identity k0) →
  (∀ i kv, db_kvs d' !! i = Some kv →
     kv_refs_ok d' kv = true ∨
     ∃ kv0, db_kvs d !! i = Some kv0 ∧ kv_id kv = kv_id kv0 ∧
       kv_ParentKeyID kv = kv_ParentKeyID kv0 ∧ kv_ParentKeyVersion kv = kv_ParentKeyVersion kv0) →
  (∀ id k, db_keys d' !! id = Some k → key_refs_ok d' k = true) ∧
  (∀ i kv, db_kvs d' !! i = Some kv → kv_refs_ok d' kv = true).
Proof.
  intros Hwf G Hn Hk Hkv. split.
  - intros id k H. destruct (Hk _ _ H) as [|(k0 & H0 & Hid)]; [done|].
    apply wf_key_refs in H0; [|done]. eapply key_refs_grow in H0; [|done..].
    apply key_identity_fields in Hid as (_ & E1 & _ & _ & E2). revert H0. unfold key_refs_ok.
    by rewrite E1, E2.
  - intros i kv H. destruct (Hkv _ _ H) as [|(kv0 & H0 & Hid & E1 & E2)]; [done|].
    apply wf_kv_refs in H0; [|done]. eapply kv_refs_grow in H0; [|done..].
    unfold kv_id in Hid. injection Hid as E3 E4 E5 E6. revert H0. unfold kv_refs_ok.
    by rewrite E1, E2, E3, E4, E6.
Qed.

Lemma evolves_set_tenants d id t :
  t_ID t = id → uuid_column id = Some id →
  (∀ old, db_tenants d !! id = Some old → t_CreatedAt t = t_CreatedAt old) →
  db_evolves d (set_tenants (<[id := t]> (db_tenants d)) d).
Proof.
  intros Ht Hid Hold. set (d' := set_tenants _ d).
  assert (db_wf d → db_grows d d') as G.
  { intros Hwf. split; simpl; eauto 10. intros id' x Hx. destruct (decide (id = id')) as [<-|].
    - rewrite lookup_insert_eq. exists t. destruct (wf_tenant_id _ Hwf _ _ Hx) as [Hxid _].
      split_and!; [done|congruence|by apply Hold].
    - rewrite lookup_insert_ne by done. eauto. }
  split; [|done]. intros Hwf.
  destruct (evolves_refs d d') as [Hk Hkv]; [done|by apply G|done|eauto|eauto 10|].
  destruct Hwf; split; simpl; eauto.
  intros id' t'. rewrite lookup_insert_Some. intros [[<- <-]|[_ ?]]; eauto.
Qed.

Lemma evolves_set_agents d m :
  (∀ a r, m !! a = Some r → (ar_Name r, ar_InstanceID r) = a) →
  db_evolves d (set_agents m d).
Proof.
  intros Hm. split; [intros []; split; simpl; eauto|]. intros _. split; simpl; eauto 10.
Qed.

Lemma evolves_update_key d id k k' :
  db_keys d !! id = Some k →
  k_ID k' = k_ID k → key_identity k' = key_identity k → k_Labels k' = k_Labels k →
  k_CreatedAt k' = k_CreatedAt k →
  db_evolves d (set_keys (<[id := k']> (db_keys d)) d).
Proof.
  intros Hk Hid Hident Hl Hc. set (d' := set_keys _ d).
  assert (∀ i x, db_keys d' !! i = Some x →
    ∃ x0, db_keys d !! i = Some x0 ∧ k_ID x = k_ID x0 ∧ key_identity x = key_identity x0) as Hback.
  { intros i x. simpl. rewrite lookup_insert_Some. intros [[<- <-]|[_ ?]]; eauto 10. }
  assert (db_grows d d') as G.
  { split; simpl; eauto 10. intros i x Hx. destruct (decide (id = i)) as [->|].
    - rewrite lookup_insert_eq. exists k'. assert (x = k) as -> by congruence. eauto 10.
    - rewrite lookup_insert_ne by done. eauto 10. }
  split; [|done]. intros Hwf. destruct (evolves_refs d d') as [Hr Hrv]; [done..| |eauto 10|].
  { intros i x (x0 & ? & ? & ?)%Hback. eauto. }
  pose proof Hwf as Hwf'. destruct Hwf' as [Hs ? ? Hki _ Hn ? _]. split; simpl; eauto.
  - intros E. destruct (Hs E) as (? & E2 & ?). rewrite E2 in Hk. done.
  - intros i x (x0 & ? & -> & ?)%Hback. eauto.
  - intros i1 i2 x1 x2 (y1 & Hy1 & _ & E1)%Hback (y2 & Hy2 & _ & E2)%Hback.
    apply key_identity_fields in E1 as (-> & -> & _). apply key_identity_fields in E2 as (-> & -> & _).
    eauto.
Qed.

Lemma existsb_false {A} (f : A → bool) l : existsb f l = false ↔ ∀ x, x ∈ l → f x = false.
Proof.
  induction l as [|x l IH]; simpl; [set_solver|].
  rewrite orb_false_iff, IH. set_solver.
Qed.

Lemma keys_list_elem d k : k ∈ keys_list d ↔ ∃ id, db_keys d !! id = Some k.
Proof.
  unfold keys_list. rewrite list_elem_of_fmap. split.
  - intros ([id k'] & -> & H%elem_of_map_to_list). eauto.
  - intros [id H]. exists (id, k). split; [done|]. by apply elem_of_map_to_list.
Qed.

Lemma evolves_insert_key d k :
  keys ∈ db_tables d → uuid_column (k_ID k) = Some (k_ID k) → db_keys d !! k_ID k = None →
  existsb (same_tenant_name (k_TenantID k) (k_Name k)) (keys_list d) = false →
  key_refs_ok (set_keys (<[k_ID k := k]> (db_keys d)) d) k = true →
  db_evolves d (set_keys (<[k_ID k := k]> (db_keys d)) d).
Proof.
  intros Htab Huuid Hnew Hname Hrefs. set (d' := set_keys _ d) in *.
  assert (db_grows d d') as G.
  { split; simpl; eauto 10. intros i x Hx. rewrite lookup_insert_ne by congruence. eauto 10. }
  split; [|done]. intros Hwf. destruct (evolves_refs d d') as [Hr Hrv]; [done..| |eauto 10|].
  { intros i x. simpl. rewrite lookup_insert_Some. intros [[<- <-]|[_ ?]]; eauto. }
  pose proof Hwf as Hwf'. destruct Hwf' as [Hs ? ? Hki _ Hn ? _]. split; simpl; eauto.
  - intros E. destruct (Hs E) as (Hsub & _). unfold keys, schema_meta in *. set_solver.
  - intros i x. rewrite lookup_insert_Some. intros [[<- <-]|[_ ?]]; eauto.
  - assert (∀ i x, db_keys d !! i = Some x → k_TenantID x = k_TenantID k → k_Name x ≠ k_Name k) as Hne.
    { intros i x Hx Ht En. rewrite existsb_false in Hname.
      assert (x ∈ keys_list d) as Hin by (apply keys_list_elem; eauto).
      specialize (Hname _ Hin). unfold same_tenant_name in Hname.
      by rewrite Ht, En, !String.eqb_refl in Hname. }
    intros i1 i2 x1 x2. rewrite !lookup_insert_Some.
    intros [[<- <-]|[? H1]] [[<- <-]|[? H2]] Et En; try done; eauto; exfalso.
    + by eapply (Hne i2 x2).
    + by eapply (Hne i1 x1).
Qed.

Lemma evolves_update_kv d i kv kv' :
  db_kvs d !! i = Some kv → kv_id kv' = kv_id kv →
  kv_ParentKeyID kv' = kv_ParentKeyID kv → kv_ParentKeyVersion kv' = kv_ParentKeyVersion kv →
  kv_Labels kv' = kv_Labels kv → kv_CreatedAt kv' = kv_CreatedAt kv →
  db_evolves d (set_kvs (<[i := kv']> (db_kvs d)) d).
Proof.
  intros Hkv Hid Hp Hpv Hl Hca. set (d' := set_kvs _ d).
  assert (db_grows d d') as G.
  { split; simpl; eauto 10. intros j x Hx. destruct (decide (i = j)) as [->|].
    - rewrite lookup_insert_eq. exists kv'. assert (x = kv) as -> by congruence. eauto 10.
    - rewrite lookup_insert_ne by done. eauto 10. }
  split; [|done]. intros Hwf. destruct (evolves_refs d d') as [Hr Hrv]; [done..|eauto| |].
  { intros j x. simpl. rewrite lookup_insert_Some. intros [[<- <-]|[_ ?]]; eauto 10. }
  pose proof Hwf as Hwf'. destruct Hwf' as [Hs ? ? ? _ ? Hvi _]. split; simpl; eauto.
  - intros E. destruct (Hs E) as (_ & _ & E2). by rewrite E2 in Hkv.
  - intros j x. rewrite lookup_insert_Some. intros [[<- <-]|[_ ?]]; [|eauto].
    rewrite Hid. eauto.
Qed.

Lemma evolves_insert_kv d kv :
  key_versions ∈ db_tables d → db_kvs d !! kv_id kv = None →
  kv_refs_ok (set_kvs (<[kv_id kv := kv]> (db_kvs d)) d) kv = true →
  db_evolves d (set_kvs (<[kv_id kv := kv]> (db_kvs d)) d).
Proof.
  intros Htab Hnew Hrefs. set (d' := set_kvs _ d) in *.
  assert (db_grows d d') as G.
  { split; simpl; eauto 10. intros j x Hx. rewrite lookup_insert_ne by congruence. eauto 10. }
  split; [|done]. intros Hwf. destruct (evolves_refs d d') as [Hr Hrv]; [done..|eauto| |].
  { intros j x. simpl. rewrite lookup_insert_Some. intros [[<- <-]|[_ ?]]; eauto 10. }
  pose proof Hwf as Hwf'. destruct Hwf' as [Hs ? ? ? _ ? Hvi _]. split; simpl; eauto.
  - intros E. destruct (Hs E) as (Hsub & _). unfold key_versions, schema_meta in *. set_solver.
  - intros j x. rewrite lookup_insert_Some. intros [[<- <-]|[_ ?]]; eauto.
Qed.

(** ** Operations *)

Section operations.
Context {ENV : Env} {COL : Collation} {CODEC : CursorCodec}.
Notation evolves := (respects (db_rel db_evolves)).

(** A statement whose effect depends on the rows it finds. *)
Lemma evolves_get_db {A} (k : DB → M A) :
  (∀ w, db_evolves (w_db w) (w_db (k (w_db w) w).2)) → evolves (get_db ≫= k).
Proof. intros Hk w. apply Hk. Qed.

Lemma evolves_arg_job_id j : evolves (arg_job_id j).
Proof. unfold arg_job_id. solve_respects. Qed.

Lemma bind_arg_uuid {A} s (k : string → M A) :
  (∀ c, uuid_column s = Some c → evolves (k c)) → evolves (arg_uuid s ≫= k).
Proof.
  intros Hk. unfold arg_uuid. destruct (uuid_column s); [|intros w; simpl; reflexivity].
  by apply Hk.
Qed.

Lemma bind_statement {A} t (k : () → M A) :
  (∀ w, t ∈ db_tables (w_db w) → db_evolves (w_db w) (w_db (k () w).2)) → evolves (statement t ≫= k).
Proof.
  intros Hk w. unfold mbind, comp_bind, db_rel. destruct (statement t w) as [r w'] eqn:E.
  apply statement_inv in E as [Hdb [[-> Ht]|[what ->]]]; simpl; rewrite <-Hdb in *.
  - by apply Hk.
  - reflexivity.
Qed.

Ltac arg_step := apply respects_bind;
  [apply _|eauto using evolves_arg_job_id with respects; fail|intros ?].

Lemma evolves_UpsertTenant t : evolves (UpsertTenant t).
Proof.
  apply bind_arg_uuid. intros id Hid. arg_step.
  apply respects_bind; [apply _| |intros; apply respects_ret; apply _].
  apply db_rel_update_db. intros d. apply evolves_set_tenants; [done|by eapply uuid_column_canonical|].
  intros old Hold. cbn. by rewrite Hold.
Qed.

Lemma evolves_Register r : evolves (Register r).
Proof.
  unfold Register. arg_step. apply bind_arg_uuid. intros id Hid. arg_step.
  apply evolves_get_db. intros w. simpl.
  split; [intros Hwf; apply evolves_set_agents; [|done]|intros Hwf; eapply evolves_set_agents; [|done]];
    intros a' r'; rewrite lookup_insert_Some; (intros [[<- <-]|[_ ?]]; [done|by eapply wf_agent_id]).
Qed.

Lemma evolves_UpdateStatus q : evolves (UpdateStatus q).
Proof.
  unfold UpdateStatus. do 2 (destruct (_ : bool); [apply respects_throw; apply _|]).
  arg_step. apply respects_bind; [apply _|solve_respects|intros instance].
  arg_step. apply db_rel_update_db. intros d.
  assert (db_wf d → ∀ ag rg, ((λ r, if agent_matches q instance a r
     then mkAgentRegistration (ar_Name r) (ar_InstanceID r) (ua_ToStatus q)
            (ar_LastHeartbeat r) (ar_CreatedAt r) a else r) <$> db_agents d) !! ag = Some rg →
     (ar_Name rg, ar_InstanceID rg) = ag) as Hm.
  { intros Hwf ag rg. rewrite lookup_fmap, fmap_Some. intros (r & Hr & ->).
    apply wf_agent_id in Hr; [|done]. by destruct (agent_matches _ _ _ _). }
  split; intros Hwf; eapply evolves_set_agents; eauto.
Qed.

Lemma evolves_DeleteAgents st th : evolves (DeleteAgents st th).
Proof.
  unfold DeleteAgents. do 2 (destruct (_ : bool); [apply respects_throw; apply _|]).
  arg_step. arg_step. apply db_rel_update_db. intros d.
  split; intros Hwf; eapply evolves_set_agents; eauto;
    intros ag rg [? _]%map_lookup_filter_Some; by eapply wf_agent_id.
Qed.

Lemma evolves_update_key_op id tenant cond f :
  (∀ k, k_ID (f k) = k_ID k ∧ key_identity (f k) = key_identity k ∧ k_Labels (f k) = k_Labels k ∧
        k_CreatedAt (f k) = k_CreatedAt k) →
  evolves (update_key id tenant cond f).
Proof.
  intros Hf. apply evolves_get_db. intros w.
  destruct (find_key _ _ _) as [k|] eqn:E; [|simpl; reflexivity].
  apply find_key_Some in E as [E _]. destruct (cond k); [|simpl; reflexivity]. simpl.
  destruct (Hf k) as (? & ? & ? & ?). eapply evolves_update_key; eauto.
Qed.

Lemma evolves_rows_affected n : evolves (rows_affected n).
Proof. unfold rows_affected. solve_respects. Qed.

Lemma evolves_CreateKey k : evolves (CreateKey k).
Proof.
  apply bind_arg_uuid. intros id Hid. arg_step. arg_step. arg_step.
  apply bind_statement. intros w Ht. rewrite bind_get_db. cbv zeta.
  destruct (_ || _)%bool eqn:Ec; [simpl; reflexivity|].
  apply orb_false_iff in Ec as [Hnew Hname]. apply bool_decide_eq_false in Hnew.
  destruct (key_refs_ok _ _) eqn:Hr; [|simpl; reflexivity]. cbn -[key_refs_ok].
  eapply (evolves_insert_key _ (mkKey id _ _ _ _ _ _ _ _ _ _)); simpl; eauto.
  - by eapply uuid_column_canonical.
  - by apply eq_None_not_Some.
Qed.

Lemma evolves_UpdateKeyLifeCycleState i t s : evolves (UpdateKeyLifeCycleState i t s).
Proof.
  unfold UpdateKeyLifeCycleState. do 4 arg_step.
  apply respects_bind; [apply _|by apply evolves_update_key_op|intros; apply evolves_rows_affected].
Qed.
Lemma evolves_UpdateKeyProcessingState i t s j : evolves (UpdateKeyProcessingState i t s j).
Proof.
  unfold UpdateKeyProcessingState. do 5 arg_step.
  apply respects_bind; [apply _|by apply evolves_update_key_op|intros; apply evolves_rows_affected].
Qed.
Lemma evolves_UpdateKeyStates q : evolves (UpdateKeyStates q).
Proof.
  unfold UpdateKeyStates. do 4 arg_step.
  apply respects_bind; [apply _|by apply evolves_update_key_op|intros; apply evolves_rows_affected].
Qed.

Lemma evolves_CreateKeyVersion kv : evolves (CreateKeyVersion kv).
Proof.
  unfold CreateKeyVersion. do 6 arg_step.
  apply bind_statement. intros w Ht. rewrite bind_get_db. cbv zeta.
  case_bool_decide as Hnew; [simpl; reflexivity|].
  destruct (kv_refs_ok _ _) eqn:Hr; [|simpl; reflexivity]. cbn -[kv_refs_ok kv_id].
  apply evolves_insert_kv; [done| |done]. by apply eq_None_not_Some.
Qed.

Lemma evolves_UpdateKeyVersionStates q : evolves (UpdateKeyVersionStates q).
Proof.
  unfold UpdateKeyVersionStates. destruct (_ || _)%bool; [apply respects_throw; apply _|].
  do 6 arg_step. apply evolves_get_db. intros w.
  destruct (db_kvs _ !! _) as [kv|] eqn:E; [|simpl; reflexivity].
  destruct (version_states_match q kv); [|simpl; reflexivity]. simpl.
  by eapply evolves_update_kv.
Qed.
End operations.

#[export] Hint Resolve evolves_UpsertTenant evolves_Register evolves_UpdateStatus
  evolves_DeleteAgents evolves_CreateKey evolves_UpdateKeyLifeCycleState
  evolves_UpdateKeyProcessingState evolves_UpdateKeyStates evolves_CreateKeyVersion
  evolves_UpdateKeyVersionStates : respects.

(** Queries change nothing, so they respect every relation on databases. *)
Section queries.
Context {ENV : Env} {COL : Collation} {CODEC : CursorCodec} (P : relation DB) `{!PreOrder P}.

Lemma db_rel_GetTenant i : respects (db_rel P) (GetTenant i).
Proof. unfold GetTenant. solve_respects. Qed.
Lemma db_rel_ListTenants : respects (db_rel P) ListTenants.
Proof. unfold ListTenants. solve_respects. Qed.
Lemma db_rel_GetAgent n i : respects (db_rel P) (GetAgent n i).
Proof. unfold GetAgent. solve_respects. Qed.
Lemma db_rel_ListAgents n : respects (db_rel P) (ListAgents n).
Proof. unfold ListAgents. solve_respects. Qed.
Lemma db_rel_scan_row r : respects (db_rel P) (scan_row r).
Proof. unfold scan_row. solve_respects. Qed.
Lemma db_rel_GetKeyByID i t : respects (db_rel P) (GetKeyByID i t).
Proof. unfold GetKeyByID. solve_respects; apply db_rel_scan_row. Qed.
Lemma db_rel_GetKeyByName t n : respects (db_rel P) (GetKeyByName t n).
Proof. unfold GetKeyByName. solve_respects; apply db_rel_scan_row. Qed.
Lemma db_rel_GetParentKeys i t : respects (db_rel P) (GetParentKeys i t).
Proof. unfold GetParentKeys. solve_respects. Qed.
Lemma db_rel_GetDescendantKeys q : respects (db_rel P) (GetDescendantKeys q).
Proof. unfold GetDescendantKeys. solve_respects. Qed.
Lemma db_rel_ListKeys q : respects (db_rel P) (ListKeys q).
Proof. unfold ListKeys. solve_respects. Qed.
Lemma db_rel_GetKeyVersion t k v r : respects (db_rel P) (GetKeyVersion t k v r).
Proof. unfold GetKeyVersion. solve_respects. Qed.
Lemma db_rel_ListKeyVersions q : respects (db_rel P) (ListKeyVersions q).
Proof. unfold ListKeyVersions. solve_respects. Qed.
End queries.

#[export] Hint Resolve db_rel_GetTenant db_rel_ListTenants db_rel_GetAgent db_rel_ListAgents
  db_rel_GetKeyByID db_rel_GetKeyByName db_rel_GetParentKeys db_rel_GetDescendantKeys
  db_rel_ListKeys db_rel_GetKeyVersion db_rel_ListKeyVersions : respects.

(** ** Migration *)

Section migration.
Context {ENV : Env}.
Notation evolves := (respects (db_rel db_evolves)).

Lemma empty_db_wf : db_wf empty_db.
Proof. by split. Qed.

(** Growing the schema: a table is added, or the node is recorded. *)
Lemma evolves_set_schema d tables n :
  db_tables d ⊆ tables → (n = db_node d ∨ db_node d = None) →
  (n = None → tables ⊆ {[schema_meta]}) →
  db_evolves d (set_schema tables n d).
Proof.
  intros Ht Hn Hs. split.
  - intros Hwf. destruct Hn as [->|Hn].
    + destruct Hwf as [Hsch ? ? ? Hr ? ? Hv]. split; simpl; eauto.
      intros E. destruct (Hsch E) as (_ & ? & ?). eauto.
    + destruct (wf_schema _ Hwf Hn) as (_ & Ek & Ev). destruct Hwf. split; simpl; rewrite ?Ek, ?Ev; eauto;
        try done; intros *; by rewrite lookup_empty.
  - intros _. split; simpl; eauto 10.
Qed.

Lemma create_table_db t w :
  w_db (create_table t w).2 = w_db w ∨
  w_db (create_table t w).2 = set_schema ({[t]} ∪ db_tables (w_db w)) (db_node (w_db w)) (w_db w).
Proof.
  unfold create_table, mbind, comp_bind, external. destruct (e_fault _); simpl; auto.
Qed.

Lemma create_table_evolves t w :
  (t = schema_meta ∨ db_node (w_db w) ≠ None) → db_wf (w_db w) →
  db_evolves (w_db w) (w_db (create_table t w).2) ∧
  db_node (w_db (create_table t w).2) = db_node (w_db w).
Proof.
  intros Ht Hwf. destruct (create_table_db t w) as [-> | ->]; split; [reflexivity|done| |done].
  apply evolves_set_schema; [set_solver|by left|]. intros E. destruct Ht as [->|]; [|done].
  destruct (wf_schema _ Hwf E) as (? & _). set_solver.
Qed.

Lemma create_tables_evolve ts w :
  db_node (w_db w) ≠ None → db_wf (w_db w) →
  db_evolves (w_db w) (w_db (foldM (λ _ t, create_table t) () ts w).2).
Proof.
  revert w. induction ts as [|t ts IH]; intros w Hn Hwf; simpl; [reflexivity|].
  destruct (create_table_evolves t w) as [He Hn']; [by right|done|].
  unfold mbind, comp_bind. destruct (create_table t w) as [[] w'] eqn:E; simpl in *; [|done..].
  etrans; [exact He|]. destruct a. apply IH; [congruence|]. by apply He.
Qed.

Lemma evolves_Migrate_wf n w : db_wf (w_db w) → db_evolves (w_db w) (w_db (Migrate n w).2).
Proof.
  intros Hwf. unfold Migrate. destruct (parse_node n) as [nd|]; [|simpl; reflexivity].
  destruct (create_table_evolves schema_meta w) as [He _]; [by left|done|].
  unfold mbind at 1. unfold comp_bind at 1.
  destruct (create_table schema_meta w) as [[u| | |] w1] eqn:E1; simpl in He; [|done..].
  assert (db_wf (w_db w1)) as Hwf1 by by apply He. etrans; [exact He|]. clear He E1 Hwf w u.
  unfold mbind at 1. unfold comp_bind at 1.
  destruct (statement schema_meta w1) as [r w2] eqn:E2.
  apply statement_inv in E2 as [Hdb [[-> Ht]|[what ->]]]; [|simpl; rewrite Hdb; reflexivity].
  rewrite <-Hdb in *. clear Hdb. rewrite bind_get_db.
  destruct (db_node (w_db w2)) as [ex|] eqn:En.
  - case_bool_decide; [|simpl; reflexivity]. unfold mbind, comp_bind, mret, comp_ret.
    apply create_tables_evolve; congruence.
  - unfold mbind at 1. unfold comp_bind at 1. unfold mbind at 1. unfold comp_bind at 1.
    destruct (statement schema_meta w2) as [r w3] eqn:E3.
    apply statement_inv in E3 as [Hdb [[-> _]|[what ->]]]; [|simpl; rewrite Hdb; reflexivity].
    cbn [update_db modify].
    set (w4 := set_db _ w3).
    assert (db_evolves (w_db w2) (w_db w4)) as He.
    { unfold w4. simpl. rewrite Hdb. apply evolves_set_schema; [done|by right|done]. }
    etrans; [exact He|]. apply create_tables_evolve; [done|by apply He].
Qed.

Lemma evolves_Migrate n : evolves (Migrate n).
Proof. intros w. split; intros Hwf; by apply evolves_Migrate_wf. Qed.
End migration.

#[export] Hint Resolve evolves_Migrate : respects.

(** ** Runs of the stores *)

Section runs.
Context {ENV : Env}.

(** Every statement of the stores that changes the database. *)
Inductive store_step :=
  | SUpsertTenant (t : Tenant)
  | SRegister (r : AgentRegistration)
  | SUpdateStatus (q : UpdateAgentStatusQuery)
  | SDeleteAgents (status : string) (threshold : Z)
  | SCreateKey (k : Key)
  | SUpdateKeyLifeCycleState (id tenant state : string)
  | SUpdateKeyProcessingState (id tenant status job : string)
  | SUpdateKeyStates (q : UpdateKeyStatesQuery)
  | SCreateKeyVersion (kv : KeyVersion)
  | SUpdateKeyVersionStates (q : UpdateKeyVersionStatesQuery).

(** What a client can do: migrate, one statement, several in a transaction. *)
Inductive store_call :=
  | CMigrate (node : string)
  | CStep (s : store_step)
  | CTransaction (steps : list store_step).

Definition discard {A} (m : M A) : M () := _ ← m; mret ().

Definition run_step (s : store_step) : M () :=
  match s with
  | SUpsertTenant t => discard (UpsertTenant t)
  | SRegister r => discard (Register r)
  | SUpdateStatus q => UpdateStatus q
  | SDeleteAgents s t => DeleteAgents s t
  | SCreateKey k => CreateKey k
  | SUpdateKeyLifeCycleState i t s => UpdateKeyLifeCycleState i t s
  | SUpdateKeyProcessingState i t s j => UpdateKeyProcessingState i t s j
  | SUpdateKeyStates q => UpdateKeyStates q
  | SCreateKeyVersion kv => discard (CreateKeyVersion kv)
  | SUpdateKeyVersionStates q => UpdateKeyVersionStates q
  end.

Definition run_call (c : store_call) : M () :=
  match c with
  | CMigrate n => Migrate n
  | CStep s => run_step s
  | CTransaction ss => ChainTransaction ((λ s _, run_step s) <$> ss) ()
  end.

(** Calls one after the other; a failed call does not stop the others. *)
Definition run_calls (cs : list store_call) (w : world) : world :=
  foldl (λ w c, (run_call c w).2) w cs.

Lemma evolves_discard {A} (m : M A) :
  respects (db_rel db_evolves) m → respects (db_rel db_evolves) (discard m).
Proof. intros Hm. unfold discard. solve_respects; done. Qed.

Lemma evolves_run_step s : respects (db_rel db_evolves) (run_step s).
Proof. destruct s; simpl; eauto using evolves_discard with respects. Qed.

Lemma evolves_run_call c : respects (db_rel db_evolves) (run_call c).
Proof.
  destruct c; simpl; eauto using evolves_run_step with respects.
  apply db_rel_ChainTransaction; [apply _|].
  intros s [] (s' & -> & _)%list_elem_of_fmap. apply evolves_run_step.
Qed.

Lemma evolves_run_calls cs w : db_evolves (w_db w) (w_db (run_calls cs w)).
Proof.
  revert w; induction cs as [|c cs IH]; intros w; simpl; [reflexivity|].
  etrans; [apply (evolves_run_call c w)|apply IH].
Qed.

(** C16: whatever calls are made on a database that satisfies the schema's
    invariant (a fresh one does), alone or grouped in transactions, and
    whatever statements fail, the invariant still holds: rows are stored under
    their canonical keys, key names are unique per tenant, every reference
    resolves (on the root, to parent keys and parent versions too). *)
Theorem store_invariant cs w :
  db_wf (w_db w) → db_wf (w_db (run_calls cs w)).
Proof. apply evolves_run_calls. Qed.

(** C29: no sequence of store calls ever removes a tenant, a key or a key
    version, or changes which node a database belongs to.  A key keeps its
    identifier, name, tenant, kind, parent, manager, labels and creation time, a
    version its place, parent, labels and creation time, so that only their
    states and update times can change; a tenant keeps its identifier and
    creation time, while its name, labels and update time may change. *)
Theorem store_grows cs w :
  db_wf (w_db w) → db_grows (w_db w) (w_db (run_calls cs w)).
Proof. apply evolves_run_calls. Qed.
End runs.

(** ** A concrete environment, for closed examples *)

Module Sample.
Definition uuid0 : string := "00000000-0000-4000-8000-000000000000".
Definition uuid1 : string := "00000000-0000-4000-8000-000000000001".
Definition uuid2 : string := "00000000-0000-4000-8000-000000000002".
Definition uuid3 : string := "00000000-0000-4000-8000-000000000003".
Definition uuids : list string := [uuid0; uuid1; uuid2; uuid3].

Definition sample_uuid (n : nat) : string := default uuid0 (uuids !! (n mod 4)).

Lemma sample_uuid_canonical n : uuid_column (sample_uuid n) = Some (sample_uuid n).
Proof.
  unfold sample_uuid. pose proof (Nat.mod_upper_bound n 4). revert H.
  destruct (n mod 4) as [|[|[|[|]]]]; intros; try lia; reflexivity.
Qed.

#[export] Instance env : Env := {|
  e_clock := Z.of_nat;
  e_uuid := sample_uuid;
  e_rand := λ n i, Ascii.ascii_of_nat (n + i);
  e_fault := λ _, false;
  e_order := λ _ l, l;
  e_uuid_canonical := sample_uuid_canonical;
  e_order_perm := λ _ l, reflexivity l;
|}.

#[export] Instance env_no_faults : NoFaults (H := env).
Proof. done. Defined.

Definition world0 (d : DB) : world := mkWorld d 0 empty_secmem ∅ [].

Definition tenant : Tenant := mkTenant uuid0 "t" ∅ 0 0.
Definition key (id name kind : string) (parent : option string) (state status : string) : Key :=
  mkKey id name uuid0 kind parent "agent" ∅ state (mkKeyProcessingState status "") 0 0.

(** A migrated root with a tenant and two keys, one the parent of the other. *)
Definition calls : list store_call :=
  [CMigrate "root"; CStep (SUpsertTenant tenant);
   CStep (SCreateKey (key uuid1 "k1" "K1" None KeyLifeCyclePreActivation KeyProcessingPending));
   CStep (SCreateKey (key uuid2 "k2" "K2" (Some uuid1) KeyLifeCyclePreActivation KeyProcessingPending))].

Definition w1 : world := run_calls calls (world0 empty_db).

Lemma store_invariant_witness : db_wf (w_db w1) ∧ size (db_keys (w_db w1)) = 2.
Proof.
  split; [|vm_compute; reflexivity].
  apply (store_invariant calls (world0 empty_db)). exact empty_db_wf.
Defined.

Lemma store_grows_witness :
  db_grows (w_db w1) (w_db (run_calls [CStep (SUpdateKeyLifeCycleState uuid1 uuid0 KeyLifeCycleActive)] w1)).
Proof.
  apply store_grows. apply (evolves_run_calls calls (world0 empty_db)). exact empty_db_wf.
Defined.
End Sample.
