(* ===== verification/StoreTheorems.v ===== *)
(** * What the stores promise

    Compare-and-swap of key states, insert and lookup, migration, patterns,
    pagination by cursors, and the two recursive queries with the adequacy of
    their fuel. *)

From S2P Require Import Prelude GoStrings GoRuntime Model World Lifecycle Sql KeyStore.
From S2P Require Import KeyVersionStore StoreInvariant.
From Stdlib Require Import Ascii.

Local Open Scope string_scope.

(** ** Symbolic execution of store calls *)

Section exec.
Context {ENV : Env}.

Lemma bind_clock_Now {A} (k : Z → M A) w :
  (clock_Now ≫= k) w = k (e_clock (w_tick w)) (tick w).
Proof. done. Qed.

Lemma bind_check {A} e (k : () → M A) w :
  (check e ≫= k) w = match e with None => k () w | Some e => (Err e, w) end.
Proof. by destruct e. Qed.

Lemma bind_arg_uuid_eq {A} s (k : string → M A) w :
  (arg_uuid s ≫= k) w =
  match uuid_column s with
  | Some c => k c w
  | None => (Err (EForeign "invalid input syntax for type uuid"), w)
  end.
Proof. unfold arg_uuid. by destruct (uuid_column s). Qed.

Lemma bind_arg_int4_eq {A} z (k : Z → M A) w :
  (arg_int4 z ≫= k) w =
  if int4_ok z then k z w else (Err (EForeign "out of range for type int4"), w).
Proof. unfold arg_int4. by destruct (int4_ok z). Qed.

(** A statement either fails, with an error no sentinel matches and the
    database untouched, or finds its table and goes on. *)
Lemma bind_statement_cases {A} t (k : () → M A) w :
  (∃ what w', (statement t ≫= k) w = (Err (EForeign what), w') ∧ w_db w' = w_db w) ∨
  (∃ w', (statement t ≫= k) w = k () w' ∧ w_db w' = w_db w ∧ t ∈ db_tables (w_db w)).
Proof.
  unfold mbind, comp_bind. destruct (statement t w) as [r w'] eqn:E.
  apply statement_inv in E as [Hdb [[-> Ht]|[what ->]]]; [right|left]; eauto.
Qed.

Lemma bind_update_key {A} id t c f (k : nat → M A) w :
  (update_key id t c f ≫= k) w =
  match find_key (w_db w) id t with
  | Some r => if c r then k 1 (set_db (set_keys (<[id := f r]> (db_keys (w_db w))) (w_db w)) w)
              else k 0 w
  | None => k 0 w
  end.
Proof.
  unfold update_key. unfold mbind, comp_bind, get_db, gets. simpl.
  destruct (find_key _ _ _) as [r|]; [|done]. by destruct (c r).
Qed.
End exec.

(** ** Compare and swap *)

Section cas.
Context {ENV : Env}.

Definition from_matches (q : UpdateKeyStatesQuery) (k : Key) : Prop :=
  (uk_FromState q = [] ∨ k_LifeCycleState k ∈ uk_FromState q) ∧
  (uk_FromStatus q = [] ∨ k_Status k ∈ uk_FromStatus q).

Lemma states_match_iff q k : states_match q k = true ↔ from_matches q k.
Proof.
  unfold states_match, from_matches.
  by rewrite andb_true_iff, !orb_true_iff, !bool_decide_eq_true.
Qed.

(** The row a query addresses. *)
Definition target (d : DB) (ID TenantID : string) : option Key :=
  id ← uuid_column ID; t ← uuid_column TenantID; find_key d id t.

Definition swapped (q : UpdateKeyStatesQuery) (now : Z) (k : Key) : Key :=
  set_key_states (uk_ToState q)
    (mkKeyProcessingState (uk_ToStatus q) (ps_JobID (k_ProcessingState k))) now k.

Lemma UpdateKeyStates_spec q w :
  match UpdateKeyStates q w with
  | (Ok _, w') =>
      ∃ k now, target (w_db w) (uk_ID q) (uk_TenantID q) = Some k ∧ from_matches q k ∧
        ∃ id, uuid_column (uk_ID q) = Some id ∧
        w_db w' = set_keys (<[id := swapped q now k]> (db_keys (w_db w))) (w_db w)
  | (Err e, w') =>
      w_db w' = w_db w ∧
      (e = ESentinel ErrKeyNotFound ∧
         (∀ k, target (w_db w) (uk_ID q) (uk_TenantID q) = Some k → ¬ from_matches q k) ∨
       ∃ what, e = EForeign what)
  | _ => False
  end.
Proof.
  unfold UpdateKeyStates, target. rewrite bind_clock_Now, !bind_arg_uuid_eq.
  destruct (uuid_column (uk_ID q)) as [id|]; simpl; [|eauto].
  rewrite bind_arg_uuid_eq. destruct (uuid_column (uk_TenantID q)) as [t|]; simpl; [|eauto].
  match goal with |- context [(statement keys ≫= ?k) ?w] =>
    destruct (bind_statement_cases keys k w) as [(what & w' & -> & ->)|(w' & -> & Hdb & _)] end;
    [simpl; eauto|]. simpl in Hdb.
  rewrite bind_update_key, Hdb. destruct (find_key (w_db w) id t) as [k|] eqn:Ek.
  - pose proof (states_match_iff q k) as Hm. destruct (states_match q k) eqn:Em; simpl.
    + exists k. eexists. split_and!; [done|naive_solver|]. by exists id.
    + split; [done|]. left. split; [done|]. naive_solver.
  - simpl. split; [done|]. left. naive_solver.
Qed.

(** C26: [UpdateKeyStates] is a compare-and-swap on one key of one tenant: it
    succeeds only if the addressed row exists and its state and status are
    among the expected ones, and then that row alone changes, to the new state
    and status with the job id kept; it reports [ErrKeyNotFound] only when the
    row is missing or does not match, any other error is the database's, and
    an error leaves the data alone. *)
Theorem update_key_states_cas q w :
  match UpdateKeyStates q w with
  | (Ok _, w') =>
      ∃ k now, target (w_db w) (uk_ID q) (uk_TenantID q) = Some k ∧ from_matches q k ∧
        ∃ id, uuid_column (uk_ID q) = Some id ∧
        w_db w' = set_keys (<[id := swapped q now k]> (db_keys (w_db w))) (w_db w)
  | (Err e, w') =>
      w_db w' = w_db w ∧
      (e = ESentinel ErrKeyNotFound ∧
         (∀ k, target (w_db w) (uk_ID q) (uk_TenantID q) = Some k → ¬ from_matches q k) ∨
       ∃ what, e = EForeign what)
  | _ => False
  end.
Proof. apply UpdateKeyStates_spec. Qed.

(** What [GetKeyByID] returns. *)
Lemma GetKeyByID_spec ID TenantID w :
  match GetKeyByID ID TenantID w with
  | (Ok k, w') => w_db w' = w_db w ∧ target (w_db w) ID TenantID = Some k
  | (Err e, w') =>
      w_db w' = w_db w ∧
      (e = ESentinel ErrKeyNotFound ∧ target (w_db w) ID TenantID = None ∨
       ∃ what, e = EForeign what)
  | _ => False
  end.
Proof.
  unfold GetKeyByID, target. rewrite bind_arg_uuid_eq.
  destruct (uuid_column ID) as [id|]; simpl; [|eauto].
  rewrite bind_arg_uuid_eq. destruct (uuid_column TenantID) as [t|]; simpl; [|eauto].
  match goal with |- context [(statement keys ≫= ?k) ?w] =>
    destruct (bind_statement_cases keys k w) as [(what & w' & -> & ->)|(w' & -> & Hdb & _)] end;
    [simpl; eauto|].
  rewrite bind_get_db, Hdb. destruct (find_key (w_db w) id t); simpl; eauto.
Qed.
End cas.

(** ** Patterns *)

Section patterns.
Context {COL : Collation}.

Definition escape_char (c : ascii) : list ascii :=
  if Ascii.eqb c "\" then ["\"; "\"]%char
  else if Ascii.eqb c "%" then ["\"; "%"]%char
  else if Ascii.eqb c "_" then ["\"; "_"]%char
  else [c].

Lemma chars_replace_all s old new :
  chars (replace_all s old new) = (chars s ≫= λ c, if Ascii.eqb c old then chars new else [c]).
Proof.
  induction s as [|c s IH]; simpl; [done|].
  destruct (Ascii.eqb c old); [by rewrite chars_app, IH|simpl; by rewrite IH].
Qed.

Lemma chars_escape s : chars (escapeLikePattern s) = (chars s ≫= escape_char).
Proof.
  unfold escapeLikePattern. rewrite !chars_replace_all. induction (chars s) as [|c l IH]; [done|].
  cbn [mbind list_bind]. rewrite <-IH, !bind_app. f_equal. unfold escape_char.
  destruct (Ascii.eqb_spec c "\") as [->|H1]; [done|].
  destruct (Ascii.eqb_spec c "%") as [->|H2]; [done|]. simpl.
  rewrite (proj2 (Ascii.eqb_neq _ _) H2). simpl. by destruct (Ascii.eqb c "_").
Qed.

Lemma like_tokens_esc d l : like_tokens ("\"%char :: d :: l) = (LLit d ::.) <$> like_tokens l.
Proof. done. Qed.

Lemma like_tokens_any l : like_tokens ("%"%char :: l) = (LAny ::.) <$> like_tokens l.
Proof. done. Qed.

Lemma like_tokens_escape l r :
  like_tokens ((l ≫= escape_char) ++ r)%list = ((LLit <$> l) ++.) <$> like_tokens r.
Proof.
  induction l as [|c l IH].
  - simpl. by destruct (like_tokens r).
  - change ((c :: l) ≫= escape_char) with (escape_char c ++ (l ≫= escape_char))%list.
    rewrite <-app_assoc. unfold escape_char at 1.
    assert (∀ o : option (list like_token),
      (LLit c ::.) <$> (((LLit <$> l) ++.) <$> o) = ((LLit <$> c :: l) ++.) <$> o) as Ho by by intros [].
    destruct (Ascii.eqb_spec c "\") as [->|H1]; [cbn [app]; rewrite like_tokens_esc, IH; apply Ho|].
    destruct (Ascii.eqb_spec c "%") as [->|H2]; [cbn [app]; rewrite like_tokens_esc, IH; apply Ho|].
    destruct (Ascii.eqb_spec c "_") as [->|H3]; [cbn [app]; rewrite like_tokens_esc, IH; apply Ho|].
    cbn [app like_tokens]. rewrite (proj2 (Ascii.eqb_neq _ _) H1), (proj2 (Ascii.eqb_neq _ _) H2),
      (proj2 (Ascii.eqb_neq _ _) H3), IH. apply Ho.
Qed.

(** A run of literals matches exactly the strings that start with it. *)
Lemma like_match_literals l p s :
  like_match ((LLit <$> l) ++ p)%list s = true ↔
  ∃ mid post, s = (mid ++ post)%list ∧ char_fold <$> mid = char_fold <$> l ∧ like_match p post = true.
Proof.
  revert s. induction l as [|c l IH]; intros s; cbn [fmap list_fmap app].
  - split; [by exists [], s|]. intros (mid & post & -> & Hm & ?). by destruct mid.
  - cbn [like_match]. destruct s as [|d s].
    { split; [done|]. intros ([|] & post & Hs & Hm & _); [done|by destruct post]. }
    rewrite andb_true_iff, IH. split.
    + intros (Hc%Ascii.eqb_eq & mid & post & -> & Hm & ?).
      exists (d :: mid), post. split_and!; [done| |done]. cbn. by rewrite Hc, Hm.
    + intros ([|d' mid] & post & Hs & Hm & ?); [done|]. cbn in Hs, Hm. injection Hs as <- ->.
      injection Hm as Hd Hm. split; [by apply Ascii.eqb_eq|]. by exists mid, post.
Qed.

Lemma like_match_any p s :
  like_match (LAny :: p) s = true ↔ ∃ pre post, s = (pre ++ post)%list ∧ like_match p post = true.
Proof.
  induction s as [|c s IH]; cbn [like_match] in *.
  - rewrite orb_false_r. split; [by exists [], []|]. intros ([] & post & ? & ?); by simplify_eq/=.
  - rewrite orb_true_iff, IH. split.
    + intros [?|(pre & post & -> & ?)]; [by exists [], (c :: s)|by exists (c :: pre), post].
    + intros ([|c' pre] & post & Hs & ?); simplify_eq/=; [by left|right; by exists pre, post].
Qed.

Lemma ilike_escaped s q :
  ilike s ("%" +:+ escapeLikePattern q +:+ "%") = true ↔
  ∃ pre mid post, chars s = (pre ++ mid ++ post)%list ∧
    char_fold <$> mid = char_fold <$> chars q.
Proof.
  unfold ilike. rewrite !chars_app, chars_escape.
  change (chars "%" ++ ?l)%list with ("%"%char :: l). rewrite like_tokens_any, like_tokens_escape.
  change (like_tokens (chars "%")) with (Some [LAny]). cbn [fmap option_fmap option_map].
  rewrite like_match_any. setoid_rewrite like_match_literals. split.
  - intros (pre & post & Hs & mid & post' & -> & Hm & _). by exists pre, mid, post'.
  - intros (pre & mid & post & Hs & Hm). exists pre, (mid ++ post)%list. split; [done|].
    exists mid, post. split_and!; [done..|]. apply like_match_any.
    exists post, []. by rewrite app_nil_r.
Qed.

(** The name filter of [ListKeys] is literal containment up to case: with
    [escapeLikePattern], no character of the caller's text acts as a pattern
    metacharacter. *)
Theorem name_filter_literal s q :
  ilike s ("%" +:+ escapeLikePattern q +:+ "%") = true ↔
  ∃ pre mid post, chars s = (pre ++ mid ++ post)%list ∧
    char_fold <$> mid = char_fold <$> chars q.
Proof. apply ilike_escaped. Qed.
End patterns.

(** ** Ancestors *)

(** The row a key's parent column refers to. *)
Definition parent_of (d : DB) (k : Key) : option Key :=
  k_ParentID k ≫= λ p, find_key d p (k_TenantID k).

(** [links d l]: each element's parent is the next one, the last has none. *)
Fixpoint links (d : DB) (l : list Key) : Prop :=
  match l with
  | [] => True
  | k :: l' => match l' with
               | [] => parent_of d k = None
               | p :: _ => parent_of d k = Some p
               end ∧ links d l'
  end.

Lemma parent_of_stored d k p : parent_of d k = Some p → p ∈ keys_list d.
Proof.
  unfold parent_of. rewrite bind_Some. intros (id & _ & [H _]%find_key_Some).
  apply keys_list_elem. eauto.
Qed.

Lemma key_chain_S n d k :
  key_chain (S n) d k =
  match parent_of d k with None => Some [k] | Some p => (k ::.) <$> key_chain n d p end.
Proof. done. Qed.

Lemma key_chain_links n d k l :
  key_chain n d k = Some l → head l = Some k ∧ links d l.
Proof.
  revert k l. induction n as [|n IH]; intros k l; [done|]. rewrite key_chain_S.
  destruct (parent_of d k) as [p|] eqn:Ep; [|by intros [= <-]].
  rewrite fmap_Some. intros (l' & Hl' & ->). destruct (IH _ _ Hl') as [Hh Hk].
  destruct l' as [|p' l']; simplify_eq/=. by rewrite Ep.
Qed.

(** The walk is determined by the key: longer fuel changes nothing, and the
    length of the walk is enough. *)
Lemma key_chain_fuel n m d k l :
  key_chain n d k = Some l → (length l ≤ m)%nat → key_chain m d k = Some l.
Proof.
  revert m k l. induction n as [|n IH]; intros m k l; [done|]. rewrite key_chain_S.
  destruct m as [|m].
  { intros H. destruct (parent_of d k); [apply fmap_Some in H as (? & _ & ->)|injection H as <-];
      simpl; lia. }
  rewrite key_chain_S. destruct (parent_of d k) as [p|]; [|done].
  rewrite fmap_Some. intros (l' & Hl' & ->) Hm. simpl in Hm. rewrite (IH m p l'); [done|done|lia].
Qed.

Lemma key_chain_det n m d k l l' :
  key_chain n d k = Some l → key_chain m d k = Some l' → l = l'.
Proof.
  intros H H'. pose proof (key_chain_fuel _ (length l + length l') _ _ _ H) as E.
  pose proof (key_chain_fuel _ (length l + length l') _ _ _ H') as E'.
  rewrite E in E' by lia. specialize (E' ltac:(lia)). congruence.
Qed.

Lemma key_chain_suffix n d k l1 x l2 :
  key_chain n d k = Some (l1 ++ x :: l2)%list → ∃ m, key_chain m d x = Some (x :: l2).
Proof.
  revert k l1. induction n as [|n IH]; intros k l1; [done|]. intros H.
  destruct (key_chain_links _ _ _ _ H) as [Hh _]. destruct l1 as [|y l1].
  { injection Hh as ->. by exists (S n). }
  rewrite key_chain_S in H. destruct (parent_of d k) as [p|].
  - apply fmap_Some in H as (l' & Hl' & [= -> <-]). eauto.
  - by destruct l1.
Qed.

(** A walk that ends never meets a key twice. *)
Lemma key_chain_nodup n d k l : key_chain n d k = Some l → NoDup l.
Proof.
  intros H. assert (∀ l1 l2, l = (l1 ++ l2)%list → NoDup l2) as Hs; [|by apply (Hs [] l)].
  intros l1 l2. revert l1. induction l2 as [|x l2 IH]; intros l1 El; [constructor|].
  apply NoDup_cons. split; [|apply (IH (l1 ++ [x])%list); by rewrite <-app_assoc].
  intros (l3 & l4 & ->)%list_elem_of_split. rewrite El in H.
  destruct (key_chain_suffix _ _ _ _ _ _ H) as [m Hm].
  destruct (key_chain_suffix _ _ _ (x :: l3) _ _ Hm) as [m' Hm'].
  pose proof (key_chain_det _ _ _ _ _ _ Hm Hm') as E. apply (f_equal length) in E.
  simpl in E. rewrite length_app in E. simpl in E. lia.
Qed.

Lemma key_chain_stored n d k l :
  k ∈ keys_list d → key_chain n d k = Some l → ∀ x, x ∈ l → x ∈ keys_list d.
Proof.
  revert k l. induction n as [|n IH]; intros k l Hk; [done|]. rewrite key_chain_S.
  destruct (parent_of d k) as [p|] eqn:Ep.
  - rewrite fmap_Some. intros (l' & Hl' & ->) x. rewrite elem_of_cons.
    intros [->|Hx]; [done|]. by eapply (IH p l' (parent_of_stored _ _ _ Ep)).
  - intros [= <-] x. by rewrite list_elem_of_singleton; intros ->.
Qed.

(** The fuel of the recursive query decides termination: a walk of a stored key
    that outlives it never ends. *)
Lemma key_chain_adequate d k n l :
  k ∈ keys_list d → key_chain n d k = Some l → key_chain (cte_fuel d) d k = Some l.
Proof.
  intros Hk H. eapply key_chain_fuel; [exact H|]. unfold cte_fuel.
  assert (length l ≤ length (keys_list d))%nat as Hle.
  { apply submseteq_length, NoDup_submseteq; [by eapply key_chain_nodup|].
    by eapply key_chain_stored. }
  unfold keys_list in Hle. rewrite length_fmap, length_map_to_list in Hle. lia.
Qed.

Lemma links_rev_lookup d l i a b :
  links d l → rev l !! i = Some a → rev l !! S i = Some b → parent_of d b = Some a.
Proof.
  induction l as [|k l IH]; [done|]. intros [Hk Hl] Ha Hb. simpl in Ha, Hb.
  destruct (decide (S i < length (rev l))) as [Hlt|Hge].
  - rewrite lookup_app_l in Ha, Hb by lia. eauto.
  - assert (S i = length (rev l)) as Hi.
    { apply lookup_lt_Some in Hb. rewrite length_app in Hb. simpl in Hb. lia. }
    rewrite lookup_app_r, Hi, Nat.sub_diag in Hb by lia. injection Hb as <-.
    destruct l as [|p l]; [done|]. rewrite lookup_app_l in Ha by lia. simpl in Ha, Hi.
    rewrite length_app in Hi. simpl in Hi. rewrite lookup_app_r in Ha by lia.
    replace (i - length (rev l)) with 0 in Ha by lia. injection Ha as <-. done.
Qed.

Lemma links_head d l k : links d l → last l = Some k → parent_of d k = None.
Proof.
  induction l as [|x l IH]; [done|]. intros [Hx Hl].
  destruct l; simpl; [by intros [= <-]|]. by apply IH.
Qed.

Section ancestors.
Context {ENV : Env}.

(** The ancestors of [k], top first: ends with [k], each followed by its child. *)
Definition ancestors (d : DB) (k : Key) (ks : list Key) : Prop :=
  last ks = Some k ∧ NoDup ks ∧
  (∀ i a b, ks !! i = Some a → ks !! S i = Some b → parent_of d b = Some a) ∧
  (∀ top, head ks = Some top → parent_of d top = None).

Lemma chain_ancestors n d k l : key_chain n d k = Some l → ancestors d k (rev l).
Proof.
  intros H. destruct (key_chain_links _ _ _ _ H) as [Hh Hl]. unfold ancestors.
  assert (rev l = reverse l) as Er by (by rewrite rev_alt). split_and!.
  - by rewrite Er, last_reverse.
  - rewrite Er. rewrite reverse_Permutation. by eapply key_chain_nodup.
  - intros i a b. by apply links_rev_lookup.
  - intros top. rewrite Er, head_reverse. by apply links_head.
Qed.
End ancestors.

Section parent_query.
Context {ENV : Env}.

Lemma target_stored d ID T k : target d ID T = Some k → k ∈ keys_list d.
Proof.
  unfold target. rewrite bind_Some. intros (id & _ & H). rewrite bind_Some in H.
  destruct H as (t & _ & [H _]%find_key_Some). apply keys_list_elem. eauto.
Qed.

Lemma GetParentKeys_spec KeyID TenantID w :
  match GetParentKeys KeyID TenantID w with
  | (Ok ks, w') =>
      w_db w' = w_db w ∧
      ∃ k, target (w_db w) KeyID TenantID = Some k ∧ ancestors (w_db w) k ks
  | (Err e, w') =>
      w_db w' = w_db w ∧
      (e = ESentinel ErrKeyNotFound ∧ target (w_db w) KeyID TenantID = None ∨
       ∃ what, e = EForeign what)
  | (Diverge, _) =>
      ∃ k, target (w_db w) KeyID TenantID = Some k ∧ ∀ n, key_chain n (w_db w) k = None
  | (Panic, _) => False
  end.
Proof.
  unfold GetParentKeys, target. rewrite bind_arg_uuid_eq.
  destruct (uuid_column KeyID) as [id|] eqn:Eid; simpl; [|eauto].
  rewrite bind_arg_uuid_eq. destruct (uuid_column TenantID) as [t|] eqn:Et; simpl; [|eauto].
  match goal with |- context [(statement keys ≫= ?k) ?w] =>
    destruct (bind_statement_cases keys k w) as [(what & w' & -> & ->)|(w' & -> & Hdb & _)] end;
    [simpl; eauto|].
  rewrite bind_get_db, Hdb. destruct (find_key (w_db w) id t) as [k|] eqn:Ek; [|simpl; eauto].
  destruct (key_chain (cte_fuel (w_db w)) (w_db w) k) as [l|] eqn:El; simpl.
  - split; [done|]. exists k. split; [done|]. by eapply chain_ancestors.
  - exists k. split; [done|]. intros n. destruct (key_chain n (w_db w) k) as [l|] eqn:E; [|done].
    apply key_chain_adequate in E; [by rewrite El in E|].
    apply find_key_Some in Ek as [Ek _]. apply keys_list_elem. eauto.
Qed.

(** C30: [GetParentKeys] returns the ancestors of the addressed key, the key
    included: from the topmost key, which has no parent in the table, down to
    the key itself, each followed by its child, none twice; it reports
    [ErrKeyNotFound] only for a missing key, and it fails to terminate only
    when the parent references of the table form a cycle. *)
Theorem get_parent_keys_ancestors KeyID TenantID w :
  match GetParentKeys KeyID TenantID w with
  | (Ok ks, w') =>
      w_db w' = w_db w ∧
      ∃ k, target (w_db w) KeyID TenantID = Some k ∧ ancestors (w_db w) k ks
  | (Err e, w') =>
      w_db w' = w_db w ∧
      (e = ESentinel ErrKeyNotFound ∧ target (w_db w) KeyID TenantID = None ∨
       ∃ what, e = EForeign what)
  | (Diverge, _) =>
      ∃ k, target (w_db w) KeyID TenantID = Some k ∧ ∀ n, key_chain n (w_db w) k = None
  | (Panic, _) => False
  end.
Proof. apply GetParentKeys_spec. Qed.
End parent_query.

(** ** Termination under a ranking *)

(** References go strictly down a ranking: what a hierarchy of kinds gives. *)
Definition ranked (d : DB) (rank : Key → nat) : Prop :=
  ∀ k p, k ∈ keys_list d → parent_of d k = Some p → rank p < rank k.

Lemma ranked_chain d rank k :
  ranked d rank → k ∈ keys_list d → ∃ l, key_chain (cte_fuel d) d k = Some l.
Proof.
  intros Hr Hk. assert (∀ n k, rank k < n → k ∈ keys_list d → ∃ l, key_chain n d k = Some l) as H.
  { intros n. induction n as [|n IH]; intros x Hn Hx; [lia|]. rewrite key_chain_S.
    destruct (parent_of d x) as [p|] eqn:Ep; [|eauto].
    destruct (IH p) as [l Hl]; [specialize (Hr _ _ Hx Ep); lia|by eapply parent_of_stored|].
    rewrite Hl. simpl. eauto. }
  destruct (H (S (rank k)) k) as [l Hl]; [lia|done|]. exists l. by eapply key_chain_adequate.
Qed.

Lemma keys_list_ids d : db_wf d → k_ID <$> keys_list d = (map_to_list (db_keys d)).*1.
Proof.
  intros Hwf. unfold keys_list. rewrite <-list_fmap_compose. apply list_fmap_ext.
  intros i [id k] Hi%list_elem_of_lookup_2%elem_of_map_to_list. by destruct (wf_key_id _ Hwf _ _ Hi).
Qed.

Lemma keys_list_nodup d : db_wf d → NoDup (keys_list d).
Proof.
  intros Hwf. apply (NoDup_fmap_1 k_ID). rewrite keys_list_ids by done. apply NoDup_fst_map_to_list.
Qed.

(** ** Descendants *)

Section descendants.
Context (d : DB) (fs : list KeyFilter).

(** One step down: from a key to a stored child that passes the filters. *)
Definition child (p k : Key) : Prop :=
  k ∈ keys_list d ∧ parent_of d k = Some p ∧ matches_filters fs k = true.

(** The rows at depth [n] below [level]. *)
Definition level_at (n : nat) (level : list Key) : list Key := Nat.iter n (children_of d fs) level.

Lemma child_iff p k :
  db_wf d → p ∈ keys_list d →
  child p k ↔ k ∈ keys_list d ∧
    (k_ParentID k = Some (k_ID p) ∧ k_TenantID k = k_TenantID p) ∧ matches_filters fs k = true.
Proof.
  intros Hwf [idp Hp]%keys_list_elem. unfold child, parent_of.
  destruct (wf_key_id _ Hwf _ _ Hp) as [Hidp _].
  assert ((k_ParentID k ≫= λ q, find_key d q (k_TenantID k)) = Some p ↔
          k_ParentID k = Some (k_ID p) ∧ k_TenantID k = k_TenantID p) as ->; [|done].
  rewrite bind_Some. setoid_rewrite find_key_Some. split.
  - intros (q & Hq & Hq' & Ht). destruct (wf_key_id _ Hwf _ _ Hq') as [-> _]. by rewrite Hq.
  - intros [Hq Ht]. exists (k_ID p). rewrite Hidp in *. done.
Qed.

Lemma children_of_elem level k :
  db_wf d → (∀ p, p ∈ level → p ∈ keys_list d) →
  k ∈ children_of d fs level ↔ ∃ p, p ∈ level ∧ child p k.
Proof.
  intros Hwf Hl. unfold children_of. rewrite list_elem_of_filter, existsb_exists. split.
  - intros [[(p & Hp%list_elem_of_In & [H1%bool_decide_eq_true H2%String.eqb_eq]%andb_true_iff) Hm] Hk].
    exists p. split; [done|]. apply child_iff; auto.
  - intros (p & Hp & Hc). apply child_iff in Hc as (Hk & [H1 H2] & Hm); [|auto..].
    split; [|done]. split; [|done]. exists p. split; [by apply list_elem_of_In|].
    apply andb_true_iff. rewrite bool_decide_eq_true. split; [done|by apply String.eqb_eq].
Qed.

Lemma children_of_stored level k : k ∈ children_of d fs level → k ∈ keys_list d.
Proof. unfold children_of. rewrite list_elem_of_filter. naive_solver. Qed.

(** Depth is the number of steps from the anchor. *)
Lemma level_at_elem level n k :
  db_wf d → (∀ p, p ∈ level → p ∈ keys_list d) →
  k ∈ level_at n level ↔ ∃ a, a ∈ level ∧ nsteps child n a k.
Proof.
  intros Hwf Hl. revert k. induction n as [|n IH]; intros k; simpl.
  - split; [intros ?; exists k; split; [done|constructor]|]. by intros (a & ? & H); inv H.
  - rewrite children_of_elem; [|done|].
    + split.
      * intros (p & (a & Ha & Hs)%IH & Hc). exists a. split; [done|]. by eapply nsteps_r.
      * intros (a & Ha & (p & Hs & Hc)%nsteps_inv_r). exists p. split; [apply IH; eauto|done].
    + intros p Hp. destruct n as [|n]; [by apply Hl|]. by eapply children_of_stored.
Qed.

Lemma level_at_nodup n root : db_wf d → NoDup (level_at n [root]).
Proof.
  intros Hwf. destruct n as [|n]; simpl; [apply NoDup_singleton|].
  unfold children_of. by apply NoDup_filter, keys_list_nodup.
Qed.

(** Two ways down to a key differ by a way from the anchor to itself: a key has
    one parent. *)
Lemma child_steps_up n m root k :
  (n ≤ m)%nat → nsteps child n root k → nsteps child m root k → nsteps child (m - n) root root.
Proof.
  revert m k. induction n as [|n IH]; intros m k Hle Hn Hm.
  - inv Hn. by rewrite Nat.sub_0_r.
  - destruct m as [|m]; [lia|]. apply nsteps_inv_r in Hn as (p & Hn & _ & Hp & _).
    apply nsteps_inv_r in Hm as (p' & Hm & _ & Hp' & _). simplify_eq. apply (IH m p); [lia|done..].
Qed.

Lemma level_at_S n level : level_at (S n) level = level_at n (children_of d fs level).
Proof. unfold level_at. apply Nat.iter_succ_r. Qed.

Lemma level_at_nil n level : level = [] → level_at n level = [].
Proof.
  intros ->. induction n as [|n IH]; [done|]. rewrite level_at_S.
  assert (children_of d fs [] = []) as ->; [|done]. unfold children_of.
  induction (keys_list d) as [|k l IHl]; [done|]. by rewrite filter_cons_False; [|naive_solver].
Qed.

Lemma key_tree_eq fuel level :
  key_tree fuel d fs level =
  match level with
  | [] => Some []
  | _ => match fuel with
         | 0 => None
         | S fuel => (merge_sort created_le level ::.) <$> key_tree fuel d fs (children_of d fs level)
         end
  end.
Proof. by destruct fuel, level. Qed.

(** The layers of the result are the levels, in order of creation, up to the
    first empty one. *)
Lemma key_tree_Some fuel level levels :
  key_tree fuel d fs level = Some levels →
  (∀ n layer, levels !! n = Some layer →
     layer = merge_sort created_le (level_at n level) ∧ level_at n level ≠ []) ∧
  level_at (length levels) level = [].
Proof.
  revert level levels. induction fuel as [|fuel IH]; intros level levels; rewrite key_tree_eq;
    (destruct level as [|k level]; [by intros [= <-]|]); [done|].
  rewrite fmap_Some. intros (levels' & H & ->). destruct (IH _ _ H) as [Hl He]. split.
  - intros [|n] layer; [intros [= <-]; done|]. rewrite level_at_S. apply Hl.
  - cbn [length]. by rewrite level_at_S.
Qed.

Lemma key_tree_None fuel level :
  key_tree fuel d fs level = None → level_at fuel level ≠ [].
Proof.
  revert level. induction fuel as [|fuel IH]; intros level; rewrite key_tree_eq;
    (destruct level as [|k level]; [done|]); [done|].
  rewrite fmap_None, level_at_S. apply IH.
Qed.

Lemma level_at_down n m level : (m ≤ n)%nat → level_at n level ≠ [] → level_at m level ≠ [].
Proof.
  intros Hm. replace n with ((n - m) + m) by lia. unfold level_at at 1.
  rewrite Nat.iter_add. fold (level_at m level). fold (level_at (n - m) (level_at m level)).
  intros H E. by apply H, level_at_nil.
Qed.

(** The fuel of the query decides termination: a tree deeper than the number
    of keys has no last level. *)
Lemma key_tree_adequate root :
  db_wf d → root ∈ keys_list d → key_tree (cte_fuel d) d fs [root] = None →
  ∀ n, level_at n [root] ≠ [].
Proof.
  intros Hwf Hr H%key_tree_None n.
  assert (∀ p, p ∈ [root] → p ∈ keys_list d) as Hl
    by (intros p ->%list_elem_of_singleton; done).
  destruct (level_at (cte_fuel d) [root]) as [|k l] eqn:Ek; [done|]. clear H.
  assert (k ∈ level_at (cte_fuel d) [root]) as Hk by (rewrite Ek; left).
  apply level_at_elem in Hk as (a & ->%list_elem_of_singleton & Hs); [|done..].
  destruct (nsteps_pigeonhole child (keys_list d) (cte_fuel d) root k) as (i & m & z & Hm & Hi & Hz).
  - by intros a b [? _].
  - done.
  - unfold cte_fuel, keys_list. rewrite length_fmap, length_map_to_list. lia.
  - done.
  - apply (level_at_down (i + n * m)); [nia|]. intros E.
    assert (z ∈ level_at (i + n * m) [root]) as Hin.
    { apply level_at_elem; [done..|]. exists root. split; [left|].
      eapply nsteps_trans; [exact Hi|]. by apply nsteps_cycle. }
    rewrite E in Hin. by apply elem_of_nil in Hin.
Qed.
End descendants.

(** The loop that files rows into layers rebuilds the levels it was given. *)
Lemma place_row_last pre cur k :
  place_row (pre ++ [cur]) (length pre, k) = (pre ++ [cur ++ [k]])%list.
Proof.
  unfold place_row. rewrite length_app. cbn [length].
  replace (S (length pre) - (length pre + 1)) with 0 by lia. cbn [replicate].
  rewrite app_nil_r. rewrite <-(Nat.add_0_r (length pre)) at 1. by rewrite alter_app_r.
Qed.

Lemma place_row_new pre k : place_row pre (length pre, k) = (pre ++ [[k]])%list.
Proof.
  unfold place_row. replace (S (length pre) - length pre) with 1 by lia. cbn [replicate].
  rewrite <-(Nat.add_0_r (length pre)) at 1. by rewrite alter_app_r.
Qed.

Lemma place_rows_level pre cur level :
  foldl place_row (pre ++ [cur])%list (pair (length pre) <$> level) = (pre ++ [cur ++ level])%list.
Proof.
  revert cur. induction level as [|k level IH]; intros cur; cbn [fmap list_fmap foldl].
  - by rewrite app_nil_r.
  - by rewrite place_row_last, IH, <-app_assoc.
Qed.

Lemma place_rows pre levels :
  Forall (λ level, level ≠ []) levels →
  foldl place_row pre (mjoin (imap (λ i level, pair (length pre + i) <$> level) levels)) =
  (pre ++ levels)%list.
Proof.
  intros H. revert pre. induction H as [|level levels Hne Hf IH]; intros pre; cbn [imap mjoin list_join].
  - by rewrite app_nil_r.
  - destruct level as [|k level]; [done|]. rewrite foldl_app. rewrite Nat.add_0_r.
    cbn [fmap list_fmap foldl]. rewrite place_row_new, place_rows_level. cbn [app].
    specialize (IH (pre ++ [k :: level])%list). rewrite <-app_assoc in IH. cbn [app] in IH.
    rewrite <-IH. f_equal. f_equal. apply imap_ext. intros i x _. rewrite length_app. cbn [length compose].
    f_equal. f_equal. lia.
Qed.

Lemma tree_rows_place levels :
  Forall (λ level, level ≠ []) levels → foldl place_row [] (tree_rows levels) = levels.
Proof. intros H. exact (place_rows [] levels H). Qed.

#[export] Instance created_le_total : Total created_le.
Proof. intros a b. unfold created_le. lia. Qed.

Lemma merge_sort_nonempty l : l ≠ [] → merge_sort created_le l ≠ [].
Proof.
  intros Hl E. pose proof (merge_sort_Permutation created_le l) as H. rewrite E in H.
  by apply Permutation_nil in H.
Qed.

(** Parent references that follow a ranking have no cycles. *)
Definition acyclic (d : DB) : Prop := ∃ rank, ranked d rank.

Lemma endless_descent_cyclic d fs root :
  (∀ n, ∃ k, nsteps (child d fs) n root k) → ¬ acyclic d.
Proof.
  intros Hn [rank Hr].
  assert (∀ n k, nsteps (child d fs) n root k → (rank root + n ≤ rank k)%nat) as Hs.
  { induction n as [|n IH]; intros k Hk; [inv Hk; lia|].
    apply nsteps_inv_r in Hk as (p & Hp%IH & Hin & Hpar & _). specialize (Hr _ _ Hin Hpar). lia. }
  destruct (Hn (S (max_list (rank <$> keys_list d)))) as [k Hk]. pose proof (Hs _ _ Hk).
  apply nsteps_inv_r in Hk as (p & _ & Hin & _).
  pose proof (max_list_elem_of_le (rank k) (rank <$> keys_list d) (list_elem_of_fmap_2 _ _ _ Hin)). lia.
Qed.

Lemma endless_chain_cyclic d k : k ∈ keys_list d → (∀ n, key_chain n d k = None) → ¬ acyclic d.
Proof. intros Hk Hn [rank Hr]. destruct (ranked_chain d rank k Hr Hk) as [l Hl]. by rewrite Hn in Hl. Qed.

(** [m], started on [d], comes to an end, unless the references of [d] are
    cyclic. *)
Definition stops {A} (d : DB) (m : M A) : Prop := ∀ w, w_db w = d →
  match (m w).1 with
  | Ok _ | Err _ => True
  | Panic => False
  | Diverge => ¬ acyclic d
  end.

Lemma stops_throws {A} d E (m : M A) : throws E m → stops d m.
Proof. intros Hm w _. specialize (Hm w). by destruct (m w).1. Qed.

Lemma stops_bind {A B} d (m : M A) (k : A → M B) :
  stops d m → respects (db_rel eq) m → (∀ a, stops d (k a)) → stops d (m ≫= k).
Proof.
  intros Hm Hr Hk w Hw. specialize (Hm w Hw). specialize (Hr w). unfold db_rel in Hr. rewrite bind_run.
  destruct (m w) as [[a| | |] w']; simpl in *; try done. apply Hk. congruence.
Qed.

Lemma stops_reads {A} d (steps : list (A → M A)) : ∀ a,
  (∀ a s, s ∈ steps → stops d (s a) ∧ respects (db_rel eq) (s a)) →
  stops d (foldM (λ a step, step a) a steps).
Proof.
  induction steps as [|s steps IH]; intros a Hs; [by intros w Hw|].
  apply stops_bind; [apply Hs; left..|]. intros a'. apply IH. intros a0 s' Hs'. apply Hs. by right.
Qed.

Section descendant_query.
Context {ENV : Env}.

(** A tree of keys below [root]: layer [n] holds the keys [n] steps down, each
    once, in order of creation, and no layer is empty. *)
Definition descendants (d : DB) (fs : list KeyFilter) (root : Key) (kt : KeyTree) : Prop :=
  (∀ n k, (∃ layer, kt !! n = Some layer ∧ k ∈ layer) ↔ nsteps (child d fs) n root k) ∧
  (∀ n layer, kt !! n = Some layer → layer ≠ [] ∧ NoDup layer ∧ Sorted created_le layer).

Lemma key_tree_descendants d fs root fuel kt :
  db_wf d → root ∈ keys_list d → key_tree fuel d fs [root] = Some kt → descendants d fs root kt.
Proof.
  intros Hwf Hr H. destruct (key_tree_Some _ _ _ _ _ H) as [Hl He].
  assert (∀ p, p ∈ [root] → p ∈ keys_list d) as Hs by (by intros p ->%list_elem_of_singleton).
  assert (∀ n k, nsteps (child d fs) n root k ↔ k ∈ level_at d fs n [root]) as Hn.
  { intros n k. rewrite level_at_elem by done. split; [exists root; split; [left|done]|].
    by intros (a & ->%list_elem_of_singleton & ?). }
  split.
  - intros n k. rewrite Hn. split.
    + intros (layer & [-> _]%Hl & Hk). by rewrite merge_sort_Permutation in Hk.
    + intros Hk. destruct (lookup_lt_is_Some_2 kt n) as [layer Hlayer].
      { destruct (decide (n < length kt)) as [|Hge]; [done|]. exfalso.
        eapply (level_at_down d fs n (length kt)); [lia| |exact He].
        intros E. rewrite E in Hk. by apply elem_of_nil in Hk. }
      exists layer. split; [done|]. destruct (Hl _ _ Hlayer) as [-> _].
      by rewrite merge_sort_Permutation.
  - intros n layer [-> Hne]%Hl. split_and!; [by apply merge_sort_nonempty| |].
    + rewrite merge_sort_Permutation. by apply level_at_nodup.
    + apply Sorted_merge_sort; apply _.
Qed.

(** In a tree of the query a key has one depth. *)
Lemma descendants_depth d fs root kt n m k :
  descendants d fs root kt → nsteps (child d fs) n root k → nsteps (child d fs) m root k → n = m.
Proof.
  intros [Hd _]. assert (∀ i j, (i < j)%nat → nsteps (child d fs) i root k → nsteps (child d fs) j root k → False) as H.
  { intros i j Hij Hi Hj. pose proof (child_steps_up _ _ _ _ _ _ (Nat.lt_le_incl _ _ Hij) Hi Hj) as Hc.
    apply (nsteps_cycle _ _ _ (length kt)) in Hc. apply Hd in Hc as (layer & Hl%lookup_lt_Some & _). nia. }
  intros Hn Hm. destruct (Nat.lt_trichotomy n m) as [|[|]]; [|done|]; exfalso; eauto.
Qed.

Lemma descendants_nodup d fs root kt : descendants d fs root kt → NoDup (mjoin kt).
Proof.
  intros Hd. apply NoDup_mjoin.
  - intros n layer Hl. apply (proj2 Hd n layer Hl).
  - intros n m l1 l2 k H1 H2 Hk1 Hk2. eapply descendants_depth; [done|apply (proj1 Hd); eauto..].
Qed.

Lemma key_tree_nonempty d fs root fuel kt :
  key_tree fuel d fs [root] = Some kt →
  Forall (λ level, level ≠ []) kt ∧ existsb (λ '(depth, _), Nat.eqb depth 0) (tree_rows kt) = true.
Proof.
  intros H. split.
  - apply Forall_lookup. intros n layer [-> Hne]%(proj1 (key_tree_Some _ _ _ _ _ H)).
    by apply merge_sort_nonempty.
  - rewrite key_tree_eq in H. destruct fuel as [|fuel]; [done|].
    apply fmap_Some in H as (kt' & _ & ->). by vm_compute.
Qed.

Lemma GetDescendantKeys_spec q w :
  db_wf (w_db w) →
  match GetDescendantKeys q w with
  | (Ok kt, w') =>
      w_db w' = w_db w ∧
      ∃ root, target (w_db w) (gd_KeyID q) (gd_TenantID q) = Some root ∧
        matches_filters (gd_Filters q) root = true ∧
        descendants (w_db w) (gd_Filters q) root kt
  | (Err e, w') =>
      w_db w' = w_db w ∧
      (e = ESentinel ErrKeyNotFound ∧
         (∀ root, target (w_db w) (gd_KeyID q) (gd_TenantID q) = Some root →
            matches_filters (gd_Filters q) root = false) ∨
       GetDescendantKeysQuery_Validate q = Some e ∨ ∃ what, e = EForeign what)
  | (Diverge, _) =>
      ∃ root, target (w_db w) (gd_KeyID q) (gd_TenantID q) = Some root ∧
        ∀ n, ∃ k, nsteps (child (w_db w) (gd_Filters q)) n root k
  | (Panic, _) => False
  end.
Proof.
  intros Hwf. unfold GetDescendantKeys, target.
  rewrite bind_check. destruct (GetDescendantKeysQuery_Validate q) as [e|] eqn:Ev; [eauto|].
  rewrite bind_arg_uuid_eq.
  destruct (uuid_column (gd_KeyID q)) as [id|] eqn:Eid; [|simpl; eauto].
  rewrite bind_arg_uuid_eq. destruct (uuid_column (gd_TenantID q)) as [t|] eqn:Et; [|simpl; eauto].
  match goal with |- context [(statement keys ≫= ?k) ?w] =>
    destruct (bind_statement_cases keys k w) as [(what & w' & -> & ->)|(w' & -> & Hdb & _)] end;
    [simpl; eauto|].
  rewrite bind_get_db, Hdb. cbn [mbind option_bind].
  assert (∀ k, find_key (w_db w) id t = Some k → k ∈ keys_list (w_db w)) as Hst.
  { intros k [Hk _]%find_key_Some. apply keys_list_elem. eauto. }
  destruct (find_key (w_db w) id t) as [root|] eqn:Ek;
    [destruct (matches_filters (gd_Filters q) root) eqn:Em|]; cbv zeta.
  2,3: rewrite key_tree_eq; simpl; split; [done|left; split; [done|naive_solver]].
  destruct (key_tree (cte_fuel (w_db w)) (w_db w) (gd_Filters q) [root]) as [kt|] eqn:Ekt.
  - destruct (key_tree_nonempty _ _ _ _ _ Ekt) as [Hne ->]. rewrite tree_rows_place by done.
    simpl. split; [done|]. exists root. split_and!; [done..|].
    eapply key_tree_descendants; eauto.
  - simpl. exists root. split; [done|]. intros n.
    destruct (level_at (w_db w) (gd_Filters q) n [root]) as [|k l] eqn:El.
    + exfalso. eapply key_tree_adequate; eauto.
    + exists k. assert (k ∈ level_at (w_db w) (gd_Filters q) n [root]) as Hk by (rewrite El; left).
      apply level_at_elem in Hk as (a & ->%list_elem_of_singleton & ?); [done..|].
      intros p ->%list_elem_of_singleton. eauto.
Qed.

(** C18: [GetDescendantKeys] returns the key and everything below it, by layers:
    layer [n] holds exactly the keys that can be reached from the addressed key
    in [n] parent-to-child steps through keys that pass the filters (so a key
    that does not pass cuts off its whole subtree), in order of creation; it
    reports [ErrKeyNotFound] only when the key is missing or does not pass
    itself, and it fails to terminate only when the chain below the key is
    infinite, that is cyclic. *)
Theorem get_descendant_keys_layers q w :
  db_wf (w_db w) →
  match GetDescendantKeys q w with
  | (Ok kt, w') =>
      w_db w' = w_db w ∧
      ∃ root, target (w_db w) (gd_KeyID q) (gd_TenantID q) = Some root ∧
        matches_filters (gd_Filters q) root = true ∧
        descendants (w_db w) (gd_Filters q) root kt
  | (Err e, w') =>
      w_db w' = w_db w ∧
      (e = ESentinel ErrKeyNotFound ∧
         (∀ root, target (w_db w) (gd_KeyID q) (gd_TenantID q) = Some root →
            matches_filters (gd_Filters q) root = false) ∨
       GetDescendantKeysQuery_Validate q = Some e ∨ ∃ what, e = EForeign what)
  | (Diverge, _) =>
      ∃ root, target (w_db w) (gd_KeyID q) (gd_TenantID q) = Some root ∧
        ∀ n, ∃ k, nsteps (child (w_db w) (gd_Filters q)) n root k
  | (Panic, _) => False
  end.
Proof. apply GetDescendantKeys_spec. Qed.
End descendant_query.

(** ** Pagination *)

Lemma page_lt_irrefl asc a : ¬ page_lt asc a a.
Proof. unfold page_lt. destruct asc; intros [|(_ & _ & ?)]; [lia|done|lia|done]. Qed.

Lemma page_lt_trans asc a b c : page_lt asc a b → page_lt asc b c → page_lt asc a c.
Proof.
  assert (∀ a b c : Z * string, ((a.1 < b.1)%Z ∨ a.1 = b.1 ∧ string_le a.2 b.2 ∧ a.2 ≠ b.2) →
    ((b.1 < c.1)%Z ∨ b.1 = c.1 ∧ string_le b.2 c.2 ∧ b.2 ≠ c.2) →
    ((a.1 < c.1)%Z ∨ a.1 = c.1 ∧ string_le a.2 c.2 ∧ a.2 ≠ c.2)) as H.
  { clear. intros [x1 s1] [x2 s2] [x3 s3]; cbn [fst snd].
    intros [?|(-> & H1 & N1)] [?|(-> & H2 & N2)]; [left; lia|by left|by left|right].
    unfold string_le in *. apply Is_true_true in H1, H2. split_and!; [done| |].
    - apply Is_true_true. by etrans; [exact H1|exact H2].
    - intros ->. apply N1. by apply (anti_symm String.le). }
  unfold page_lt. destruct asc; eauto.
Qed.

Lemma page_lt_total asc a b : page_lt asc a b ∨ a = b ∨ page_lt asc b a.
Proof.
  assert (∀ a b : Z * string, ((a.1 < b.1)%Z ∨ a.1 = b.1 ∧ string_le a.2 b.2 ∧ a.2 ≠ b.2) ∨ a = b ∨
    ((b.1 < a.1)%Z ∨ b.1 = a.1 ∧ string_le b.2 a.2 ∧ b.2 ≠ a.2)) as H.
  { clear. intros [x1 s1] [x2 s2]; cbn [fst snd]. destruct (Z.lt_trichotomy x1 x2) as [?|[->|?]]; [auto| |auto].
    destruct (decide (s1 = s2)) as [->|]; [auto|]. unfold string_le.
    destruct (String.leb_total s1 s2) as [?|?]; [left; auto|right; right; auto]. }
  unfold page_lt. destruct asc, (H a b) as [|[|]]; auto.
Qed.

#[export] Instance page_le_trans asc : Transitive (page_le asc).
Proof.
  unfold page_le. intros a b c [H1|H1] [H2|H2].
  - left. by eapply page_lt_trans.
  - left. by rewrite <-H2.
  - left. by rewrite H1.
  - right. congruence.
Qed.

#[export] Instance page_le_total asc : Total (page_le asc).
Proof.
  intros a b. unfold page_le. destruct (page_lt_total asc (page_pos a) (page_pos b)) as [|[|]]; auto.
Qed.

Lemma keys_list_pos d k1 k2 :
  db_wf d → k1 ∈ keys_list d → k2 ∈ keys_list d → page_pos k1 = page_pos k2 → k1 = k2.
Proof.
  intros Hwf [id1 H1]%keys_list_elem [id2 H2]%keys_list_elem [= _ E].
  destruct (wf_key_id _ Hwf _ _ H1) as [<- _], (wf_key_id _ Hwf _ _ H2) as [<- _]. congruence.
Qed.

Lemma page_le_antisym d asc k1 k2 :
  db_wf d → k1 ∈ keys_list d → k2 ∈ keys_list d →
  page_le asc k1 k2 → page_le asc k2 k1 → k1 = k2.
Proof.
  intros Hwf H1 H2 [R1|R1] [R2|R2]; [|by eapply keys_list_pos..].
  destruct (page_lt_irrefl asc (page_pos k1)). by eapply page_lt_trans.
Qed.

Section paging.
Context {COL : Collation} (q : ListKeysQuery) (tenant : string) (d : DB) (Hwf : db_wf d).
Notation asc := (lk_IsOrderByCreatedAtAsc q).
Notation rows := (list_rows q tenant).

Lemma list_rows_elem after k :
  k ∈ rows after d ↔ list_condition q tenant k = true ∧ after_cursor asc after k = true ∧ k ∈ keys_list d.
Proof.
  unfold list_rows. rewrite merge_sort_Permutation, list_elem_of_filter. tauto.
Qed.

Lemma list_rows_nodup after : NoDup (rows after d).
Proof.
  unfold list_rows. rewrite merge_sort_Permutation. apply NoDup_filter. by apply keys_list_nodup.
Qed.

Lemma list_rows_sorted after : StronglySorted (page_le asc) (rows after d).
Proof. apply StronglySorted_merge_sort; apply _. Qed.

(** A cursor cuts the listing right after the key it was made from. *)
Lemma list_rows_cut l1 k l2 :
  rows None d = (l1 ++ k :: l2)%list → rows (Some (page_pos k)) d = l2.
Proof.
  intros EL. pose proof (list_rows_sorted None) as HS. pose proof (list_rows_nodup None) as HN.
  assert (∀ x, x ∈ (l1 ++ k :: l2)%list ↔ list_condition q tenant x = true ∧ x ∈ keys_list d) as Hin.
  { intros x. rewrite <-EL, list_rows_elem. simpl. tauto. }
  rewrite EL in HS, HN. apply NoDup_app in HN as (_ & _ & [Hk Hn2]%NoDup_cons).
  assert (k ∈ keys_list d) as Hks by (apply Hin; set_solver).
  apply StronglySorted_app in HS as (H12 & _ & [Hk2 HS2]%StronglySorted_cons).
  rewrite Forall_forall in Hk2.
  apply (StronglySorted_unique_strong (page_le asc)).
  - intros x1 x2 (_ & _ & H1)%list_rows_elem H2. apply (page_le_antisym d); [done..|].
    apply Hin. set_solver.
  - apply list_rows_sorted.
  - done.
  - apply NoDup_Permutation; [apply list_rows_nodup|done|]. intros x.
    rewrite list_rows_elem. cbn [after_cursor]. rewrite bool_decide_eq_true. split.
    + intros (Hc & Hlt & Hst). assert (x ∈ (l1 ++ k :: l2)%list) as Hx by by apply Hin.
      apply elem_of_app in Hx as [Hx|[->|Hx]%elem_of_cons]; [exfalso..|done].
      * destruct (H12 x k) as [R|R]; [done|left| |].
        -- destruct (page_lt_irrefl asc (page_pos x)). by eapply page_lt_trans.
        -- rewrite R in Hlt. by destruct (page_lt_irrefl asc (page_pos k)).
      * by destruct (page_lt_irrefl asc (page_pos k)).
    + intros Hx. assert (x ∈ (l1 ++ k :: l2)%list) as Hx' by set_solver.
      apply Hin in Hx' as [Hc Hst]. split_and!; [done| |done].
      destruct (Hk2 x Hx) as [|E]; [done|]. exfalso. apply Hk.
      by rewrite (keys_list_pos d k x).
Qed.
End paging.

Section listing.
Context {ENV : Env} {NF : NoFaults} {COL : Collation} {CODEC : CursorCodec}.

Definition with_cursor (c : string) (q : ListKeysQuery) : ListKeysQuery :=
  mkListKeysQuery (lk_TenantID q) (lk_Name q) (lk_Kind q) (lk_LifeCycleState q) (lk_ManagedBy q)
    (lk_Labels q) (lk_IsOrderByCreatedAtAsc q) c (lk_Limit q).

(** A client that follows the cursors until there is none. *)
Fixpoint list_all (fuel : nat) (q : ListKeysQuery) : M (list Key) :=
  match fuel with
  | 0 => diverge
  | S fuel =>
      '(page, cursor) ← ListKeys q;
      if String.eqb cursor "" then mret page
      else rest ← list_all fuel (with_cursor cursor q); mret (page ++ rest)%list
  end.

(** Where a listing goes on after a position. *)
Definition resume (after : option Key) (q : ListKeysQuery) : ListKeysQuery :=
  match after with
  | None => q
  | Some k => with_cursor (cursor_Encode (k_ID k) (k_CreatedAt k)) q
  end.

(** What [ListKeys] does once the cursor and the identifiers are read. *)
Definition fetch_page (q : ListKeysQuery) (tenant : string) (after : option (Z * string)) :
    M (list Key * string) :=
  let pageSize := lk_Limit q in
  let fetchLimit := wrap64 (pageSize + 1) in
  _ ← statement keys;
  d ← get_db;
  if (fetchLimit <? 0)%Z then throw (EForeign "LIMIT must not be negative")
  else
    let rows := take (Z.to_nat fetchLimit) (list_rows q tenant after d) in
    '(rows, cursor) ←
      (if Nat.eqb (length rows) (Z.to_nat fetchLimit) then
         match rows !! Z.to_nat (pageSize - 1) with
         | None => panic
         | Some last => mret (take (Z.to_nat pageSize) rows,
                              cursor_Encode (k_ID last) (k_CreatedAt last))
         end
       else mret (rows, ""));
    if bool_decide (rows = []) then throw (ESentinel ErrKeyNotFound)
    else mret (rows, cursor).

(** A cursor made from a key is read back as the key's position. *)
Lemma ListKeys_resume q tenant after w :
  lk_Cursor q = "" → uuid_column (lk_TenantID q) = Some tenant → (0 < lk_Limit q)%Z →
  (∀ k, after = Some k → uuid_column (k_ID k) = Some (k_ID k)) →
  ListKeys (resume after q) w = fetch_page q tenant (page_pos <$> after) w.
Proof.
  intros Hc Ht Hlim Hafter. unfold ListKeys. destruct after as [k|]; cbn [resume].
  - assert (String.eqb (lk_Cursor (with_cursor (cursor_Encode (k_ID k) (k_CreatedAt k)) q)) "" = false) as ->
      by (apply String.eqb_neq, cursor_nonempty).
    cbn [with_cursor lk_Cursor]. rewrite cursor_roundtrip by auto.
    rewrite bind_ret_l, bind_arg_uuid_eq. cbn [lk_TenantID with_cursor]. rewrite Ht.
    unfold mbind at 1. unfold comp_bind at 1. rewrite bind_arg_uuid_eq, (Hafter k) by done.
    unfold mret at 1. unfold comp_ret at 1.
    cbn [lk_Limit with_cursor]. destruct (Z.leb_spec (lk_Limit q) 0); [lia|]. reflexivity.
  - rewrite Hc. cbn [String.eqb]. rewrite bind_ret_l, bind_arg_uuid_eq, Ht, bind_ret_l.
    destruct (Z.leb_spec (lk_Limit q) 0); [lia|]. reflexivity.
Qed.

(** One page: up to [S n] rows, and a cursor exactly when there are more. *)
Lemma ListKeys_page q tenant after n w :
  lk_Cursor q = "" → uuid_column (lk_TenantID q) = Some tenant → keys ∈ db_tables (w_db w) →
  lk_Limit q = Z.of_nat (S n) → (lk_Limit q < 2 ^ 63 - 1)%Z →
  (∀ k, after = Some k → uuid_column (k_ID k) = Some (k_ID k)) →
  let rows := list_rows q tenant (page_pos <$> after) (w_db w) in
  ListKeys (resume after q) w =
  match rows with
  | [] => (Err (ESentinel ErrKeyNotFound), tick w)
  | _ => (Ok (take (S n) rows,
              match rows !! S n, rows !! n with
              | Some _, Some last => cursor_Encode (k_ID last) (k_CreatedAt last)
              | _, _ => ""
              end), tick w)
  end.
Proof.
  intros Hc Ht Htab Hlim Hmax Hafter rows. rewrite (ListKeys_resume q tenant) by (done || lia).
  unfold fetch_page. assert (wrap64 (lk_Limit q + 1) = lk_Limit q + 1)%Z as ->.
  { unfold wrap64. rewrite Z.mod_small; lia. }
  rewrite (bind_Ok _ _ _ _ _ (statement_NoFaults keys w Htab)), bind_get_db.
  change (w_db (tick w)) with (w_db w). fold rows.
  destruct (Z.ltb_spec (lk_Limit q + 1) 0); [lia|].
  replace (Z.to_nat (lk_Limit q + 1)) with (S (S n)) by lia.
  replace (Z.to_nat (lk_Limit q - 1)) with n by lia.
  replace (Z.to_nat (lk_Limit q)) with (S n) by lia.
  clearbody rows. clear -rows.
  destruct (decide (S n < length rows)) as [Hlt|Hge].
  - rewrite length_take, Nat.min_l by lia. rewrite Nat.eqb_refl.
    destruct (lookup_lt_is_Some_2 rows n) as [last Hn]; [lia|].
    destruct (lookup_lt_is_Some_2 rows (S n)) as [x HSn]; [lia|].
    rewrite lookup_take_lt, Hn, HSn by lia. rewrite take_take, Nat.min_l by lia.
    destruct rows as [|y rows]; [done|]. reflexivity.
  - assert (Nat.eqb (length (take (S (S n)) rows)) (S (S n)) = false) as ->.
    { apply Nat.eqb_neq. rewrite length_take. lia. }
    rewrite (lookup_ge_None_2 rows (S n)) by lia. rewrite !take_ge by lia.
    unfold mbind, comp_bind, mret, comp_ret. by destruct rows.
Qed.

Section pages.
Context (q : ListKeysQuery) (tenant : string) (d : DB) (n : nat).
Context (Hc : lk_Cursor q = "") (Ht : uuid_column (lk_TenantID q) = Some tenant)
  (Htab : keys ∈ db_tables d) (Hlim : lk_Limit q = Z.of_nat (S n))
  (Hmax : (lk_Limit q < 2 ^ 63 - 1)%Z) (Hwf : db_wf d).

Lemma list_rows_suffix l1 rows :
  list_rows q tenant None d = (l1 ++ rows)%list →
  list_rows q tenant (page_pos <$> last l1) d = rows.
Proof.
  destruct l1 as [|k l1 _] using rev_ind; [done|]. rewrite last_snoc, <-app_assoc.
  intros H. by eapply list_rows_cut.
Qed.

Lemma last_rows_uuid l1 rows k :
  list_rows q tenant None d = (l1 ++ rows)%list → last l1 = Some k → uuid_column (k_ID k) = Some (k_ID k).
Proof.
  intros HL Hk. assert (k ∈ list_rows q tenant None d) as Hin.
  { rewrite HL. apply elem_of_app. left. by apply last_Some_elem_of. }
  apply list_rows_elem in Hin as (_ & _ & [id Hid]%keys_list_elem).
  by destruct (wf_key_id _ Hwf _ _ Hid) as [-> ?].
Qed.

Lemma list_all_suffix fuel : ∀ w l1 rows,
  w_db w = d → list_rows q tenant None d = (l1 ++ rows)%list → rows ≠ [] →
  (length rows ≤ fuel)%nat →
  ∃ w', list_all fuel (resume (last l1) q) w = (Ok rows, w').
Proof.
  induction fuel as [|fuel IH]; intros w l1 rows Hw HL Hne Hf; [destruct rows; simpl in *; [done|lia]|].
  cbn [list_all]. unfold mbind at 1. unfold comp_bind at 1.
  rewrite (ListKeys_page q tenant (last l1) n);
    [|done|done|by rewrite Hw|done|done|by intros k; apply last_rows_uuid with rows].
  rewrite Hw, (list_rows_suffix _ rows) by done.
  destruct rows as [|r rows]; [done|]. set (rs := r :: rows) in *.
  destruct (rs !! S n) as [x|] eqn:Ex.
  - destruct (lookup_lt_is_Some_2 rs n) as [y Ey]; [apply lookup_lt_Some in Ex; lia|]. rewrite Ey.
    assert (String.eqb (cursor_Encode (k_ID y) (k_CreatedAt y)) "" = false) as ->
      by (apply String.eqb_neq, cursor_nonempty).
    assert (with_cursor (cursor_Encode (k_ID y) (k_CreatedAt y)) (resume (last l1) q) =
            resume (last (l1 ++ take (S n) rs)) q) as ->.
    { rewrite (take_S_r _ _ y), app_assoc, last_snoc by done. by destruct (last l1). }
    destruct (IH (tick w) (l1 ++ take (S n) rs)%list (drop (S n) rs)) as [w' Hw'].
    + done.
    + by rewrite <-app_assoc, take_drop.
    + intros E. apply (f_equal length) in E. rewrite length_drop in E.
      apply lookup_lt_Some in Ex. unfold rs in *. simpl in *. lia.
    + rewrite length_drop. apply lookup_lt_Some in Ex. lia.
    + exists w'. unfold mbind, comp_bind. rewrite Hw'. unfold mret, comp_ret. by rewrite take_drop.
  - apply lookup_ge_None in Ex. exists (tick w). by rewrite (take_ge rs) by lia.
Qed.
End pages.

(** C31: following the cursors of [ListKeys] page by page (any page size a
    request can carry) lists every key of the tenant that satisfies the query
    exactly once, in order of creation time and id, ascending or descending as
    asked; there is nothing before the first or after the last page. *)
Theorem list_keys_pages_complete q tenant n w :
  db_wf (w_db w) → keys ∈ db_tables (w_db w) →
  lk_Cursor q = "" → uuid_column (lk_TenantID q) = Some tenant →
  lk_Limit q = Z.of_nat (S n) → (lk_Limit q < 2 ^ 31)%Z →
  (∃ k, k ∈ keys_list (w_db w) ∧ list_condition q tenant k = true) →
  ∃ ks w', list_all (size (db_keys (w_db w))) q w = (Ok ks, w') ∧
    NoDup ks ∧ StronglySorted (page_le (lk_IsOrderByCreatedAtAsc q)) ks ∧
    ∀ k, k ∈ ks ↔ k ∈ keys_list (w_db w) ∧ list_condition q tenant k = true.
Proof.
  intros Hwf Htab Hc Ht Hlim Hl32 (k0 & Hk0 & Hm0).
  assert (lk_Limit q < 2 ^ 63 - 1)%Z as Hmax by lia.
  assert (∀ k, k ∈ list_rows q tenant None (w_db w) ↔
    k ∈ keys_list (w_db w) ∧ list_condition q tenant k = true) as Hin.
  { intros k. rewrite list_rows_elem. simpl. tauto. }
  destruct (list_all_suffix q tenant (w_db w) n Hc Ht Htab Hlim Hmax Hwf (size (db_keys (w_db w)))
    w [] (list_rows q tenant None (w_db w))) as [w' Hw']; [done..| | |].
  - intros E. assert (k0 ∈ list_rows q tenant None (w_db w)) as H0 by by apply Hin.
    rewrite E in H0. by apply elem_of_nil in H0.
  - rewrite <-length_map_to_list, <-(length_fmap snd). apply submseteq_length, NoDup_submseteq.
    + by apply list_rows_nodup.
    + intros k Hk. by apply Hin.
  - exists (list_rows q tenant None (w_db w)), w'.
    split_and!; [done|by apply list_rows_nodup|apply list_rows_sorted|done].
Qed.
End listing.

(** ** Insertion *)

Section insertion.
Context {ENV : Env}.

(** A nullable [UUID] column and the job id column. *)
Definition uuid_column_null (s : option string) : option (option string) :=
  match s with None => Some None | Some p => Some <$> uuid_column p end.
Definition job_column (s : string) : option string :=
  if String.eqb s "" then Some "" else uuid_column s.

Lemma bind_arg_uuid_null_eq {A} s (k : option string → M A) w :
  (arg_uuid_null s ≫= k) w =
  match uuid_column_null s with
  | Some c => k c w
  | None => (Err (EForeign "invalid input syntax for type uuid"), w)
  end.
Proof. destruct s as [s|]; [|done]. cbn. unfold arg_uuid. by destruct (uuid_column s). Qed.

Lemma bind_arg_job_id_eq {A} s (k : string → M A) w :
  (arg_job_id s ≫= k) w =
  match job_column s with
  | Some c => k c w
  | None => (Err (EForeign "invalid input syntax for type uuid"), w)
  end.
Proof.
  unfold arg_job_id, job_column. destruct (String.eqb s ""); [done|].
  apply bind_arg_uuid_eq.
Qed.

(** The canonical row of a key: what its columns hold after an insert. *)
Definition stored_key (key : Key) : option Key :=
  id ← uuid_column (k_ID key);
  tenant ← uuid_column (k_TenantID key);
  parent ← uuid_column_null (k_ParentID key);
  job ← job_column (ps_JobID (k_ProcessingState key));
  Some (mkKey id (k_Name key) tenant (k_Kind key) parent (k_ManagedBy key) (k_Labels key)
          (k_LifeCycleState key)
          (mkKeyProcessingState (ps_Status (k_ProcessingState key)) job)
          (k_CreatedAt key) (k_UpdatedAt key)).

Definition conflicts (d : DB) (row : Key) : Prop :=
  is_Some (db_keys d !! k_ID row) ∨
  ∃ k, k ∈ keys_list d ∧ k_TenantID k = k_TenantID row ∧ k_Name k = k_Name row.

Lemma conflicts_iff d row :
  (bool_decide (is_Some (db_keys d !! k_ID row)) ||
   existsb (same_tenant_name (k_TenantID row) (k_Name row)) (keys_list d))%bool = true ↔ conflicts d row.
Proof.
  unfold conflicts. rewrite orb_true_iff, bool_decide_eq_true, existsb_exists.
  unfold same_tenant_name. setoid_rewrite andb_true_iff. setoid_rewrite String.eqb_eq.
  by setoid_rewrite <-list_elem_of_In.
Qed.

Lemma CreateKey_spec key w :
  match CreateKey key w with
  | (Ok _, w') =>
      ∃ row, stored_key key = Some row ∧ ¬ conflicts (w_db w) row ∧
        w_db w' = set_keys (<[k_ID row := row]> (db_keys (w_db w))) (w_db w)
  | (Err e, w') =>
      w_db w' = w_db w ∧
      (e = ESentinel ErrKeyInsertConflict ∧
         (∃ row, stored_key key = Some row ∧ conflicts (w_db w) row) ∨
       ∃ what, e = EForeign what)
  | _ => False
  end.
Proof.
  unfold CreateKey, stored_key. rewrite bind_arg_uuid_eq.
  destruct (uuid_column (k_ID key)) as [id|]; [|simpl; eauto]. rewrite bind_arg_uuid_eq.
  destruct (uuid_column (k_TenantID key)) as [t|]; [|simpl; eauto].
  rewrite bind_arg_uuid_null_eq. destruct (uuid_column_null (k_ParentID key)) as [p|]; [|simpl; eauto].
  rewrite bind_arg_job_id_eq. destruct (job_column _) as [j|]; [|simpl; eauto].
  match goal with |- context [(statement keys ≫= ?k) ?w] =>
    destruct (bind_statement_cases keys k w) as [(what & w' & -> & ->)|(w' & -> & Hdb & _)] end;
    [simpl; eauto|].
  rewrite bind_get_db, Hdb. cbv zeta. cbn [mbind option_bind].
  match goal with |- context [key_refs_ok _ ?r] => set (row := r) end.
  pose proof (conflicts_iff (w_db w) row) as Hc. cbn [row k_ID k_TenantID k_Name] in Hc.
  destruct (_ || _)%bool eqn:Eb.
  - simpl. split; [done|]. left. split; [done|]. exists row. split; [done|by apply Hc].
  - destruct (key_refs_ok _ _); simpl; [|eauto].
    exists row. split_and!; [done| |done]. rewrite <-Hc. done.
Qed.

(** [CreateKey] inserts the key under its canonical identifiers and nothing
    else, if neither its id nor its name within the tenant is taken; a taken id
    or name is reported as [ErrKeyInsertConflict] without failing the
    statement, and every error leaves the data alone. *)
Theorem create_key_inserts key w :
  match CreateKey key w with
  | (Ok _, w') =>
      ∃ row, stored_key key = Some row ∧ ¬ conflicts (w_db w) row ∧
        w_db w' = set_keys (<[k_ID row := row]> (db_keys (w_db w))) (w_db w)
  | (Err e, w') =>
      w_db w' = w_db w ∧
      (e = ESentinel ErrKeyInsertConflict ∧
         (∃ row, stored_key key = Some row ∧ conflicts (w_db w) row) ∨
       ∃ what, e = EForeign what)
  | _ => False
  end.
Proof. apply CreateKey_spec. Qed.
End insertion.

(** ** Migration *)

Section migration.
Context {ENV : Env}.

Definition node_tables (n : Node) : gset string :=
  match n with
  | Root => {[tenants; agent_registrations; keys; key_versions]}
  | Agent => {[tenants; keys; key_versions]}
  end.

Lemma create_table_inv t w r w' :
  create_table t w = (r, w') →
  (r = Ok () ∧ w_db w' = set_schema ({[t]} ∪ db_tables (w_db w)) (db_node (w_db w)) (w_db w)) ∨
  (∃ e, r = Err e ∧ w_db w' = w_db w).
Proof.
  unfold create_table, mbind, comp_bind, external. destruct (e_fault _); intros [= <- <-]; eauto.
Qed.

Lemma create_tables_inv ts : ∀ w a w',
  foldM (λ _ t, create_table t) () ts w = (Ok a, w') →
  db_node (w_db w') = db_node (w_db w) ∧ list_to_set ts ∪ db_tables (w_db w) ⊆ db_tables (w_db w').
Proof.
  induction ts as [|t ts IH]; intros w a w'; cbn [foldM].
  - intros [= <- <-]. set_solver.
  - intros ([] & w1 & H1 & H2)%bind_inv_Ok. apply IH in H2 as [Hn Hs].
    apply create_table_inv in H1 as [[_ H1]|(e & ? & _)]; [|done]. rewrite H1 in *. simpl in *.
    split; [done|set_solver].
Qed.

Lemma Migrate_Ok n w a w' :
  Migrate n w = (Ok a, w') →
  ∃ nd, parse_node n = Some nd ∧ db_node (w_db w') = Some nd ∧
    (db_node (w_db w) = None ∨ db_node (w_db w) = Some nd) ∧
    node_tables nd ⊆ db_tables (w_db w').
Proof.
  unfold Migrate. destruct (parse_node n) as [nd|]; [|done].
  intros ([] & w1 & H1 & H)%bind_inv_Ok. apply create_table_inv in H1 as [[_ H1]|(e & ? & _)]; [|done].
  apply bind_inv_Ok in H as ([] & w2 & [H2 _]%statement_Ok & H). rewrite bind_get_db in H.
  apply bind_inv_Ok in H as ([] & w3 & H3 & H).
  assert (db_node (w_db w3) = Some nd ∧ (db_node (w_db w) = None ∨ db_node (w_db w) = Some nd)) as [Hn Hw].
  { rewrite H2, H1 in H3. simpl in H3. destruct (db_node (w_db w)) as [ex|].
    - case_bool_decide; [|done]. injection H3 as <-. rewrite H2, H1. simpl. naive_solver.
    - apply bind_inv_Ok in H3 as ([] & w4 & _ & [= <-]). simpl. auto. }
  apply create_tables_inv in H as [Hn' Ht]. exists nd. rewrite Hn'. split_and!; [done..|].
  destruct nd; simpl in *; set_solver.
Qed.

(** A successful [Migrate] leaves a database of the requested node with all
    its tables, and it only succeeds on a fresh database or one of the same
    node: a root database can never be turned into an agent's or back. *)
Theorem migrate_pins_node n w a w' :
  Migrate n w = (Ok a, w') →
  ∃ nd, parse_node n = Some nd ∧ db_node (w_db w') = Some nd ∧
    (db_node (w_db w) = None ∨ db_node (w_db w) = Some nd) ∧
    node_tables nd ⊆ db_tables (w_db w').
Proof. apply Migrate_Ok. Qed.
End migration.

(** ** Closed examples *)

(** ** Authenticated data of stored versions *)

Lemma stored_version_uuids d i kv :
  db_wf d → db_kvs d !! i = Some kv →
  uuid_column (kv_TenantID kv) = Some (kv_TenantID kv) ∧ uuid_column (kv_KeyID kv) = Some (kv_KeyID kv).
Proof.
  intros Hwf Hkv. pose proof (wf_kv_refs _ Hwf _ _ Hkv) as Hr. unfold kv_refs_ok in Hr.
  apply andb_true_iff in Hr as [[[t Ht]%bool_decide_eq_true Hk]%andb_true_iff _].
  destruct (find_key d _ _) as [k|] eqn:E; [|done]. apply find_key_Some in E as [E _].
  split; [by apply (wf_tenant_id _ Hwf) in Ht as [_ ?]|by apply (wf_key_id _ Hwf) in E as [_ ?]].
Qed.

(** The authenticated data that protects key material identifies a stored key
    version: no two rows of key versions have the same one, so material sealed
    for one version never opens as the material of another. *)
Theorem aad_identifies_version d i j kv kv' :
  db_wf d → db_kvs d !! i = Some kv → db_kvs d !! j = Some kv' → AAD kv = AAD kv' → i = j.
Proof.
  intros Hwf Hi Hj HA. destruct (stored_version_uuids _ _ _ Hwf Hi) as [Ht Hk].
  destruct (stored_version_uuids _ _ _ Hwf Hj) as [Ht' Hk'].
  rewrite <-(wf_kv_id _ Hwf _ _ Hi), <-(wf_kv_id _ Hwf _ _ Hj). unfold kv_id.
  apply (f_equal chars) in HA. rewrite !AAD_chars in HA.
  assert (∀ s, uuid_column s = Some s → ":"%char ∉ chars s) as Hu.
  { intros s Hs%uuid_column_parse. by eapply uuid_no_colon. }
  apply no_sep_app_inj in HA as [->%(inj chars) HA]; [|by apply Hu..].
  apply no_sep_app_inj in HA as [->%(inj chars) HA]; [|by apply Hu..].
  apply no_sep_app_inj in HA as [->%(inj chars)%(inj itoa) ->%(inj chars)%(inj itoa)]; [done|apply itoa_no_colon..].
Qed.

Module StoreSamples.
Import Sample.

#[export] Instance collation : Collation := λ c, c.

(** A codec: the binary digits of an encoding of the pair. *)
Fixpoint digits (p : positive) : string :=
  match p with xH => "1" | xO p => String "0" (digits p) | xI p => String "1" (digits p) end.
Fixpoint undigits (s : string) : option positive :=
  match s with
  | EmptyString => None
  | String "1" EmptyString => Some xH
  | String "0" s => xO <$> undigits s
  | String "1" s => xI <$> undigits s
  | _ => None
  end.

Lemma digits_nonempty p : digits p ≠ "".
Proof. by destruct p. Qed.

Lemma undigits_digits p : undigits (digits p) = Some p.
Proof.
  induction p as [p IH|p IH|]; [| |done].
  - simpl. rewrite IH. pose proof (digits_nonempty p). by destruct (digits p).
  - simpl. by rewrite IH.
Qed.

Lemma codec_roundtrip (id : string) (t : Z) :
  uuid_column id = Some id →
  undigits (digits (encode (id, t))) ≫= decode (A:=string * Z) = Some (id, t).
Proof. intros _. rewrite undigits_digits. simpl. apply decode_encode. Qed.

#[export] Instance codec : CursorCodec := {|
  cursor_Encode := λ id t, digits (encode (id, t));
  DecodeCursor := λ s, undigits s ≫= decode;
  cursor_roundtrip := codec_roundtrip;
  cursor_nonempty := λ id t, digits_nonempty (encode (id, t));
|}.

Lemma w1_wf : db_wf (w_db w1).
Proof. apply (evolves_run_calls calls (world0 empty_db)). exact empty_db_wf. Qed.

Definition tree_query : GetDescendantKeysQuery := mkGetDescendantKeysQuery uuid1 uuid0 [].

Lemma get_descendant_keys_layers_witness :
  ∃ kt, (GetDescendantKeys tree_query w1).1 = Ok kt ∧ length kt = 2 ∧
    ∃ root, k_ID root = uuid1 ∧ descendants (w_db w1) [] root kt.
Proof.
  pose proof (get_descendant_keys_layers tree_query w1 w1_wf) as H.
  assert (length <$> match (GetDescendantKeys tree_query w1).1 with Ok kt => Some kt | _ => None end
          = Some 2) as E by (vm_compute; reflexivity).
  destruct (GetDescendantKeys tree_query w1) as [r w']. destruct r as [kt| | |]; try discriminate E.
  exists kt. split; [reflexivity|]. split; [injection E as E; exact E|].
  destruct H as (_ & root & Ht & _ & Hd). exists root. split; [|exact Hd].
  vm_compute in Ht. injection Ht as <-. reflexivity.
Defined.

Definition page_query : ListKeysQuery := mkListKeysQuery uuid0 "k" "" "" "" ∅ true "" 1.

Lemma list_keys_pages_complete_witness :
  ∃ ks w', list_all 2 page_query w1 = (Ok ks, w') ∧
    ∀ k, k ∈ ks ↔ k ∈ keys_list (w_db w1) ∧ list_condition page_query uuid0 k = true.
Proof.
  destruct (list_keys_pages_complete page_query uuid0 0 w1) as (ks & w' & Hl & _ & _ & Hk).
  - exact w1_wf.
  - apply (bool_decide_unpack _). vm_compute. exact I.
  - reflexivity.
  - reflexivity.
  - reflexivity.
  - vm_compute. reflexivity.
  - exists (key uuid1 "k1" "K1" None KeyLifeCyclePreActivation KeyProcessingPending). split.
    + apply (bool_decide_unpack _). vm_compute. exact I.
    + vm_compute. reflexivity.
  - exists ks, w'. split; [exact Hl|exact Hk].
Defined.

Lemma migrate_pins_node_witness :
  db_node (w_db (Migrate "agent" (world0 empty_db)).2) = Some Agent.
Proof.
  destruct (Migrate "agent" (world0 empty_db)) as [r w'] eqn:E.
  assert ((Migrate "agent" (world0 empty_db)).1 = Ok ()) as E1 by (vm_compute; reflexivity).
  rewrite E in E1. simpl in E1. subst r.
  destruct (migrate_pins_node "agent" (world0 empty_db) () w' E) as (nd & Hn & H & _).
  vm_compute in Hn. injection Hn as <-. exact H.
Defined.

(** Two versions of a key of the sample. *)
Definition version (v : Z) : KeyVersion :=
  mkKeyVersion uuid0 uuid1 v 1 None None KeyLifeCycleActive KeyVersionUsable ∅ 0 0.
Definition version_calls : list store_call :=
  (calls ++ [CStep (SCreateKeyVersion (version 1)); CStep (SCreateKeyVersion (version 2))])%list.
Definition w_versions : world := run_calls version_calls (world0 empty_db).

Lemma aad_identifies_version_witness : AAD (version 1) ≠ AAD (version 2).
Proof.
  intros HA.
  assert ((uuid0, uuid1, 1%Z, 1%Z) = (uuid0, uuid1, 2%Z, 1%Z)) as H.
  - apply (aad_identifies_version (w_db w_versions) _ _ (version 1) (version 2)).
    + apply (evolves_run_calls version_calls (world0 empty_db)). exact empty_db_wf.
    + vm_compute. reflexivity.
    + vm_compute. reflexivity.
    + exact HA.
  - discriminate H.
Defined.
End StoreSamples.
