(* ===== verification/StoreTypes.v ===== *)
(** * The types of the columns

    The schema of migrate.go gives every column a type.  A computation of the
    stores is typed semantically: run on a database whose rows fit their
    columns, it leaves such a database, whatever statement fails, and what it
    answers fits too.  Every operation of every store is typed, so that values
    read back are canonical whatever was written. *)

From S2P Require Import Prelude GoStrings GoRuntime Model World Sql KeyStore KeyVersionStore StoreInvariant StoreTheorems.

Local Open Scope string_scope.

Module StoreTypes.

(** ** Columns and rows *)

Definition uuid (s : string) : Prop := uuid_column s = Some s.
Definition uuid_or_null (s : option string) : Prop := from_option uuid True s.
Definition int4 (z : Z) : Prop := int4_ok z = true.
Definition int4_or_null (z : option Z) : Prop := from_option int4 True z.
(** The job of a key, where NULL is read as [""]. *)
Definition job (s : string) : Prop := s = "" ∨ uuid s.

Record key_typed (k : Key) : Prop := {
  kt_ID : uuid (k_ID k);
  kt_TenantID : uuid (k_TenantID k);
  kt_ParentID : uuid_or_null (k_ParentID k);
  kt_JobID : job (ps_JobID (k_ProcessingState k));
}.
Record version_typed (kv : KeyVersion) : Prop := {
  vt_TenantID : uuid (kv_TenantID kv);
  vt_KeyID : uuid (kv_KeyID kv);
  vt_Version : int4 (kv_Version kv);
  vt_Revision : int4 (kv_Revision kv);
  vt_ParentKeyID : uuid_or_null (kv_ParentKeyID kv);
  vt_ParentKeyVersion : int4_or_null (kv_ParentKeyVersion kv);
}.
Definition tenant_typed (t : Tenant) : Prop := uuid (t_ID t).
Definition agent_typed (r : AgentRegistration) : Prop := uuid (ar_InstanceID r).

Record db_typed (d : DB) : Prop := {
  dt_tenants : map_Forall (λ _, tenant_typed) (db_tenants d);
  dt_agents : map_Forall (λ _, agent_typed) (db_agents d);
  dt_keys : map_Forall (λ _, key_typed) (db_keys d);
  dt_kvs : map_Forall (λ _, version_typed) (db_kvs d);
}.

Lemma empty_db_typed : db_typed empty_db.
Proof. split; apply map_Forall_empty. Qed.

Lemma set_tenants_typed d m : db_typed d → map_Forall (λ _, tenant_typed) m → db_typed (set_tenants m d).
Proof. by intros []. Qed.
Lemma set_agents_typed d m : db_typed d → map_Forall (λ _, agent_typed) m → db_typed (set_agents m d).
Proof. by intros []. Qed.
Lemma set_keys_typed d m : db_typed d → map_Forall (λ _, key_typed) m → db_typed (set_keys m d).
Proof. by intros []. Qed.
Lemma set_kvs_typed d m : db_typed d → map_Forall (λ _, version_typed) m → db_typed (set_kvs m d).
Proof. by intros []. Qed.
Lemma set_schema_typed d tables n : db_typed d → db_typed (set_schema tables n d).
Proof. by intros []. Qed.

Lemma rows_typed {K A} `{Countable K} (P : A → Prop) (m : gmap K A) :
  map_Forall (λ _, P) m → Forall P (map_to_list m).*2.
Proof.
  intros Hm. apply Forall_fmap, Forall_forall. intros [i x] Hx%elem_of_map_to_list. exact (Hm i x Hx).
Qed.

(** A selection of typed rows is typed. *)
Lemma Forall_selected {A} (P : A → Prop) l l' : (∀ x, x ∈ l' → x ∈ l) → Forall P l → Forall P l'.
Proof. rewrite !Forall_forall. auto. Qed.

Lemma keys_list_typed d : db_typed d → Forall key_typed (keys_list d).
Proof. intros Hd. apply rows_typed, Hd. Qed.

Lemma find_key_typed d id t k : db_typed d → find_key d id t = Some k → key_typed k.
Proof. intros Hd [H _]%find_key_Some. exact (dt_keys _ Hd _ _ H). Qed.

(** ** Typed computations *)

Section typing.
Context {ENV : Env}.

Definition any {A} (_ : A) : Prop := True.
Definition typed {A} (m : M A) (T : A → Prop) : Prop :=
  ∀ w, db_typed (w_db w) → db_typed (w_db (m w).2) ∧ match (m w).1 with Ok a => T a | _ => True end.

Lemma typed_ret {A} (a : A) (T : A → Prop) : T a → typed (mret a) T.
Proof. by intros Ha w Hw. Qed.
Lemma typed_throw {A} e (T : A → Prop) : typed (throw e) T.
Proof. by intros w Hw. Qed.
Lemma typed_panic {A} (T : A → Prop) : typed panic T.
Proof. by intros w Hw. Qed.
Lemma typed_diverge {A} (T : A → Prop) : typed diverge T.
Proof. by intros w Hw. Qed.

Lemma typed_bind {A B} (m : M A) (k : A → M B) (S : A → Prop) T :
  typed m S → (∀ a, S a → typed (k a) T) → typed (m ≫= k) T.
Proof.
  intros Hm Hk w Hw. specialize (Hm w Hw). rewrite bind_run. destruct (m w) as [[a|e| |] w']; simpl in *; [|exact Hm..].
  destruct Hm as [Hw' Ha]. by apply Hk.
Qed.

Lemma typed_weaken {A} (m : M A) (S T : A → Prop) : typed m S → (∀ a, S a → T a) → typed m T.
Proof. intros Hm Hst w Hw. destruct (Hm w Hw) as [? H]. split; [done|]. destruct (m w).1; auto. Qed.

(** What does not touch the database. *)
Lemma typed_frame {A} (m : M A) : respects (db_rel eq) m → typed m any.
Proof. intros Hm w Hw. rewrite <-(Hm w). split; [done|]. by destruct (m w).1. Qed.

Lemma typed_get_db : typed get_db db_typed.
Proof. by intros w Hw. Qed.
Lemma typed_update_db f : (∀ d, db_typed d → db_typed (f d)) → typed (update_db f) any.
Proof. intros Hf w Hw. split; [by apply Hf|done]. Qed.
Lemma typed_statement t : typed (statement t) any.
Proof. apply typed_frame, db_rel_statement, _. Qed.
Lemma typed_clock_Now : typed clock_Now any.
Proof. apply typed_frame. solve_respects. Qed.

Lemma typed_arg_uuid s : typed (arg_uuid s) uuid.
Proof.
  unfold arg_uuid. destruct (uuid_column s) as [c|] eqn:E; [|apply typed_throw].
  apply typed_ret. by eapply uuid_column_canonical.
Qed.
Lemma typed_arg_uuid_null s : typed (arg_uuid_null s) uuid_or_null.
Proof.
  destruct s as [s|]; [|by apply typed_ret]. eapply typed_bind; [apply typed_arg_uuid|]. intros c Hc. by apply typed_ret.
Qed.
Lemma typed_arg_int4 z : typed (arg_int4 z) int4.
Proof. unfold arg_int4. destruct (int4_ok z) eqn:E; [by apply typed_ret|apply typed_throw]. Qed.
Lemma typed_arg_int4_null z : typed (arg_int4_null z) int4_or_null.
Proof.
  destruct z as [z|]; [|by apply typed_ret]. eapply typed_bind; [apply typed_arg_int4|]. intros c Hc. by apply typed_ret.
Qed.
Lemma typed_arg_job_id j : typed (arg_job_id j) job.
Proof.
  unfold arg_job_id. destruct (String.eqb j ""); [by apply typed_ret; left|].
  eapply typed_weaken; [apply typed_arg_uuid|]. by right.
Qed.

Lemma typed_foldM {A B} (f : B → A → M B) l (T : B → Prop) :
  (∀ b x, T b → x ∈ l → typed (f b x) T) → ∀ b, T b → typed (foldM f b l) T.
Proof.
  induction l as [|x l IH]; intros Hf b Hb; simpl; [by apply typed_ret|].
  eapply typed_bind; [apply Hf; [done|left]|]. intros b' Hb'. apply IH; [|done].
  intros ??? Hin. apply Hf; [done|by right].
Qed.

(** A transaction restores the rows it started from, or keeps typed ones. *)
Lemma typed_Transaction {A} (fn : M A) T : typed fn T → typed (Transaction fn) T.
Proof.
  intros Hfn w Hw. unfold Transaction. pose proof (external_db "begin" w) as Hb.
  destruct (external "begin" w) as [[u|e| |] w1]; simpl in *; rewrite ?Hb; try done.
  specialize (Hfn w1). rewrite Hb in Hfn. specialize (Hfn Hw).
  destruct (fn w1) as [[a|e| |] w2]; simpl in *; rewrite ?Hb; try done.
  pose proof (external_db "commit" w2) as Hc.
  destruct (external "commit" w2) as [[] w3]; simpl in *; rewrite ?Hb, ?Hc; try done. by destruct Hfn.
Qed.
End typing.

Create HintDb typing discriminated.
#[export] Hint Resolve typed_throw typed_panic typed_diverge typed_get_db typed_statement typed_clock_Now typed_arg_uuid
  typed_arg_uuid_null typed_arg_int4 typed_arg_int4_null typed_arg_job_id : typing.

(** One rule per construct; what is left are the rows. *)
Ltac type_step := match goal with
  | |- typed (_ ≫= _) _ => eapply typed_bind; [by eauto with typing|intros ? ?]
  | |- typed (match ?x with _ => _ end) _ => destruct x eqn:?
  | |- typed (throw _) _ => apply typed_throw
  | |- typed diverge _ => apply typed_diverge
  | |- typed panic _ => apply typed_panic
  | |- typed (mret _) any => by apply typed_ret
  end.
Ltac typecheck := repeat type_step.
Ltac rows_of table := match goal with H : db_typed ?d |- _ => exact (rows_typed _ _ (table d H)) end.

(** ** The stores *)

Section stores.
Context {ENV : Env} {COL : Collation} {CODEC : CursorCodec}.

Lemma typed_UpsertTenant t : typed (UpsertTenant t) any.
Proof.
  unfold UpsertTenant. typecheck. eapply typed_bind; [apply typed_update_db|by intros; apply typed_ret].
  intros d Hd. apply set_tenants_typed; [done|]. apply map_Forall_insert_2; [done|apply Hd].
Qed.
Lemma typed_GetTenant i : typed (GetTenant i) tenant_typed.
Proof. unfold GetTenant. typecheck. apply typed_ret. by eapply (dt_tenants a1). Qed.
Lemma typed_ListTenants : typed ListTenants (Forall tenant_typed).
Proof. unfold ListTenants. typecheck. apply typed_ret. apply rows_typed, dt_tenants. done. Qed.

Lemma typed_Register r : typed (Register r) agent_typed.
Proof.
  unfold Register. typecheck. eapply typed_bind; [apply typed_update_db|by intros; apply typed_ret].
  intros d Hd. apply set_agents_typed; [done|]. apply map_Forall_insert_2; [done|apply Hd].
Qed.
Lemma typed_GetAgent n i : typed (GetAgent n i) agent_typed.
Proof. unfold GetAgent. typecheck. apply typed_ret. by eapply (dt_agents a1). Qed.
Lemma typed_ListAgents n : typed (ListAgents n) (Forall agent_typed).
Proof.
  unfold ListAgents. typecheck. apply typed_ret. eapply Forall_selected; [|rows_of dt_agents].
  by intros r [_ Hr]%list_elem_of_filter.
Qed.
Lemma typed_UpdateStatus q : typed (UpdateStatus q) any.
Proof.
  unfold UpdateStatus. typecheck. eapply (typed_bind _ _ any); [typecheck; by apply typed_ret|]. intros i _. typecheck.
  apply typed_update_db. intros d Hd. apply set_agents_typed; [done|]. intros ag r.
  rewrite lookup_fmap, fmap_Some. intros (r0 & Hr%(dt_agents _ Hd) & ->). by destruct (agent_matches _ _ _ _).
Qed.
Lemma typed_DeleteAgents st th : typed (DeleteAgents st th) any.
Proof.
  unfold DeleteAgents. typecheck. apply typed_update_db. intros d Hd. apply set_agents_typed; [done|].
  intros ag r [Hr _]%map_lookup_filter_Some. exact (dt_agents _ Hd _ _ Hr).
Qed.

Lemma typed_CreateKey k : typed (CreateKey k) any.
Proof.
  unfold CreateKey. typecheck. apply typed_update_db. intros d _. apply set_keys_typed; [done|].
  apply map_Forall_insert_2; [by split|by apply dt_keys].
Qed.

Lemma typed_update_key id tenant cond f :
  (∀ k, key_typed k → key_typed (f k)) → typed (update_key id tenant cond f) any.
Proof.
  intros Hf. unfold update_key. typecheck. eapply typed_bind; [apply typed_update_db|by intros; apply typed_ret].
  intros d Hd. apply set_keys_typed; [done|]. apply map_Forall_insert_2; [|by apply dt_keys].
  apply Hf. eapply find_key_typed; [|eassumption]. done.
Qed.
Lemma typed_rows_affected n : typed (rows_affected n) any.
Proof. unfold rows_affected. typecheck. Qed.

(** An [UPDATE] that sets states, with a job that fits its column. *)
Lemma typed_update_states id tenant cond (f : Key → Key) :
  (∀ k, key_typed k → key_typed (f k)) → typed (n ← update_key id tenant cond f; rows_affected n) any.
Proof. intros Hf. eapply typed_bind; [by apply typed_update_key|]. intros n _. apply typed_rows_affected. Qed.

Lemma typed_UpdateKeyLifeCycleState i t s : typed (UpdateKeyLifeCycleState i t s) any.
Proof. unfold UpdateKeyLifeCycleState. typecheck. apply typed_update_states. by intros k []. Qed.
Lemma typed_UpdateKeyProcessingState i t s j : typed (UpdateKeyProcessingState i t s j) any.
Proof. unfold UpdateKeyProcessingState. typecheck. apply typed_update_states. by intros k []. Qed.
Lemma typed_UpdateKeyStates q : typed (UpdateKeyStates q) any.
Proof. unfold UpdateKeyStates. typecheck. apply typed_update_states. by intros k []. Qed.

Lemma typed_scan_row r : from_option key_typed True r → typed (scan_row r) key_typed.
Proof. destruct r; intros Hr; [by apply typed_ret|apply typed_throw]. Qed.

Lemma typed_GetKeyByID i t : typed (GetKeyByID i t) key_typed.
Proof.
  unfold GetKeyByID. typecheck. apply typed_scan_row. destruct (find_key _ _ _) eqn:E; [|done]. by eapply find_key_typed.
Qed.
Lemma typed_GetKeyByName t n : typed (GetKeyByName t n) key_typed.
Proof.
  unfold GetKeyByName. typecheck. apply typed_scan_row. destruct (head _) as [k|] eqn:E; [|done]. simpl.
  apply head_Some_elem_of in E. rewrite list_elem_of_In, List.filter_In, <-list_elem_of_In in E.
  destruct E as [E _]. by eapply Forall_forall; [apply keys_list_typed|].
Qed.

Lemma key_chain_typed fuel d k chain : db_typed d → key_typed k → key_chain fuel d k = Some chain → Forall key_typed chain.
Proof.
  intros Hd. revert k chain. induction fuel as [|fuel IH]; intros k chain Hk; [done|]. rewrite key_chain_S.
  destruct (parent_of d k) as [p|] eqn:E; [|intros [= <-]; by constructor].
  intros (rest & Hr & ->)%fmap_Some. constructor; [done|]. eapply IH; [|done].
  apply bind_Some in E as (i & _ & Hp). by eapply find_key_typed.
Qed.
Lemma typed_GetParentKeys i t : typed (GetParentKeys i t) (Forall key_typed).
Proof.
  unfold GetParentKeys. typecheck. apply typed_ret. eapply Forall_selected; [|eapply key_chain_typed; [|eapply find_key_typed|]; done].
  intros x. by rewrite list_elem_of_In, <-in_rev, <-list_elem_of_In.
Qed.

Lemma key_tree_typed fuel d fs level levels :
  db_typed d → Forall key_typed level → key_tree fuel d fs level = Some levels → Forall (Forall key_typed) levels.
Proof.
  intros Hd. revert level levels. induction fuel as [|fuel IH]; intros level levels Hl; rewrite key_tree_eq;
    (destruct level as [|k level]; [by intros [= <-]|]); [done|]. intros (rest & Hr & ->)%fmap_Some. constructor.
  - eapply Forall_selected; [|exact Hl]. intros x. by rewrite merge_sort_Permutation.
  - eapply IH; [|done]. eapply Forall_selected; [|apply keys_list_typed, Hd]. by intros x [_ Hx]%list_elem_of_filter.
Qed.

Lemma tree_rows_typed levels : Forall (Forall key_typed) levels → Forall (λ row, key_typed row.2) (tree_rows levels).
Proof.
  intros Hl. unfold tree_rows. apply Forall_forall. intros [i k] H. apply list_elem_of_join in H as (row & Hin & Hrow).
  apply elem_of_lookup_imap in Hrow as (n & level & -> & Hn). apply list_elem_of_fmap in Hin as (k' & [= _ ->] & Hk).
  eapply Forall_lookup_1 in Hl; [|exact Hn]. by eapply Forall_forall in Hl.
Qed.

Lemma place_row_typed layers row :
  Forall (Forall key_typed) layers → key_typed row.2 → Forall (Forall key_typed) (place_row layers row).
Proof.
  destruct row as [n k]. intros Hl Hk. unfold place_row. apply Forall_alter.
  - apply Forall_app. split; [done|]. apply Forall_replicate. constructor.
  - intros layer _ Hlayer. apply Forall_app. split; [done|]. by constructor.
Qed.

Lemma typed_GetDescendantKeys q : typed (GetDescendantKeys q) (Forall (Forall key_typed)).
Proof.
  unfold GetDescendantKeys, check. eapply (typed_bind _ _ any); [by typecheck|]. intros _ _. typecheck. apply typed_ret.
  assert (Forall key_typed (match find_key a2 a a0 with
    Some k => if matches_filters (gd_Filters q) k then [k] else [] | None => [] end)) as Ha.
  { destruct (find_key _ _ _) eqn:E; [|done]. destruct (matches_filters _ _); [|done]. constructor; [|done]. by eapply find_key_typed. }
  eapply key_tree_typed, tree_rows_typed in Ha; [|done..]. revert Ha.
  generalize (tree_rows l). intros rows. assert (Forall (Forall key_typed) []) as Hnil by done. revert Hnil.
  generalize (@nil (list Key)). induction rows as [|r rows IH]; intros acc Hacc Hrows; [done|].
  apply Forall_cons in Hrows as [Hr Hrows]. apply IH; [|done]. by apply place_row_typed.
Qed.

(** A cursor is empty or names a row. *)
Definition cursor_typed (c : string) : Prop := c = "" ∨ ∃ id t, uuid id ∧ DecodeCursor c = Some (id, t).
Definition page_typed (p : list Key * string) : Prop := Forall key_typed p.1 ∧ cursor_typed p.2.

Lemma list_rows_typed q tenant after d : db_typed d → Forall key_typed (list_rows q tenant after d).
Proof.
  intros Hd. eapply Forall_selected; [|apply keys_list_typed, Hd]. intros x. unfold list_rows.
  rewrite merge_sort_Permutation. by intros [_ Hx]%list_elem_of_filter.
Qed.

Lemma typed_ListKeys q : typed (ListKeys q) page_typed.
Proof.
  unfold ListKeys. eapply (typed_bind _ _ any); [typecheck; by apply typed_ret|]. intros after _. typecheck.
  eapply (typed_bind _ _ any); [typecheck; by apply typed_ret|]. intros after' _. typecheck.
  assert (Forall key_typed (take (Z.to_nat (wrap64 ((if (lk_Limit q <=? 0)%Z then 50 else lk_Limit q) + 1)))
            (list_rows q a after' a1))) as Hr by by apply Forall_take, list_rows_typed.
  eapply (typed_bind _ _ page_typed).
  - typecheck; apply typed_ret; (split; [first [exact Hr|apply Forall_take, Hr]|]); [|by left]. right.
    assert (uuid (k_ID k)) as Hk by (eapply kt_ID, Forall_lookup_1; [exact Hr|done]).
    eexists _, _. split; [exact Hk|by apply cursor_roundtrip].
  - intros [rows cursor] Hp. typecheck. by apply typed_ret.
Qed.

Lemma typed_CreateKeyVersion kv : typed (CreateKeyVersion kv) any.
Proof.
  unfold CreateKeyVersion. typecheck. eapply typed_bind; [apply typed_update_db|by intros; apply typed_ret].
  intros d _. apply set_kvs_typed; [done|]. apply map_Forall_insert_2; [by split|by apply dt_kvs].
Qed.
Lemma typed_GetKeyVersion t k v r : typed (GetKeyVersion t k v r) version_typed.
Proof. unfold GetKeyVersion. typecheck. apply typed_ret. by eapply (dt_kvs a4). Qed.
Lemma typed_ListKeyVersions q : typed (ListKeyVersions q) (Forall version_typed).
Proof.
  unfold ListKeyVersions. destruct (mapM _ _) as [cols|]; [|apply typed_throw]. typecheck.
  eapply (typed_bind _ _ any); [typecheck; by apply typed_ret|]. intros key _. typecheck.
  apply typed_ret. destruct (0 <? lv_Limit q)%Z; [apply Forall_take|].
  all: eapply Forall_selected; [|rows_of dt_kvs]; intros x; rewrite merge_sort_Permutation; by intros [_ Hx]%list_elem_of_filter.
Qed.
Lemma typed_UpdateKeyVersionStates q : typed (UpdateKeyVersionStates q) any.
Proof.
  unfold UpdateKeyVersionStates. typecheck. apply typed_update_db. intros d Hd. apply set_kvs_typed; [done|].
  apply map_Forall_insert_2; [|by apply dt_kvs]. by destruct (dt_kvs a5 ltac:(done) _ _ Heqo).
Qed.

(** *** Migration and runs *)

Lemma typed_create_table t : typed (create_table t) any.
Proof.
  unfold create_table. eapply typed_bind; [apply typed_frame; solve_respects|]. intros _ _.
  apply typed_update_db. intros d. apply set_schema_typed.
Qed.

Lemma typed_Migrate n : typed (Migrate n) any.
Proof.
  unfold Migrate. typecheck. eapply typed_bind; [apply typed_create_table|]. intros _ _. typecheck.
  eapply (typed_bind _ _ any).
  - typecheck. apply typed_update_db. intros d. apply set_schema_typed.
  - intros _ _. apply typed_foldM; [|done]. intros _ t _ _. apply typed_create_table.
Qed.

Lemma typed_discard {A} (m : M A) T : typed m T → typed (discard m) any.
Proof. intros Hm. eapply typed_bind; [exact Hm|]. intros. by apply typed_ret. Qed.

Lemma typed_run_step s : typed (run_step s) any.
Proof.
  destruct s; cbn [run_step]; eauto using typed_discard, typed_UpsertTenant, typed_Register, typed_UpdateStatus,
    typed_DeleteAgents, typed_CreateKey, typed_UpdateKeyLifeCycleState, typed_UpdateKeyProcessingState,
    typed_UpdateKeyStates, typed_CreateKeyVersion, typed_UpdateKeyVersionStates.
Qed.

Lemma typed_run_call c : typed (run_call c) any.
Proof.
  destruct c as [n|s|ss]; cbn [run_call]; [apply typed_Migrate|apply typed_run_step|].
  apply typed_Transaction, typed_foldM; [|done]. intros [] f _ (s & -> & _)%list_elem_of_fmap. apply typed_run_step.
Qed.

Lemma run_calls_typed cs w : db_typed (w_db w) → db_typed (w_db (run_calls cs w)).
Proof.
  revert w. induction cs as [|c cs IH]; intros w Hw; [done|]. apply IH. by apply typed_run_call.
Qed.

Definition answers {A} (m : M A) (w : world) (T : A → Prop) : Prop := ∀ a, (m w).1 = Ok a → T a.
Lemma typed_answers {A} (m : M A) w T : typed m T → db_typed (w_db w) → answers m w T.
Proof. intros Hm Hw a Ha. destruct (Hm w Hw) as [_ H]. by rewrite Ha in H. Qed.

(** C19: the columns have types, and the stores keep them.  From a database whose
    rows fit their columns (an empty one does), whatever calls are made with
    whatever arguments, alone or in transactions, and whatever statements
    fail: every stored row fits its columns (identifiers, parents and jobs are
    canonical UUIDs or NULL, versions and revisions 32-bit integers), and so
    does every row a query answers; the cursor of a page is empty or decodes
    to the canonical identifier of a row. *)
Theorem store_types_rows cs w :
  db_typed (w_db w) → let w' := run_calls cs w in
  db_typed (w_db w') ∧
  (∀ i, answers (GetTenant i) w' tenant_typed) ∧ answers ListTenants w' (Forall tenant_typed) ∧
  (∀ n i, answers (GetAgent n i) w' agent_typed) ∧ (∀ n, answers (ListAgents n) w' (Forall agent_typed)) ∧
  (∀ i t, answers (GetKeyByID i t) w' key_typed) ∧ (∀ t n, answers (GetKeyByName t n) w' key_typed) ∧
  (∀ i t, answers (GetParentKeys i t) w' (Forall key_typed)) ∧
  (∀ q, answers (GetDescendantKeys q) w' (Forall (Forall key_typed))) ∧
  (∀ q, answers (ListKeys q) w' page_typed) ∧
  (∀ t k v r, answers (GetKeyVersion t k v r) w' version_typed) ∧
  (∀ q, answers (ListKeyVersions q) w' (Forall version_typed)).
Proof.
  intros Hw w'. assert (db_typed (w_db w')) as Hw' by by apply run_calls_typed.
  split_and!; [exact Hw'|..]; intros; (apply typed_answers; [|exact Hw']).
  - apply typed_GetTenant.
  - apply typed_ListTenants.
  - apply typed_GetAgent.
  - apply typed_ListAgents.
  - apply typed_GetKeyByID.
  - apply typed_GetKeyByName.
  - apply typed_GetParentKeys.
  - apply typed_GetDescendantKeys.
  - apply typed_ListKeys.
  - apply typed_GetKeyVersion.
  - apply typed_ListKeyVersions.
Qed.
End stores.

(** A key created under identifiers in capitals is read back canonical. *)
Module TypeSamples.
Import Sample StoreSamples.

Definition loud : string := "0000000A-0000-4000-8000-00000000000B".
Definition shout : list store_call :=
  [CMigrate "root"; CStep (SUpsertTenant tenant);
   CStep (SCreateKey (key loud "k" "K1" None KeyLifeCycleActive KeyProcessingCompleted))].

Lemma store_types_rows_witness :
  ∃ k, (GetKeyByID loud uuid0 (run_calls shout (world0 empty_db))).1 = Ok k ∧ key_typed k ∧
       k_ID k = "0000000a-0000-4000-8000-00000000000b" ∧ ¬ uuid loud.
Proof.
  eexists. split; [vm_compute; reflexivity|]. split; [|split; [reflexivity|done]].
  destruct (store_types_rows shout (world0 empty_db) empty_db_typed) as (_ & _ & _ & _ & _ & Hget & _).
  apply (Hget loud uuid0). vm_compute. reflexivity.
Defined.
End TypeSamples.
End StoreTypes.
