(* ===== verification/Validator.v ===== *)
(** * Request and state validation: pkg/validator

    Shape checks of requests (pure) and transaction steps that check the stored
    state (computations on the database). *)

From S2P Require Import Prelude GoStrings GoRuntime Model World Lifecycle Providers Hierarchy.
From S2P Require Import Config Sql KeyStore KeyVersionStore StoreInvariant StoreTheorems.

Local Open Scope string_scope.

Definition ErrEmptyKeyKind : string := "validator.ErrEmptyKeyKind".
Definition ErrInvalidKeyID : string := "validator.ErrInvalidKeyID".
Definition ErrEmptyName : string := "validator.ErrEmptyName".
Definition ErrInvalidTenantID : string := "validator.ErrInvalidTenantID".
Definition ErrInvalidKeyKind : string := "validator.ErrInvalidKeyKind".
Definition ErrInvalidParentKey : string := "validator.ErrInvalidParentKey".
Definition ErrTargetNotInTopology : string := "validator.ErrTargetNotInTopology".
Definition ErrTargetDoesNotManageKeyKind : string := "validator.ErrTargetDoesNotManageKeyKind".
Definition ErrNonRootKey : string := "validator.ErrNonRootKey".
Definition ErrRootKeyParent : string := "validator.ErrRootKeyParent".
Definition ErrParentKeyAdjacency : string := "validator.ErrParentKeyAdjacency".
Definition ErrParentKeyTransientState : string := "validator.ErrParentKeyTransientState".
Definition ErrKeyTransientState : string := "validator.ErrKeyTransientState".
Definition ErrEmptyManagedBy : string := "validator.ErrEmptyManagedBy".
Definition ErrEmptyLifecycleState : string := "validator.ErrEmptyLifecycleState".
Definition ErrInvalidParentID : string := "validator.ErrInvalidParentID".
Definition ErrUnknownLifecycleState : string := "validator.ErrUnknownLifecycleState".
Definition ErrInvalidVersion : string := "validator.ErrInvalidVersion".
Definition ErrInvalidRevision : string := "validator.ErrInvalidRevision".
Definition ErrInvalidParentKeyID : string := "validator.ErrInvalidParentKeyID".
Definition ErrInvalidParentKeyVersion : string := "validator.ErrInvalidParentKeyVersion".
Definition ErrUnknownProcessingState : string := "validator.ErrUnknownProcessingState".
Definition ErrReservedLabel : string := "validator.ErrReservedLabel".
Definition ErrEmptyTenantName : string := "validator.ErrEmptyTenantName".

(** ** Shapes of requests *)

Record UpsertKeyInput := mkUpsertKeyInput {
  ui_TenantID : string;
  ui_KeyID : string;
  ui_Kind : string;
  ui_Name : string;
  ui_ManagedBy : string;
  ui_ParentID : string;
  ui_LifecycleState : string;
}.

(** [ValidateKeyUpsert]. *)
Definition ValidateKeyUpsert (input : UpsertKeyInput) : goerror :=
  if negb (is_valid_uuid (ui_TenantID input)) then Some (ESentinel ErrInvalidTenantID)
  else if negb (is_valid_uuid (ui_KeyID input)) then Some (ESentinel ErrInvalidKeyID)
  else if String.eqb (ui_Kind input) "" then Some (ESentinel ErrEmptyKeyKind)
  else if String.eqb (ui_Name input) "" then Some (ESentinel ErrEmptyName)
  else if String.eqb (ui_ManagedBy input) "" then Some (ESentinel ErrEmptyManagedBy)
  else if negb (is_valid_uuid (ui_ParentID input)) then Some (ESentinel ErrInvalidParentID)
  else if String.eqb (ui_LifecycleState input) "" then Some (ESentinel ErrEmptyLifecycleState)
  else if negb (Lifecycle.IsKnown (ui_LifecycleState input))
  then Some (ESentinel ErrUnknownLifecycleState) else None.

Record AnnounceInput := mkAnnounceInput {
  ai_TenantID : string;
  ai_KeyKind : string;
  ai_Name : string;
  ai_ParentID : string;
  ai_TargetName : string;
}.

(** [ValidateKeyAnnounceRequest]. *)
Definition ValidateKeyAnnounceRequest (input : AnnounceInput) (cfg : RootConfig) : goerror :=
  if negb (is_valid_uuid (ai_TenantID input)) then Some (ESentinel ErrInvalidTenantID)
  else if String.eqb (ai_Name input) "" then Some (ESentinel ErrEmptyName)
  else if String.eqb (ai_KeyKind input) "" then Some (ESentinel ErrEmptyKeyKind)
  else
    match (if String.eqb (ai_TargetName input) "" then Some (rc_Segment cfg)
           else ts_Segment <$> Topology.GetSegmentByName (rc_Topology cfg) (ai_TargetName input)) with
    | None => Some (ESentinel ErrTargetNotInTopology)
    | Some segment =>
        if negb (KeyHierarchy.SegmentContains (rc_Hierarchy cfg) segment (ai_KeyKind input))
        then Some (ESentinel ErrTargetDoesNotManageKeyKind) else None
    end.

(** [ValidateKeyRequest]. *)
Definition ValidateKeyRequest (TenantID KeyID : string) : goerror :=
  if negb (is_valid_uuid TenantID) then Some (ESentinel ErrInvalidTenantID)
  else if negb (is_valid_uuid KeyID) then Some (ESentinel ErrInvalidKeyID)
  else None.

Record UpsertKeyVersionInput := mkUpsertKeyVersionInput {
  vi_TenantID : string;
  vi_KeyID : string;
  vi_Version : Z;
  vi_Revision : Z;
  vi_ParentKeyID : string;
  vi_ParentKeyVersion : Z;
  vi_LifeCycleState : string;
  vi_ProcessingState : string;
}.

(** [ValidateUpsertKeyVersionRequest]. *)
Definition ValidateUpsertKeyVersionRequest (input : UpsertKeyVersionInput) : goerror :=
  if negb (is_valid_uuid (vi_TenantID input)) then Some (ESentinel ErrInvalidTenantID)
  else if negb (is_valid_uuid (vi_KeyID input)) then Some (ESentinel ErrInvalidKeyID)
  else if (vi_Version input <=? 0)%Z then Some (ESentinel ErrInvalidVersion)
  else if (vi_Revision input <=? 0)%Z then Some (ESentinel ErrInvalidRevision)
  else if (negb (String.eqb (vi_ParentKeyID input) "") && negb (is_valid_uuid (vi_ParentKeyID input)))%bool
  then Some (ESentinel ErrInvalidParentKeyID)
  else if (vi_ParentKeyVersion input <? 0)%Z then Some (ESentinel ErrInvalidParentKeyVersion)
  else if negb (Lifecycle.IsKnown (vi_LifeCycleState input))
  then Some (ESentinel ErrUnknownLifecycleState)
  else if negb (IsKnownKeyVersionState (vi_ProcessingState input))
  then Some (ESentinel ErrUnknownProcessingState)
  else None.

(** [ValidateUserLabels]. *)
Definition ValidateUserLabels (labels : Labels) : goerror :=
  match HasReserved labels with
  | Some _ => Some (wrap1 (ESentinel ErrReservedLabel))
  | None => None
  end.

(** [ValidateUpsertTenant]. *)
Definition ValidateUpsertTenant (ID Name : string) : goerror :=
  if negb (is_valid_uuid ID) then Some (ESentinel ErrInvalidTenantID)
  else if String.eqb (trim_space Name) "" then Some (ESentinel ErrEmptyTenantName)
  else None.

(** ** Transaction steps *)

Section steps.
Context {ENV : Env}.

(** [ValidateTenant]. *)
Definition ValidateTenant (tenantID : string) : M () :=
  _ ← GetTenant tenantID;
  mret ().

(** [validator.ValidateTransition]. *)
Definition ValidateTransition (tenantID keyID : string) (to : KeyLifeCycleState) : M () :=
  key ← GetKeyByID keyID tenantID;
  if negb (String.eqb (k_LifeCycleState key) to)
  then check (Lifecycle.ValidateTransition (k_LifeCycleState key) to)
  else mret ().

(** [validator.ValidateKeyUsage]. *)
Definition ValidateKeyUsage (tenantID keyID : string) (usage : Z) : M () :=
  key ← GetKeyByID keyID tenantID;
  if negb (String.eqb (k_Status key) KeyProcessingCompleted)
  then throw (ESentinel ErrKeyTransientState)
  else check (Lifecycle.ValidateKeyUsage (k_LifeCycleState key) usage).

(** The loop of [ValidateKeyParents]. *)
Definition parent_ready (keyID : string) (parent : Key) : bool :=
  (String.eqb (k_ID parent) keyID ||
   (String.eqb (k_LifeCycleState parent) KeyLifeCycleActive &&
    String.eqb (k_Status parent) KeyProcessingCompleted))%bool.

(** [ValidateKeyParents]. *)
Definition ValidateKeyParents (tenantID keyID : string) : M () :=
  parents ← GetParentKeys keyID tenantID;
  if forallb (parent_ready keyID) parents then mret ()
  else throw (ESentinel ErrParentKeyTransientState).

(** [ValidateKeyHierarchy]. *)
Definition ValidateKeyHierarchy (k : Key) (h : KeyHierarchy) : M () :=
  match KeyHierarchy.FindKeySpec h (k_Kind k) with
  | None => throw (ESentinel ErrInvalidKeyKind)
  | Some keySpec =>
      let isRoot := String.eqb (KeySpec.ks_Role keySpec) KeySpec.KeyRoleRoot in
      match k_ParentID k with
      | None => if isRoot then mret () else throw (ESentinel ErrNonRootKey)
      | Some parentID =>
          if isRoot then throw (ESentinel ErrRootKeyParent)
          else
            r ← try (GetKeyByID parentID (k_TenantID k));
            match r with
            | inr err =>
                if errors_Is err ErrKeyNotFound then throw (ESentinel ErrInvalidParentKey)
                else throw err
            | inl parent =>
                let childIdx := KeyHierarchy.IndexOf h (k_Kind k) in
                let parentIdx := KeyHierarchy.IndexOf h (k_Kind parent) in
                if ((parentIdx <? 0) || negb (childIdx =? parentIdx + 1))%Z%bool
                then throw (ESentinel ErrParentKeyAdjacency) else mret ()
            end
      end
  end.
End steps.

Section frames.
Context {ENV : Env} (P : relation DB) `{!PreOrder P}.

Lemma db_rel_ValidateTenant t : respects (db_rel P) (ValidateTenant t).
Proof. unfold ValidateTenant. solve_respects. Qed.
Lemma db_rel_ValidateTransition t k s : respects (db_rel P) (ValidateTransition t k s).
Proof. unfold ValidateTransition. solve_respects. Qed.
Lemma db_rel_ValidateKeyUsage t k u : respects (db_rel P) (ValidateKeyUsage t k u).
Proof. unfold ValidateKeyUsage. solve_respects. Qed.
Lemma db_rel_ValidateKeyParents t k : respects (db_rel P) (ValidateKeyParents t k).
Proof. unfold ValidateKeyParents. solve_respects. Qed.
Lemma db_rel_ValidateKeyHierarchy k h : respects (db_rel P) (ValidateKeyHierarchy k h).
Proof. unfold ValidateKeyHierarchy. solve_respects. Qed.
End frames.

#[export] Hint Resolve db_rel_ValidateTenant db_rel_ValidateTransition db_rel_ValidateKeyUsage
  db_rel_ValidateKeyParents db_rel_ValidateKeyHierarchy : respects.

(** ** Validation errors (validator.go) *)

(** [ErrorKind], an [int] type with declared constants; a [*ValidationError]
    may be nil. *)
Module ValidationErrors.
Definition Invalid : Z := 0.
Definition FailedCondition : Z := 1.
Definition InternalKind : Z := 2.

Record ValidationError := mkValidationError { ve_code : Z; ve_err : error }.
Definition NewValidationError (kind : Z) (err : error) : option ValidationError := Some (mkValidationError kind err).

(** The methods; all but [Error] dereference the pointer. *)
Definition through {A} (f : ValidationError → A) (ve : option ValidationError) : result A :=
  match ve with None => Panic | Some v => Ok (f v) end.
Definition ToProtoErrCode : option ValidationError → result grpc_code := through (λ ve,
  if (ve_code ve =? Invalid)%Z then InvalidArgument
  else if (ve_code ve =? FailedCondition)%Z then FailedPrecondition else Internal).
Definition ToProtoDetailCode : option ValidationError → result detail_code := through (λ ve,
  if (ve_code ve =? InternalKind)%Z then ERROR_CODE_RETRY else ERROR_CODE_ABORT).
Definition Unwrap : option ValidationError → result error := through ve_err.

(** A declared kind is retried exactly when it is answered as internal; an
    undeclared one is answered as internal and not retried. *)
Theorem retried_iff_internal kind err :
  let ve := NewValidationError kind err in
  (ToProtoDetailCode ve = Ok ERROR_CODE_RETRY ↔ kind = InternalKind) ∧
  (ToProtoErrCode ve = Ok Internal ↔ kind ≠ Invalid ∧ kind ≠ FailedCondition) ∧ Unwrap ve = Ok err.
Proof.
  unfold ToProtoDetailCode, ToProtoErrCode, Unwrap, through, NewValidationError. cbn [ve_code ve_err].
  destruct (Z.eqb_spec kind InternalKind), (Z.eqb_spec kind Invalid), (Z.eqb_spec kind FailedCondition); naive_solver.
Qed.
End ValidationErrors.
