(* ===== verification/KeyOperator.v ===== *)
(** * Transaction-scoped key operations: internal/keyoperator

    Each constructor of the package returns a step of a transaction.  A step
    that updates a variable of its caller through a pointer ([UpsertKey]) or a
    memoized resolver ([InitKeyVersion]) takes the variable and returns its new
    value.  The key manager that generates and seals key material is used
    through an interface ([KeyManager]): what a client relies on is that it
    leaves the database alone. *)

From S2P Require Import Prelude GoStrings GoRuntime Model World Sql KeyStore KeyVersionStore.
From S2P Require Import StoreInvariant StoreTheorems.

Local Open Scope string_scope.

Record Transition := mkTransition {
  tr_FromLifeCycle : list KeyLifeCycleState;
  tr_ToLifeCycle : KeyLifeCycleState;
  tr_FromProcessing : list KeyProcessingStatus;
  tr_ToProcessing : KeyProcessingStatus;
}.

Definition ErrKeyTransitionRejected : string := "keyoperator.ErrKeyTransitionRejected".
Definition ErrUpdateKeyState : string := "keyoperator.ErrUpdateKeyState".
Definition ErrGetKey : string := "keyoperator.ErrGetKey".
Definition ErrCreateKey : string := "keyoperator.ErrCreateKey".
Definition ErrKeyConflict : string := "keyoperator.ErrKeyConflict".
Definition ErrNilKey : string := "keyoperator.ErrNilKey".
Definition ErrCreateKeyVersion : string := "keyoperator.ErrCreateKeyVersion".
Definition ErrKeyVersionTransitionRejected : string := "keyoperator.ErrKeyVersionTransitionRejected".
Definition ErrUpdateKeyVersionState : string := "keyoperator.ErrUpdateKeyVersionState".
Definition ErrGenerateAndSealKeyMaterial : string := "keyoperator.ErrGenerateAndSealKeyMaterial".
Definition ErrGetParentKeyVersion : string := "keyoperator.ErrGetParentKeyVersion".
Definition ErrParentNoUsableVersion : string := "keyoperator.ErrParentNoUsableVersion".

Section key.
Context {ENV : Env}.

Definition set_key_id (id : string) (k : Key) : Key :=
  mkKey id (k_Name k) (k_TenantID k) (k_Kind k) (k_ParentID k) (k_ManagedBy k) (k_Labels k)
    (k_LifeCycleState k) (k_ProcessingState k) (k_CreatedAt k) (k_UpdatedAt k).

(** The lookup of the row an insert collided with. *)
Definition existing_key (newKey : Key) : M Key :=
  r ← try (GetKeyByName (k_TenantID newKey) (k_Name newKey));
  r ← match r with
      | inr err => if errors_Is err ErrKeyNotFound
                   then try (GetKeyByID (k_ID newKey) (k_TenantID newKey))
                   else mret (inr err)
      | inl k => mret (inl k)
      end;
  match r with
  | inr err => throw (wrap2 ErrGetKey err)
  | inl k => mret k
  end.

(** [UpsertKey]: the key the pointer refers to after the step. *)
Definition UpsertKey (newKey : option Key) : M Key :=
  match newKey with
  | None => throw (ESentinel ErrNilKey)
  | Some newKey =>
      r ← try (CreateKey newKey);
      match r with
      | inl _ => mret newKey
      | inr err =>
          if negb (errors_Is err ErrKeyInsertConflict) then throw (wrap2 ErrCreateKey err)
          else
            existing ← existing_key newKey;
            if negb (IsSame (Some existing) (Some newKey)) then throw (ESentinel ErrKeyConflict)
            else
              let newKey' := set_key_id (k_ID existing) newKey in
              r ← try (UpdateKeyStates (mkUpdateKeyStatesQuery (k_ID existing) (k_TenantID existing)
                         (k_LifeCycleState newKey) (k_Status newKey)
                         [k_LifeCycleState existing] [k_Status existing]));
              match r with
              | inl _ => mret newKey'
              | inr err =>
                  if errors_Is err ErrKeyNotFound then mret newKey'
                  else throw (wrap2 ErrUpdateKeyState err)
              end
      end
  end.

(** [UpdateKeyState]. *)
Definition UpdateKeyState (tenantID keyID : string) (t : Transition) : M () :=
  r ← try (UpdateKeyStates (mkUpdateKeyStatesQuery keyID tenantID (tr_ToLifeCycle t)
             (tr_ToProcessing t) (tr_FromLifeCycle t) (tr_FromProcessing t)));
  match r with
  | inl _ => mret ()
  | inr err =>
      if errors_Is err ErrKeyNotFound then throw (wrap2 ErrKeyTransitionRejected err)
      else throw (wrap2 ErrUpdateKeyState err)
  end.
End key.

(** ** Key versions *)

(** The interface of [keyprocessor.Manager] to its clients: it writes to secure
    memory and vaults only, and its errors are not task dispositions. *)
Class KeyManager := {
  GenerateAndSealSecret : KeyVersion → string → KeyKind → M ();
  GenerateAndSealSecret_outbound : ∀ kv aad kind, outbound (GenerateAndSealSecret kv aad kind);
}.

Record VersionTransition := mkVersionTransition {
  vt_FromProcessing : list KeyVersionProcessingState;
  vt_ToProcessing : KeyVersionProcessingState;
  vt_FromLifeCycle : list KeyLifeCycleState;
  vt_ToLifeCycle : KeyLifeCycleState;
}.

(** The variable behind a memoized resolver: unset until its first call. *)
Notation memo := (option (KeyVersion + error)) (only parsing).

Section key_version.
Context {ENV : Env} {MGR : KeyManager}.

Definition set_kv_states (state : KeyLifeCycleState) (ps : KeyVersionProcessingState)
    (kv : KeyVersion) : KeyVersion :=
  mkKeyVersion (kv_TenantID kv) (kv_KeyID kv) (kv_Version kv) (kv_Revision kv)
    (kv_ParentKeyID kv) (kv_ParentKeyVersion kv) state ps (kv_Labels kv)
    (kv_CreatedAt kv) (kv_UpdatedAt kv).

(** The latest usable, active version of a parent key. *)
Definition latest_usable (tenantID parentID : string) : ListKeyVersionsQuery :=
  mkListKeyVersionsQuery tenantID parentID 0 KeyLifeCycleActive KeyVersionUsable
    [KeyVersionOrderVersionDesc; KeyVersionOrderRevisionDesc] 1.

(** The body run once by [InitKeyVersion]'s resolver. *)
Definition init_key_version (tenantID keyID : string) : M KeyVersion :=
  r ← try (GetKeyByID keyID tenantID);
  match r with
  | inr err => throw (wrap2 ErrGetKey err)
  | inl key =>
      parentKeyVersion ←
        match k_ParentID key with
        | None => mret None
        | Some p =>
            r ← try (ListKeyVersions (latest_usable (k_TenantID key) p));
            match r with
            | inr err => throw (wrap2 ErrGetParentKeyVersion err)
            | inl [] => throw (ESentinel ErrParentNoUsableVersion)
            | inl (pkv :: _) => mret (Some (kv_Version pkv))
            end
        end;
      kv ← NewKeyVersion (k_TenantID key) (k_ID key) 1 (k_ParentID key) parentKeyVersion;
      mret (set_kv_states KeyLifeCyclePreActivation KeyVersionActivating kv)
  end.

(** [InitKeyVersion]: the memoized resolver, its result and the variable. *)
Definition InitKeyVersion (tenantID keyID : string) (m : memo) : M ((KeyVersion + error) * memo) :=
  match m with
  | Some r => mret (r, m)
  | None => r ← try (init_key_version tenantID keyID); mret (r, Some r)
  end.

Notation resolver := (memo → M ((KeyVersion + error) * memo)).

(** [CreateKeyVersion] (the step). *)
Definition CreateKeyVersionStep (resolve : resolver) (m : memo) : M memo :=
  '(r, m') ← resolve m;
  match r with
  | inr err => throw err
  | inl kv =>
      r ← try (CreateKeyVersion kv);
      match r with
      | inr err => throw (wrap2 ErrCreateKeyVersion err)
      | inl _ => mret m'
      end
  end.

(** [UpdateKeyVersionState]. *)
Definition UpdateKeyVersionState (tenantID keyID : string) (resolve : resolver)
    (t : VersionTransition) (m : memo) : M memo :=
  '(r, m') ← resolve m;
  match r with
  | inr err => throw err
  | inl kv =>
      r ← try (UpdateKeyVersionStates (mkUpdateKeyVersionStatesQuery tenantID keyID
                 (kv_Version kv) (kv_Revision kv) (vt_FromProcessing t) (vt_ToProcessing t)
                 (vt_FromLifeCycle t) (vt_ToLifeCycle t)));
      match r with
      | inl _ => mret m'
      | inr err =>
          if errors_Is err ErrKeyVersionNotFound
          then throw (wrap2 ErrKeyVersionTransitionRejected err)
          else throw (wrap2 ErrUpdateKeyVersionState err)
      end
  end.

(** [fmt.Appendf(nil, "%s:%s:%d:%d:%d", ...)] of the sealing step. *)
Definition sealing_aad (key : Key) (kv : KeyVersion) : string :=
  k_TenantID key +:+ ":" +:+ k_ID key +:+ ":" +:+ itoa (kv_Version kv) +:+ ":" +:+
  itoa (kv_Revision kv) +:+ ":" +:+ itoa (kv_CreatedAt kv).

(** [GenerateAndSealKeyMaterial]. *)
Definition GenerateAndSealKeyMaterial (tenantID keyID : string) (resolve : resolver)
    (m : memo) : M memo :=
  r ← try (GetKeyByID keyID tenantID);
  match r with
  | inr err => throw (wrap2 ErrGetKey err)
  | inl key =>
      match k_ParentID key with
      | None => mret m
      | Some _ =>
          '(r, m') ← resolve m;
          match r with
          | inr err => throw err
          | inl kv =>
              r ← try (GenerateAndSealSecret kv (sealing_aad key kv) (k_Kind key));
              match r with
              | inr err => throw (wrap2 ErrGenerateAndSealKeyMaterial err)
              | inl _ => mret m'
              end
          end
      end
  end.
End key_version.

(** ** Frames *)

Section frames.
Context {ENV : Env} {MGR : KeyManager}.

Lemma db_rel_GenerateAndSealSecret (P : relation DB) `{!PreOrder P} kv aad kind :
  respects (db_rel P) (GenerateAndSealSecret kv aad kind).
Proof. intros w. unfold db_rel. rewrite (proj1 (GenerateAndSealSecret_outbound _ _ _ _)). reflexivity. Qed.

Lemma evolves_existing_key k : respects (db_rel db_evolves) (existing_key k).
Proof. unfold existing_key. solve_respects. Qed.

Lemma evolves_UpsertKey k : respects (db_rel db_evolves) (UpsertKey k).
Proof. unfold UpsertKey. solve_respects; eauto using evolves_existing_key. Qed.

Lemma evolves_UpdateKeyState t k tr : respects (db_rel db_evolves) (UpdateKeyState t k tr).
Proof. unfold UpdateKeyState. solve_respects. Qed.

Lemma evolves_init_key_version t k : respects (db_rel db_evolves) (init_key_version t k).
Proof. unfold init_key_version. solve_respects. Qed.

Lemma evolves_InitKeyVersion t k m : respects (db_rel db_evolves) (InitKeyVersion t k m).
Proof. unfold InitKeyVersion. solve_respects; apply evolves_init_key_version. Qed.
End frames.

#[export] Hint Resolve db_rel_GenerateAndSealSecret evolves_UpsertKey evolves_UpdateKeyState
  evolves_InitKeyVersion : respects.

(** ** What an upsert promises *)

Section upsert.
Context {ENV : Env}.

Lemma GetKeyByName_spec TenantID Name w :
  match GetKeyByName TenantID Name w with
  | (Ok k, w') =>
      w_db w' = w_db w ∧ k ∈ keys_list (w_db w) ∧ k_Name k = Name ∧
      uuid_column TenantID = Some (k_TenantID k)
  | (Err e, w') =>
      w_db w' = w_db w ∧
      (e = ESentinel ErrKeyNotFound ∧
         (∀ k, k ∈ keys_list (w_db w) → uuid_column TenantID = Some (k_TenantID k) → k_Name k ≠ Name) ∨
       ∃ what, e = EForeign what)
  | _ => False
  end.
Proof.
  unfold GetKeyByName. rewrite bind_arg_uuid_eq.
  destruct (uuid_column TenantID) as [t|]; [|simpl; eauto].
  match goal with |- context [(statement keys ≫= ?k) ?w] =>
    destruct (bind_statement_cases keys k w) as [(what & w' & -> & ->)|(w' & -> & Hdb & _)] end;
    [simpl; eauto|].
  rewrite bind_get_db, Hdb. destruct (List.filter _ _) as [|k l] eqn:Ef; simpl.
  - split; [done|]. left. split; [done|]. intros k Hk [= Ht] Hn.
    assert (In k (List.filter (same_tenant_name t Name) (keys_list (w_db w)))) as Hin; [|by rewrite Ef in Hin].
    apply filter_In. split; [by apply list_elem_of_In|].
    unfold same_tenant_name. by rewrite Ht, Hn, !String.eqb_refl.
  - assert (In k (List.filter (same_tenant_name t Name) (keys_list (w_db w)))) as Hin by (rewrite Ef; by left).
    apply filter_In in Hin as [Hin [Ht%String.eqb_eq Hn%String.eqb_eq]%andb_true_iff].
    split_and!; [done|by apply list_elem_of_In|done|by rewrite Ht].
Qed.

Lemma existing_key_spec k w e w' :
  db_wf (w_db w) → existing_key k w = (Ok e, w') →
  w_db w' = w_db w ∧ db_keys (w_db w) !! k_ID e = Some e.
Proof.
  intros Hwf. unfold existing_key. rewrite bind_try.
  pose proof (GetKeyByName_spec (k_TenantID k) (k_Name k) w) as Hn.
  destruct (GetKeyByName _ _ w) as [[x|er| |] w1]; try done.
  - destruct Hn as (Hdb & Hin & _). intros [= <- <-]. split; [done|].
    apply keys_list_elem in Hin as [id Hid]. by destruct (wf_key_id _ Hwf _ _ Hid) as [-> _].
  - destruct Hn as [Hdb _]. destruct (errors_Is er ErrKeyNotFound); [|done].
    rewrite bind_try. pose proof (GetKeyByID_spec (k_ID k) (k_TenantID k) w1) as Hi.
    destruct (GetKeyByID _ _ w1) as [[x|er'| |] w2]; try done.
    destruct Hi as [Hdb' Ht]. intros [= <- <-]. split; [congruence|]. rewrite Hdb in Ht.
    apply target_stored, keys_list_elem in Ht as [id Hid].
    by destruct (wf_key_id _ Hwf _ _ Hid) as [-> _].
Qed.

Lemma target_canonical d id k :
  db_wf d → db_keys d !! id = Some k → target d (k_ID k) (k_TenantID k) = Some k.
Proof.
  intros Hwf Hk. destruct (wf_key_id _ Hwf _ _ Hk) as [Hid Hu]. unfold target.
  rewrite Hid, Hu. simpl. rewrite (wf_key_tenant _ _ _ Hwf Hk). simpl. by apply find_key_Some.
Qed.

(** A successful [UpsertKey] leaves exactly the announced key in the store:
    the row under the returned id has the requested tenant, name, kind, parent
    and manager, and the requested state and status; a row that was there
    before keeps its id, labels and creation time. *)
Theorem upsert_key_stored newKey w k' w' :
  db_wf (w_db w) → stored_key newKey = Some newKey →
  UpsertKey (Some newKey) w = (Ok k', w') →
  key_identity k' = key_identity newKey ∧
  ∃ row, db_keys (w_db w') !! k_ID k' = Some row ∧ key_identity row = key_identity newKey ∧
    k_LifeCycleState row = k_LifeCycleState newKey ∧ k_Status row = k_Status newKey ∧
    (row = newKey ∨ ∃ old, db_keys (w_db w) !! k_ID k' = Some old ∧
                      k_Labels row = k_Labels old ∧ k_CreatedAt row = k_CreatedAt old).
Proof.
  intros Hwf Hst. unfold UpsertKey. rewrite bind_try.
  pose proof (CreateKey_spec newKey w) as Hc.
  destruct (CreateKey newKey w) as [[[]|er| |] w1]; try done.
  - destruct Hc as (row & Hrow & _ & Hdb). intros [= <- <-]. split; [done|].
    exists newKey. rewrite Hst in Hrow. injection Hrow as <-. rewrite Hdb. simpl.
    rewrite lookup_insert_eq. eauto 10.
  - destruct Hc as [Hdb _]. destruct (errors_Is er ErrKeyInsertConflict); [|done]. cbn [negb].
    intros (e & w2 & He & H)%bind_inv_Ok. rewrite <-Hdb in Hwf.
    apply existing_key_spec in He as [Hdb2 Hek]; [|done].
    destruct (IsSame (Some e) (Some newKey)) eqn:Es; [|done]. cbn [negb] in H. apply IsSame_spec in Es.
    rewrite bind_try in H. cbv zeta in H.
    set (q := mkUpdateKeyStatesQuery _ _ _ _ _ _) in H.
    pose proof (UpdateKeyStates_spec q w2) as Hu. rewrite Hdb2 in Hu.
    assert (target (w_db w1) (uk_ID q) (uk_TenantID q) = Some e) as Ht by by eapply target_canonical.
    assert (from_matches q e) as Hm by (split; right; apply list_elem_of_here).
    destruct (UpdateKeyStates q w2) as [[[]|er'| |] w3]; try done.
    + injection H as <- <-. destruct Hu as (x & now & Hx & _ & id & Hid & Hdb3).
      rewrite Ht in Hx. injection Hx as <-. split; [done|].
      assert (id = k_ID e) as ->.
      { destruct (wf_key_id _ Hwf _ _ Hek) as [_ Hu]. simpl in Hid. congruence. }
      exists (swapped q now e). rewrite Hdb3. simpl. rewrite lookup_insert_eq, <-Hdb.
      split_and!; [reflexivity|exact Es|reflexivity|reflexivity|]. right. eauto.
    + destruct Hu as [_ [[-> Hn]|[what ->]]]; [by destruct (Hn e Ht)|done].
Qed.
End upsert.

Module KeyOperatorSamples.
Import Sample StoreSamples.

Definition fresh : Key := key uuid3 "k3" "K2" (Some uuid1) KeyLifeCyclePreActivation KeyProcessingPending.

Lemma upsert_key_stored_witness :
  ∃ k' w', UpsertKey (Some fresh) w1 = (Ok k', w') ∧ key_identity k' = key_identity fresh ∧
    is_Some (db_keys (w_db w') !! k_ID k').
Proof.
  assert (k_ID <$> match (UpsertKey (Some fresh) w1).1 with Ok k => Some k | _ => None end = Some uuid3)
    as E by (vm_compute; reflexivity).
  destruct (UpsertKey (Some fresh) w1) as [r w'] eqn:H. destruct r as [k'| | |]; try discriminate E.
  destruct (upsert_key_stored fresh w1 k' w' w1_wf) as [Hi (row & Hr & _)].
  - vm_compute. reflexivity.
  - exact H.
  - exists k', w'. split; [reflexivity|]. split; [exact Hi|]. exists row. exact Hr.
Defined.
End KeyOperatorSamples.
