(* ===== verification/Orchestrator.v ===== *)
(** * Key actions and their tasks: internal/orchestrator

    A key action moves a key, or a tree of keys, to a target state and schedules
    one job per layer ([ApplyKeyAction], keyaction.go); a job resolves into one
    task per key (taskresolver.go); a task brings the key version up to date,
    seals its material, pushes it to the agent that manages the key and marks
    the key completed (task.go, keyoperator.go).  Announcing a key has its own
    resolver and task (announce_taskresolver.go, announce_task.go).

    The scheduler (orbital), the agents reached over gRPC and JSON are
    parameters: [JobGroupPreparer], [RemoteAgents] and [JobCodec], with what the
    code relies on: a call that leaves the process does not write to this
    process's tables, and job data reads back as it was written. *)

From Stdlib Require Import Ascii.
From S2P Require Import Prelude GoStrings GoRuntime Model World Lifecycle Providers Hierarchy.
From S2P Require Import Config Sql KeyStore KeyVersionStore StoreInvariant StoreTheorems Validator.
From S2P Require Import KeyOperator.

Local Open Scope string_scope.

(** ** Jobs, identifiers, parameters *)

Definition AnnounceKey_type : string := "announce-key".
Definition ActivateKey_type : string := "activate-key".
Definition SuspendKey_type : string := "suspend-key".
Definition DeactivateKey_type : string := "deactivate-key".
Definition DefaultLocalTargetName : string := "krypton-embedded".

Record HandlerConfig := mkHandlerConfig {
  hc_handlerType : string;
  hc_toState : KeyLifeCycleState;
}.

Definition AnnounceHandlerConfig : HandlerConfig :=
  mkHandlerConfig AnnounceKey_type KeyLifeCyclePreActivation.
Definition ActivateHandlerConfig : HandlerConfig :=
  mkHandlerConfig ActivateKey_type KeyLifeCycleActive.
Definition SuspendHandlerConfig : HandlerConfig :=
  mkHandlerConfig SuspendKey_type KeyLifeCycleSuspended.
Definition DeactivateHandlerConfig : HandlerConfig :=
  mkHandlerConfig DeactivateKey_type KeyLifeCycleDeactivated.

Record KeyIdentifier := mkKeyIdentifier { ki_ID : string; ki_TenantID : string }.

#[export] Instance KeyIdentifier_eq_dec : EqDecision KeyIdentifier.
Proof. solve_decision. Defined.

(** What is passed to [orbital.NewJob] and [orbital.NewJobGroup]. *)
Record Job := mkJob { j_Type : string; j_Data : string; j_ExternalID : string }.
Record JobGroup := mkJobGroup {
  jg_ID : string;
  jg_Type : string;
  jg_Jobs : list Job;
  jg_Labels : gmap string string;
}.
Record TaskInfo := mkTaskInfo { ti_Data : string; ti_Type : string; ti_Target : string }.

(** [json.Marshal]/[json.Unmarshal] of job and task data.  [KeyLayer] is the
    list of its identifiers. *)
Class JobCodec := {
  marshal_layer : list KeyIdentifier → option string;
  unmarshal_layer : string → option (list KeyIdentifier);
  marshal_id : KeyIdentifier → option string;
  unmarshal_id : string → option KeyIdentifier;
  marshal_key : Key → option string;
  unmarshal_key : string → option Key;
  layer_roundtrip : ∀ l s, marshal_layer l = Some s → unmarshal_layer s = Some l;
  id_roundtrip : ∀ i s, marshal_id i = Some s → unmarshal_id s = Some i;
  key_roundtrip : ∀ k s, marshal_key k = Some s → unmarshal_key s = Some k;
}.

(** [JobGroupPreparer]: orbital stores the group in tables of its own, or
    returns an error. *)
Class JobGroupPreparer := {
  PrepareJobGroup : JobGroup → M JobGroup;
  PrepareJobGroup_outbound : ∀ g, outbound (PrepareJobGroup g);
}.

(** ** Dispositions: error.go *)

Definition RetryBackoff : Z := 30000000000.

Record OrbitalOperatorError := mkOrbitalOperatorError {
  oo_status : orbital_status;
  oo_retryBackoff : Z;
  oo_err : option error;
}.

(** The value as a Go [error]. *)
Definition as_error (r : OrbitalOperatorError) : error :=
  EOrbital (oo_status r) (oo_retryBackoff r) (oo_err r).

Definition OrbitalContinue (err : error) : OrbitalOperatorError :=
  mkOrbitalOperatorError orbitalStatusContinue RetryBackoff (Some err).
Definition OrbitalFail (err : error) : OrbitalOperatorError :=
  mkOrbitalOperatorError orbitalStatusFail 0 (Some err).
Definition OrbitalComplete : OrbitalOperatorError :=
  mkOrbitalOperatorError orbitalStatusComplete 0 None.

Section tasks.
Context {ENV : Env}.

Definition respond (r : response) : M () := modify (add_resp r).

(** [OrbitalOperatorError.Apply]: the error it returns. *)
Definition Apply (r : OrbitalOperatorError) : M goerror :=
  match oo_status r with
  | orbitalStatusContinue => _ ← respond (RContinueAndWaitFor (oo_retryBackoff r)); mret (oo_err r)
  | orbitalStatusFail => _ ← respond RFail; mret None
  | orbitalStatusComplete => _ ← respond RComplete; mret None
  | orbitalStatusOther _ =>
      _ ← respond (RContinueAndWaitFor RetryBackoff);
      mret (Some (EForeign "orbital: unknown status"))
  end.

(** [return or.Apply(resp)] in a step. *)
Definition return_apply (r : OrbitalOperatorError) : M () :=
  e ← Apply r; check e.

(** ** Steps shared by tasks: validator.go *)

(** [ValidateTenantID]. *)
Definition ValidateTenantID (tenantID : string) : M () :=
  r ← try (ValidateTenant tenantID);
  match r with
  | inl _ => mret ()
  | inr err =>
      if errors_Is err ErrTenantNotFound then throw (as_error (OrbitalFail err))
      else throw (as_error (OrbitalContinue err))
  end.

(** [EnsureKey]. *)
Definition EnsureKey (kid : KeyIdentifier) (cond : option (Key → bool)) : M () :=
  r ← try (GetKeyByID (ki_ID kid) (ki_TenantID kid));
  match r with
  | inr err =>
      if errors_Is err ErrKeyNotFound then throw (as_error (OrbitalFail err))
      else throw (as_error (OrbitalContinue err))
  | inl key =>
      match cond with
      | Some c => if negb (c key) then throw (as_error OrbitalComplete) else mret ()
      | None => mret ()
      end
  end.
End tasks.

(** ** gRPC statuses: pkg/api/v1/proto/error.go *)

(** [status.FromError]: the status an error is or wraps. *)
Fixpoint errors_AsStatus (e : error) : option (grpc_code * option detail_code) :=
  match e with
  | EStatus c d => Some (c, d)
  | EWrap cs =>
      (fix first (l : list error) :=
         match l with
         | [] => None
         | c :: l' => match errors_AsStatus c with Some r => Some r | None => first l' end
         end) cs
  | _ => None
  end.

(** [proto.Retryable], for a non-nil error. *)
Definition Retryable (e : error) : bool :=
  match errors_AsStatus e with
  | Some (_, Some d) => bool_decide (d = ERROR_CODE_RETRY)
  | _ => true
  end.

(** [isTerminalUpsertErr]. *)
Definition isTerminalUpsertErr (e : error) : bool :=
  match errors_AsStatus e with
  | Some (InvalidArgument, _) | Some (FailedPrecondition, _) => true
  | _ => false
  end.

(** ** Agents *)

Record UpsertTenantRequest := mkUpsertTenantRequest {
  utr_Id : string;
  utr_Name : string;
  utr_Labels : Labels;
}.

Record UpsertKeyRequest := mkUpsertKeyRequest {
  ukr_TenantId : string;
  ukr_KeyId : string;
  ukr_Kind : string;
  ukr_Name : string;
  ukr_ParentId : string;
  ukr_LifecycleState : string;
  ukr_ManagedBy : string;
  ukr_Labels : Labels;
}.

Record UpsertKeyVersionRequest := mkUpsertKeyVersionRequest {
  uvr_TenantId : string;
  uvr_KeyId : string;
  uvr_Version : Z;
  uvr_Revision : Z;
  uvr_ParentId : string;
  uvr_ParentVersion : Z;
  uvr_LifecycleState : string;
  uvr_ProcessingState : string;
  uvr_Labels : Labels;
}.

(** The services of the agents, by the name of the agent: each agent has a
    database of its own, and the errors of a gRPC call are not task
    dispositions. *)
Class RemoteAgents := {
  RemoteUpsertTenant : string → UpsertTenantRequest → M ();
  RemoteUpsertKey : string → UpsertKeyRequest → M ();
  RemoteUpsertKeyVersion : string → UpsertKeyVersionRequest → M ();
  RemoteUpsertTenant_outbound : ∀ a r, outbound (RemoteUpsertTenant a r);
  RemoteUpsertKey_outbound : ∀ a r, outbound (RemoteUpsertKey a r);
  RemoteUpsertKeyVersion_outbound : ∀ a r, outbound (RemoteUpsertKeyVersion a r);
}.

(** The agents [grpcconn.Registry] has a connection for. *)
Notation Registry := (gset string) (only parsing).

(** [int32(x)]. *)
Definition wrap32 (z : Z) : Z := ((z + 2 ^ 31) mod 2 ^ 32 - 2 ^ 31)%Z.

(** [toUpsertRequest] and the request of [upsertRemoteKey]. *)
Definition toUpsertRequest (k : Key) : UpsertKeyRequest :=
  mkUpsertKeyRequest (k_TenantID k) (k_ID k) (k_Kind k) (k_Name k) (default "" (k_ParentID k))
    (k_LifeCycleState k) (k_ManagedBy k) (k_Labels k).

(** ** The key operator: keyoperator.go *)

Definition ErrNoKeyVersionYet : string := "orchestrator.ErrNoKeyVersionYet".
Definition ErrNoParentKeyVersionFound : string := "orchestrator.ErrNoParentKeyVersionFound".
Definition ErrInternal : string := "orchestrator.ErrInternal".

(** [KeyOperatorConfig]; the stores are those of the transaction. *)
Record KeyOperatorConfig := mkKeyOperatorConfig {
  ko_hasManager : bool;
  ko_RootConfig : option RootConfig;
  ko_Registry : option Registry;
}.

(** The mutable fields of [KeyOperator]. *)
Record KeyOperator := mkKeyOperator {
  ko_Key : option Key;
  ko_KeyVersion : option KeyVersion;
  ko_IsNewKV : bool;
}.

Section key_operator.
Context {ENV : Env} {MGR : KeyManager} {AGENTS : RemoteAgents} (cfg : KeyOperatorConfig).

Definition internal (what : string) : error := wrap1 (ESentinel ErrInternal).

(** [MarkKeyFailed]. *)
Definition MarkKeyFailed (p : KeyOperator) (failedErr : error) : M OrbitalOperatorError :=
  match ko_Key p with
  | None => mret (OrbitalFail (internal "key is nil"))
  | Some key =>
      r ← try (UpdateKeyStates (mkUpdateKeyStatesQuery (k_ID key) (k_TenantID key)
                 (k_LifeCycleState key) KeyProcessingFailed
                 [k_LifeCycleState key] [k_Status key]));
      match r with
      | inr err => mret (OrbitalContinue err)
      | inl _ => mret (OrbitalFail failedErr)
      end
  end.

Definition fail_key (p : KeyOperator) (err : error) : M (option OrbitalOperatorError) :=
  or ← MarkKeyFailed p err; mret (Some or).

(** [loadKey]. *)
Definition loadKey (p : KeyOperator) (kid : KeyIdentifier) :
    M (option OrbitalOperatorError * KeyOperator) :=
  r ← try (GetKeyByID (ki_ID kid) (ki_TenantID kid));
  match r with
  | inl key => mret (None, mkKeyOperator (Some key) (ko_KeyVersion p) (ko_IsNewKV p))
  | inr err =>
      if errors_Is err ErrKeyNotFound then mret (Some (OrbitalFail (wrap1 err)), p)
      else mret (Some (OrbitalContinue err), p)
  end.

(** [fetchAndUpdateExistingKeyVersion]. *)
Definition fetchAndUpdateExistingKeyVersion (key : Key) : M KeyVersion :=
  kvList ← ListKeyVersions (mkListKeyVersionsQuery (k_TenantID key) (k_ID key) 0 "" ""
             [KeyVersionOrderVersionDesc; KeyVersionOrderRevisionDesc] 1);
  match kvList with
  | [] => throw (ESentinel ErrNoKeyVersionYet)
  | kv :: _ =>
      _ ← UpdateKeyVersionStates (mkUpdateKeyVersionStatesQuery (kv_TenantID kv) (kv_KeyID kv)
            (kv_Version kv) (kv_Revision kv) [kv_ProcessingState kv] KeyVersionUsable
            [kv_LifeCycleState kv] (k_LifeCycleState key));
      mret (set_kv_states (k_LifeCycleState key) KeyVersionUsable kv)
  end.

(** [deriveKeyVersionFromParent]. *)
Definition deriveKeyVersionFromParent (key : Key) : M KeyVersion :=
  parentKeyVersion ←
    match k_ParentID key with
    | None => mret None
    | Some p =>
        pkv ← ListKeyVersions (latest_usable (k_TenantID key) p);
        match pkv with
        | [] => throw (wrap1 (ESentinel ErrNoParentKeyVersionFound))
        | v :: _ => mret (Some (kv_Version v))
        end
    end;
  kv ← NewKeyVersion (k_TenantID key) (k_ID key) 1 (k_ParentID key) parentKeyVersion;
  CreateKeyVersion (set_kv_states (k_LifeCycleState key) KeyVersionUsable kv).

(** [resolveKeyVersions]; it is called with [p.Key] set. *)
Definition resolveKeyVersions (p : KeyOperator) (key : Key) :
    M (option OrbitalOperatorError * KeyOperator) :=
  r ← try (fetchAndUpdateExistingKeyVersion key);
  match r with
  | inl kv => mret (None, mkKeyOperator (ko_Key p) (Some kv) (ko_IsNewKV p))
  | inr err =>
      if negb (errors_Is err ErrNoKeyVersionYet) then mret (Some (OrbitalContinue err), p)
      else
        r ← try (deriveKeyVersionFromParent key);
        match r with
        | inl kv => mret (None, mkKeyOperator (ko_Key p) (Some kv) true)
        | inr err =>
            if errors_Is err ErrNoParentKeyVersionFound then
              or ← MarkKeyFailed p err; mret (Some or, p)
            else mret (Some (OrbitalContinue err), p)
        end
  end.

(** [ResolveKeyAndVersions]; dereferencing a nil key would panic. *)
Definition ResolveKeyAndVersions (p : KeyOperator) (kid : KeyIdentifier) :
    M (option OrbitalOperatorError * KeyOperator) :=
  '(or, p) ← loadKey p kid;
  match or with
  | Some _ => mret (or, p)
  | None =>
      match ko_Key p with
      | None => panic
      | Some key => resolveKeyVersions p key
      end
  end.

(** [isRootKey]. *)
Definition isRootKey (p : KeyOperator) (key : Key) (rc : RootConfig) :
    M (bool + OrbitalOperatorError) :=
  match KeyHierarchy.FindKeySpec (rc_Hierarchy rc) (k_Kind key) with
  | None => or ← MarkKeyFailed p (internal "key kind not found in hierarchy"); mret (inr or)
  | Some kspec => mret (inl (String.eqb (KeySpec.ks_Role kspec) KeySpec.KeyRoleRoot))
  end.

(** [KeyOperator.GenerateAndSealSecret]. *)
Definition GenerateAndSealSecretOp (p : KeyOperator) : M (option OrbitalOperatorError) :=
  match ko_Key p with
  | None => mret (Some (OrbitalFail (internal "key is nil")))
  | Some key =>
      match ko_KeyVersion p with
      | None => fail_key p (internal "key version is nil")
      | Some kv =>
          if negb (ko_hasManager cfg) then fail_key p (internal "key processor manager is nil")
          else match ko_RootConfig cfg with
          | None => fail_key p (internal "config is nil")
          | Some rc =>
              let isManagedByRoot := String.eqb (k_ManagedBy key) (rc_Name rc) in
              r ← isRootKey p key rc;
              match r with
              | inr or => mret (Some or)
              | inl isRoot =>
                  let skipGeneration := (negb isManagedByRoot || isRoot || negb (ko_IsNewKV p))%bool in
                  if skipGeneration then mret None
                  else
                    (* [AAD] never returns a nil slice *)
                    r ← try (GenerateAndSealSecret kv (AAD kv) (k_Kind key));
                    match r with
                    | inr err => mret (Some (OrbitalContinue err))
                    | inl _ => mret None
                    end
              end
          end
      end
  end.

(** The outcome of a call to an agent. *)
Definition remote_outcome (p : KeyOperator) (r : () + error) : M (option OrbitalOperatorError) :=
  match r with
  | inl _ => mret None
  | inr err => if Retryable err then mret (Some (OrbitalContinue err)) else fail_key p (wrap1 err)
  end.

(** [upsertRemoteKey]. *)
Definition upsertRemoteKey (p : KeyOperator) (k : Key) : M (option OrbitalOperatorError) :=
  r ← try (RemoteUpsertKey (k_ManagedBy k) (toUpsertRequest k));
  remote_outcome p r.

(** The request of [upsertRemoteKeyVersion]. *)
Definition version_request (kv : KeyVersion) : UpsertKeyVersionRequest :=
  mkUpsertKeyVersionRequest (kv_TenantID kv) (kv_KeyID kv) (wrap32 (kv_Version kv))
    (wrap32 (kv_Revision kv)) (default "" (kv_ParentKeyID kv))
    (match kv_ParentKeyVersion kv with Some v => wrap32 v | None => 0%Z end)
    (kv_LifeCycleState kv) (kv_ProcessingState kv) ∅.

(** [upsertRemoteKeyVersion]. *)
Definition upsertRemoteKeyVersion (p : KeyOperator) (k : Key) (kv : KeyVersion) :
    M (option OrbitalOperatorError) :=
  r ← try (RemoteUpsertKeyVersion (k_ManagedBy k) (version_request kv));
  remote_outcome p r.

(** [UpsertRemote]. *)
Definition UpsertRemote (p : KeyOperator) : M (option OrbitalOperatorError) :=
  match ko_Key p with
  | None => mret (Some (OrbitalFail (internal "key is nil")))
  | Some key =>
      match ko_KeyVersion p with
      | None => fail_key p (internal "key version is nil")
      | Some kv =>
          match ko_Registry cfg with
          | None => fail_key p (internal "registry is nil, cannot upsert key version")
          | Some registry =>
              match ko_RootConfig cfg with
              | None => fail_key p (internal "config is nil")
              | Some rc =>
                  if String.eqb (k_ManagedBy key) (rc_Name rc) then mret None
                  else if negb (bool_decide (k_ManagedBy key ∈ registry))
                  then fail_key p (internal "no connection found for agent")
                  else
                    or ← upsertRemoteKey p key;
                    match or with
                    | Some _ => mret or
                    | None => upsertRemoteKeyVersion p key kv
                    end
              end
          end
      end
  end.

(** [MarkKeyCompleted]. *)
Definition MarkKeyCompleted (p : KeyOperator) : M (option OrbitalOperatorError) :=
  match ko_Key p with
  | None => mret (Some (OrbitalFail (internal "key is nil")))
  | Some key =>
      r ← try (UpdateKeyStates (mkUpdateKeyStatesQuery (k_ID key) (k_TenantID key)
                 (k_LifeCycleState key) KeyProcessingCompleted
                 [k_LifeCycleState key] [KeyProcessingPending]));
      match r with
      | inr err => mret (Some (OrbitalContinue err))
      | inl _ => mret None
      end
  end.

(** ** The task: task.go *)

Definition process_key (kid : KeyIdentifier) : M () :=
  '(or, p) ← ResolveKeyAndVersions (mkKeyOperator None None false) kid;
  match or with
  | Some or => return_apply or
  | None =>
      or ← GenerateAndSealSecretOp p;
      match or with
      | Some or => return_apply or
      | None =>
          or ← UpsertRemote p;
          match or with
          | Some or => return_apply or
          | None =>
              or ← MarkKeyCompleted p;
              match or with
              | Some or => return_apply or
              | None => respond RComplete
              end
          end
      end
  end.

(** The key a task waits for: in the target state, still to be processed. *)
Definition task_due (hc : HandlerConfig) (key : Key) : bool :=
  (String.eqb (k_LifeCycleState key) (hc_toState hc) &&
   String.eqb (k_Status key) KeyProcessingPending)%bool.

(** [TaskHandler.Handle]. *)
Definition Handle {CODEC : JobCodec} (hc : HandlerConfig) (taskData : string) : M () :=
  match unmarshal_id taskData with
  | None => respond RFail
  | Some kid =>
      r ← try (ChainTransaction
        [(λ _, ValidateTenantID (ki_TenantID kid));
         (λ _, EnsureKey kid (Some (task_due hc)));
         (λ _, process_key kid)] ());
      match r with
      | inl _ => mret ()
      | inr err =>
          match errors_AsOrbital err with
          | Some (st, b, c) => _ ← Apply (mkOrbitalOperatorError st b c); mret ()
          | None => respond (RContinueAndWaitFor RetryBackoff)
          end
      end
  end.
End key_operator.

(** ** A concrete scheduler, codec, manager and agents *)

Module OrchestratorSamples.
Import Sample.

Definition read_id (s : string) : option KeyIdentifier :=
  match split "/"%char s with [a; b] => Some (mkKeyIdentifier a b) | _ => None end.
Definition write_id (i : KeyIdentifier) : string := ki_ID i +:+ "/" +:+ ki_TenantID i.
Definition write_layer (l : list KeyIdentifier) : string := String.concat "," (write_id <$> l).
Definition read_layer (s : string) : option (list KeyIdentifier) := mapM read_id (split ","%char s).

(** A key as nested pairs. *)
Definition flatten (k : Key) :=
  (k_ID k, k_Name k, k_TenantID k, k_Kind k, k_ParentID k, k_ManagedBy k, k_Labels k,
   k_LifeCycleState k, (ps_Status (k_ProcessingState k), ps_JobID (k_ProcessingState k)),
   k_CreatedAt k, k_UpdatedAt k).
Definition unflatten (x : string * string * string * string * option string * string * Labels *
    string * (string * string) * Z * Z) : Key :=
  let '(id, name, tenant, kind, parent, by_, labels, state, (status, job), c, u) := x in
  mkKey id name tenant kind parent by_ labels state (mkKeyProcessingState status job) c u.

Lemma unflatten_flatten k : unflatten (flatten k) = k.
Proof. by destruct k as [? ? ? ? ? ? ? ? [] ? ?]. Qed.

Definition read_key (s : string) : option Key :=
  unflatten <$> (StoreSamples.undigits s ≫= decode).
Definition write_key (k : Key) : string := StoreSamples.digits (encode (flatten k)).

Lemma read_write_key k : read_key (write_key k) = Some k.
Proof.
  unfold read_key, write_key. rewrite StoreSamples.undigits_digits. cbn [mbind option_bind].
  rewrite decode_encode. cbn [fmap option_fmap option_map]. by rewrite unflatten_flatten.
Qed.

(** What does not read back is not written. *)
#[export, refine] Instance codec : JobCodec := {|
  unmarshal_id := read_id;
  marshal_id := λ i, if decide (read_id (write_id i) = Some i) then Some (write_id i) else None;
  unmarshal_layer := read_layer;
  marshal_layer := λ l, if decide (read_layer (write_layer l) = Some l) then Some (write_layer l) else None;
  unmarshal_key := read_key;
  marshal_key := λ k, Some (write_key k);
|}.
Proof.
  1-2: intros x s; case_decide; [|done]; intros [= <-]; done.
  intros k s [= <-]. apply read_write_key.
Defined.

#[export, refine] Instance scheduler : JobGroupPreparer := {| PrepareJobGroup := λ g, mret g |}.
Proof. done. Defined.

#[export, refine] Instance manager : KeyManager := {| GenerateAndSealSecret := λ _ _ _, mret () |}.
Proof. done. Defined.

#[export, refine] Instance agents : RemoteAgents := {|
  RemoteUpsertTenant := λ _ _, mret ();
  RemoteUpsertKey := λ _ _, mret ();
  RemoteUpsertKeyVersion := λ _ _, mret ();
|}.
Proof. all: done. Defined.

Definition root : RootConfig :=
  mkRootConfig "root" RootRole None SegmentValidation.Deployment.rootSeg ∅ None
    SegmentValidation.Deployment.rootBindings SegmentValidation.Deployment.h
    SegmentValidation.Deployment.tp [] None.
Definition config : KeyOperatorConfig := mkKeyOperatorConfig true (Some root) (Some {["agent"]}).
End OrchestratorSamples.
