(* ===== verification/KeyAction.v ===== *)
(** * Key actions, job resolution and routing

    internal/orchestrator: keyaction.go (the transition of a key or a key tree
    and the job group that follows it), taskresolver.go, announce_state.go,
    announce_task.go, announce_taskresolver.go, builder.go and the routing of
    orchestrator.go. *)

From S2P Require Import Prelude GoStrings GoRuntime Model World Lifecycle Providers Hierarchy.
From S2P Require Import Config Sql KeyStore KeyVersionStore StoreInvariant StoreTheorems Validator.
From S2P Require Import KeyOperator Orchestrator.

Local Open Scope string_scope.

Definition ErrNoKeysFound : string := "orchestrator.ErrNoKeysFound".
Definition ErrNoEligibleKeys : string := "orchestrator.ErrNoEligibleKeys".

(** ** Applying an action *)

Record ApplyKeyActionRequest := mkApplyKeyActionRequest {
  aa_TenantID : string;
  aa_KeyID : string;
  aa_KeyFilters : list KeyFilter;
  aa_Cascading : bool;
  aa_BottomUp : bool;
  aa_HandlerConfig : HandlerConfig;
}.

Section key_action.
Context {ENV : Env} {PREP : JobGroupPreparer} {CODEC : JobCodec}.

(** [mapKeyNotFoundErr]. *)
Definition mapKeyNotFoundErr (err : error) : error :=
  if errors_Is err ErrKeyNotFound then ESentinel ErrNoKeysFound else err.

(** [toStoreFilters]. *)
Definition toStoreFilters (fs : list KeyFilter) : list KeyFilter :=
  (λ f, mkKeyFilter (kf_LifeCycleState f) (kf_Status f)) <$> fs.

(** The filter loop of [fetchKeytree] for a single key. *)
Definition single_matches (fs : list KeyFilter) (key : Key) : bool :=
  existsb (λ f, String.eqb (kf_LifeCycleState f) (k_LifeCycleState key) &&
                (bool_decide (kf_Status f = []) || IsOneOf (k_Status key) (kf_Status f)))%bool fs.

(** [fetchKeytree]. *)
Definition fetchKeytree (action : ApplyKeyActionRequest) : M KeyTree :=
  if aa_Cascading action then
    r ← try (GetDescendantKeys (mkGetDescendantKeysQuery (aa_KeyID action) (aa_TenantID action)
               (toStoreFilters (aa_KeyFilters action))));
    match r with
    | inl kt => mret kt
    | inr err => throw (mapKeyNotFoundErr err)
    end
  else
    r ← try (GetKeyByID (aa_KeyID action) (aa_TenantID action));
    match r with
    | inr err => throw (mapKeyNotFoundErr err)
    | inl key =>
        if single_matches (aa_KeyFilters action) key then mret [[key]]
        else throw (ESentinel ErrNoKeysFound)
    end.

(** Already at the target state with completed processing. *)
Definition settled (toState : KeyLifeCycleState) (key : Key) : bool :=
  (String.eqb (k_LifeCycleState key) toState &&
   String.eqb (k_Status key) KeyProcessingCompleted)%bool.

(** The inner loop of [ApplyKeyAction]: one key. *)
Definition transition_key (toState : KeyLifeCycleState) (ids : list KeyIdentifier) (key : Key) :
    M (list KeyIdentifier) :=
  if settled toState key then mret ids
  else
    r ← try (UpdateKeyState (k_TenantID key) (k_ID key)
               (mkTransition [k_LifeCycleState key] toState [k_Status key] KeyProcessingPending));
    match r with
    | inr err => throw (wrap1 err)
    | inl _ => mret (ids ++ [mkKeyIdentifier (k_ID key) (k_TenantID key)])%list
    end.

(** The outer loop: one layer. *)
Definition transition_layer (hc : HandlerConfig) (jobs : list Job) (layer : list Key) : M (list Job) :=
  ids ← foldM (transition_key (hc_toState hc)) [] layer;
  match ids with
  | [] => mret jobs
  | _ =>
      match marshal_layer ids with
      | None => throw (wrap2 ErrInternal (EForeign "json"))
      | Some data => mret (jobs ++ [mkJob (hc_handlerType hc) data ""])%list
      end
  end.

Definition action_layers (action : ApplyKeyActionRequest) (kt : KeyTree) : list (list Key) :=
  if aa_BottomUp action then IterKeysByLayerDsc kt else IterKeysByLayerAsc kt.

(** [ApplyKeyAction]. *)
Definition ApplyKeyAction (action : ApplyKeyActionRequest) : M JobGroup :=
  kt ← fetchKeytree action;
  jobs ← foldM (transition_layer (aa_HandlerConfig action)) [] (action_layers action kt);
  match jobs with
  | [] => throw (wrap1 (ESentinel ErrNoEligibleKeys))
  | _ => PrepareJobGroup (mkJobGroup "" (hc_handlerType (aa_HandlerConfig action)) jobs ∅)
  end.
End key_action.

(** ** From a job to tasks: taskresolver.go *)

Inductive resolver_result := CancelTaskResolver | CompleteTaskResolver (infos : list TaskInfo).

Section resolver.
Context {CODEC : JobCodec}.

(** [TaskResolver.ResolveTasks]. *)
Definition ResolveTasks (hc : HandlerConfig) (job : Job) : resolver_result :=
  match unmarshal_layer (j_Data job) with
  | None => CancelTaskResolver
  | Some [] => CancelTaskResolver
  | Some ids =>
      match mapM marshal_id ids with
      | None => CancelTaskResolver
      | Some datas =>
          CompleteTaskResolver
            ((λ d, mkTaskInfo d (hc_handlerType hc) DefaultLocalTargetName) <$> datas)
      end
  end.
End resolver.

(** ** Announcing a key *)

Definition retryBackoff : Z := 2000000000.

Record announceState := mkAnnounceState { as_state : KeyProcessingStatus; as_errMsg : string }.

(** [announceState.isTerminalState]. *)
Definition isTerminalState (s : announceState) : bool :=
  (negb (String.eqb (as_state s) "") || negb (String.eqb (as_errMsg s) ""))%bool.

Definition failed (msg : string) : announceState := mkAnnounceState KeyProcessingFailed msg.

Inductive confirm_result := CancelJobConfirmer | ContinueJobConfirmer | CompleteJobConfirmer.

Section announce.
Context {ENV : Env} {AGENTS : RemoteAgents} {CODEC : JobCodec}.
Context (registry : Registry) (rootName : string).

(** [AnnounceTaskHandler.validateTenant]. *)
Definition announce_validateTenant (key : Key) (s : announceState) : M announceState :=
  r ← try (ValidateTenant (k_TenantID key));
  match r with
  | inl _ => mret s
  | inr err =>
      if errors_Is err ErrTenantNotFound then mret (failed "tenant not found")
      else throw err
  end.

(** [AnnounceTaskHandler.upsertTenant]. *)
Definition announce_upsertTenant (key : Key) (s : announceState) : M announceState :=
  if isTerminalState s then mret s
  else
    r ← try (GetTenant (k_TenantID key));
    match r with
    | inr err =>
        if errors_Is err ErrTenantNotFound then mret (failed "tenant not found")
        else throw err
    | inl t =>
        if String.eqb (k_ManagedBy key) rootName then mret s
        else if negb (bool_decide (k_ManagedBy key ∈ registry))
        then mret (failed "no connection registered for target")
        else
          r ← try (RemoteUpsertTenant (k_ManagedBy key)
                     (mkUpsertTenantRequest (t_ID t) (t_Name t) (t_Labels t)));
          match r with
          | inl _ => mret s
          | inr err =>
              if negb (isTerminalUpsertErr err) then throw err
              else mret (failed "upsert rejected by agent")
          end
    end.

(** [AnnounceTaskHandler.upsertKey]. *)
Definition announce_upsertKey (key : Key) (s : announceState) : M announceState :=
  if isTerminalState s then mret s
  else if String.eqb (k_ManagedBy key) rootName
  then mret (mkAnnounceState KeyProcessingCompleted (as_errMsg s))
  else if negb (bool_decide (k_ManagedBy key ∈ registry))
  then mret (failed "no connection registered for target")
  else
    r ← try (RemoteUpsertKey (k_ManagedBy key) (toUpsertRequest key));
    match r with
    | inl _ => mret (mkAnnounceState KeyProcessingCompleted (as_errMsg s))
    | inr err =>
        if negb (isTerminalUpsertErr err) then throw err
        else mret (failed "upsert rejected by agent")
    end.

(** [AnnounceTaskHandler.updateKeyState]. *)
Definition announce_updateKeyState (key : Key) (s : announceState) : M announceState :=
  let s := if String.eqb (as_state s) ""
           then failed "internal error: state not set before updating key state" else s in
  _ ← UpdateKeyState (k_TenantID key) (k_ID key)
        (mkTransition [KeyLifeCyclePreActivation] KeyLifeCyclePreActivation
           [KeyProcessingInProgress] (as_state s));
  mret s.

(** [isTerminalTxErr]. *)
Definition isTerminalTxErr (err : error) : bool :=
  (errors_Is err Lifecycle.ErrInvalidKeyStateTransition ||
   errors_Is err ErrKeyTransitionRejected || errors_Is err ErrKeyNotFound)%bool.

Definition announce_steps (key : Key) : list (announceState → M announceState) :=
  [announce_validateTenant key;
   announce_upsertTenant key;
   (λ s, _ ← ValidateTransition (k_TenantID key) (k_ID key) KeyLifeCyclePreActivation; mret s);
   announce_upsertKey key;
   announce_updateKeyState key].

(** [AnnounceTaskHandler.Handle]. *)
Definition AnnounceHandle (taskData : string) : M () :=
  match unmarshal_key taskData with
  | None => respond RFail
  | Some key =>
      r ← try (ChainTransaction (announce_steps key) (mkAnnounceState "" ""));
      match r with
      | inr err =>
          if negb (isTerminalTxErr err) then respond (RContinueAndWaitFor retryBackoff)
          else respond RFail
      | inl s =>
          if String.eqb (as_state s) KeyProcessingFailed then respond RFail
          else respond RComplete
      end
  end.

(** The transaction of [AnnounceTaskResolver.ConfirmJob]. *)
Definition confirm_key (key : Key) : M () :=
  existing ← GetKeyByID (k_ID key) (k_TenantID key);
  if String.eqb (k_Status existing) KeyProcessingPending then
    r ← try (UpdateKeyStates (mkUpdateKeyStatesQuery (k_ID key) (k_TenantID key)
               (k_LifeCycleState existing) KeyProcessingInProgress
               [k_LifeCycleState existing] [KeyProcessingPending]));
    match r with
    | inl _ => mret ()
    | inr err => if errors_Is err ErrKeyNotFound then mret () else throw err
    end
  else mret ().

(** [AnnounceTaskResolver.ConfirmJob]. *)
Definition ConfirmJob (job : Job) : M confirm_result :=
  match unmarshal_key (j_Data job) with
  | None => mret CancelJobConfirmer
  | Some key =>
      r ← try (Transaction (confirm_key key));
      match r with
      | inl _ => mret CompleteJobConfirmer
      | inr err =>
          if errors_Is err ErrKeyNotFound then mret CancelJobConfirmer
          else mret ContinueJobConfirmer
      end
  end.

(** [AnnounceTaskResolver.ResolveTasks]. *)
Definition AnnounceResolveTasks (job : Job) : resolver_result :=
  CompleteTaskResolver [mkTaskInfo (j_Data job) AnnounceKey_type DefaultLocalTargetName].
End announce.

(** ** Routing: builder.go and orchestrator.go *)

Definition ErrTaskHandlerRequired : string := "orchestrator.ErrTaskHandlerRequired".
Definition ErrTaskHandlerNil : string := "orchestrator.ErrTaskHandlerNil".
Definition ErrTaskTypeEmpty : string := "orchestrator.ErrTaskTypeEmpty".
Definition ErrTaskHandlerDuplicate : string := "orchestrator.ErrTaskHandlerDuplicate".

Section routing.
Context {ENV : Env} {H : Type} (TaskType : H → string).

(** The loop of [buildTaskHandlerMap]; a nil handler is [None]. *)
Fixpoint build_handlers (handlers : list (option H)) (result : gmap string H) :
    gmap string H + error :=
  match handlers with
  | [] => inl result
  | None :: _ => inr (ESentinel ErrTaskHandlerNil)
  | Some handler :: rest =>
      if String.eqb (TaskType handler) "" then inr (ESentinel ErrTaskTypeEmpty)
      else if bool_decide (is_Some (result !! TaskType handler))
      then inr (wrap1 (ESentinel ErrTaskHandlerDuplicate))
      else build_handlers rest (<[TaskType handler := handler]> result)
  end.

(** [buildTaskHandlerMap]. *)
Definition buildTaskHandlerMap (handlers : list (option H)) : gmap string H + error :=
  if bool_decide (handlers = []) then inr (ESentinel ErrTaskHandlerRequired)
  else build_handlers handlers ∅.

(** [buildTaskDispatch]: an unregistered type fails the task. *)
Definition buildTaskDispatch (run : H → string → M ()) (handlers : gmap string H)
    (taskType taskData : string) : M () :=
  match handlers !! taskType with
  | None => respond RFail
  | Some handler => run handler taskData
  end.
End routing.
