(* ===== verification/KeyActionTheorems.v ===== *)
(** * What a key action does

    [ApplyKeyAction] moves exactly the keys it schedules, schedules exactly the
    keys it moves, layer by layer, and each job resolves into exactly one task
    per key of its layer. *)

From S2P Require Import Prelude GoStrings GoRuntime Model World Lifecycle Providers Hierarchy.
From S2P Require Import Config Sql KeyStore KeyVersionStore StoreInvariant StoreTheorems Validator.
From S2P Require Import KeyOperator Orchestrator KeyAction.

Local Open Scope string_scope.

(** ** Fetching the keys *)

Section fetch.
Context {ENV : Env}.

Lemma toStoreFilters_id fs : toStoreFilters fs = fs.
Proof. unfold toStoreFilters. rewrite <-(list_fmap_id fs) at 2. by apply list_fmap_ext; intros ? []. Qed.

(** The filters of an action, for a single key and for a tree. *)
Definition eligible (action : ApplyKeyActionRequest) (k : Key) : bool :=
  if aa_Cascading action then matches_filters (aa_KeyFilters action) k
  else single_matches (aa_KeyFilters action) k.

Lemma fetchKeytree_Ok action w kt w' :
  db_wf (w_db w) → fetchKeytree action w = (Ok kt, w') →
  w_db w' = w_db w ∧
  ∀ layer k, layer ∈ kt → k ∈ layer →
    db_keys (w_db w) !! k_ID k = Some k ∧ eligible action k = true.
Proof.
  intros Hwf. unfold fetchKeytree, eligible.
  assert (∀ k, k ∈ keys_list (w_db w) → db_keys (w_db w) !! k_ID k = Some k) as Hst.
  { intros k [id Hid]%keys_list_elem. by destruct (wf_key_id _ Hwf _ _ Hid) as [-> _]. }
  destruct (aa_Cascading action).
  - rewrite bind_try, toStoreFilters_id. set (q := mkGetDescendantKeysQuery _ _ _).
    pose proof (GetDescendantKeys_spec q w Hwf) as Hs.
    destruct (GetDescendantKeys q w) as [[kt'| | |] w1]; try done. intros [= <- <-].
    destruct Hs as (Hdb & root & Ht & Hm & [Hd _]). split; [done|].
    intros layer k [n Hn]%list_elem_of_lookup Hk.
    assert (nsteps (child (w_db w) (gd_Filters q)) n root k) as Hsteps by (apply Hd; eauto).
    destruct n as [|n].
    + inv Hsteps. split; [|done]. apply Hst. by eapply target_stored.
    + apply nsteps_inv_r in Hsteps as (p & _ & Hin & _ & Hmk). eauto.
  - rewrite bind_try. pose proof (GetKeyByID_spec (aa_KeyID action) (aa_TenantID action) w) as Hs.
    destruct (GetKeyByID _ _ w) as [[key| | |] w1]; try done. destruct Hs as [Hdb Ht].
    destruct (single_matches (aa_KeyFilters action) key) eqn:Em; [|done]. intros [= <- <-].
    split; [done|]. intros layer k ->%list_elem_of_singleton ->%list_elem_of_singleton.
    split; [|done]. apply Hst. by eapply target_stored.
Qed.

(** No key is fetched twice. *)
Lemma fetchKeytree_nodup action w kt w' :
  db_wf (w_db w) → fetchKeytree action w = (Ok kt, w') → NoDup (mjoin kt).
Proof.
  intros Hwf. unfold fetchKeytree. destruct (aa_Cascading action).
  - rewrite bind_try. set (q := mkGetDescendantKeysQuery _ _ _).
    pose proof (GetDescendantKeys_spec q w Hwf) as Hs.
    destruct (GetDescendantKeys q w) as [[kt'| | |] w1]; try done. intros [= <- <-].
    destruct Hs as (_ & root & _ & _ & Hd). by eapply descendants_nodup.
  - rewrite bind_try. destruct (GetKeyByID _ _ w) as [[key| | |] w1]; try done.
    destruct (single_matches (aa_KeyFilters action) key); [|done]. intros [= <- <-].
    apply NoDup_singleton.
Qed.
End fetch.

(** ** Moving them *)

(** The row of a moved key. *)
Definition moved_row (to : KeyLifeCycleState) (now : Z) (k : Key) : Key :=
  set_key_states to (mkKeyProcessingState KeyProcessingPending (ps_JobID (k_ProcessingState k))) now k.

(** A key an action has nothing to do for: it is in the target state, and the
    processing of that state is complete. *)
Definition finished (to : KeyLifeCycleState) (k : Key) : bool :=
  bool_decide (k_LifeCycleState k = to ∧ k_Status k = KeyProcessingCompleted).

Lemma settled_finished to k : settled to k = finished to k.
Proof.
  unfold settled, finished. symmetry.
  destruct (String.eqb_spec (k_LifeCycleState k) to), (String.eqb_spec (k_Status k) KeyProcessingCompleted);
    [apply bool_decide_eq_true|apply bool_decide_eq_false..]; naive_solver.
Qed.

(** [moved to ks d d']: the unfinished keys among [ks] are in the target state
    and pending, and nothing else changed. *)
Definition moved (to : KeyLifeCycleState) (ks : list Key) (d d' : DB) : Prop :=
  d' = set_keys (db_keys d') d ∧
  ∀ id,
    match db_keys d !! id with
    | None => db_keys d' !! id = None
    | Some k =>
        (k ∈ ks ∧ finished to k = false → ∃ now, db_keys d' !! id = Some (moved_row to now k)) ∧
        (¬ (k ∈ ks ∧ finished to k = false) → db_keys d' !! id = Some k)
    end.

Definition identifier (k : Key) : KeyIdentifier := mkKeyIdentifier (k_ID k) (k_TenantID k).

(** The keys of a layer an action moves. *)
Definition unsettled (to : KeyLifeCycleState) (ks : list Key) : list Key :=
  List.filter (λ k, negb (finished to k)) ks.

Section moves.
Context {ENV : Env} {PREP : JobGroupPreparer} {CODEC : JobCodec} (to : KeyLifeCycleState).
Context (d : DB) (Hwf : db_wf d).

Lemma moved_refl : moved to [] d d.
Proof.
  split; [by destruct d|]. intros id. destruct (db_keys d !! id) as [k|]; [|done].
  split; [|done]. intros [Hk _]. by apply elem_of_nil in Hk.
Qed.

Lemma moved_finished ks k d' : finished to k = true → moved to ks d d' → moved to (ks ++ [k]) d d'.
Proof.
  intros Hs [He Hm]. split; [done|]. intros id. specialize (Hm id).
  destruct (db_keys d !! id) as [x|]; [|done]. destruct Hm as [H1 H2]. split.
  - intros [[?| ->%list_elem_of_singleton]%elem_of_app ?]; [by apply H1|congruence].
  - intros Hn. apply H2. intros [? ?]. apply Hn. split; [set_solver|done].
Qed.

(** What is stored for a key of [d] at any point of the loop. *)
Lemma moved_lookup ks d' k :
  moved to ks d d' → db_keys d !! k_ID k = Some k →
  db_keys d' !! k_ID k = Some k ∨ ∃ now, db_keys d' !! k_ID k = Some (moved_row to now k).
Proof.
  intros [_ Hm] Hk. specialize (Hm (k_ID k)). rewrite Hk in Hm. destruct Hm as [H1 H2].
  destruct (decide (k ∈ ks ∧ finished to k = false)); [right|left]; auto.
Qed.

Lemma moved_step ks d' k now row :
  moved to ks d d' → db_keys d !! k_ID k = Some k → db_keys d' !! k_ID k = Some row →
  finished to k = false →
  moved to (ks ++ [k]) d (set_keys (<[k_ID k := moved_row to now row]> (db_keys d')) d').
Proof.
  intros Hm Hk Hrow Hs.
  assert (moved_row to now row = moved_row to now k) as Hr.
  { destruct (moved_lookup _ _ _ Hm Hk) as [E|[now' E]]; rewrite E in Hrow; by injection Hrow as <-. }
  rewrite Hr. destruct Hm as [He Hm]. split; [by rewrite He|]. intros id. specialize (Hm id).
  simpl. destruct (decide (k_ID k = id)) as [<-|Hne].
  - rewrite Hk, lookup_insert_eq. split; [eauto|]. intros Hn. exfalso. apply Hn. split; [set_solver|done].
  - rewrite lookup_insert_ne by done. destruct (db_keys d !! id) as [x|] eqn:Ex; [|done].
    assert (x ≠ k) as Hxk.
    { intros ->. apply Hne. by destruct (wf_key_id _ Hwf _ _ Ex). }
    destruct Hm as [H1 H2]. split.
    + intros [[?|?%list_elem_of_singleton]%elem_of_app ?]; [by apply H1|done].
    + intros Hn. apply H2. intros [? ?]. apply Hn. split; [set_solver|done].
Qed.

(** One key. *)
Lemma transition_key_Ok ks ids k w ids' w' :
  moved to ks d (w_db w) → db_keys d !! k_ID k = Some k →
  transition_key to ids k w = (Ok ids', w') →
  moved to (ks ++ [k]) d (w_db w') ∧ ids' = (ids ++ (identifier <$> unsettled to [k]))%list.
Proof.
  intros Hm Hk. unfold transition_key, unsettled. rewrite settled_finished. simpl.
  destruct (finished to k) eqn:Es; simpl.
  { intros [= <- <-]. rewrite app_nil_r. split; [by apply moved_finished|done]. }
  rewrite bind_try. unfold UpdateKeyState. rewrite bind_try.
  set (q := mkUpdateKeyStatesQuery _ _ _ _ _ _). pose proof (UpdateKeyStates_spec q w) as Hu.
  destruct (UpdateKeyStates q w) as [[[]|er| |] w1]; try done.
  - intros [= <- <-]. split; [|done]. destruct Hu as (row & now & Ht & _ & id & Hid & ->).
    destruct (wf_key_id _ Hwf _ _ Hk) as [_ Hu]. simpl in Hid. rewrite Hu in Hid. injection Hid as <-.
    eapply moved_step; [done..| |done].
    unfold target in Ht. simpl in Ht. rewrite Hu in Ht. simpl in Ht.
    destruct (uuid_column (k_TenantID k)); [|done]. simpl in Ht. by apply find_key_Some in Ht as [? _].
  - destruct (errors_Is er ErrKeyNotFound); done.
Qed.

(** One layer. *)
Lemma transition_keys_Ok layer : ∀ ks ids w ids' w',
  moved to ks d (w_db w) → (∀ k, k ∈ layer → db_keys d !! k_ID k = Some k) →
  foldM (transition_key to) ids layer w = (Ok ids', w') →
  moved to (ks ++ layer) d (w_db w') ∧ ids' = (ids ++ (identifier <$> unsettled to layer))%list.
Proof.
  induction layer as [|k layer IH]; intros ks ids w ids' w' Hm Hst; cbn [foldM].
  - intros [= <- <-]. by rewrite !app_nil_r.
  - intros (ids1 & w1 & H1 & H2)%bind_inv_Ok.
    apply (transition_key_Ok ks) in H1 as [Hm1 ->]; [|done|apply Hst; left].
    apply (IH (ks ++ [k])%list) in H2 as [Hm2 ->]; [|done|intros; apply Hst; by right].
    rewrite <-app_assoc in Hm2. split; [done|]. rewrite <-app_assoc. f_equal.
    unfold unsettled. simpl. by destruct (negb (finished to k)).
Qed.

(** Without faults a key that was not moved before is moved. *)
Lemma transition_key_succeeds {NF : NoFaults} ks ids k w :
  moved to ks d (w_db w) → keys ∈ db_tables d → db_keys d !! k_ID k = Some k → k ∉ ks →
  ∃ ids' w', transition_key to ids k w = (Ok ids', w').
Proof.
  intros [He Hm] Htab Hk Hn. unfold transition_key. destruct (settled to k); [by eexists _, _|].
  destruct (wf_key_id _ Hwf _ _ Hk) as [_ Hid]. pose proof (wf_key_tenant _ _ _ Hwf Hk) as Ht.
  rewrite bind_try. unfold UpdateKeyState. rewrite bind_try.
  unfold UpdateKeyStates. rewrite bind_clock_Now, bind_arg_uuid_eq. cbn [uk_ID uk_TenantID]. rewrite Hid.
  rewrite bind_arg_uuid_eq, Ht.
  rewrite (bind_Ok _ _ _ _ _ (statement_NoFaults keys (tick w) ltac:(simpl; rewrite He; exact Htab))).
  rewrite bind_update_key. cbn [w_db tick]. specialize (Hm (k_ID k)). rewrite Hk in Hm.
  assert (find_key (w_db w) (k_ID k) (k_TenantID k) = Some k) as ->.
  { apply find_key_Some. split; [apply Hm; by intros [? _]|done]. }
  assert (states_match (mkUpdateKeyStatesQuery (k_ID k) (k_TenantID k) to KeyProcessingPending
    [k_LifeCycleState k] [k_Status k]) k = true) as Hs.
  { apply states_match_iff. split; right; left. }
  cbn [tr_ToLifeCycle tr_ToProcessing tr_FromLifeCycle tr_FromProcessing]. rewrite Hs. by eexists _, _.
Qed.

Lemma transition_keys_succeed {NF : NoFaults} layer : ∀ ks ids w,
  moved to ks d (w_db w) → keys ∈ db_tables d → (∀ k, k ∈ layer → db_keys d !! k_ID k = Some k) →
  NoDup (ks ++ layer) → ∃ ids' w', foldM (transition_key to) ids layer w = (Ok ids', w').
Proof.
  induction layer as [|k layer IH]; intros ks ids w Hm Htab Hst Hnd; cbn [foldM]; [by eexists _, _|].
  pose proof Hnd as (_ & Hdis & _)%NoDup_app.
  destruct (transition_key_succeeds ks ids k w) as (ids1 & w1 & H1); [done..|apply Hst; left| |].
  { intros Hk. apply (Hdis k Hk). left. }
  destruct (transition_key_Ok ks ids k w ids1 w1) as [Hm1 _]; [done|apply Hst; left|done|].
  destruct (IH (ks ++ [k])%list ids1 w1) as (ids2 & w2 & H2); [done..| |by rewrite <-app_assoc|].
  { intros x Hx. apply Hst. by right. }
  exists ids2, w2. by rewrite (bind_Ok _ _ _ _ _ H1).
Qed.
End moves.

(** ** The whole action *)

Section action.
Context {ENV : Env} {PREP : JobGroupPreparer} {CODEC : JobCodec}.

(** The identifiers each job of the group carries, in order. *)
Definition planned (to : KeyLifeCycleState) (layers : list (list Key)) : list (list KeyIdentifier) :=
  List.filter (λ ids, negb (bool_decide (ids = []))) ((λ l, identifier <$> unsettled to l) <$> layers).

Definition job_ids (j : Job) : option (list KeyIdentifier) := unmarshal_layer (j_Data j).

Lemma transition_layers_Ok hc d layers : ∀ ks jobs w jobs' w',
  db_wf d → moved (hc_toState hc) ks d (w_db w) →
  (∀ layer k, layer ∈ layers → k ∈ layer → db_keys d !! k_ID k = Some k) →
  foldM (transition_layer hc) jobs layers w = (Ok jobs', w') →
  moved (hc_toState hc) (ks ++ mjoin layers) d (w_db w') ∧
  ∃ new, jobs' = (jobs ++ new)%list ∧ job_ids <$> new = Some <$> planned (hc_toState hc) layers ∧
    ∀ j, j ∈ new → j_Type j = hc_handlerType hc.
Proof.
  induction layers as [|layer layers IH]; intros ks jobs w jobs' w' Hwf Hm Hst; cbn [foldM].
  - intros [= <- <-]. cbn [mjoin list_join]. rewrite app_nil_r. split; [done|].
    exists []. rewrite app_nil_r. split_and!; [done..|set_solver].
  - intros (jobs1 & w1 & H1 & H2)%bind_inv_Ok. unfold transition_layer in H1.
    apply bind_inv_Ok in H1 as (ids & w2 & Hids & H1).
    apply (transition_keys_Ok _ d Hwf layer ks) in Hids as [Hm2 ->]; [|done|].
    2:{ intros k Hk. eapply Hst; [left|done]. }
    assert (w1 = w2 ∧ ∃ new, jobs1 = (jobs ++ new)%list ∧
      job_ids <$> new = Some <$> planned (hc_toState hc) [layer] ∧
      ∀ j, j ∈ new → j_Type j = hc_handlerType hc) as [-> (new1 & -> & Hn1 & Ht1)].
    { unfold planned. cbn [app fmap list_fmap List.filter] in *.
      destruct (identifier <$> unsettled (hc_toState hc) layer) as [|i l] eqn:Ei.
      - injection H1 as <- <-. split; [done|]. exists []. rewrite app_nil_r, bool_decide_true by done.
        split_and!; [done..|set_solver].
      - destruct (marshal_layer (i :: l)) as [data|] eqn:Ed; [|done]. injection H1 as <- <-.
        split; [done|]. eexists. split; [done|]. rewrite bool_decide_false by done.
        split; [cbn; unfold job_ids; simpl; by rewrite (layer_roundtrip _ _ Ed)|].
        by intros j ->%list_elem_of_singleton. }
    apply (IH (ks ++ layer)%list) in H2 as [Hm3 (new2 & -> & Hn2 & Ht2)]; [|done..|].
    2:{ intros l k Hl. apply Hst. by right. }
    cbn [mjoin list_join]. rewrite app_assoc. split; [done|].
    exists (new1 ++ new2)%list. rewrite <-app_assoc. split_and!; [done| |].
    + rewrite fmap_app, Hn1, Hn2, <-fmap_app. f_equal. unfold planned. cbn [fmap list_fmap List.filter].
      by destruct (negb _).
    + set_solver.
Qed.

Lemma ApplyKeyAction_Ok action w g w' :
  db_wf (w_db w) → ApplyKeyAction action w = (Ok g, w') →
  ∃ kt w1 jobs w2,
    fetchKeytree action w = (Ok kt, w1) ∧
    moved (hc_toState (aa_HandlerConfig action)) (mjoin (action_layers action kt)) (w_db w) (w_db w') ∧
    PrepareJobGroup (mkJobGroup "" (hc_handlerType (aa_HandlerConfig action)) jobs ∅) w2 = (Ok g, w') ∧
    jobs ≠ [] ∧
    job_ids <$> jobs =
      Some <$> planned (hc_toState (aa_HandlerConfig action)) (action_layers action kt) ∧
    ∀ j, j ∈ jobs → j_Type j = hc_handlerType (aa_HandlerConfig action).
Proof.
  intros Hwf. unfold ApplyKeyAction. intros (kt & w1 & Hf & H)%bind_inv_Ok.
  destruct (fetchKeytree_Ok _ _ _ _ Hwf Hf) as [Hdb Hk].
  apply bind_inv_Ok in H as (jobs & w2 & Hj & H).
  apply (transition_layers_Ok _ (w_db w) _ []) in Hj as [Hm (new & -> & Hn & Ht)]; [|done| |].
  - simpl in H, Hm. destruct new as [|j new]; [done|].
    pose proof (PrepareJobGroup_outbound (mkJobGroup "" (hc_handlerType (aa_HandlerConfig action)) (j :: new) ∅) w2)
      as [Hp _]. rewrite H in Hp. simpl in Hp.
    exists kt, w1, (j :: new), w2. rewrite Hp. by split_and!.
  - rewrite Hdb. by apply moved_refl.
  - intros layer k Hl Hkl. eapply Hk; [|done]. unfold action_layers in Hl.
    destruct (aa_BottomUp action); [|done]. unfold IterKeysByLayerDsc in Hl.
    by apply list_elem_of_In, in_rev, list_elem_of_In.
Qed.

(** C1: when [ApplyKeyAction] succeeds, the job group it schedules has one job
    per layer of the fetched tree that has work to do, in the requested order
    (root first, or leaves first when bottom-up), naming exactly the keys of the
    layer that are not in the target state with completed processing; exactly
    those keys are now in the target state and pending, and no other row of the
    database changed. *)
Theorem apply_key_action_plan action w g w' :
  db_wf (w_db w) → ApplyKeyAction action w = (Ok g, w') →
  ∃ kt w1 jobs w2,
    fetchKeytree action w = (Ok kt, w1) ∧
    moved (hc_toState (aa_HandlerConfig action)) (mjoin (action_layers action kt)) (w_db w) (w_db w') ∧
    PrepareJobGroup (mkJobGroup "" (hc_handlerType (aa_HandlerConfig action)) jobs ∅) w2 = (Ok g, w') ∧
    jobs ≠ [] ∧
    job_ids <$> jobs =
      Some <$> planned (hc_toState (aa_HandlerConfig action)) (action_layers action kt) ∧
    ∀ j, j ∈ jobs → j_Type j = hc_handlerType (aa_HandlerConfig action).
Proof. apply ApplyKeyAction_Ok. Qed.

(** The layers that [json.Marshal] encodes. *)
Definition encodable (ids : list KeyIdentifier) : bool := bool_decide (is_Some (marshal_layer ids)).

(** Without faults the layers go through up to the first that has no encoding. *)
Lemma transition_layers_run {NF : NoFaults} hc d layers : ∀ ks jobs w,
  db_wf d → keys ∈ db_tables d → moved (hc_toState hc) ks d (w_db w) →
  (∀ layer k, layer ∈ layers → k ∈ layer → db_keys d !! k_ID k = Some k) →
  NoDup (ks ++ mjoin layers) →
  if forallb encodable (planned (hc_toState hc) layers)
  then ∃ jobs' w', foldM (transition_layer hc) jobs layers w = (Ok jobs', w')
  else ∃ w', foldM (transition_layer hc) jobs layers w = (Err (wrap2 ErrInternal (EForeign "json")), w').
Proof.
  induction layers as [|layer layers IH]; intros ks jobs w Hwf Htab Hm Hst Hnd; cbn [foldM];
    [by eexists _, _|].
  cbn [mjoin list_join] in Hnd. rewrite app_assoc in Hnd.
  assert (∀ k, k ∈ layer → db_keys d !! k_ID k = Some k) as Hl by (intros k; apply Hst; left).
  destruct (transition_keys_succeed (hc_toState hc) d Hwf layer ks [] w) as (ids & w1 & H1); [done..| |].
  { by apply NoDup_app in Hnd as [? _]. }
  destruct (transition_keys_Ok (hc_toState hc) d Hwf layer ks [] w ids w1) as [Hm1 Hids]; [done..|].
  assert (∀ jobs1, if forallb encodable (planned (hc_toState hc) layers)
    then ∃ jobs' w', foldM (transition_layer hc) jobs1 layers w1 = (Ok jobs', w')
    else ∃ w', foldM (transition_layer hc) jobs1 layers w1 = (Err (wrap2 ErrInternal (EForeign "json")), w')) as Hrest.
  { intros jobs1. apply (IH (ks ++ layer)%list); [done..| |done]. intros l k Hin. apply Hst. by right. }
  assert (transition_layer hc jobs layer w = (match ids with [] => mret jobs | _ =>
    match marshal_layer ids with
    | None => throw (wrap2 ErrInternal (EForeign "json"))
    | Some data => mret (jobs ++ [mkJob (hc_handlerType hc) data ""])%list
    end end) w1) as Hstep by (unfold transition_layer; by rewrite (bind_Ok _ _ _ _ _ H1)).
  assert (planned (hc_toState hc) (layer :: layers) =
    if bool_decide (ids = []) then planned (hc_toState hc) layers else ids :: planned (hc_toState hc) layers) as ->.
  { unfold planned. cbn [fmap list_fmap List.filter]. rewrite Hids. simpl. by destruct (bool_decide _). }
  destruct ids as [|i ids].
  { rewrite bool_decide_true by done. rewrite (bind_Ok _ _ _ _ _ Hstep). apply Hrest. }
  rewrite bool_decide_false by done. cbn [forallb]. unfold encodable at 1.
  destruct (marshal_layer (i :: ids)) as [data|].
  - rewrite (bind_Ok _ _ _ _ _ Hstep). apply Hrest.
  - rewrite (bind_Err _ _ _ _ _ Hstep). by eexists.
Qed.

Lemma action_layers_elem action kt layer : layer ∈ action_layers action kt → layer ∈ kt.
Proof.
  unfold action_layers. destruct (aa_BottomUp action); [|done].
  intros H. by apply list_elem_of_In, in_rev, list_elem_of_In.
Qed.

Lemma action_layers_keys action kt : mjoin (action_layers action kt) ≡ₚ mjoin kt.
Proof.
  unfold action_layers. destruct (aa_BottomUp action); [|done].
  unfold IterKeysByLayerDsc. by rewrite <-(Permutation_rev kt).
Qed.

(** Nothing is planned exactly when every key is finished. *)
Lemma planned_nil to layers :
  planned to layers = [] ↔ ∀ k, k ∈ mjoin layers → finished to k = true.
Proof.
  unfold planned. induction layers as [|layer layers IH]; cbn [fmap list_fmap List.filter mjoin list_join].
  { split; [|done]. intros _ k Hk. by apply elem_of_nil in Hk. }
  assert (identifier <$> unsettled to layer = [] ↔ ∀ k, k ∈ layer → finished to k = true) as Hl.
  { unfold unsettled. induction layer as [|k layer IHl]; simpl.
    - split; [|done]. intros _ k Hk. by apply elem_of_nil in Hk.
    - setoid_rewrite elem_of_cons. destruct (finished to k) eqn:E; simpl.
      + rewrite IHl. split; [intros H x [->|Hx]; auto|auto].
      + split; [done|]. intros H. rewrite (H k) in E; [done|by left]. }
  setoid_rewrite elem_of_app. case_bool_decide as Hd; simpl; [rewrite IH; naive_solver|].
  split; [done|]. intros H. exfalso. apply Hd, Hl. auto.
Qed.

Lemma moved_nothing to ks d d' : (∀ k, k ∈ ks → finished to k = true) → moved to ks d d' → d' = d.
Proof.
  intros Hf [He Hm]. assert (db_keys d' = db_keys d) as Hk; [|by rewrite He, Hk; destruct d].
  apply map_eq. intros id. specialize (Hm id). destruct (db_keys d !! id) as [k|]; [|done].
  apply Hm. intros [Hk Hn]. by rewrite (Hf k Hk) in Hn.
Qed.

(** An action ends, unless the parent references of the table are cyclic. *)
Lemma fetchKeytree_stops d action : db_wf d → stops d (fetchKeytree action).
Proof.
  intros Hwf w <-. unfold fetchKeytree. destruct (aa_Cascading action); rewrite bind_try.
  - set (q := mkGetDescendantKeysQuery _ _ _). pose proof (GetDescendantKeys_spec q w Hwf) as Hs.
    destruct (GetDescendantKeys q w) as [[]]; try done. destruct Hs as (root & _ & Hn). simpl.
    by eapply endless_descent_cyclic.
  - pose proof (GetKeyByID_spec (aa_KeyID action) (aa_TenantID action) w) as Hs.
    destruct (GetKeyByID _ _ w) as [[key| | |] w']; try done. by destruct (single_matches _ key).
Qed.

Lemma transition_layer_returns hc jobs layer : throws (λ _, True) (transition_layer hc jobs layer).
Proof.
  unfold transition_layer, transition_key, UpdateKeyState. solve_throws.
  intros w. match goal with |- context [UpdateKeyStates ?q w] => pose proof (UpdateKeyStates_spec q w) end.
  by destruct (UpdateKeyStates _ w) as [[] ?].
Qed.

Lemma ApplyKeyAction_stops d action : db_wf d → stops d (ApplyKeyAction action).
Proof.
  intros Hwf. apply stops_bind; [by apply fetchKeytree_stops|unfold fetchKeytree; by solve_respects|].
  intros kt. eapply (stops_throws _ (λ _, True)). apply throws_bind.
  - apply throws_foldM. intros jobs layer. apply transition_layer_returns.
  - intros [|j jobs]; [by apply throws_throw|]. intros w.
    match goal with |- context [PrepareJobGroup ?g w] =>
      destruct (PrepareJobGroup_outbound g w) as (_ & _ & H) end.
    by destruct (PrepareJobGroup _ w) as [[] ?].
Qed.

(** C4: on a fetched tree, and when no statement fails, the outcome of
    [ApplyKeyAction] is decided by the tree, the encoder and the scheduler alone.
    If every key is in the target state with completed processing, the action is
    refused with [ErrNoEligibleKeys] and nothing changes.  Otherwise, if a planned
    layer has no encoding, it fails with [ErrInternal].  Otherwise every planned
    key is moved, the scheduler is asked for the planned group, one job per layer
    with work, and what it answers, acceptance or error, is what the call
    returns.  No compare-and-swap of it can fail, because the tree holds every
    key once. *)
Theorem apply_key_action_outcome {NF : NoFaults} action w kt w1 :
  db_wf (w_db w) → keys ∈ db_tables (w_db w) → fetchKeytree action w = (Ok kt, w1) →
  let hc := aa_HandlerConfig action in
  let plan := planned (hc_toState hc) (action_layers action kt) in
  if existsb (λ k, negb (finished (hc_toState hc) k)) (mjoin kt)
  then
    if forallb encodable plan
    then ∃ jobs w2, jobs ≠ [] ∧ job_ids <$> jobs = Some <$> plan ∧ (∀ j, j ∈ jobs → j_Type j = hc_handlerType hc) ∧
           moved (hc_toState hc) (mjoin (action_layers action kt)) (w_db w) (w_db w2) ∧
           ApplyKeyAction action w = PrepareJobGroup (mkJobGroup "" (hc_handlerType hc) jobs ∅) w2
    else ∃ w', ApplyKeyAction action w = (Err (wrap2 ErrInternal (EForeign "json")), w')
  else ∃ w', ApplyKeyAction action w = (Err (wrap1 (ESentinel ErrNoEligibleKeys)), w') ∧ w_db w' = w_db w.
Proof.
  intros Hwf Htab Hf. destruct (fetchKeytree_Ok _ _ _ _ Hwf Hf) as [Hdb Hk].
  pose proof (fetchKeytree_nodup _ _ _ _ Hwf Hf) as Hnd.
  rewrite <-(action_layers_keys action) in Hnd. cbv zeta.
  unfold ApplyKeyAction. rewrite (bind_Ok _ _ _ _ _ Hf).
  set (hc := aa_HandlerConfig action) in *. set (layers := action_layers action kt) in *.
  assert (∀ layer k, layer ∈ layers → k ∈ layer → db_keys (w_db w) !! k_ID k = Some k) as Hst.
  { intros layer k Hl%action_layers_elem Hin. by apply (Hk layer k). }
  assert (∀ k, k ∈ mjoin layers ↔ k ∈ mjoin kt) as Hkeys.
  { intros k. unfold layers. by rewrite action_layers_keys. }
  assert (moved (hc_toState hc) [] (w_db w) (w_db w1)) as Hm by (rewrite Hdb; by apply moved_refl).
  pose proof (transition_layers_run hc (w_db w) layers [] [] w1 Hwf Htab Hm Hst Hnd) as Hrun.
  destruct (existsb _ (mjoin kt)) eqn:Ex.
  - apply existsb_exists in Ex as (k & Hkin%list_elem_of_In & Hkf%negb_true_iff).
    destruct (forallb encodable _); [|by destruct Hrun as [w' ->%(bind_Err _ _ _ _ _)]; eexists].
    destruct Hrun as (jobs & w2 & Hj).
    destruct (transition_layers_Ok hc (w_db w) layers [] [] w1 jobs w2) as [Hm2 (new & -> & Hn & Ht)]; [done..|].
    exists new, w2. rewrite (bind_Ok _ _ _ _ _ Hj). cbn [app] in *. destruct new as [|j new]; [|by split_and!].
    exfalso. symmetry in Hn. apply fmap_nil_inv in Hn. rewrite planned_nil in Hn.
    rewrite (Hn k) in Hkf; [done|]. by apply Hkeys.
  - assert (∀ k, k ∈ mjoin layers → finished (hc_toState hc) k = true) as Hall.
    { intros k Hin%Hkeys. destruct (finished (hc_toState hc) k) eqn:E; [done|]. exfalso.
      eapply existsb_false in Ex; [|done]. by rewrite E in Ex. }
    rewrite (proj2 (planned_nil _ _) Hall) in Hrun. destruct Hrun as (jobs & w2 & Hj).
    destruct (transition_layers_Ok hc (w_db w) layers [] [] w1 jobs w2) as [Hm2 (new & -> & Hn & _)]; [done..|].
    rewrite (proj2 (planned_nil _ _) Hall) in Hn. apply fmap_nil_inv in Hn as ->.
    exists w2. rewrite (bind_Ok _ _ _ _ _ Hj). split; [done|]. by apply moved_nothing in Hm2.
Qed.
End action.

(** ** From a job to its tasks *)

Section tasks_of_job.
Context {CODEC : JobCodec}.

Lemma marshalled_ids_read_back ids datas :
  mapM marshal_id ids = Some datas → unmarshal_id <$> datas = Some <$> ids.
Proof.
  intros H%mapM_Some. induction H as [|i d ids datas Hi _ IH]; [done|].
  simpl. f_equal; [by apply id_roundtrip|done].
Qed.

(** A job resolves into one task per key it names, in order, each of the
    handler's type, addressed to the embedded target and carrying data the
    handler reads back as that key; it is cancelled exactly when its data is
    unreadable, names no key, or names a key that has no encoding. *)
Theorem resolve_tasks_one_per_key hc job :
  match ResolveTasks hc job with
  | CompleteTaskResolver infos =>
      ∃ ids, unmarshal_layer (j_Data job) = Some ids ∧ ids ≠ [] ∧
        (unmarshal_id ∘ ti_Data) <$> infos = Some <$> ids ∧
        ∀ i, i ∈ infos → ti_Type i = hc_handlerType hc ∧ ti_Target i = DefaultLocalTargetName
  | CancelTaskResolver =>
      ∀ ids, unmarshal_layer (j_Data job) = Some ids → ids = [] ∨ ∃ i, i ∈ ids ∧ marshal_id i = None
  end.
Proof.
  unfold ResolveTasks. destruct (unmarshal_layer (j_Data job)) as [[|i ids]|] eqn:E; [naive_solver| |done].
  destruct (mapM marshal_id (i :: ids)) as [datas|] eqn:Em.
  - exists (i :: ids). split_and!; [done..| |].
    + rewrite <-list_fmap_compose. exact (marshalled_ids_read_back _ _ Em).
    + intros x (d & -> & _)%list_elem_of_fmap. done.
  - intros ids' [= <-]. right. apply mapM_None_1, Exists_exists in Em as (x & Hx & Hn). eauto.
Qed.
End tasks_of_job.

Module KeyActionSamples.
Import Sample StoreSamples OrchestratorSamples.

(** Activate the tree of the sample, from its root. *)
Definition activate : ApplyKeyActionRequest :=
  mkApplyKeyActionRequest uuid0 uuid1 [mkKeyFilter KeyLifeCyclePreActivation []] true false
    ActivateHandlerConfig.

Lemma apply_key_action_plan_witness :
  ∃ g w', ApplyKeyAction activate w1 = (Ok g, w') ∧
    (j_Data <$> jg_Jobs g) = [uuid1 +:+ "/" +:+ uuid0; uuid2 +:+ "/" +:+ uuid0] ∧
    ∃ kt w2, fetchKeytree activate w1 = (Ok kt, w2) ∧
      moved KeyLifeCycleActive (mjoin (action_layers activate kt)) (w_db w1) (w_db w').
Proof.
  assert (fmap (M:=list) j_Data <$> match (ApplyKeyAction activate w1).1 with Ok g => Some (jg_Jobs g) | _ => None end
    = Some [uuid1 +:+ "/" +:+ uuid0; uuid2 +:+ "/" +:+ uuid0]) as E by (vm_compute; reflexivity).
  destruct (ApplyKeyAction activate w1) as [r w'] eqn:H. destruct r as [g| | |]; try discriminate E.
  exists g, w'. split; [reflexivity|]. split; [injection E as E; exact E|].
  destruct (apply_key_action_plan activate w1 g w' w1_wf H) as (kt & w2 & jobs & w3 & Hf & Hm & _).
  exists kt, w2. split; [exact Hf|exact Hm].
Defined.

(** The tree it fetches. *)
Definition fetched : KeyTree :=
  match (fetchKeytree activate w1).1 with Ok kt => kt | _ => [] end.

Lemma apply_key_action_outcome_witness :
  ∃ jobs w2, length jobs = 2 ∧ ApplyKeyAction activate w1 = PrepareJobGroup (mkJobGroup "" "activate-key" jobs ∅) w2.
Proof.
  pose proof (apply_key_action_outcome activate w1 fetched (fetchKeytree activate w1).2 w1_wf) as H.
  assert (existsb (λ k, negb (finished KeyLifeCycleActive k)) (mjoin fetched) = true) as E
    by (vm_compute; reflexivity).
  assert (forallb encodable (planned KeyLifeCycleActive (action_layers activate fetched)) = true) as Ep
    by (vm_compute; reflexivity).
  cbv zeta in H. change (hc_toState (aa_HandlerConfig activate)) with KeyLifeCycleActive in H.
  rewrite E, Ep in H. destruct H as (jobs & w2 & _ & Hj & _ & _ & H).
  - apply (bool_decide_unpack _). vm_compute. exact I.
  - assert (is_ok (fetchKeytree activate w1).1 = true) as E' by (vm_compute; reflexivity).
    unfold fetched. destruct (fetchKeytree activate w1) as [[kt| | |] w']; [reflexivity|discriminate E'..].
  - exists jobs, w2. split; [|exact H]. apply (f_equal length) in Hj. rewrite !length_fmap in Hj. rewrite Hj.
    vm_compute. reflexivity.
Defined.

(** The first job of that plan. *)
Definition first_job : Job := mkJob "activate-key" (uuid1 +:+ "/" +:+ uuid0) "".

Lemma resolve_tasks_one_per_key_witness :
  ∃ infos, ResolveTasks ActivateHandlerConfig first_job = CompleteTaskResolver infos ∧
    (unmarshal_id ∘ ti_Data) <$> infos = [Some (mkKeyIdentifier uuid1 uuid0)].
Proof.
  pose proof (resolve_tasks_one_per_key ActivateHandlerConfig first_job) as H.
  assert (match ResolveTasks ActivateHandlerConfig first_job with CompleteTaskResolver _ => true | _ => false end
    = true) as E by (vm_compute; reflexivity).
  destruct (ResolveTasks ActivateHandlerConfig first_job) as [|infos]; [discriminate E|].
  exists infos. split; [reflexivity|]. destruct H as (ids & Hu & _ & Hi & _).
  vm_compute in Hu. injection Hu as <-. exact Hi.
Defined.
End KeyActionSamples.
