(* ===== verification/TaskTheorems.v ===== *)
(** * What a key task does

    The three dispositions of [TaskHandler.Handle] and the state of the database
    each of them leaves behind. *)

From S2P Require Import Prelude GoStrings GoRuntime Model World Lifecycle Providers Hierarchy.
From S2P Require Import Config Sql KeyStore KeyVersionStore StoreInvariant StoreTheorems Validator.
From S2P Require Import KeyOperator Orchestrator.

Local Open Scope string_scope.

(** ** Store operations leave the response alone *)

Notation quiet := (respects (unchanged w_resp)).

Section quiet.
Context {ENV : Env}.

Lemma quiet_external what : quiet (external what).
Proof. by apply respects_external. Qed.
Lemma quiet_clock_Now : quiet clock_Now.
Proof. by apply respects_clock_Now. Qed.
Lemma quiet_statement t : quiet (statement t).
Proof. unfold statement. solve_respects; apply quiet_external. Qed.
Lemma quiet_arg_uuid s : quiet (arg_uuid s).
Proof. unfold arg_uuid. solve_respects. Qed.
Lemma quiet_arg_uuid_null s : quiet (arg_uuid_null s).
Proof. unfold arg_uuid_null. solve_respects; apply quiet_arg_uuid. Qed.
Lemma quiet_arg_int4 z : quiet (arg_int4 z).
Proof. unfold arg_int4. solve_respects. Qed.
Lemma quiet_arg_int4_null z : quiet (arg_int4_null z).
Proof. unfold arg_int4_null. solve_respects; apply quiet_arg_int4. Qed.
Lemma quiet_get_db : quiet get_db.
Proof. unfold get_db. solve_respects. Qed.
Lemma quiet_update_db f : quiet (update_db f).
Proof. done. Qed.
#[local] Hint Resolve quiet_external quiet_clock_Now quiet_statement quiet_arg_uuid
  quiet_arg_uuid_null quiet_arg_int4 quiet_arg_int4_null quiet_get_db quiet_update_db : respects.

Lemma quiet_GetTenant i : quiet (GetTenant i).
Proof. unfold GetTenant. solve_respects. Qed.
Lemma quiet_GetKeyByID i t : quiet (GetKeyByID i t).
Proof. unfold GetKeyByID, scan_row. solve_respects. Qed.
Lemma quiet_update_key i t c f : quiet (update_key i t c f).
Proof. unfold update_key. solve_respects. Qed.
Lemma quiet_UpdateKeyStates q : quiet (UpdateKeyStates q).
Proof. unfold UpdateKeyStates, rows_affected. solve_respects; apply quiet_update_key. Qed.
Lemma quiet_ListKeyVersions q : quiet (ListKeyVersions q).
Proof. unfold ListKeyVersions. solve_respects. Qed.
Lemma quiet_UpdateKeyVersionStates q : quiet (UpdateKeyVersionStates q).
Proof. unfold UpdateKeyVersionStates. solve_respects. Qed.
Lemma quiet_CreateKeyVersion kv : quiet (CreateKeyVersion kv).
Proof. unfold CreateKeyVersion. solve_respects. Qed.
Lemma quiet_NewKeyVersion t k v p pv : quiet (NewKeyVersion t k v p pv).
Proof. by apply respects_NewKeyVersion; [apply _|]. Qed.

(** How a transaction comes out, response included. *)
Lemma Transaction_cases {A} (fn : M A) w r w' :
  Transaction fn w = (r, w') →
  (∃ what, r = Err (wrap1 (EForeign what)) ∧ w_db w' = w_db w ∧ w_resp w' = w_resp w) ∨
  ∃ w1 r2 w2, w_db w1 = w_db w ∧ w_resp w1 = w_resp w ∧ fn w1 = (r2, w2) ∧ w_resp w' = w_resp w2 ∧
    match r2 with
    | Ok a => (r = Ok a ∧ w_db w' = w_db w2) ∨
              (∃ what, r = Err (wrap1 (EForeign what)) ∧ w_db w' = w_db w)
    | Err e => r = Err e ∧ w_db w' = w_db w
    | Panic => r = Panic
    | Diverge => r = Diverge
    end.
Proof.
  unfold Transaction, external. destruct (e_fault (w_tick w)).
  { intros [= <- <-]. left. eauto. }
  intros H. right. exists (tick w). destruct (fn (tick w)) as [r2 w2] eqn:E. exists r2, w2.
  split; [done|]. split; [done|]. split; [done|].
  destruct r2 as [a|e| |]; [destruct (e_fault (w_tick w2))| | |];
    injection H as <- <-; simpl; eauto 10.
Qed.
End quiet.

#[export] Hint Resolve quiet_GetTenant quiet_GetKeyByID quiet_UpdateKeyStates quiet_ListKeyVersions
  quiet_UpdateKeyVersionStates quiet_CreateKeyVersion quiet_NewKeyVersion : respects.

(** ** Version statements *)

Section versions.
Context {ENV : Env}.

Lemma ListKeyVersions_Ok q w l w' :
  ListKeyVersions q w = (Ok l, w') →
  w_db w' = w_db w ∧
  ∀ kv, kv ∈ l → (∃ i, db_kvs (w_db w) !! i = Some kv) ∧
    uuid_column (lv_TenantID q) = Some (kv_TenantID kv) ∧
    (lv_KeyID q = "" ∨ uuid_column (lv_KeyID q) = Some (kv_KeyID kv)).
Proof.
  unfold ListKeyVersions. destruct (mapM _ _) as [cols|]; [|done].
  rewrite bind_arg_uuid_eq. destruct (uuid_column (lv_TenantID q)) as [t|] eqn:Et; [|done].
  intros (key & w1 & Hkey & H)%bind_inv_Ok.
  assert (w1 = w ∧ match key with None => lv_KeyID q = "" | Some c => uuid_column (lv_KeyID q) = Some c end)
    as [-> Hk].
  { destruct (String.eqb_spec (lv_KeyID q) ""); [by injection Hkey as <- <-|].
    apply bind_inv_Ok in Hkey as (c & w2 & [-> ?]%arg_uuid_inv_Ok & [= <- <-]). done. }
  apply bind_inv_Ok in H as (z & w1 & [-> _]%arg_int4_inv_Ok & H).
  apply bind_inv_Ok in H as (u & w1 & [Hdb _]%statement_Ok & H). rewrite bind_get_db, Hdb in H.
  injection H as Hl <-. split; [done|]. intros kv Hkv.
  assert (kv ∈ merge_sort (order_le cols) (filter (λ kv, list_versions_condition q t key kv = true)
            (map_to_list (db_kvs (w_db w))).*2)) as Hin.
  { rewrite <-Hl in Hkv. destruct (0 <? lv_Limit q)%Z; [by apply elem_of_take in Hkv as (j & Hj%list_elem_of_lookup_2 & _)|done]. }
  rewrite merge_sort_Permutation in Hin. apply list_elem_of_filter in Hin as [Hc Hin].
  apply list_elem_of_fmap in Hin as ([i kv'] & -> & Hi%elem_of_map_to_list). simpl in *.
  split; [eauto|]. unfold list_versions_condition in Hc.
  rewrite !andb_true_iff in Hc. destruct Hc as [[[[Ht%String.eqb_eq Hki] _] _] _].
  rewrite Ht. split; [done|]. destruct key; [right|by left]. apply String.eqb_eq in Hki. congruence.
Qed.

Lemma UpdateKeyVersionStates_Ok q w a w' :
  UpdateKeyVersionStates q w = (Ok a, w') →
  ∃ t key kv now,
    uuid_column (uv_TenantID q) = Some t ∧ uuid_column (uv_KeyID q) = Some key ∧
    db_kvs (w_db w) !! (t, key, uv_Version q, uv_Revision q) = Some kv ∧
    version_states_match q kv = true ∧
    w_db w' = set_kvs (<[(t, key, uv_Version q, uv_Revision q) :=
      set_version_states (uv_ToLifeCycleState q) (uv_ToProcessingState q) now kv]> (db_kvs (w_db w)))
      (w_db w).
Proof.
  unfold UpdateKeyVersionStates. destruct (_ || _)%bool; [done|]. rewrite bind_clock_Now.
  rewrite bind_arg_uuid_eq. destruct (uuid_column (uv_TenantID q)) as [t|]; [|done].
  rewrite bind_arg_uuid_eq. destruct (uuid_column (uv_KeyID q)) as [key|]; [|done].
  rewrite !bind_arg_int4_eq. destruct (int4_ok (uv_Version q)); [|done].
  destruct (int4_ok (uv_Revision q)); [|done]. intros (u & w1 & [Hdb _]%statement_Ok & H)%bind_inv_Ok.
  simpl in Hdb. rewrite bind_get_db, Hdb in H.
  destruct (db_kvs (w_db w) !! _) as [kv|] eqn:E; [|done].
  destruct (version_states_match q kv) eqn:Em; [|done]. injection H as <- <-.
  exists t, key, kv. eexists. simpl. rewrite Hdb. split_and!; done.
Qed.

Lemma UpdateKeyVersionStates_int4 q w a w' :
  UpdateKeyVersionStates q w = (Ok a, w') → int4_ok (uv_Version q) = true ∧ int4_ok (uv_Revision q) = true.
Proof.
  unfold UpdateKeyVersionStates. destruct (_ || _)%bool; [done|]. rewrite bind_clock_Now.
  rewrite bind_arg_uuid_eq. destruct (uuid_column _); [|done].
  rewrite bind_arg_uuid_eq. destruct (uuid_column _); [|done].
  rewrite !bind_arg_int4_eq. destruct (int4_ok (uv_Version q)); [|done]. by destruct (int4_ok (uv_Revision q)).
Qed.

Lemma CreateKeyVersion_int4 kv w a w' :
  CreateKeyVersion kv w = (Ok a, w') → int4_ok (kv_Version kv) = true ∧ int4_ok (kv_Revision kv) = true.
Proof.
  unfold CreateKeyVersion. rewrite bind_arg_uuid_eq. destruct (uuid_column _); [|done].
  rewrite bind_arg_uuid_eq. destruct (uuid_column _); [|done].
  rewrite bind_arg_int4_eq. destruct (int4_ok (kv_Version kv)); [|done].
  rewrite bind_arg_int4_eq. by destruct (int4_ok (kv_Revision kv)).
Qed.

Lemma CreateKeyVersion_Ok kv w a w' :
  CreateKeyVersion kv w = (Ok a, w') →
  a = kv ∧ ∃ t key p row,
    uuid_column (kv_TenantID kv) = Some t ∧ uuid_column (kv_KeyID kv) = Some key ∧
    row = mkKeyVersion t key (kv_Version kv) (kv_Revision kv) p (kv_ParentKeyVersion kv)
            (kv_LifeCycleState kv) (kv_ProcessingState kv) (kv_Labels kv)
            (kv_CreatedAt kv) (kv_UpdatedAt kv) ∧
    w_db w' = set_kvs (<[kv_id row := row]> (db_kvs (w_db w))) (w_db w).
Proof.
  unfold CreateKeyVersion. rewrite bind_arg_uuid_eq.
  destruct (uuid_column (kv_TenantID kv)) as [t|]; [|done].
  rewrite bind_arg_uuid_eq. destruct (uuid_column (kv_KeyID kv)) as [key|]; [|done].
  intros (v & w1 & [-> ->]%arg_int4_inv_Ok & H)%bind_inv_Ok.
  apply bind_inv_Ok in H as (r & w1 & [-> ->]%arg_int4_inv_Ok & H).
  apply bind_inv_Ok in H as (p & w1 & [-> _]%arg_uuid_null_inv_Ok & H).
  apply bind_inv_Ok in H as (pv & w1 & [-> ->]%arg_int4_null_inv_Ok & H).
  apply bind_inv_Ok in H as (u & w1 & [Hdb _]%statement_Ok & H). rewrite bind_get_db, Hdb in H.
  cbv zeta in H. destruct (bool_decide _); [done|]. destruct (kv_refs_ok _ _); [|done].
  injection H as <- <-. split; [done|]. eexists t, key, p, _. simpl. split_and!; done.
Qed.
End versions.

(** ** Errors of the stores are not task dispositions *)

Definition plain (e : error) : Prop := errors_AsOrbital e = None.
Notation throws_plain := (throws plain).

Section plain.
Context {ENV : Env}.

Lemma plain_external what : throws_plain (external what).
Proof. intros w. unfold external. by destruct (e_fault _). Qed.
Lemma plain_statement t : throws_plain (statement t).
Proof. unfold statement. solve_throws; apply plain_external. Qed.
Lemma plain_arg_uuid s : throws_plain (arg_uuid s).
Proof. unfold arg_uuid. solve_throws. Qed.
Lemma plain_arg_uuid_null s : throws_plain (arg_uuid_null s).
Proof. unfold arg_uuid_null. solve_throws; apply plain_arg_uuid. Qed.
Lemma plain_arg_int4 z : throws_plain (arg_int4 z).
Proof. unfold arg_int4. solve_throws. Qed.
Lemma plain_arg_int4_null z : throws_plain (arg_int4_null z).
Proof. unfold arg_int4_null. solve_throws; apply plain_arg_int4. Qed.
Lemma plain_clock_Now : throws_plain clock_Now.
Proof. done. Qed.
Lemma plain_get_db : throws_plain get_db.
Proof. apply throws_gets. Qed.
Lemma plain_update_db f : throws_plain (update_db f).
Proof. apply throws_modify. Qed.
#[local] Hint Resolve plain_external plain_statement plain_arg_uuid plain_arg_uuid_null
  plain_arg_int4 plain_arg_int4_null plain_clock_Now plain_get_db plain_update_db : throws.

Lemma plain_GetTenant i : throws_plain (GetTenant i).
Proof. unfold GetTenant. solve_throws. Qed.
Lemma plain_GetKeyByID i t : throws_plain (GetKeyByID i t).
Proof. unfold GetKeyByID, scan_row. solve_throws. Qed.
Lemma plain_UpdateKeyStates q : throws_plain (UpdateKeyStates q).
Proof. unfold UpdateKeyStates, update_key, rows_affected. solve_throws. Qed.
Lemma plain_ListKeyVersions q : throws_plain (ListKeyVersions q).
Proof. unfold ListKeyVersions. solve_throws. Qed.
Lemma plain_UpdateKeyVersionStates q : throws_plain (UpdateKeyVersionStates q).
Proof. unfold UpdateKeyVersionStates. solve_throws. Qed.
Lemma plain_CreateKeyVersion kv : throws_plain (CreateKeyVersion kv).
Proof. unfold CreateKeyVersion. solve_throws. Qed.
Lemma plain_NewKeyVersion t k v p pv : throws_plain (NewKeyVersion t k v p pv).
Proof. unfold NewKeyVersion. solve_throws. Qed.
End plain.

#[export] Hint Resolve plain_GetTenant plain_GetKeyByID plain_UpdateKeyStates plain_ListKeyVersions
  plain_UpdateKeyVersionStates plain_CreateKeyVersion plain_NewKeyVersion : throws.

(** ** The steps of the operator *)

Section operator.
Context {ENV : Env} {MGR : KeyManager} {AGENTS : RemoteAgents} (cfg : KeyOperatorConfig).

(** The key as it was loaded is what is stored. *)
Definition current (d : DB) (k : Key) : Prop := db_wf d ∧ db_keys d !! k_ID k = Some k.

(** The key has been marked: same row, another status. *)
Definition marked (status : KeyProcessingStatus) (k : Key) (d : DB) : Prop :=
  ∃ row, db_keys d !! k_ID k = Some row ∧ key_identity row = key_identity k ∧
    k_LifeCycleState row = k_LifeCycleState k ∧ k_Status row = status.

(** The version is one of the key, in the key's life cycle state and usable. *)
Definition usable_for (k : Key) (kv : KeyVersion) : Prop :=
  kv_TenantID kv = k_TenantID k ∧ kv_KeyID kv = k_ID k ∧
  kv_LifeCycleState kv = k_LifeCycleState k ∧ kv_ProcessingState kv = KeyVersionUsable.

(** The version is stored as such, under numbers its columns can hold. *)
Definition usable_version (k : Key) (kv : KeyVersion) (d : DB) : Prop :=
  usable_for k kv ∧ int4_ok (kv_Version kv) = true ∧ int4_ok (kv_Revision kv) = true ∧
  ∃ row, db_kvs d !! kv_id kv = Some row ∧ kv_id row = kv_id kv ∧ usable_for k row.

(** The agent that manages the key, when that is not the root itself, has
    accepted the key and then the version. *)
Definition acknowledged (k : Key) (kv : KeyVersion) : Prop :=
  ∀ rc, ko_RootConfig cfg = Some rc → k_ManagedBy k ≠ rc_Name rc →
    (∃ w, (RemoteUpsertKey (k_ManagedBy k) (toUpsertRequest k) w).1 = Ok ()) ∧
    ∃ w, (RemoteUpsertKeyVersion (k_ManagedBy k) (version_request kv) w).1 = Ok ().

(** A disposition and the database it goes with. *)
Definition disposed (k : Key) (o : OrbitalOperatorError) (d : DB) : Prop :=
  (∃ e, o = OrbitalContinue e ∧ plain e) ∨
  (∃ e, o = OrbitalFail e ∧ marked KeyProcessingFailed k d).

Lemma current_target d k : current d k → target d (k_ID k) (k_TenantID k) = Some k.
Proof. intros [Hwf Hk]. by eapply target_canonical. Qed.

Lemma target_current d ID T k : db_wf d → target d ID T = Some k → current d k.
Proof.
  intros Hwf. unfold target, find_key. destruct (uuid_column ID) as [id|]; [|done].
  destruct (uuid_column T) as [t|]; [|done]. simpl.
  destruct (db_keys d !! id) as [x|] eqn:E; [|done]. simpl. destruct (String.eqb _ _); [|done].
  intros [= <-]. split; [done|]. destruct (wf_key_id _ Hwf _ _ E) as [-> _]. done.
Qed.

(** A compare-and-swap of the status of a current key. *)
Lemma mark_current k from to w r w' :
  current (w_db w) k →
  UpdateKeyStates (mkUpdateKeyStatesQuery (k_ID k) (k_TenantID k) (k_LifeCycleState k) to
    [k_LifeCycleState k] from) w = (r, w') →
  match r with
  | Ok _ => marked to k (w_db w') ∧ db_kvs (w_db w') = db_kvs (w_db w)
  | Err e => plain e
  | _ => False
  end.
Proof.
  intros [Hwf Hk] H. set (q := mkUpdateKeyStatesQuery _ _ _ _ _ _) in H.
  pose proof (UpdateKeyStates_spec q w) as Hs. pose proof (plain_UpdateKeyStates q w) as Hp.
  rewrite H in Hs, Hp. destruct r as [[]|e| |]; [|exact Hp|done..].
  destruct Hs as (x & now & Ht & _ & id & Hid & ->).
  cbn [q uk_ID uk_TenantID] in Ht. rewrite current_target in Ht by done. injection Ht as <-.
  destruct (wf_key_id _ Hwf _ _ Hk) as [_ Hu]. simpl in Hid. rewrite Hu in Hid. injection Hid as <-.
  split; [|done]. exists (swapped q now k). simpl. by rewrite lookup_insert_eq.
Qed.

Lemma MarkKeyFailed_spec p k e w r w' :
  ko_Key p = Some k → current (w_db w) k →
  MarkKeyFailed p e w = (r, w') →
  w_resp w' = w_resp w ∧ ∃ o, r = Ok o ∧ disposed k o (w_db w').
Proof.
  intros Hp Hc. unfold MarkKeyFailed. rewrite Hp, bind_try. intros H.
  set (q := mkUpdateKeyStatesQuery _ _ _ _ _ _) in H.
  pose proof (quiet_UpdateKeyStates q w) as Hq.
  destruct (UpdateKeyStates q w) as [r0 w0] eqn:E. simpl in Hq.
  pose proof (mark_current k _ _ _ _ _ Hc E) as Hm.
  destruct r0 as [[]|e0| |]; try done; injection H as <- <-; (split; [done|]).
  - exists (OrbitalFail e). split; [done|]. right. destruct Hm. eauto.
  - exists (OrbitalContinue e0). split; [done|]. left. eauto.
Qed.

Lemma fail_key_spec p k e w r w' :
  ko_Key p = Some k → current (w_db w) k → fail_key p e w = (r, w') →
  w_resp w' = w_resp w ∧ ∃ o, r = Ok (Some o) ∧ disposed k o (w_db w').
Proof.
  intros Hp Hc. unfold fail_key, mbind, comp_bind. destruct (MarkKeyFailed p e w) as [r0 w0] eqn:E.
  apply (MarkKeyFailed_spec p k) in E as [Hr (o & -> & Ho)]; [|done..].
  intros [= <- <-]. eauto.
Qed.

(** What a step of the operator leaves: it goes on with the database as it
    was, or it disposes of the task. *)
Definition stepped (k : Key) (w : world) (r : result (option OrbitalOperatorError)) (w' : world) : Prop :=
  w_resp w' = w_resp w ∧
  match r with
  | Ok None => w_db w' = w_db w
  | Ok (Some o) => disposed k o (w_db w')
  | _ => False
  end.

Lemma stepped_fail p k e w r w' :
  ko_Key p = Some k → current (w_db w) k → fail_key p e w = (r, w') → stepped k w r w'.
Proof.
  intros Hp Hc H. destruct (fail_key_spec _ _ _ _ _ _ Hp Hc H) as [? (o & -> & ?)]. by split.
Qed.

Lemma stepped_same k w w1 r w' :
  w_db w1 = w_db w → w_resp w1 = w_resp w → stepped k w1 r w' → stepped k w r w'.
Proof. unfold stepped. intros -> ->. done. Qed.

(** A call out of the database inside a step. *)
Lemma bind_outbound {A B} (m : M A) (f : A + error → M B) w res :
  outbound m → (try m ≫= f) w = res →
  ∃ w1 v, f v w1 = res ∧ w_db w1 = w_db w ∧ w_resp w1 = w_resp w ∧
    ∀ e, v = inr e → plain e.
Proof.
  intros Hm. destruct (Hm w) as (Hdb & Hr & He). rewrite bind_try. intros <-.
  destruct (m w) as [[a|e| |] w1]; simpl in *; try done;
    eexists w1, _; (split; [done|]); (split; [done|]); (split; [done|]); naive_solver.
Qed.

Lemma isRootKey_spec p k rc w r w' :
  ko_Key p = Some k → current (w_db w) k → isRootKey p k rc w = (r, w') →
  (∃ b, r = Ok (inl b) ∧ w' = w) ∨
  (w_resp w' = w_resp w ∧ ∃ o, r = Ok (inr o) ∧ disposed k o (w_db w')).
Proof.
  intros Hp Hc. unfold isRootKey.
  destruct (KeyHierarchy.FindKeySpec _ _) as [spec|]; [intros [= <- <-]; eauto|].
  unfold mbind, comp_bind. destruct (MarkKeyFailed p _ w) as [r0 w0] eqn:E.
  apply (MarkKeyFailed_spec p k) in E as [Hr (o & -> & Ho)]; [|done..].
  intros [= <- <-]. eauto.
Qed.

Lemma GenerateAndSealSecretOp_spec p k w r w' :
  ko_Key p = Some k → current (w_db w) k →
  GenerateAndSealSecretOp cfg p w = (r, w') → stepped k w r w'.
Proof.
  intros Hp Hc. unfold GenerateAndSealSecretOp. rewrite Hp.
  destruct (ko_KeyVersion p) as [kv|]; [|by apply stepped_fail].
  destruct (ko_hasManager cfg); [|by apply stepped_fail].
  destruct (ko_RootConfig cfg) as [rc|]; [|by apply stepped_fail].
  cbn [negb]. cbv zeta. unfold mbind at 1, comp_bind at 1. cbv beta.
  destruct (isRootKey p k rc w) as [r0 w0] eqn:E.
  apply isRootKey_spec in E as [(b & -> & ->)|(Hr & o & -> & Ho)]; cbv iota;
    [|by intros [= <- <-]|done..].
  destruct (_ || _)%bool; [by intros [= <- <-]|].
  intros (w1 & v & H & Hdb & Hr & He)%bind_outbound; [|apply GenerateAndSealSecret_outbound].
  destruct v as [|e]; injection H as <- <-; split; try done. left. eauto.
Qed.

Lemma remote_outcome_spec p k w v r w' :
  ko_Key p = Some k → current (w_db w) k → (∀ e, v = inr e → plain e) →
  remote_outcome p v w = (r, w') → stepped k w r w'.
Proof.
  intros Hp Hc Hv. unfold remote_outcome. destruct v as [|e]; [by intros [= <- <-]|].
  destruct (Retryable e); [|by apply stepped_fail]. intros [= <- <-]. split; [done|]. left. eauto.
Qed.

Lemma upsert_spec p k (m : M ()) w r w' :
  ko_Key p = Some k → current (w_db w) k → outbound m →
  (r0 ← try m; remote_outcome p r0) w = (r, w') → stepped k w r w'.
Proof.
  intros Hp Hc Hm (w1 & v & H & Hdb & Hr & He)%bind_outbound; [|done].
  apply (stepped_same _ _ w1); [done..|]. apply (remote_outcome_spec p k) in H; rewrite ?Hdb; done.
Qed.

(** A step that goes on was answered with a success. *)
Lemma upsert_answered p (m : M ()) w w' :
  (r0 ← try m; remote_outcome p r0) w = (Ok None, w') → ∃ w0, (m w0).1 = Ok ().
Proof.
  rewrite bind_try. intros H. exists w. destruct (m w) as [[[]|e| |] w1]; simpl in *; try done.
  destruct (Retryable e); [done|]. unfold fail_key in H. by apply bind_inv_Ok in H as (o & w2 & _ & [=]).
Qed.

Lemma UpsertRemote_acknowledged p k kv w w' :
  ko_Key p = Some k → ko_KeyVersion p = Some kv → UpsertRemote cfg p w = (Ok None, w') → acknowledged k kv.
Proof.
  intros Hp Hv H rc Hrc Hm. unfold UpsertRemote in H. rewrite Hp, Hv, Hrc in H.
  assert (∀ o w0 w1, fail_key p o w0 ≠ (Ok None, w1)) as Hf.
  { intros o w0 w1. unfold fail_key. by intros (x & w2 & _ & [=])%bind_inv_Ok. }
  destruct (ko_Registry cfg) as [reg|]; [|by apply Hf in H]. rewrite (proj2 (String.eqb_neq _ _) Hm) in H.
  destruct (negb _); [by apply Hf in H|]. apply bind_inv_Ok in H as ([o|] & w1 & H1 & H); [done|].
  split; by eapply upsert_answered.
Qed.

Lemma UpsertRemote_spec p k w r w' :
  ko_Key p = Some k → current (w_db w) k → UpsertRemote cfg p w = (r, w') → stepped k w r w'.
Proof.
  intros Hp Hc. unfold UpsertRemote. rewrite Hp.
  destruct (ko_KeyVersion p) as [kv|]; [|by apply stepped_fail].
  destruct (ko_Registry cfg) as [reg|]; [|by apply stepped_fail].
  destruct (ko_RootConfig cfg) as [rc|]; [|by apply stepped_fail].
  destruct (String.eqb _ _); [by intros [= <- <-]|].
  destruct (negb _); [by apply stepped_fail|].
  unfold mbind at 1, comp_bind at 1. cbv beta. destruct (upsertRemoteKey p k w) as [r0 w0] eqn:E.
  apply (upsert_spec p k) in E as [Hr E]; [|done|done|apply RemoteUpsertKey_outbound].
  destruct r0 as [[o|]|e| |]; try done; [by intros [= <- <-]|]. intros H.
  apply (stepped_same _ _ w0); [done..|]. rewrite <-E in Hc.
  apply (upsert_spec p k) in H; [done..|apply RemoteUpsertKeyVersion_outbound].
Qed.

Lemma MarkKeyCompleted_spec p k w r w' :
  ko_Key p = Some k → current (w_db w) k → MarkKeyCompleted p w = (r, w') →
  w_resp w' = w_resp w ∧
  match r with
  | Ok None => marked KeyProcessingCompleted k (w_db w') ∧ db_kvs (w_db w') = db_kvs (w_db w)
  | Ok (Some o) => disposed k o (w_db w')
  | _ => False
  end.
Proof.
  intros Hp Hc. unfold MarkKeyCompleted. rewrite Hp, bind_try. intros H.
  set (q := mkUpdateKeyStatesQuery _ _ _ _ _ _) in H.
  pose proof (quiet_UpdateKeyStates q w) as Hq.
  destruct (UpdateKeyStates q w) as [r0 w0] eqn:E. simpl in Hq.
  pose proof (mark_current k _ _ _ _ _ Hc E) as Hm.
  destruct r0 as [[]|e0| |]; try done; injection H as <- <-; (split; [done|]); [done|].
  left. eauto.
Qed.

(** ** Versions of the key *)

Definition versions_only (d d' : DB) : Prop := db_evolves d d' ∧ db_keys d' = db_keys d.

#[local] Instance versions_only_preorder : PreOrder versions_only.
Proof.
  split; [done|]. intros d1 d2 d3 [? E1] [? E2]. split; [by etrans|]. by rewrite E2.
Qed.

Lemma current_versions_only d d' k : versions_only d d' → current d k → current d' k.
Proof. intros [[Hwf _] Hk] [Hd Hc]. split; [auto|]. by rewrite Hk. Qed.

Lemma current_tenant d k : current d k → uuid_column (k_TenantID k) = Some (k_TenantID k).
Proof. intros [Hwf Hk]. by eapply wf_key_tenant. Qed.

Lemma current_id d k : current d k → uuid_column (k_ID k) = Some (k_ID k).
Proof. intros [Hwf Hk]. by apply (wf_key_id _ Hwf) in Hk as [_ ?]. Qed.

(** Statements on key versions do not touch the keys. *)
#[local] Instance same_keys_preorder : PreOrder (λ d d', db_keys d' = db_keys d).
Proof. split; [done|]. intros d1 d2 d3 E1 E2. by rewrite E2. Qed.

Notation same_keys := (respects (db_rel (λ d d', db_keys d' = db_keys d))).

Lemma same_keys_get_db {A} (f : DB → M A) :
  (∀ w, db_keys (w_db (f (w_db w) w).2) = db_keys (w_db w)) → same_keys (get_db ≫= f).
Proof. intros Hf w. apply Hf. Qed.

Ltac same_keys_step := apply respects_bind; [apply _|eauto with respects; fail|intros ?].

Lemma versions_only_CreateKeyVersion kv : respects (db_rel versions_only) (CreateKeyVersion kv).
Proof.
  intros w. split; [apply evolves_CreateKeyVersion|]. revert w. change (same_keys (CreateKeyVersion kv)).
  unfold CreateKeyVersion. do 7 same_keys_step. apply same_keys_get_db. intros w. cbv zeta.
  destruct (bool_decide _); [done|]. by destruct (kv_refs_ok _ _).
Qed.

Lemma versions_only_UpdateKeyVersionStates q :
  respects (db_rel versions_only) (UpdateKeyVersionStates q).
Proof.
  intros w. split; [apply evolves_UpdateKeyVersionStates|]. revert w.
  change (same_keys (UpdateKeyVersionStates q)).
  unfold UpdateKeyVersionStates. destruct (_ || _)%bool; [by apply respects_throw; apply _|].
  do 6 same_keys_step. apply same_keys_get_db. intros w.
  destruct (db_kvs _ !! _); [|done]. by destruct (version_states_match _ _).
Qed.
#[local] Hint Resolve versions_only_CreateKeyVersion versions_only_UpdateKeyVersionStates : respects.

(** A computation on the versions of a key, and what its success gives. *)
Lemma versions_step {A} (m : M A) k w r w' :
  respects (db_rel versions_only) m → quiet m → throws_plain m →
  current (w_db w) k → m w = (r, w') →
  w_resp w' = w_resp w ∧ current (w_db w') k ∧
  match r with Ok _ => True | Err e => plain e | _ => False end.
Proof.
  intros Hv Hq Hp Hc H. specialize (Hv w). specialize (Hq w). specialize (Hp w). rewrite H in *.
  split; [done|]. split; [by eapply current_versions_only|]. by destruct r.
Qed.

Lemma fetch_usable k w kv w' :
  current (w_db w) k → fetchAndUpdateExistingKeyVersion k w = (Ok kv, w') → usable_version k kv (w_db w').
Proof.
  intros Hc. unfold fetchAndUpdateExistingKeyVersion.
  intros (l & w1 & [Hdb Hl]%ListKeyVersions_Ok & H)%bind_inv_Ok.
  destruct l as [|x l]; [done|]. destruct (Hl x) as ((i & Hi) & Ht & Hk); [apply list_elem_of_here|].
  simpl in Ht, Hk. rewrite (current_tenant _ _ Hc) in Ht. injection Ht as Ht.
  assert (kv_KeyID x = k_ID k) as Hk'.
  { pose proof (current_id _ _ Hc) as Hid. destruct Hk as [Hk|Hk]; [by rewrite Hk in Hid|congruence]. }
  apply bind_inv_Ok in H as (u & w2 & Hu & [= <- <-]). pose proof (UpdateKeyVersionStates_int4 _ _ _ _ Hu) as [Iv Ir].
  apply UpdateKeyVersionStates_Ok in Hu as (t & key & y & now & Ut & Uk & Hy & _ & Hdb2). simpl in Ut, Uk, Hy, Hdb2. rewrite <-Ht, (current_tenant _ _ Hc) in Ut. injection Ut as <-.
  rewrite Hk', (current_id _ _ Hc) in Uk. injection Uk as <-. rewrite Hdb in Hy.
  apply (wf_kv_id _ (proj1 Hc)) in Hy. unfold kv_id in Hy. injection Hy as Hy1 Hy2 Hy3 Hy4.
  split; [by split_and!|]. split_and!; [done..|]. rewrite Hdb2. unfold kv_id. simpl. rewrite <-Ht, Hk'.
  eexists. rewrite lookup_insert_eq. split; [done|]. split; [simpl; congruence|]. by split_and!.
Qed.

Lemma derive_usable k w kv w' :
  current (w_db w) k → deriveKeyVersionFromParent k w = (Ok kv, w') → usable_version k kv (w_db w').
Proof.
  intros Hc. unfold deriveKeyVersionFromParent.
  intros (pv & w1 & _ & H)%bind_inv_Ok.
  apply bind_inv_Ok in H as (x & w2 & Hx & H). unfold NewKeyVersion in Hx. injection Hx as <- <-.
  pose proof (CreateKeyVersion_int4 _ _ _ _ H) as [Iv Ir].
  apply CreateKeyVersion_Ok in H as ( -> & t & key & p & row & Ut & Uk & -> & ->). simpl in Ut, Uk.
  rewrite (current_tenant _ _ Hc) in Ut. injection Ut as <-.
  rewrite (current_id _ _ Hc) in Uk. injection Uk as <-.
  split; [by split_and!|]. split_and!; [done..|]. eexists. unfold kv_id. simpl. rewrite lookup_insert_eq.
  split; [done|]. split; [done|]. by split_and!.
Qed.

Lemma fetch_spec k w r w' :
  current (w_db w) k → fetchAndUpdateExistingKeyVersion k w = (r, w') →
  w_resp w' = w_resp w ∧ current (w_db w') k ∧
  match r with Ok kv => usable_version k kv (w_db w') | Err e => plain e | _ => False end.
Proof.
  intros Hc H. pose proof H as H0. apply (versions_step _ k) in H as (Hr & Hc' & H); [| |  | |done].
  - destruct r; try done; split_and!; try done; exact (fetch_usable _ _ _ _ Hc H0).
  - unfold fetchAndUpdateExistingKeyVersion. solve_respects.
  - unfold fetchAndUpdateExistingKeyVersion. solve_respects.
  - unfold fetchAndUpdateExistingKeyVersion. solve_throws.
Qed.

Lemma derive_spec k w r w' :
  current (w_db w) k → deriveKeyVersionFromParent k w = (r, w') →
  w_resp w' = w_resp w ∧ current (w_db w') k ∧
  match r with Ok kv => usable_version k kv (w_db w') | Err e => plain e | _ => False end.
Proof.
  intros Hc H. pose proof H as H0. apply (versions_step _ k) in H as (Hr & Hc' & H); [| |  | |done].
  - destruct r; try done; split_and!; try done; exact (derive_usable _ _ _ _ Hc H0).
  - unfold deriveKeyVersionFromParent. solve_respects.
  - unfold deriveKeyVersionFromParent. solve_respects.
  - unfold deriveKeyVersionFromParent. solve_throws.
Qed.

(** The key is loaded with a usable version, or the task is disposed of. *)
Definition resolved (k : Key) (w : world) (r : result (option OrbitalOperatorError * KeyOperator))
    (w' : world) : Prop :=
  w_resp w' = w_resp w ∧
  match r with
  | Ok (None, p) => ko_Key p = Some k ∧ current (w_db w') k ∧
      ∃ kv, ko_KeyVersion p = Some kv ∧ usable_version k kv (w_db w')
  | Ok (Some o, _) => disposed k o (w_db w')
  | _ => False
  end.

Lemma resolveKeyVersions_spec p k w r w' :
  ko_Key p = Some k → current (w_db w) k →
  resolveKeyVersions p k w = (r, w') → resolved k w r w'.
Proof.
  intros Hp Hc. unfold resolveKeyVersions. rewrite bind_try.
  destruct (fetchAndUpdateExistingKeyVersion k w) as [r1 w1] eqn:E1.
  apply fetch_spec in E1 as (Hr1 & Hc1 & E1); [|done].
  destruct r1 as [kv|e1| |]; try done; [intros [= <- <-]; split; [done|]; simpl; eauto 10|].
  destruct (negb _); [intros [= <- <-]; split; [done|]; left; eauto|].
  rewrite bind_try. destruct (deriveKeyVersionFromParent k w1) as [r2 w2] eqn:E2.
  apply derive_spec in E2 as (Hr2 & Hc2 & E2); [|done]. rewrite Hr1 in Hr2.
  destruct r2 as [kv|e2| |]; try done; [intros [= <- <-]; split; [done|]; simpl; eauto 10|].
  destruct (errors_Is _ _); [|intros [= <- <-]; split; [done|]; left; eauto].
  rewrite bind_run. destruct (MarkKeyFailed p e2 w2) as [r3 w3] eqn:E3.
  apply (MarkKeyFailed_spec p k) in E3 as [Hr3 (o & -> & Ho)]; [|done..].
  intros [= <- <-]. split; [by rewrite Hr3|done].
Qed.

Lemma ResolveKeyAndVersions_spec p kid k w r w' :
  current (w_db w) k → target (w_db w) (ki_ID kid) (ki_TenantID kid) = Some k →
  ResolveKeyAndVersions p kid w = (r, w') → resolved k w r w'.
Proof.
  intros Hc Ht. unfold ResolveKeyAndVersions, loadKey. rewrite bind_run, bind_try.
  pose proof (GetKeyByID_spec (ki_ID kid) (ki_TenantID kid) w) as Hs.
  pose proof (quiet_GetKeyByID (ki_ID kid) (ki_TenantID kid) w) as Hq.
  destruct (GetKeyByID _ _ w) as [[x|e| |] w1]; try done; destruct Hs as [Hdb Hs]; simpl in Hq.
  - rewrite Ht in Hs. injection Hs as <-. rewrite <-Hdb in Hc.
    intros H. apply resolveKeyVersions_spec in H as [Hr H]; [|done..].
    split; [by rewrite Hr|done].
  - destruct Hs as [[-> Hs]|[what ->]]; [congruence|].
    intros [= <- <-]. split; [done|]. left. by eexists.
Qed.

(** What a task that is due leaves. *)
Definition processed (k : Key) (w : world) (r : result ()) (w' : world) : Prop :=
  match r with
  | Ok _ =>
      (w_resp w' = w_resp w ++ [RComplete])%list ∧
        marked KeyProcessingCompleted k (w_db w') ∧ (∃ kv, usable_version k kv (w_db w') ∧ acknowledged k kv) ∨
      (w_resp w' = w_resp w ++ [RFail])%list ∧ marked KeyProcessingFailed k (w_db w')
  | Err e => (w_resp w' = w_resp w ++ [RContinueAndWaitFor RetryBackoff])%list ∧ plain e
  | _ => False
  end.

Lemma return_apply_spec k o w w0 r w' :
  w_resp w = w_resp w0 → disposed k o (w_db w) → return_apply o w = (r, w') → processed k w0 r w'.
Proof.
  intros Hr [(e & -> & He)|(e & -> & Hm)] [= <- <-]; simpl; rewrite Hr; [done|]. right. done.
Qed.

Lemma process_key_spec kid k w r w' :
  current (w_db w) k → target (w_db w) (ki_ID kid) (ki_TenantID kid) = Some k →
  process_key cfg kid w = (r, w') → processed k w r w'.
Proof.
  intros Hc Ht. unfold process_key. rewrite bind_run.
  destruct (ResolveKeyAndVersions _ kid w) as [r1 w1] eqn:E.
  apply (ResolveKeyAndVersions_spec _ _ k) in E as [Hr1 E]; [|done..].
  destruct r1 as [[[o|] p]|e| |]; try done; [by apply return_apply_spec|].
  destruct E as (Hp & Hc1 & kv & Hkv & Hu). rewrite bind_run.
  destruct (GenerateAndSealSecretOp cfg p w1) as [r2 w2] eqn:E.
  apply (GenerateAndSealSecretOp_spec _ k) in E as [Hr2 E]; [|done..]. rewrite Hr1 in Hr2.
  destruct r2 as [[o|]|e| |]; try done; [by apply return_apply_spec|].
  rewrite <-E in Hc1, Hu. clear w1 Hr1 E. rewrite bind_run.
  destruct (UpsertRemote cfg p w2) as [r3 w3] eqn:E.
  pose proof E as Ha. apply (UpsertRemote_spec _ k) in E as [Hr3 E]; [|done..]. rewrite Hr2 in Hr3.
  destruct r3 as [[o|]|e| |]; try done; [by apply return_apply_spec|].
  apply (UpsertRemote_acknowledged _ k kv) in Ha; [|done..].
  rewrite <-E in Hc1, Hu. clear w2 Hr2 E. rewrite bind_run.
  destruct (MarkKeyCompleted p w3) as [r4 w4] eqn:E.
  apply (MarkKeyCompleted_spec _ k) in E as [Hr4 E]; [|done..]. rewrite Hr3 in Hr4.
  destruct r4 as [[o|]|e| |]; try done; [by apply return_apply_spec|].
  destruct E as [Hm Hk]. intros [= <- <-]. left. simpl. rewrite Hr4. split; [done|].
  split; [done|]. exists kv. split; [|done]. unfold usable_version. by rewrite Hk.
Qed.

(** ** The handler *)

Context {CODEC : JobCodec}.

Definition missing_tenant (d : DB) (tenantID : string) : Prop :=
  ∃ t, uuid_column tenantID = Some t ∧ db_tenants d !! t = None.

Lemma GetTenant_cases t w :
  match GetTenant t w with
  | (Ok _, w') => w_db w' = w_db w
  | (Err e, _) => errors_Is e ErrTenantNotFound = true → missing_tenant (w_db w) t
  | _ => True
  end.
Proof.
  unfold GetTenant. rewrite bind_arg_uuid_eq. destruct (uuid_column t) as [c|] eqn:Ec; [|done].
  match goal with |- context [(statement tenants ≫= ?k) ?w] =>
    destruct (bind_statement_cases tenants k w) as [(what & w' & -> & Hw)|(w' & -> & Hdb & _)] end; [done|].
  rewrite bind_get_db, Hdb. destruct (db_tenants (w_db w) !! c) eqn:E; [done|]. intros _. by exists c.
Qed.

Lemma ValidateTenantID_spec t w :
  match ValidateTenantID t w with
  | (Ok _, w') => w_db w' = w_db w ∧ w_resp w' = w_resp w
  | (Err e, w') => w_resp w' = w_resp w ∧
      ∃ c, e = as_error (OrbitalFail c) ∧ missing_tenant (w_db w) t ∨ e = as_error (OrbitalContinue c)
  | _ => False
  end.
Proof.
  unfold ValidateTenantID. rewrite bind_try. unfold ValidateTenant. rewrite bind_run.
  pose proof (quiet_GetTenant t w) as Hq. pose proof (plain_GetTenant t w) as Hp.
  pose proof (GetTenant_cases t w) as Hs.
  destruct (GetTenant t w) as [[x|e| |] w1]; simpl in *; try done.
  destruct (errors_Is e ErrTenantNotFound) eqn:Ee; simpl; eauto 10.
Qed.

Lemma EnsureKey_spec kid c w :
  match EnsureKey kid (Some c) w with
  | (Ok _, w') => w_db w' = w_db w ∧ w_resp w' = w_resp w ∧
      ∃ k, target (w_db w) (ki_ID kid) (ki_TenantID kid) = Some k ∧ c k = true
  | (Err e, w') => w_resp w' = w_resp w ∧
      ((∃ x, e = as_error (OrbitalContinue x)) ∨
       (∃ x, e = as_error (OrbitalFail x) ∧ target (w_db w) (ki_ID kid) (ki_TenantID kid) = None) ∨
       (e = as_error OrbitalComplete ∧
         ∃ k, target (w_db w) (ki_ID kid) (ki_TenantID kid) = Some k ∧ c k = false))
  | _ => False
  end.
Proof.
  unfold EnsureKey. rewrite bind_try.
  pose proof (GetKeyByID_spec (ki_ID kid) (ki_TenantID kid) w) as Hs.
  pose proof (quiet_GetKeyByID (ki_ID kid) (ki_TenantID kid) w) as Hq.
  destruct (GetKeyByID _ _ w) as [[x|e| |] w1]; try done; destruct Hs as [Hdb Hs]; simpl in Hq.
  - destruct (c x) eqn:E; simpl; [by eauto|]. split; [done|]. right. right. eauto.
  - destruct Hs as [[-> Hs]|[what ->]]; simpl; (split; [done|]); [|by eauto]. right. left. eauto.
Qed.

(** How a task ended, by its last response. *)
Definition handled (hc : HandlerConfig) (data : string) (d : DB) (r : response) (d' : DB) : Prop :=
  match r with
  | RContinueAndWaitFor b => b = RetryBackoff ∧ d' = d
  | RComplete => ∃ kid k, unmarshal_id data = Some kid ∧
      target d (ki_ID kid) (ki_TenantID kid) = Some k ∧
      (task_due hc k = false ∧ d' = d ∨
       task_due hc k = true ∧ marked KeyProcessingCompleted k d' ∧
         ∃ kv, usable_version k kv d' ∧ acknowledged k kv)
  | RFail =>
      (d' = d ∧ ∀ kid, unmarshal_id data = Some kid →
         missing_tenant d (ki_TenantID kid) ∨ target d (ki_ID kid) (ki_TenantID kid) = None) ∨
      ∃ kid k, unmarshal_id data = Some kid ∧ target d (ki_ID kid) (ki_TenantID kid) = Some k ∧
        task_due hc k = true ∧ marked KeyProcessingFailed k d'
  end.

Definition task_steps (hc : HandlerConfig) (kid : KeyIdentifier) : list (() → M ()) :=
  [(λ _, ValidateTenantID (ki_TenantID kid)); (λ _, EnsureKey kid (Some (task_due hc)));
   (λ _, process_key cfg kid)].

(** The steps of the task, before the transaction ends. *)
Lemma task_steps_spec hc kid data w r w' :
  unmarshal_id data = Some kid → db_wf (w_db w) →
  foldM (λ a step, step a) () (task_steps hc kid) w = (r, w') →
  match r with
  | Ok _ => ∃ x, (w_resp w' = w_resp w ++ [x])%list ∧ handled hc data (w_db w) x (w_db w')
  | Err e => plain e ∨
      ∃ o x, e = as_error o ∧ (∀ w0, ∃ g, Apply o w0 = (Ok g, add_resp x w0)) ∧ handled hc data (w_db w) x (w_db w)
  | _ => False
  end.
Proof.
  intros Hkid Hwf. unfold task_steps. cbn [foldM]. rewrite bind_run.
  pose proof (ValidateTenantID_spec (ki_TenantID kid) w) as Hv.
  destruct (ValidateTenantID _ w) as [[[]|e| |] w1]; try done.
  2:{ intros [= <- <-]. destruct Hv as (_ & c & [[-> Hm]| ->]); right; eexists _, _; (split; [done|]);
      (split; [by eexists|]); simpl; [|done]. left. split; [done|]. intros k' [= <-]%(eq_trans (eq_sym Hkid)). eauto. }
  destruct Hv as [Hdb1 Hr1]. rewrite bind_run. pose proof (EnsureKey_spec kid (task_due hc) w1) as He.
  rewrite Hdb1 in He. destruct (EnsureKey _ _ w1) as [[[]|e| |] w2]; try done.
  2:{ intros [= <- <-]. destruct He as (_ & [[x ->]|[(x & -> & Hn)|( -> & k & Hk & Hd)]]); right;
      eexists _, _; (split; [done|]); (split; [by eexists|]); simpl; [done| |by eauto 10].
      left. split; [done|]. intros k' [= <-]%(eq_trans (eq_sym Hkid)). eauto. }
  destruct He as (Hdb2 & Hr2 & k & Hk & Hd). rewrite bind_run.
  destruct (process_key cfg kid w2) as [r3 w3] eqn:E.
  apply (process_key_spec _ k) in E; [| |by rewrite Hdb2].
  2:{ rewrite Hdb2. by eapply target_current. }
  destruct r3 as [[]|e| |]; simpl in E; try done; intros [= <- <-]; rewrite Hr2, Hr1 in E.
  - destruct E as [(Hr & Hm & Hu)|(Hr & Hm)]; eexists; (split; [done|]); simpl; eauto 10.
  - left. by destruct E.
Qed.

(** The outcome of a task; the theorem below states it. *)
Lemma Handle_handled hc data w :
  db_wf (w_db w) →
  ∃ w' x, Handle cfg hc data w = (Ok (), w') ∧ last (w_resp w') = Some x ∧
    handled hc data (w_db w) x (w_db w').
Proof.
  intros Hwf. unfold Handle. destruct (unmarshal_id data) as [kid|] eqn:Hkid.
  2:{ eexists _, RFail. split; [done|]. simpl. rewrite last_snoc. split; [done|]. left. naive_solver. }
  rewrite bind_try. change [_; _; _] with (task_steps hc kid). unfold ChainTransaction.
  destruct (Transaction _ w) as [r w'] eqn:E. apply Transaction_cases in E as
    [(what & -> & Hdb & _)|(w1 & r2 & w2 & Hdb1 & _ & E & Hr' & H)].
  { eexists _, _. split; [done|]. simpl. by rewrite last_snoc. }
  rewrite <-Hdb1 in Hwf. apply (task_steps_spec _ _ data) in E; [|done..]. rewrite Hdb1 in E.
  destruct r2 as [[]|e| |]; try done.
  - destruct H as [[-> Hdb]|(what & -> & Hdb)].
    + destruct E as (x & Hx & Hh). eexists _, x. split; [done|]. by rewrite Hr', Hx, last_snoc, Hdb.
    + eexists _, _. split; [done|]. simpl. by rewrite last_snoc.
  - destruct H as [-> Hdb]. destruct E as [E|(o & x & -> & Hx & Hh)].
    + rewrite E. eexists _, _. split; [done|]. simpl. by rewrite last_snoc.
    + destruct o as [st b c]. simpl. rewrite bind_run. destruct (Hx w') as [g ->].
      eexists _, x. split; [done|]. simpl. by rewrite last_snoc, Hdb.
Qed.

(** C2: a key task always returns, without an error, and its last response
    tells what it left behind.  "Continue" is sent after the standard back-off
    and leaves the database as it was.  "Complete" is sent for a key that is
    not waiting in the state of the task, with no change, or after the key was
    marked completed, and then it has a usable version in its life cycle
    state, and the agent that manages it accepted the key and that version.  "Fail" is sent with no change when the task data is unreadable or
    its tenant or key does not exist, and otherwise only with the key marked
    failed. *)
Theorem handle_settles hc data w :
  db_wf (w_db w) →
  ∃ w' x, Handle cfg hc data w = (Ok (), w') ∧ last (w_resp w') = Some x ∧
    handled hc data (w_db w) x (w_db w').
Proof. exact (Handle_handled hc data w). Qed.
End operator.

Module TaskSamples.
Import Sample StoreSamples OrchestratorSamples.

(** The announced key of the sample is completed. *)
Lemma handle_settles_witness :
  w_resp (Handle config AnnounceHandlerConfig (uuid1 +:+ "/" +:+ uuid0) w1).2 = [RComplete] ∧
  ∃ w' x, Handle config AnnounceHandlerConfig (uuid1 +:+ "/" +:+ uuid0) w1 = (Ok (), w') ∧
    last (w_resp w') = Some x ∧
    handled config AnnounceHandlerConfig (uuid1 +:+ "/" +:+ uuid0) (w_db w1) x (w_db w').
Proof.
  split; [vm_compute; reflexivity|]. apply handle_settles. exact w1_wf.
Defined.
End TaskSamples.
