(* ===== verification/AdminKeys.v ===== *)
(** * The admin key service: pkg/api/v1/proto/admin/keys

    The RPCs of key_service.go, the error table of errmap.go and the conversions
    of key_convert.go.  A method returns its response or the gRPC status error
    it answers with. *)

From S2P Require Import Prelude GoStrings GoRuntime Model World Lifecycle Providers Hierarchy.
From S2P Require Import Config Sql KeyStore KeyVersionStore StoreInvariant StoreTheorems Validator.
From S2P Require Import KeyOperator Orchestrator KeyAction KeyActionTheorems TaskTheorems.

Local Open Scope string_scope.

(** ** Messages *)

Record ProtoProcessingState := mkProtoProcessingState { pps_Status : string; pps_JobId : string }.

Record ProtoKey := mkProtoKey {
  pk_Id : string;
  pk_Name : string;
  pk_TenantId : string;
  pk_Kind : string;
  pk_ParentId : string;
  pk_ManagedBy : string;
  pk_Labels : Labels;
  pk_LifeCycleState : string;
  pk_CreatedAt : Z;
  pk_UpdatedAt : Z;
  pk_KeyProcessingState : option ProtoProcessingState;
}.

Record AnnounceKeyRequest := mkAnnounceKeyRequest {
  akr_TenantId : string;
  akr_Kind : string;
  akr_Name : string;
  akr_ParentId : string;
  akr_TargetName : string;
  akr_Labels : Labels;
}.

(** [ActivateKeyRequest], [SuspendKeyRequest] and [DeactivateKeyRequest]. *)
Record KeyActionRequest := mkKeyActionRequest {
  kar_TenantId : string;
  kar_Id : string;
  kar_Cascading : bool;
}.

Record ListKeysRequest := mkListKeysRequest {
  lkr_TenantId : string;
  lkr_Name : string;
  lkr_Kind : string;
  lkr_LifeCycleState : string;
  lkr_ManagedBy : string;
  lkr_Labels : Labels;
  lkr_IsOrderByCreatedAtAsc : bool;
  lkr_Cursor : string;
  lkr_Limit : Z;
}.

(** ** Conversions: key_convert.go *)

Definition KeyToProto (k : Key) : ProtoKey :=
  mkProtoKey (k_ID k) (k_Name k) (k_TenantID k) (k_Kind k) (default "" (k_ParentID k)) (k_ManagedBy k)
    (k_Labels k) (k_LifeCycleState k) (k_CreatedAt k) (k_UpdatedAt k)
    (Some (mkProtoProcessingState (ps_Status (k_ProcessingState k)) (ps_JobID (k_ProcessingState k)))).

Definition KeysToProto (ks : list Key) : list ProtoKey := KeyToProto <$> ks.

Definition KeyTreeTraverserToProto (tree : KeyTree) : list (list ProtoKey) :=
  KeysToProto <$> IterKeysByLayerAsc tree.

Definition KeyFromProto (k : ProtoKey) : Key :=
  mkKey (pk_Id k) (pk_Name k) (pk_TenantId k) (pk_Kind k)
    (if String.eqb (pk_ParentId k) "" then None else Some (pk_ParentId k))
    (pk_ManagedBy k) (pk_Labels k) (pk_LifeCycleState k)
    (match pk_KeyProcessingState k with
     | Some ps => mkKeyProcessingState (pps_Status ps) (pps_JobId ps)
     | None => mkKeyProcessingState "" ""
     end)
    (pk_CreatedAt k) (pk_UpdatedAt k).

(** ** The error table: errmap.go *)

Definition errorIsOneOf (err : error) (trgts : list string) : bool := existsb (errors_Is err) trgts.

Definition mapToProtoErr (err : goerror) : goerror :=
  match err with
  | None => None
  | Some err =>
      if errors_Is err ErrTenantNotFound
      then Some (ErrDetailsWithCode FailedPrecondition ERROR_CODE_ABORT)
      else if errorIsOneOf err [ErrKeyNotFound; ErrNoKeysFound]
      then Some (ErrDetailsWithCode NotFound ERROR_CODE_ABORT)
      else if errors_Is err ErrKeyTransientState
      then Some (ErrDetailsWithCode FailedPrecondition ERROR_CODE_ABORT)
      else if errors_Is err ErrParentKeyTransientState
      then Some (ErrDetailsWithCode FailedPrecondition ERROR_CODE_ABORT)
      else if errorIsOneOf err [ErrInvalidKeyKind; ErrNonRootKey; ErrRootKeyParent; ErrParentKeyAdjacency]
      then Some (ErrDetailsWithCode InvalidArgument ERROR_CODE_ABORT)
      else if errors_Is err ErrInvalidParentKey
      then Some (ErrDetailsWithCode FailedPrecondition ERROR_CODE_ABORT)
      else if errors_Is err Lifecycle.ErrInvalidKeyStateTransition
      then Some (ErrDetailsWithCode FailedPrecondition ERROR_CODE_ABORT)
      else if errors_Is err ErrKeyConflict
      then Some (ErrDetailsWithCode FailedPrecondition ERROR_CODE_ABORT)
      else if errors_Is err ErrKeyTransitionRejected
      then Some (ErrDetailsWithCode FailedPrecondition ERROR_CODE_ABORT)
      else if errors_Is err ErrKeyVersionTransitionRejected
      then Some (ErrDetailsWithCode FailedPrecondition ERROR_CODE_ABORT)
      else if errors_Is err ErrParentNoUsableVersion
      then Some (ErrDetailsWithCode FailedPrecondition ERROR_CODE_ABORT)
      else if errors_Is err ErrGenerateAndSealKeyMaterial
      then Some (ErrDetailsWithCode Internal ERROR_CODE_ABORT)
      else if errors_Is err ErrNoEligibleKeys
      then Some (ErrDetailsWithCode FailedPrecondition ERROR_CODE_ABORT)
      else if errors_Is err ErrInternal
      then Some (ErrDetailsWithCode Internal ERROR_CODE_ABORT)
      else if errorIsOneOf err [ErrUpdateKeyState; ErrCreateKeyVersion; ErrUpdateKeyVersionState;
                                ErrGetKey; ErrGetParentKeyVersion]
      then Some (ErrDetailsWithCode Internal ERROR_CODE_RETRY)
      else None
  end.

Definition mappedOrInternal (err : error) : error :=
  match mapToProtoErr (Some err) with
  | Some mapped => mapped
  | None => ErrDetailsWithCode Internal ERROR_CODE_RETRY
  end.

(** ** The service: key_service.go *)

Definition LabelKeyTargetType : string := "krypton/action-target-type".
Definition LabelKeyTargetID : string := "krypton/action-target-id".
Definition LabelKeyCascading : string := "krypton/action-cascading".

Definition invalid_argument : error := ErrDetailsWithCode InvalidArgument ERROR_CODE_ABORT.

(** The [orbital.JobGroup] zero value. *)
Definition no_group : JobGroup := mkJobGroup "" "" [] ∅.

Section key_service.
Context {ENV : Env} {COL : Collation} {CURSOR : CursorCodec} {PREP : JobGroupPreparer} {CODEC : JobCodec}.
Context (config : RootConfig).

(** [KeyService.newKey]. *)
Definition KeyService_newKey (req : AnnounceKeyRequest) : M Key :=
  let parentID := if String.eqb (akr_ParentId req) "" then None else Some (akr_ParentId req) in
  let target := if String.eqb (akr_TargetName req) "" then rc_Name config else akr_TargetName req in
  NewKey (akr_TenantId req) (akr_Name req) (akr_Kind req) parentID target (akr_Labels req).

(** [prepareAnnounceJobGroup]: the group and its preparation. *)
Definition announceJobGroup (newKey : Key) (data : string) : JobGroup :=
  mkJobGroup "" AnnounceKey_type [mkJob AnnounceKey_type data (k_Name newKey)]
    {[LabelKeyTargetType := "TARGET_TYPE_KEY";
      LabelKeyTargetID := k_TenantID newKey +:+ ":" +:+ k_ID newKey;
      LabelKeyCascading := "false"]}.
Definition prepareAnnounceJobGroup (newKey : Key) : M () :=
  match marshal_key newKey with
  | None => throw (EForeign "json")
  | Some data => _ ← PrepareJobGroup (announceJobGroup newKey data); mret ()
  end.

(** [return nil, mappedOrInternal(err)] after a failed transaction. *)
Definition or_mapped {A} (m : M A) : M A :=
  r ← try m;
  match r with
  | inl a => mret a
  | inr err => throw (mappedOrInternal err)
  end.

(** [AnnounceKey]; the steps share [newKey]. *)
Definition KeyService_AnnounceKey (req : AnnounceKeyRequest) : M ProtoKey :=
  match ValidateKeyAnnounceRequest (mkAnnounceInput (akr_TenantId req) (akr_Kind req) (akr_Name req)
          (akr_ParentId req) (akr_TargetName req)) config with
  | Some _ => throw invalid_argument
  | None =>
      newKey ← KeyService_newKey req;
      newKey ← or_mapped (ChainTransaction
        [(λ k, _ ← ValidateTenant (k_TenantID newKey); mret k);
         (λ k, _ ← ValidateKeyHierarchy newKey (rc_Hierarchy config); mret k);
         (λ k, UpsertKey (Some k));
         (λ k, _ ← prepareAnnounceJobGroup k; mret k)] newKey);
      mret (KeyToProto newKey)
  end.

(** The filters of [ActivateKey], [DeactivateKey] and [SuspendKey]. *)
Definition activate_filters : list KeyFilter :=
  [mkKeyFilter KeyLifeCycleActive [KeyProcessingCompleted; KeyProcessingFailed];
   mkKeyFilter KeyLifeCycleSuspended [KeyProcessingCompleted];
   mkKeyFilter KeyLifeCyclePreActivation [KeyProcessingCompleted]].
Definition deactivate_filters : list KeyFilter :=
  [mkKeyFilter KeyLifeCycleDeactivated [KeyProcessingCompleted; KeyProcessingFailed];
   mkKeyFilter KeyLifeCycleActive [KeyProcessingCompleted];
   mkKeyFilter KeyLifeCycleSuspended [KeyProcessingCompleted; KeyProcessingPending; KeyProcessingFailed]].
Definition suspend_filters : list KeyFilter :=
  [mkKeyFilter KeyLifeCycleSuspended [KeyProcessingCompleted; KeyProcessingFailed];
   mkKeyFilter KeyLifeCycleActive [KeyProcessingCompleted]].

(** [ActivateKey]. *)
Definition KeyService_ActivateKey (req : KeyActionRequest) : M string :=
  let tenantID := kar_TenantId req in
  let keyID := kar_Id req in
  match ValidateKeyRequest tenantID keyID with
  | Some _ => throw invalid_argument
  | None =>
      group ← or_mapped (ChainTransaction
        [(λ g, _ ← ValidateTenant tenantID; mret g);
         (λ g, _ ← ValidateKeyParents tenantID keyID; mret g);
         (λ _, ApplyKeyAction (mkApplyKeyActionRequest tenantID keyID activate_filters
                 (kar_Cascading req) false ActivateHandlerConfig))] no_group);
      mret (jg_ID group)
  end.

(** [DeactivateKey]. *)
Definition KeyService_DeactivateKey (req : KeyActionRequest) : M string :=
  let tenantID := kar_TenantId req in
  let keyID := kar_Id req in
  match ValidateKeyRequest tenantID keyID with
  | Some _ => throw invalid_argument
  | None =>
      group ← or_mapped (ChainTransaction
        [(λ g, _ ← ValidateTenant tenantID; mret g);
         (λ _, ApplyKeyAction (mkApplyKeyActionRequest tenantID keyID deactivate_filters
                 (kar_Cascading req) true DeactivateHandlerConfig))] no_group);
      mret (jg_ID group)
  end.

(** [SuspendKey]. *)
Definition KeyService_SuspendKey (req : KeyActionRequest) : M string :=
  let tenantID := kar_TenantId req in
  let keyID := kar_Id req in
  match ValidateKeyRequest tenantID keyID with
  | Some _ => throw invalid_argument
  | None =>
      group ← or_mapped (ChainTransaction
        [(λ g, _ ← ValidateTenant tenantID; mret g);
         (λ _, ApplyKeyAction (mkApplyKeyActionRequest tenantID keyID suspend_filters
                 (kar_Cascading req) true SuspendHandlerConfig))] no_group);
      mret (jg_ID group)
  end.

(** The error of a read: not found, or internal. *)
Definition read_error (notFound : string) (err : error) : error :=
  if errors_Is err notFound then ErrDetailsWithCode NotFound ERROR_CODE_ABORT
  else ErrDetailsWithCode Internal ERROR_CODE_RETRY.

(** [GetKey]. *)
Definition KeyService_GetKey (Id TenantId : string) : M ProtoKey :=
  r ← try (GetKeyByID Id TenantId);
  match r with
  | inr err => throw (read_error ErrKeyNotFound err)
  | inl key => mret (KeyToProto key)
  end.

(** [GetParentKeys]. *)
Definition KeyService_GetParentKeys (Id TenantId : string) : M (list ProtoKey) :=
  r ← try (GetParentKeys Id TenantId);
  match r with
  | inr err => throw (read_error ErrKeyNotFound err)
  | inl ks => mret (KeysToProto ks)
  end.

(** [GetDescendantKeys]. *)
Definition KeyService_GetDescendantKeys (Id TenantId : string) : M (list (list ProtoKey)) :=
  r ← try (GetDescendantKeys (mkGetDescendantKeysQuery Id TenantId []));
  match r with
  | inr err => throw (read_error ErrKeyNotFound err)
  | inl tree => mret (KeyTreeTraverserToProto tree)
  end.

(** [ListKeys]. *)
Definition KeyService_ListKeys (req : ListKeysRequest) : M (list ProtoKey * string) :=
  r ← try (ListKeys (mkListKeysQuery (lkr_TenantId req) (lkr_Name req) (lkr_Kind req)
             (lkr_LifeCycleState req) (lkr_ManagedBy req) (lkr_Labels req)
             (lkr_IsOrderByCreatedAtAsc req) (lkr_Cursor req) (lkr_Limit req)));
  match r with
  | inr err => throw (read_error ErrKeyNotFound err)
  | inl (ks, cursor) => mret (KeysToProto ks, cursor)
  end.
End key_service.

(** ** Conversions round-trip *)

(** A key survives the conversion to its message and back exactly when its
    parent is not the empty string (the message has no other way to say "no
    parent"), and a message survives the way back exactly when it carries a
    processing state. *)
Theorem key_proto_roundtrip k p :
  (KeyFromProto (KeyToProto k) = k ↔ k_ParentID k ≠ Some "") ∧
  (KeyToProto (KeyFromProto p) = p ↔ pk_KeyProcessingState p ≠ None).
Proof.
  destruct k as [? ? ? ? parent ? ? ? [] ? ?], p as [? ? ? ? q ? ? ? ? ? ps]. unfold KeyToProto, KeyFromProto.
  simpl. split.
  - destruct parent as [s|]; simpl; [|naive_solver]. destruct (String.eqb_spec s ""); naive_solver.
  - split; [by intros [= _ <-]|]. destruct ps as [[]|]; [|done]. intros _.
    destruct (String.eqb_spec q ""); simpl; by subst.
Qed.

(** ** Errors *)

Lemma mappedOrInternal_status e : ∃ c d, mappedOrInternal e = ErrDetailsWithCode c d.
Proof.
  unfold mappedOrInternal, mapToProtoErr.
  repeat (match goal with |- context [if ?b then _ else _] => destruct b; [by eexists _, _|] end).
  by eexists _, _.
Qed.

Section rpc.
Context {ENV : Env} {COL : Collation} {CURSOR : CursorCodec} {PREP : JobGroupPreparer} {CODEC : JobCodec}.

Lemma or_mapped_run {A} (m : M A) w :
  or_mapped m w =
  match m w with
  | (Ok a, w') => (Ok a, w')
  | (Err e, w') => (Err (mappedOrInternal e), w')
  | (Panic, w') => (Panic, w')
  | (Diverge, w') => (Diverge, w')
  end.
Proof. unfold or_mapped. rewrite bind_try. by destruct (m w) as [[] ?]. Qed.

(** ** Key actions and the life cycle *)

(** The three actions. *)
Inductive key_op := OpActivate | OpDeactivate | OpSuspend.

Definition run_op (op : key_op) : KeyActionRequest → M string :=
  match op with
  | OpActivate => KeyService_ActivateKey
  | OpDeactivate => KeyService_DeactivateKey
  | OpSuspend => KeyService_SuspendKey
  end.
Definition op_filters (op : key_op) : list KeyFilter :=
  match op with
  | OpActivate => activate_filters
  | OpDeactivate => deactivate_filters
  | OpSuspend => suspend_filters
  end.
Definition op_handler (op : key_op) : HandlerConfig :=
  match op with
  | OpActivate => ActivateHandlerConfig
  | OpDeactivate => DeactivateHandlerConfig
  | OpSuspend => SuspendHandlerConfig
  end.

(** A filter of the action admits the key. *)
Definition admitted (op : key_op) (k : Key) : Prop :=
  ∃ f, f ∈ op_filters op ∧ k_LifeCycleState k = kf_LifeCycleState f ∧ k_Status k ∈ kf_Status f.

(** The row of a key before and after an action: the same, or, for a key the
    action admits and that is not finished yet, moved to the target state
    along the life cycle, and pending. *)
Definition legal_move (op : key_op) (k k' : Key) : Prop :=
  let to := hc_toState (op_handler op) in
  k' = k ∨
  key_identity k' = key_identity k ∧ k_LifeCycleState k' = to ∧ k_Status k' = KeyProcessingPending ∧
  admitted op k ∧ finished to k = false ∧
  (k_LifeCycleState k = to ∨ Lifecycle.ValidateTransition (k_LifeCycleState k) to = None).

(** The state of an eligible key is the state of one of the filters. *)
Lemma eligible_state action k :
  aa_KeyFilters action ≠ [] → (∀ f, f ∈ aa_KeyFilters action → kf_LifeCycleState f ≠ "" ∧ kf_Status f ≠ []) →
  eligible action k = true →
  ∃ f, f ∈ aa_KeyFilters action ∧ k_LifeCycleState k = kf_LifeCycleState f ∧ k_Status k ∈ kf_Status f.
Proof.
  intros Hne Hf. unfold eligible. destruct (aa_Cascading action).
  - unfold matches_filters. destruct (omap _ _) as [|c cs] eqn:E.
    + destruct (aa_KeyFilters action) as [|f fs]; [done|]. exfalso. destruct (Hf f) as [Hs Ht]; [left|].
      simpl in E. unfold filter_condition in E. rewrite (proj2 (String.eqb_neq _ _) Hs) in E. done.
    + rewrite <-E, existsb_exists. intros (c' & Hc & Hk).
      apply list_elem_of_In, list_elem_of_omap in Hc as (f & Hin & Hfc). destruct (Hf f Hin) as [Hs Ht].
      unfold filter_condition in Hfc. rewrite (proj2 (String.eqb_neq _ _) Hs) in Hfc. simpl in Hfc.
      injection Hfc as <-. rewrite (bool_decide_false _ Ht) in Hk. simpl in Hk.
      apply andb_true_iff in Hk as [Hk%String.eqb_eq Hst%bool_decide_eq_true]. eauto.
  - unfold single_matches. rewrite existsb_exists. intros (f & Hin%list_elem_of_In & Hk).
    destruct (Hf f Hin) as [_ Ht]. rewrite (bool_decide_false _ Ht) in Hk. simpl in Hk.
    apply andb_true_iff in Hk as [Hk%String.eqb_eq Hst%bool_decide_eq_true]. eauto.
Qed.

Lemma admitted_legal op k :
  admitted op k →
  k_LifeCycleState k = hc_toState (op_handler op) ∨
  Lifecycle.ValidateTransition (k_LifeCycleState k) (hc_toState (op_handler op)) = None.
Proof.
  intros (f & Hf & -> & _). destruct op; simpl in Hf;
    repeat (apply elem_of_cons in Hf as [->|Hf]; [first [by left|by right]|]);
    by apply elem_of_nil in Hf.
Qed.

(** The action of an operation. *)
Definition op_action (op : key_op) (req : KeyActionRequest) : ApplyKeyActionRequest :=
  mkApplyKeyActionRequest (kar_TenantId req) (kar_Id req) (op_filters op) (kar_Cascading req)
    (match op with OpActivate => false | _ => true end) (op_handler op).

Lemma ApplyKeyAction_legal op req w g w' :
  db_wf (w_db w) → ApplyKeyAction (op_action op req) w = (Ok g, w') →
  w_db w' = set_keys (db_keys (w_db w')) (w_db w) ∧
  ∀ id, match db_keys (w_db w) !! id, db_keys (w_db w') !! id with
        | Some k, Some k' => legal_move op k k'
        | None, None => True
        | _, _ => False
        end.
Proof.
  intros Hwf (kt & w1 & jobs & w2 & Hf & [He Hm] & _)%ApplyKeyAction_Ok; [|done].
  destruct (fetchKeytree_Ok _ _ _ _ Hwf Hf) as [_ Hk]. split; [done|]. intros id. specialize (Hm id).
  destruct (db_keys (w_db w) !! id) as [k|]; [|by rewrite Hm]. destruct Hm as [H1 H2].
  destruct (decide (k ∈ mjoin (action_layers (op_action op req) kt) ∧
                    finished (hc_toState (op_handler op)) k = false)) as [[Hin Hs]|Hn].
  2:{ rewrite H2 by done. by left. }
  destruct H1 as [now ->]; [done|]. right.
  apply list_elem_of_join in Hin as (layer & Hkl & Hl).
  destruct (Hk layer k) as [_ Hel]; [|done|].
  { unfold action_layers in Hl. destruct (aa_BottomUp _); [|done].
    by apply list_elem_of_In, in_rev, list_elem_of_In. }
  assert (admitted op k) as Ha.
  { apply (eligible_state (op_action op req)); [by destruct op| |done]. intros f Hfs.
    destruct op; simpl in Hfs; repeat (apply elem_of_cons in Hfs as [->|Hfs]; [done|]);
      by apply elem_of_nil in Hfs. }
  split_and!; try done. by apply admitted_legal.
Qed.

(** The checks an operation makes before it acts. *)
Definition op_checks (op : key_op) (req : KeyActionRequest) : list (JobGroup → M JobGroup) :=
  match op with
  | OpActivate => [(λ g, _ ← ValidateTenant (kar_TenantId req); mret g);
                   (λ g, _ ← ValidateKeyParents (kar_TenantId req) (kar_Id req); mret g)]
  | _ => [(λ g, _ ← ValidateTenant (kar_TenantId req); mret g)]
  end.

Lemma run_op_eq op req :
  run_op op req =
  match ValidateKeyRequest (kar_TenantId req) (kar_Id req) with
  | Some _ => throw invalid_argument
  | None =>
      group ← or_mapped (ChainTransaction
        (op_checks op req ++ [λ _, ApplyKeyAction (op_action op req)])%list no_group);
      mret (jg_ID group)
  end.
Proof. by destruct op. Qed.

Lemma op_checks_read op req s g : s ∈ op_checks op req → respects (db_rel eq) (s g).
Proof.
  intros Hs. destruct op; simpl in Hs; repeat (apply elem_of_cons in Hs as [->|Hs]; [by solve_respects|]);
    by apply elem_of_nil in Hs.
Qed.

Lemma op_steps_Ok op req g w g' w' :
  foldM (λ a step, step a) g (op_checks op req ++ [λ _, ApplyKeyAction (op_action op req)])%list w
    = (Ok g', w') →
  ∃ w1, w_db w1 = w_db w ∧ ApplyKeyAction (op_action op req) w1 = (Ok g', w').
Proof.
  rewrite foldM_app. intros (g1 & w1 & H1 & H2)%bind_inv_Ok. exists w1. split.
  - assert (respects (db_rel eq) (foldM (λ a step, step a) g (op_checks op req))) as Hr.
    { apply respects_foldM; [apply _|]. intros a s Hs. by apply (op_checks_read op req). }
    specialize (Hr w). rewrite H1 in Hr. symmetry. exact Hr.
  - cbn [foldM] in H2. apply bind_inv_Ok in H2 as (g2 & w2 & H2 & [= <- <-]). exact H2.
Qed.

Lemma op_checks_stop op req d s g : s ∈ op_checks op req → stops d (s g).
Proof.
  assert (∀ t (g : JobGroup), stops d (_ ← ValidateTenant t; mret g)) as Ht.
  { intros t g'. apply (stops_throws d plain). unfold ValidateTenant. solve_throws. }
  assert (∀ t k (g : JobGroup), stops d (_ ← ValidateKeyParents t k; mret g)) as Hp.
  { intros t k g' w <-. unfold ValidateKeyParents. rewrite !bind_run. pose proof (GetParentKeys_spec k t w) as Hs.
    destruct (GetParentKeys k t w) as [[ks| | |] w']; try done; simpl; [by destruct (forallb _ ks)|].
    destruct Hs as (key & Hk%target_stored & Hn). by eapply endless_chain_cyclic. }
  intros Hs. destruct op; simpl in Hs; repeat (apply elem_of_cons in Hs as [->|Hs]; [done|]);
    by apply elem_of_nil in Hs.
Qed.

Lemma op_steps_stop op req g d :
  db_wf d →
  stops d (foldM (λ a step, step a) g (op_checks op req ++ [λ _, ApplyKeyAction (op_action op req)])%list).
Proof.
  intros Hwf w Hw. rewrite foldM_app. revert w Hw. apply stops_bind.
  - apply stops_reads. intros a s Hs. split; [by eapply op_checks_stop|by eapply op_checks_read].
  - apply respects_foldM; [apply _|]. intros a s Hs. by eapply op_checks_read.
  - intros g' w Hw. cbn [foldM]. rewrite bind_run.
    pose proof (ApplyKeyAction_stops d (op_action op req) Hwf w Hw) as Hs.
    by destruct (ApplyKeyAction _ w) as [[] ?].
Qed.

(** C3: activating, suspending or deactivating a key or a tree of keys never
    breaks the key life cycle.  When the call succeeds, only key rows changed,
    and each of them is untouched or belonged to a key the action admits and
    is now pending in the target state, which the life cycle table allows from
    where it was; when the call fails, nothing changed and the error is a
    gRPC status with a detail code.  It never panics, and it comes to an end
    unless the parent references of the table are cyclic. *)
Theorem key_actions_legal op req w :
  db_wf (w_db w) →
  match run_op op req w with
  | (Ok _, w') =>
      w_db w' = set_keys (db_keys (w_db w')) (w_db w) ∧
      ∀ id, match db_keys (w_db w) !! id, db_keys (w_db w') !! id with
            | Some k, Some k' => legal_move op k k'
            | None, None => True
            | _, _ => False
            end
  | (Err e, w') => w_db w' = w_db w ∧ ∃ c d, e = ErrDetailsWithCode c d
  | (Panic, w') => False
  | (Diverge, _) => ¬ acyclic (w_db w)
  end.
Proof.
  intros Hwf. rewrite run_op_eq. destruct (ValidateKeyRequest _ _); [simpl; eauto|].
  rewrite bind_run, or_mapped_run. unfold ChainTransaction.
  destruct (Transaction _ w) as [r w'] eqn:E.
  apply Transaction_cases in E as [(what & -> & Hdb & _)|(w1 & r2 & w2 & Hdb1 & _ & H & _ & Hr)].
  { split; [done|]. apply mappedOrInternal_status. }
  pose proof (op_steps_stop op req no_group (w_db w) Hwf w1 Hdb1) as Hs. rewrite H in Hs.
  destruct r2 as [g|e| |]; simpl in Hs; [|destruct Hr as [-> Hdb]|done|by rewrite Hr].
  - destruct Hr as [[-> Hdb]|(what & -> & Hdb)]; simpl.
    + apply op_steps_Ok in H as (w3 & Hdb3 & H). rewrite Hdb1 in Hdb3.
      apply ApplyKeyAction_legal in H; [|by rewrite Hdb3]. rewrite Hdb, <-Hdb3. done.
    + split; [done|]. apply mappedOrInternal_status.
  - split; [done|]. apply mappedOrInternal_status.
Qed.

(** ** A rejected transition *)

(** A key whose state changed under the action is answered as missing: an
    error of [UpdateKeyState] that says the transition was rejected is mapped
    to [NotFound], also after [ApplyKeyAction] wrapped it, and so the table's
    own entry for a rejected transition is never used for it. *)
Theorem rejected_transition_reported_missing tenantID keyID tr w e w' :
  UpdateKeyState tenantID keyID tr w = (Err e, w') →
  errors_Is e ErrKeyTransitionRejected = true →
  mapToProtoErr (Some e) = Some (ErrDetailsWithCode NotFound ERROR_CODE_ABORT) ∧
  mapToProtoErr (Some (wrap1 e)) = Some (ErrDetailsWithCode NotFound ERROR_CODE_ABORT).
Proof.
  unfold UpdateKeyState. rewrite bind_try. set (q := mkUpdateKeyStatesQuery _ _ _ _ _ _).
  pose proof (UpdateKeyStates_spec q w) as Hs.
  destruct (UpdateKeyStates q w) as [[[]|er| |] w1]; try done.
  destruct Hs as [_ [[-> _]|[what ->]]]; intros [= <- _]; done.
Qed.
End rpc.

Module AdminSamples.
Import Sample StoreSamples OrchestratorSamples.

(** The tree of the sample, activated. *)
Definition settle (id state : string) : list store_call :=
  [CStep (SUpdateKeyStates (mkUpdateKeyStatesQuery id uuid0 state KeyProcessingCompleted
     [KeyLifeCyclePreActivation] [KeyProcessingPending]))].
Definition active_calls : list store_call :=
  (calls ++ settle uuid1 KeyLifeCycleActive ++ settle uuid2 KeyLifeCycleActive)%list.
Definition w2 : world := run_calls active_calls (world0 empty_db).

Lemma w2_wf : db_wf (w_db w2).
Proof. apply (evolves_run_calls active_calls (world0 empty_db)). exact empty_db_wf. Qed.

Definition suspend_tree : KeyActionRequest := mkKeyActionRequest uuid0 uuid1 true.

Lemma key_actions_legal_witness :
  ∃ g w', run_op OpSuspend suspend_tree w2 = (Ok g, w') ∧
    (k_LifeCycleState <$> db_keys (w_db w') !! uuid2) = Some KeyLifeCycleSuspended ∧
    ∀ id, match db_keys (w_db w2) !! id, db_keys (w_db w') !! id with
          | Some k, Some k' => legal_move OpSuspend k k'
          | None, None => True
          | _, _ => False
          end.
Proof.
  assert (is_ok (run_op OpSuspend suspend_tree w2).1 = true ∧
    (k_LifeCycleState <$> db_keys (w_db (run_op OpSuspend suspend_tree w2).2) !! uuid2)
      = Some KeyLifeCycleSuspended) as [E1 E2] by (vm_compute; split; reflexivity).
  pose proof (key_actions_legal OpSuspend suspend_tree w2 w2_wf) as H.
  destruct (run_op OpSuspend suspend_tree w2) as [[g| | |] w']; try discriminate E1.
  exists g, w'. split; [reflexivity|]. split; [exact E2|exact (proj2 H)].
Defined.

Definition stale : Transition :=
  mkTransition [KeyLifeCyclePreActivation] KeyLifeCycleActive [KeyProcessingCompleted] KeyProcessingPending.

Lemma rejected_transition_reported_missing_witness :
  ∃ e w', UpdateKeyState uuid0 uuid1 stale w2 = (Err e, w') ∧
    mapToProtoErr (Some e) = Some (ErrDetailsWithCode NotFound ERROR_CODE_ABORT).
Proof.
  eexists _, _. split; [vm_compute; reflexivity|].
  refine (proj1 (rejected_transition_reported_missing uuid0 uuid1 stale w2 _
    (UpdateKeyState uuid0 uuid1 stale w2).2 _ _)); vm_compute; reflexivity.
Defined.

(** A root key of the root, active. *)
Definition root_key : Key :=
  mkKey uuid1 "master" uuid0 "K0" None "root" ∅ KeyLifeCycleActive
    (mkKeyProcessingState KeyProcessingCompleted "") 0 0.
Definition w3 : world :=
  run_calls [CMigrate "root"; CStep (SUpsertTenant tenant); CStep (SCreateKey root_key)] (world0 empty_db).
Definition announce_again : AnnounceKeyRequest := mkAnnounceKeyRequest uuid0 "K0" "master" "" "" ∅.

(** Announcing again a key that is active, with the same name, kind, parent
    and target, succeeds and puts the active key back into pre-activation and
    pending, a transition the life cycle table forbids. *)
Theorem reannounce_resets_active_key :
  db_keys (w_db w3) !! uuid1 = Some root_key ∧
  ∃ p w', KeyService_AnnounceKey root announce_again w3 = (Ok p, w') ∧
    (k_LifeCycleState <$> db_keys (w_db w') !! uuid1) = Some KeyLifeCyclePreActivation ∧
    ((λ k, k_Status k) <$> db_keys (w_db w') !! uuid1) = Some KeyProcessingPending ∧
    Lifecycle.ValidateTransition KeyLifeCycleActive KeyLifeCyclePreActivation ≠ None.
Proof.
  split; [vm_compute; reflexivity|]. eexists _, _. split; [vm_compute; reflexivity|].
  split; [vm_compute; reflexivity|]. split; [vm_compute; reflexivity|done].
Qed.

(** Announcing the key again with other labels is answered with those labels,
    while the row keeps the ones it was created with. *)
Theorem reannounce_answers_other_labels :
  let labelled := mkAnnounceKeyRequest uuid0 "K0" "master" "" "" {[ "team" := "blue" ]} in
  ∃ p w', KeyService_AnnounceKey root labelled w3 = (Ok p, w') ∧ pk_Id p = uuid1 ∧
    pk_Labels p !! "team" = Some "blue" ∧ (k_Labels <$> db_keys (w_db w') !! uuid1) = Some ∅.
Proof. eexists _, _. split; [vm_compute; reflexivity|]. split_and!; vm_compute; reflexivity. Qed.
End AdminSamples.
