(* ===== verification/AgentServices.v ===== *)
(** * The services of an agent: pkg/api/v1/proto/agents/{tenants,keys,keyversions}

    What the root calls when it pushes tenants, keys and key versions to the
    agent that manages them.  They run on the agent's own database. *)

From S2P Require Import Prelude GoStrings GoRuntime Model World Lifecycle Providers Hierarchy.
From S2P Require Import Config Sql KeyStore KeyVersionStore StoreInvariant StoreTheorems Validator.
From S2P Require Import KeyOperator Orchestrator TaskTheorems AdminKeys.

Local Open Scope string_scope.

Definition codeInternalWithRetry : error := ErrDetailsWithCode Internal ERROR_CODE_RETRY.
Definition codeFailedWithAbort : error := ErrDetailsWithCode FailedPrecondition ERROR_CODE_ABORT.

Section services.
Context {ENV : Env} {MGR : KeyManager}.

(** ** Tenants: tenants/service.go *)

(** [model.NewTenant] with the identifier of the request. *)
Definition set_tenant_id (id : string) (t : Tenant) : Tenant :=
  mkTenant id (t_Name t) (t_Labels t) (t_CreatedAt t) (t_UpdatedAt t).

Definition TenantService_UpsertTenant (req : UpsertTenantRequest) : M () :=
  match ValidateUpsertTenant (utr_Id req) (utr_Name req) with
  | Some _ => throw invalid_argument
  | None =>
      match ValidateUserLabels (utr_Labels req) with
      | Some _ => throw invalid_argument
      | None =>
          r ← try (ChainTransaction
            [λ _, t ← NewTenant (utr_Name req) (utr_Labels req);
                  _ ← UpsertTenant (set_tenant_id (utr_Id req) t); mret ()] ());
          match r with
          | inl _ => mret ()
          | inr _ => throw codeInternalWithRetry
          end
      end
  end.

(** ** Keys: keys/service.go, keys/errmap.go *)

Definition agent_mapToProtoErr (err : error) : error :=
  if errors_Is err ErrTenantNotFound then codeFailedWithAbort
  else if errors_Is err ErrKeyConflict then codeFailedWithAbort
  else codeInternalWithRetry.

(** [newKey]: the parent is set, also when it is empty. *)
Definition agent_newKey (req : UpsertKeyRequest) : M Key :=
  now ← clock_Now;
  mret (mkKey (ukr_KeyId req) (ukr_Name req) (ukr_TenantId req) (ukr_Kind req) (Some (ukr_ParentId req))
    (ukr_ManagedBy req) (ukr_Labels req) (ukr_LifecycleState req)
    (mkKeyProcessingState KeyProcessingCompleted "") now now).

Definition Service_UpsertKey (req : UpsertKeyRequest) : M () :=
  match ValidateKeyUpsert (mkUpsertKeyInput (ukr_TenantId req) (ukr_KeyId req) (ukr_Kind req)
          (ukr_Name req) (ukr_ManagedBy req) (ukr_ParentId req) (ukr_LifecycleState req)) with
  | Some _ => throw invalid_argument
  | None =>
      match ValidateUserLabels (ukr_Labels req) with
      | Some _ => throw invalid_argument
      | None =>
          newKey ← agent_newKey req;
          r ← try (ChainTransaction
            [(λ k, _ ← ValidateTenant (k_TenantID newKey); mret k);
             (λ k, UpsertKey (Some k))] newKey);
          match r with
          | inl _ => mret ()
          | inr err => throw (agent_mapToProtoErr err)
          end
      end
  end.

(** ** Key versions: keyversions/service.go *)

Definition agent_newKeyVersion (req : UpsertKeyVersionRequest) : M KeyVersion :=
  let pkid := if String.eqb (uvr_ParentId req) "" then None else Some (uvr_ParentId req) in
  let pv := if (uvr_ParentVersion req =? 0)%Z then None else Some (uvr_ParentVersion req) in
  now ← clock_Now;
  mret (mkKeyVersion (uvr_TenantId req) (uvr_KeyId req) (uvr_Version req) (uvr_Revision req)
    pkid pv (uvr_LifecycleState req) (uvr_ProcessingState req) (uvr_Labels req) now now).

Definition agent_validateTenant (tenantID : string) : M () :=
  r ← try (ValidateTenant tenantID);
  match r with
  | inl _ => mret ()
  | inr err => if errors_Is err ErrTenantNotFound then throw codeFailedWithAbort
               else throw codeInternalWithRetry
  end.

Definition fetchKey (keyID tenantID : string) : M Key :=
  r ← try (GetKeyByID keyID tenantID);
  match r with
  | inl key => mret key
  | inr err => if errors_Is err ErrKeyNotFound then throw codeFailedWithAbort
               else throw codeInternalWithRetry
  end.

Definition ensureKeyState (key req : KeyLifeCycleState) : goerror :=
  if String.eqb key req then None else Some codeFailedWithAbort.

(** [fetchKeyVersion]: the stored version, when there is one. *)
Definition fetchKeyVersion (kv : KeyVersion) : M (option KeyVersion) :=
  r ← try (GetKeyVersion (kv_TenantID kv) (kv_KeyID kv) (kv_Version kv) (kv_Revision kv));
  match r with
  | inl x => mret (Some x)
  | inr err => if negb (errors_Is err ErrKeyVersionNotFound) then throw codeInternalWithRetry
               else mret None
  end.

Definition updateKeyVersion (oldkv newkv : KeyVersion) : M () :=
  r ← try (UpdateKeyVersionStates (mkUpdateKeyVersionStatesQuery (kv_TenantID newkv) (kv_KeyID newkv)
             (kv_Version newkv) (kv_Revision newkv) [kv_ProcessingState oldkv] (kv_ProcessingState newkv)
             [kv_LifeCycleState oldkv] (kv_LifeCycleState newkv)));
  match r with inl _ => mret () | inr _ => throw codeInternalWithRetry end.

Definition createKeyVersion (rkv : KeyVersion) : M () :=
  r ← try (CreateKeyVersion rkv);
  match r with inl _ => mret () | inr _ => throw codeInternalWithRetry end.

Definition generateAndSealSecret (kv : KeyVersion) (kind : KeyKind) : M () :=
  r ← try (GenerateAndSealSecret kv (AAD kv) kind);
  match r with inl _ => mret () | inr _ => throw codeInternalWithRetry end.

(** The second step of [UpsertKeyVersion]. *)
Definition upsert_version_step (rkv : KeyVersion) : M () :=
  k ← fetchKey (kv_KeyID rkv) (kv_TenantID rkv);
  _ ← check (ensureKeyState (k_LifeCycleState k) (kv_LifeCycleState rkv));
  fkv ← fetchKeyVersion rkv;
  match fkv with
  | Some fkv => updateKeyVersion fkv rkv
  | None =>
      _ ← createKeyVersion rkv;
      generateAndSealSecret rkv (k_Kind k)
  end.

(** [UpsertKeyVersion]: the error of the transaction is returned as it is. *)
Definition Service_UpsertKeyVersion (req : UpsertKeyVersionRequest) : M () :=
  match ValidateUpsertKeyVersionRequest (mkUpsertKeyVersionInput (uvr_TenantId req) (uvr_KeyId req)
          (uvr_Version req) (uvr_Revision req) (uvr_ParentId req) (uvr_ParentVersion req)
          (uvr_LifecycleState req) (uvr_ProcessingState req)) with
  | Some _ => throw invalid_argument
  | None =>
      match ValidateUserLabels (uvr_Labels req) with
      | Some _ => throw invalid_argument
      | None =>
          rkv ← agent_newKeyVersion req;
          ChainTransaction
            [(λ _, agent_validateTenant (kv_TenantID rkv));
             (λ _, upsert_version_step rkv)] ()
      end
  end.
End services.

(** ** Tenants of the root: admin/tenant_service.go, admin/tenant_convert.go *)

Record ProtoTenant := mkProtoTenant {
  pt_Id : string;
  pt_Name : string;
  pt_Labels : Labels;
  pt_CreatedAt : Z;
  pt_UpdatedAt : Z;
}.

Definition TenantToProto (t : Tenant) : ProtoTenant :=
  mkProtoTenant (t_ID t) (t_Name t) (t_Labels t) (t_CreatedAt t) (t_UpdatedAt t).
Definition TenantFromProto (t : ProtoTenant) : Tenant :=
  mkTenant (pt_Id t) (pt_Name t) (pt_Labels t) (pt_CreatedAt t) (pt_UpdatedAt t).
Definition TenantsToProto (ts : list Tenant) : list ProtoTenant := TenantToProto <$> ts.
Definition TenantsFromProto (ts : list ProtoTenant) : list Tenant := TenantFromProto <$> ts.

Section admin_tenants.
Context {ENV : Env}.

Definition AdminTenant_CreateTenant (Name : string) (labels : Labels) : M ProtoTenant :=
  tenant ← NewTenant Name labels;
  r ← try (UpsertTenant tenant);
  match r with
  | inl t => mret (TenantToProto t)
  | inr _ => throw codeInternalWithRetry
  end.

Definition AdminTenant_GetTenant (Id : string) : M ProtoTenant :=
  r ← try (GetTenant Id);
  match r with
  | inl t => mret (TenantToProto t)
  | inr err => throw (read_error ErrTenantNotFound err)
  end.

Definition AdminTenant_ListTenants : M (list ProtoTenant) :=
  r ← try ListTenants;
  match r with
  | inl ts => mret (TenantsToProto ts)
  | inr _ => throw codeInternalWithRetry
  end.
End admin_tenants.

(** ** What an agent promises for a key version *)

Section promises.
Context {ENV : Env} {MGR : KeyManager}.

Lemma plain_GetKeyVersion t k v r : throws_plain (GetKeyVersion t k v r).
Proof.
  unfold GetKeyVersion. solve_throws;
    first [apply plain_arg_uuid|apply plain_arg_int4|apply plain_statement|apply plain_get_db].
Qed.

(** Exactly this version was written, with the requested states. *)
Definition stored_version (rkv : KeyVersion) (d d' : DB) : Prop :=
  ∃ t key kv, uuid_column (kv_TenantID rkv) = Some t ∧ uuid_column (kv_KeyID rkv) = Some key ∧
    d' = set_kvs (<[(t, key, kv_Version rkv, kv_Revision rkv) := kv]> (db_kvs d)) d ∧
    kv_LifeCycleState kv = kv_LifeCycleState rkv ∧ kv_ProcessingState kv = kv_ProcessingState rkv.

Lemma updateKeyVersion_spec old rkv w :
  match updateKeyVersion old rkv w with
  | (Ok _, w') => stored_version rkv (w_db w) (w_db w')
  | (Err e, _) => e = codeInternalWithRetry
  | _ => False
  end.
Proof.
  unfold updateKeyVersion. rewrite bind_try. set (q := mkUpdateKeyVersionStatesQuery _ _ _ _ _ _ _ _).
  pose proof (plain_UpdateKeyVersionStates q w) as Hp.
  destruct (UpdateKeyVersionStates q w) as [[a|e| |] w'] eqn:E; try done.
  apply UpdateKeyVersionStates_Ok in E as (t & key & kv & now & Ht & Hk & _ & _ & Hdb).
  simpl. exists t, key. eexists. by split_and!.
Qed.

Lemma create_and_seal_spec rkv kind w :
  match (_ ← createKeyVersion rkv; generateAndSealSecret rkv kind) w with
  | (Ok _, w') => stored_version rkv (w_db w) (w_db w')
  | (Err e, _) => e = codeInternalWithRetry
  | _ => False
  end.
Proof.
  rewrite bind_run. unfold createKeyVersion. rewrite bind_try.
  pose proof (plain_CreateKeyVersion rkv w) as Hp.
  destruct (CreateKeyVersion rkv w) as [[a|e| |] w1] eqn:E; try done.
  apply CreateKeyVersion_Ok in E as (_ & t & key & p & row & Ht & Hk & -> & Hdb).
  simpl. unfold generateAndSealSecret.
  destruct ((try _ ≫= _) w1) as [r w'] eqn:E. apply bind_outbound in E as (w2 & v & E & Hdb2 & _ & _);
    [|apply GenerateAndSealSecret_outbound].
  destruct v; injection E as <- <-; [|done]. exists t, key. eexists. rewrite Hdb2, Hdb. by split_and!.
Qed.

Lemma upsert_version_step_spec rkv w :
  match upsert_version_step rkv w with
  | (Ok _, w') =>
      (∃ k, target (w_db w) (kv_KeyID rkv) (kv_TenantID rkv) = Some k ∧
            k_LifeCycleState k = kv_LifeCycleState rkv) ∧
      stored_version rkv (w_db w) (w_db w')
  | (Err e, _) => e = codeInternalWithRetry ∨
      ∀ k, target (w_db w) (kv_KeyID rkv) (kv_TenantID rkv) = Some k →
           k_LifeCycleState k ≠ kv_LifeCycleState rkv
  | _ => False
  end.
Proof.
  unfold upsert_version_step. rewrite bind_run. unfold fetchKey. rewrite bind_try.
  pose proof (GetKeyByID_spec (kv_KeyID rkv) (kv_TenantID rkv) w) as Hs.
  destruct (GetKeyByID _ _ w) as [[k|e| |] w1]; try done; destruct Hs as [Hdb Hs].
  2:{ destruct Hs as [[-> Hs]|[what ->]]; simpl; [right|by left]. intros k. by rewrite Hs. }
  simpl. rewrite bind_run. unfold ensureKeyState.
  destruct (String.eqb_spec (k_LifeCycleState k) (kv_LifeCycleState rkv)) as [Hst|Hst]; simpl.
  2:{ right. intros x. rewrite Hs. by intros [= <-]. }
  rewrite bind_run. unfold fetchKeyVersion. rewrite bind_try.
  pose proof (plain_GetKeyVersion (kv_TenantID rkv) (kv_KeyID rkv) (kv_Version rkv) (kv_Revision rkv) w1) as Hp.
  pose proof (db_rel_GetKeyVersion eq (kv_TenantID rkv) (kv_KeyID rkv) (kv_Version rkv) (kv_Revision rkv) w1) as Hg.
  destruct (GetKeyVersion _ _ _ _ w1) as [[x|e| |] w2]; try done; unfold db_rel in Hg; simpl in Hg;
    rewrite Hdb in Hg; simpl.
  - pose proof (updateKeyVersion_spec x rkv w2) as Hu. rewrite <-Hg in Hu.
    destruct (updateKeyVersion x rkv w2) as [[]]; eauto.
  - destruct (errors_Is e ErrKeyVersionNotFound); simpl; [|by left].
    pose proof (create_and_seal_spec rkv (k_Kind k) w2) as Hu. rewrite <-Hg in Hu.
    destruct ((createKeyVersion rkv ≫= _) w2) as [[]]; eauto.
Qed.

Lemma agent_validateTenant_spec t w :
  match agent_validateTenant t w with
  | (Ok _, w') => w_db w' = w_db w
  | (Err e, _) => e = codeInternalWithRetry ∨ missing_tenant (w_db w) t
  | _ => False
  end.
Proof.
  unfold agent_validateTenant, ValidateTenant. rewrite bind_try, bind_run.
  pose proof (GetTenant_cases t w) as Hs. pose proof (plain_GetTenant t w) as Hp.
  destruct (GetTenant t w) as [[x|e| |] w1]; simpl in *; try done.
  destruct (errors_Is e ErrTenantNotFound); simpl; eauto.
Qed.

(** A request the agent will never accept, whatever it is asked again. *)
Definition rejected_version (req : UpsertKeyVersionRequest) : Prop :=
  ValidateUserLabels (uvr_Labels req) ≠ None ∨
  ValidateUpsertKeyVersionRequest (mkUpsertKeyVersionInput (uvr_TenantId req) (uvr_KeyId req)
    (uvr_Version req) (uvr_Revision req) (uvr_ParentId req) (uvr_ParentVersion req)
    (uvr_LifecycleState req) (uvr_ProcessingState req)) ≠ None.

(** The agent's [UpsertKeyVersion] returns.  When it succeeds, the key
    exists in the state of the request, and exactly one row changed: the
    addressed version, which now has the requested states.  When it fails,
    nothing changed in the database, and the error tells the root to give up
    only if the request is malformed, its tenant or key does not exist, or the
    key is in another state. *)
Theorem upsert_key_version_outcome req w :
  match Service_UpsertKeyVersion req w with
  | (Ok _, w') =>
      (∃ k, target (w_db w) (uvr_KeyId req) (uvr_TenantId req) = Some k ∧
            k_LifeCycleState k = uvr_LifecycleState req) ∧
      ∃ t key kv, uuid_column (uvr_TenantId req) = Some t ∧ uuid_column (uvr_KeyId req) = Some key ∧
        w_db w' = set_kvs (<[(t, key, uvr_Version req, uvr_Revision req) := kv]> (db_kvs (w_db w))) (w_db w) ∧
        kv_LifeCycleState kv = uvr_LifecycleState req ∧ kv_ProcessingState kv = uvr_ProcessingState req
  | (Err e, w') =>
      w_db w' = w_db w ∧
      (Retryable e = false →
       rejected_version req ∨ missing_tenant (w_db w) (uvr_TenantId req) ∨
       ∀ k, target (w_db w) (uvr_KeyId req) (uvr_TenantId req) = Some k →
            k_LifeCycleState k ≠ uvr_LifecycleState req)
  | _ => False
  end.
Proof.
  unfold Service_UpsertKeyVersion, rejected_version. destruct (ValidateUpsertKeyVersionRequest _); [simpl; eauto|].
  destruct (ValidateUserLabels _); [simpl; eauto|].
  rewrite bind_run. unfold agent_newKeyVersion. rewrite bind_clock_Now. simpl. unfold ChainTransaction.
  set (rkv := mkKeyVersion _ _ _ _ _ _ _ _ _ _ _). set (steps := [_; _]).
  destruct (Transaction (foldM (λ a step, step a) () steps) (tick w)) as [r w'] eqn:E.
  apply Transaction_cases in E as [(what & -> & Hdb & _)|(w1 & r2 & w2 & Hdb1 & _ & E & _ & H)]; [done|].
  unfold steps in E. cbn [foldM] in E. rewrite bind_run in E.
  pose proof (agent_validateTenant_spec (kv_TenantID rkv) w1) as Hv.
  destruct (agent_validateTenant _ w1) as [[[]|e| |] w3]; try done.
  2:{ injection E as <- <-. destruct H as [-> H]. split; [done|]. intros Hr. destruct Hv as [->|Hv]; [done|].
      rewrite Hdb1 in Hv. eauto. }
  rewrite bind_run in E. pose proof (upsert_version_step_spec rkv w3) as Hs. rewrite Hv, Hdb1 in Hs.
  destruct (upsert_version_step rkv w3) as [[[]|e| |] w4]; try done; injection E as <- <-.
  - destruct H as [[-> Hdb]|(what & -> & Hdb)]; [|done]. rewrite Hdb. exact Hs.
  - destruct H as [-> H]. split; [done|]. intros Hr. destruct Hs as [->|Hs]; [done|]. right. right. exact Hs.
Qed.
End promises.

Module AgentServiceSamples.
Import Sample StoreSamples OrchestratorSamples.

(** The first version of a key the agent was told about. *)
Definition first_version : UpsertKeyVersionRequest :=
  mkUpsertKeyVersionRequest uuid0 uuid1 1 1 "" 0 KeyLifeCyclePreActivation KeyVersionUsable ∅.

Lemma upsert_key_version_outcome_witness :
  ∃ w', Service_UpsertKeyVersion first_version w1 = (Ok (), w') ∧
    ∃ k, target (w_db w1) uuid1 uuid0 = Some k ∧ k_LifeCycleState k = KeyLifeCyclePreActivation.
Proof.
  pose proof (upsert_key_version_outcome first_version w1) as H.
  assert (is_ok (Service_UpsertKeyVersion first_version w1).1 = true) as E by (vm_compute; reflexivity).
  destruct (Service_UpsertKeyVersion first_version w1) as [[[]| | |] w']; try discriminate E.
  exists w'. split; [reflexivity|]. exact (proj1 H).
Defined.
End AgentServiceSamples.
