(* ===== verification/RemoteKeys.v ===== *)
(** * Keys that live on an agent

    The key task of the root (internal/orchestrator) composed with the services
    of the agent it calls (pkg/api/v1/proto/agents/keys and keyversions).  The
    root and the agent each have a process, an environment and a database of
    their own; the connection between them is what [served_by] says: a call that
    succeeds was served by the agent, whose database has only grown since. *)

From S2P Require Import Prelude GoStrings GoRuntime Model World Lifecycle Providers Hierarchy.
From S2P Require Import Config Sql KeyStore KeyVersionStore StoreInvariant StoreTheorems Validator.
From S2P Require Import KeyOperator Orchestrator KeyAction TaskTheorems AgentServices.

Local Open Scope string_scope.

Module RemoteKeys.

(** ** What the agent stores *)

Lemma AAD_kv_id a b : kv_id a = kv_id b → AAD a = AAD b.
Proof. unfold kv_id, AAD. intros [= -> -> -> ->]. done. Qed.

Lemma wrap32_int4 z : int4_ok z = true → wrap32 z = z.
Proof. unfold int4_ok, wrap32. intros [H1%Z.leb_le H2%Z.leb_le]%andb_true_iff. rewrite Z.mod_small; lia. Qed.

Section agent.
Context {ENV : Env} {MGR : KeyManager}.

(** The identifiers of a request are those its row will have. *)
Definition canonical_request (r : UpsertKeyRequest) : Prop :=
  uuid_column (ukr_KeyId r) = Some (ukr_KeyId r) ∧ uuid_column (ukr_TenantId r) = Some (ukr_TenantId r) ∧
  uuid_column (ukr_ParentId r) = Some (ukr_ParentId r).

Lemma Service_UpsertKey_Ok r w w' :
  db_wf (w_db w) → canonical_request r → Service_UpsertKey r w = (Ok (), w') →
  ∃ id row, db_keys (w_db w') !! id = Some row ∧
    key_identity row = (ukr_Name r, ukr_TenantId r, ukr_ManagedBy r, ukr_Kind r, Some (ukr_ParentId r)).
Proof.
  intros Hwf (Hi & Ht & Hp). unfold Service_UpsertKey. destruct (ValidateKeyUpsert _); [done|].
  destruct (ValidateUserLabels _); [done|]. unfold agent_newKey. intros (k & w1 & Hk & H)%bind_inv_Ok.
  rewrite bind_clock_Now in Hk. injection Hk as <- <-. rewrite bind_try in H. unfold ChainTransaction in H.
  set (steps := [_; _]) in H. destruct (Transaction _ _) as [[x| | |] w2] eqn:E in H; try done.
  injection H as <-. apply Transaction_Ok in E as (w3 & w4 & E & Hdb & ->). unfold steps in E. cbn [foldM] in E.
  apply bind_inv_Ok in E as (y & w5 & Hv & E). apply bind_inv_Ok in Hv as ([] & w6 & Hv & [= <- <-]).
  pose proof (db_rel_ValidateTenant eq (ukr_TenantId r) w3) as Hd. cbn [k_TenantID] in Hv. rewrite Hv in Hd.
  unfold db_rel in Hd. simpl in Hd. apply bind_inv_Ok in E as (z & w7 & E & [= <- <-]).
  apply upsert_key_stored in E as (_ & row & Hrow & Hid & _).
  - exists (k_ID z), row. done.
  - rewrite <-Hd, Hdb. done.
  - unfold stored_key. simpl. by rewrite Hi, Ht, Hp.
Qed.

Lemma evolves_upsert_version_step kv : respects (db_rel db_evolves) (upsert_version_step kv).
Proof.
  unfold upsert_version_step, fetchKey, fetchKeyVersion, updateKeyVersion, createKeyVersion, generateAndSealSecret.
  solve_respects.
Qed.

Lemma evolves_agent_validateTenant t : respects (db_rel db_evolves) (agent_validateTenant t).
Proof. unfold agent_validateTenant. solve_respects. Qed.

Lemma evolves_Service_UpsertKeyVersion r : respects (db_rel db_evolves) (Service_UpsertKeyVersion r).
Proof.
  unfold Service_UpsertKeyVersion, agent_newKeyVersion. solve_respects.
  apply db_rel_ChainTransaction; [apply _|]. intros s x Hs.
  rewrite !elem_of_cons, elem_of_nil in Hs; destruct Hs as [-> | [-> |[]]]; [apply evolves_agent_validateTenant|apply evolves_upsert_version_step].
Qed.

Lemma evolves_Service_UpsertKey r : respects (db_rel db_evolves) (Service_UpsertKey r).
Proof.
  unfold Service_UpsertKey, agent_newKey. solve_respects. apply db_rel_ChainTransaction; [apply _|].
  intros s k Hs. rewrite !elem_of_cons, elem_of_nil in Hs; destruct Hs as [-> | [-> |[]]]; solve_respects.
Qed.

(** The key is there in the state of the version, and the version has the
    requested states. *)
Lemma Service_UpsertKeyVersion_Ok r w w' :
  Service_UpsertKeyVersion r w = (Ok (), w') →
  ∃ t key k kv, uuid_column (uvr_TenantId r) = Some t ∧ uuid_column (uvr_KeyId r) = Some key ∧
    db_keys (w_db w') !! key = Some k ∧ k_TenantID k = t ∧ k_LifeCycleState k = uvr_LifecycleState r ∧
    db_kvs (w_db w') !! (t, key, uvr_Version r, uvr_Revision r) = Some kv ∧
    kv_LifeCycleState kv = uvr_LifecycleState r ∧ kv_ProcessingState kv = uvr_ProcessingState r.
Proof.
  intros H. pose proof (upsert_key_version_outcome r w) as Hs. rewrite H in Hs.
  destruct Hs as [(k & Hk & Hst) (t & key & kv & Ht & Hkey & Hdb & Hl & Hp)].
  unfold target, find_key in Hk. rewrite Hkey, Ht in Hk. simpl in Hk.
  destruct (db_keys (w_db w) !! key) as [x|] eqn:Hx; [|done].
  destruct (String.eqb_spec (k_TenantID x) t) as [Hxt|]; [|done]. injection Hk as ->.
  exists t, key, k, kv. rewrite Hdb. simpl. rewrite lookup_insert_eq. by split_and!.
Qed.
End agent.

(** ** The root and the agent *)

Section deployment.
Context {ENV : Env} {MGR : KeyManager} {AGENTS : RemoteAgents} {CODEC : JobCodec} (cfg : KeyOperatorConfig).
Context (AENV : Env) (AMGR : KeyManager).

(** The connection to the agent [a], whose database is [d] now. *)
Record served_by (a : string) (d : DB) : Prop := {
  served_key : ∀ r w, (RemoteUpsertKey a r w).1 = Ok () →
    ∃ wa, db_wf (w_db wa) ∧ (Service_UpsertKey (ENV:=AENV) r wa).1 = Ok () ∧
      db_grows (w_db (Service_UpsertKey (ENV:=AENV) r wa).2) d;
  served_version : ∀ r w, (RemoteUpsertKeyVersion a r w).1 = Ok () →
    ∃ wa, (Service_UpsertKeyVersion (ENV:=AENV) (MGR:=AMGR) r wa).1 = Ok () ∧
      db_grows (w_db (Service_UpsertKeyVersion (ENV:=AENV) (MGR:=AMGR) r wa).2) d;
}.

(** The identifier of the key was given to no other key of the agent. *)
Definition not_reused (k : Key) (d : DB) : Prop := ∀ x, db_keys d !! k_ID k = Some x → k_Name x = k_Name k.

(** The agent has the key and the version of it that the root has: the same
    key under the same identifier, the version with the same authenticated data;
    and when it had answered, both were in the life cycle state of the root's
    key and the version was usable. *)
Definition replicated (k : Key) (kv : KeyVersion) (d : DB) : Prop :=
  (∃ x, db_keys d !! k_ID k = Some x ∧ key_identity x = key_identity k) ∧
  (∃ v, db_kvs d !! kv_id kv = Some v ∧ AAD v = AAD kv) ∧
  ∃ da x v, db_grows da d ∧ db_keys da !! k_ID k = Some x ∧ k_LifeCycleState x = k_LifeCycleState k ∧
    db_kvs da !! kv_id kv = Some v ∧ kv_LifeCycleState v = k_LifeCycleState k ∧
    kv_ProcessingState v = KeyVersionUsable.

(** The parent a root stores is an identifier. *)
Lemma current_parent d k p :
  current d k → enforces_parents d = true → k_ParentID k = Some p → uuid_column p = Some p.
Proof.
  intros [Hwf Hk] He Hp. pose proof (wf_key_refs _ Hwf _ _ Hk) as Hr. unfold key_refs_ok in Hr.
  rewrite He, Hp in Hr. apply andb_true_iff in Hr as [_ Hr]. destruct (db_keys d !! p) as [x|] eqn:E; [|done].
  by apply (wf_key_id _ Hwf) in E as [_ ?].
Qed.

(** A key without a parent is refused by an agent. *)
Lemma served_parent k w :
  (Service_UpsertKey (ENV:=AENV) (toUpsertRequest k) w).1 = Ok () → ∃ p, k_ParentID k = Some p.
Proof.
  unfold Service_UpsertKey, ValidateKeyUpsert. cbn [ukr_ParentId toUpsertRequest ui_ParentID].
  destruct (k_ParentID k) as [p|]; [eauto|]. repeat (case_match; try done).
Qed.

Lemma acknowledged_replicated k kv rc d d0 :
  current d0 k → enforces_parents d0 = true → usable_for k kv →
  int4_ok (kv_Version kv) = true → int4_ok (kv_Revision kv) = true →
  ko_RootConfig cfg = Some rc → k_ManagedBy k ≠ rc_Name rc → acknowledged cfg k kv →
  db_wf d → served_by (k_ManagedBy k) d → not_reused k d → replicated k kv d.
Proof.
  intros Hc He (Ut & Uk & Ul & Up) Iv Ir Hrc Hm Hack Hwf [Hsk Hsv] Hn.
  destruct (Hack rc Hrc Hm) as [[w1 Hk] [w2 Hv]]. clear Hack.
  apply Hsk in Hk as (wa & Hwa & Hk & Gk). apply Hsv in Hv as (wb & Hv & Gv).
  destruct (served_parent _ _ Hk) as [p Hp].
  destruct (Service_UpsertKey _ wa) as [rk wk] eqn:Ek. simpl in Hk, Gk. subst rk.
  destruct (Service_UpsertKeyVersion _ wb) as [rv wv] eqn:Ev. simpl in Hv, Gv. subst rv.
  apply Service_UpsertKey_Ok in Ek as (id & row & Hrow & Hid); [|done|].
  2:{ unfold canonical_request. simpl. rewrite Hp. simpl.
      split_and!; [by eapply current_id|by eapply current_tenant|by eapply current_parent]. }
  apply Service_UpsertKeyVersion_Ok in Ev as (t & key & x & v & Ht & Hkey & Hx & Hxt & Hxs & Hv & Hvl & Hvp).
  simpl in *. rewrite !wrap32_int4 in Hv by done. rewrite Ut, (current_tenant _ _ Hc) in Ht. injection Ht as <-.
  rewrite Uk, (current_id _ _ Hc) in Hkey. injection Hkey as <-.
  destruct (grows_keys _ _ Gk _ _ Hrow) as (row' & Hrow' & _ & Hid' & _).
  destruct (grows_keys _ _ Gv _ _ Hx) as (x' & Hx' & _ & Hxi & _).
  assert (kv_id kv = (k_TenantID k, k_ID k, kv_Version kv, kv_Revision kv)) as Hkv by (unfold kv_id; congruence).
  destruct (grows_kvs _ _ Gv _ _ Hv) as (v' & Hv' & _). split_and!.
  - exists x'. split; [done|]. rewrite Hp in Hid. simpl in Hid.
    assert (key_identity row' = key_identity k) as Hr by (unfold key_identity in *; congruence).
    assert (k_TenantID x' = k_TenantID k) as Hxt' by (unfold key_identity in Hxi; congruence).
    pose proof (Hn _ Hx') as Hname. pose proof Hr as Hr2. unfold key_identity in Hr2.
    assert (id = k_ID k) as -> by (eapply (wf_key_names _ Hwf); [done..|congruence|congruence]). congruence.
  - exists v'. rewrite Hkv. split; [done|]. apply AAD_kv_id. rewrite Hkv. by apply (wf_kv_id _ Hwf).
  - exists (w_db wv), x, v. rewrite Hkv. split_and!; congruence.
Qed.

(** C6: a key that a task of the root has completed is on the agent that manages
    it.  When the task of a due key ends with "complete" and the key is managed
    by an agent, the root has a usable version of the key in its database, and
    the agent has that key, under the same identifier and with the same name,
    tenant, kind and parent, and that version, with the same authenticated data;
    when it answered, both were in the life cycle state that the root moved
    the key to. *)
Theorem completed_key_is_on_agent hc data kid k rc w w' d :
  db_wf (w_db w) → enforces_parents (w_db w) = true →
  unmarshal_id data = Some kid → target (w_db w) (ki_ID kid) (ki_TenantID kid) = Some k → task_due hc k = true →
  ko_RootConfig cfg = Some rc → k_ManagedBy k ≠ rc_Name rc →
  db_wf d → served_by (k_ManagedBy k) d → not_reused k d →
  Handle cfg hc data w = (Ok (), w') → last (w_resp w') = Some RComplete →
  ∃ kv, db_kvs (w_db w') !! kv_id kv = Some kv ∧ usable_for k kv ∧ replicated k kv d.
Proof.
  intros Hwf He Hkid Hk Hdue Hrc Hm Hd Hs Hn Hrun Hlast.
  destruct (Handle_handled cfg hc data w Hwf) as (w1 & x & Hrun1 & Hx & Hh). rewrite Hrun in Hrun1.
  injection Hrun1 as <-. rewrite Hlast in Hx. injection Hx as <-.
  destruct Hh as (kid' & k' & Hkid' & Hk' & Hh). rewrite Hkid in Hkid'. injection Hkid' as <-.
  rewrite Hk in Hk'. injection Hk' as <-. destruct Hh as [[Hf _]|(_ & _ & kv & (Hu & Iv & Ir & row & Hrow & Hid & Hur) & Ha)];
    [congruence|].
  exists row. rewrite Hid. split_and!; [done..|].
  assert (replicated k kv d) as Hr.
  { eapply acknowledged_replicated; try done. by eapply target_current. }
  unfold replicated in *. by rewrite Hid, (AAD_kv_id _ _ Hid).
Qed.
End deployment.

(** ** A root and an agent *)

Module RemoteSamples.
Import Sample StoreSamples OrchestratorSamples.

#[local] Instance key_request_eq_dec : EqDecision UpsertKeyRequest.
Proof. solve_decision. Defined.
#[local] Instance version_request_eq_dec : EqDecision UpsertKeyVersionRequest.
Proof. solve_decision. Defined.

Definition at_root (k : Key) : Key :=
  mkKey (k_ID k) (k_Name k) (k_TenantID k) (k_Kind k) (k_ParentID k) "root" (k_Labels k) (k_LifeCycleState k)
    (k_ProcessingState k) (k_CreatedAt k) (k_UpdatedAt k).

(** The root has an active key with a version, and a key of the agent below it
    that is to become active. *)
Definition parent_key : Key := at_root (key uuid1 "k1" "K1" None KeyLifeCycleActive KeyProcessingCompleted).
Definition agent_key : Key := key uuid2 "k2" "K2" (Some uuid1) KeyLifeCycleActive KeyProcessingPending.
Definition root_calls : list store_call :=
  [CMigrate "root"; CStep (SUpsertTenant tenant); CStep (SCreateKey parent_key);
   CStep (SCreateKeyVersion (mkKeyVersion uuid0 uuid1 1 1 None None KeyLifeCycleActive KeyVersionUsable ∅ 0 0));
   CStep (SCreateKey agent_key)].
Definition root_world : world := run_calls root_calls (world0 empty_db).

Definition agent_calls : list store_call := [CMigrate "agent"; CStep (SUpsertTenant tenant)].
Definition agent0 : world := run_calls agent_calls (world0 empty_db).

(** The two requests of the task, and the agent after each of them. *)
Definition key_sent : UpsertKeyRequest := toUpsertRequest agent_key.
Definition version_sent : UpsertKeyVersionRequest :=
  mkUpsertKeyVersionRequest uuid0 uuid2 1 1 uuid1 1 KeyLifeCycleActive KeyVersionUsable ∅.
Definition agent1 : world := (Service_UpsertKey key_sent agent0).2.
Definition agent2 : world := (Service_UpsertKeyVersion version_sent agent1).2.

Definition unavailable : error := EForeign "unavailable".
#[refine] Definition connection : RemoteAgents := {|
  RemoteUpsertTenant := λ _ _, throw unavailable;
  RemoteUpsertKey := λ _ r w,
    if decide (r = key_sent) then ((Service_UpsertKey r agent0).1, w) else (Err unavailable, w);
  RemoteUpsertKeyVersion := λ _ r w,
    if decide (r = version_sent) then ((Service_UpsertKeyVersion r agent1).1, w) else (Err unavailable, w);
|}.
Proof.
  - done.
  - intros a r w. case_decide; [subst|done]. by vm_compute.
  - intros a r w. case_decide; [subst|done]. by vm_compute.
Defined.

Lemma agent0_wf : db_wf (w_db agent0).
Proof. apply (evolves_run_calls agent_calls (world0 empty_db)). exact empty_db_wf. Qed.
Lemma agent1_wf : db_wf (w_db agent1).
Proof. apply (evolves_Service_UpsertKey key_sent agent0). exact agent0_wf. Qed.
Lemma agent2_evolves : db_evolves (w_db agent1) (w_db agent2).
Proof. apply (evolves_Service_UpsertKeyVersion version_sent agent1). Qed.

Lemma connection_served : served_by (AGENTS:=connection) env manager "agent" (w_db agent2).
Proof.
  split.
  - intros r w. cbn [RemoteUpsertKey connection]. case_decide as E; [rewrite E|done]. intros H. cbn [fst] in H.
    exists agent0. split; [exact agent0_wf|]. split; [exact H|]. apply agent2_evolves. exact agent1_wf.
  - intros r w. cbn [RemoteUpsertKeyVersion connection]. case_decide as E; [rewrite E|done]. intros H. cbn [fst] in H.
    exists agent1. split; [exact H|reflexivity].
Qed.

Definition task_data : string := uuid2 +:+ "/" +:+ uuid0.
Definition run : world := (Handle (AGENTS:=connection) config ActivateHandlerConfig task_data root_world).2.

Lemma completed_key_is_on_agent_witness :
  ∃ kv, db_kvs (w_db run) !! kv_id kv = Some kv ∧ usable_for agent_key kv ∧
    replicated agent_key kv (w_db agent2).
Proof.
  apply (completed_key_is_on_agent (AGENTS:=connection) config env manager ActivateHandlerConfig task_data
    (mkKeyIdentifier uuid2 uuid0) agent_key root root_world run (w_db agent2)).
  - apply (evolves_run_calls root_calls (world0 empty_db)). exact empty_db_wf.
  - vm_compute. reflexivity.
  - vm_compute. reflexivity.
  - vm_compute. reflexivity.
  - vm_compute. reflexivity.
  - reflexivity.
  - discriminate.
  - apply agent2_evolves. exact agent1_wf.
  - exact connection_served.
  - intros x Hx. vm_compute in Hx. injection Hx as <-. reflexivity.
  - unfold run. assert ((Handle (AGENTS:=connection) config ActivateHandlerConfig task_data root_world).1 = Ok ()) as E
      by (vm_compute; reflexivity). destruct (Handle _ _ _ _) as [r s]. cbn [fst] in E. by rewrite E.
  - vm_compute. reflexivity.
Defined.
End RemoteSamples.
End RemoteKeys.
