(* ===== verification/AgentRegistry.v ===== *)
(** * Registered agents: pkg/api/v1/proto/agents/service.go, internal/interceptor,
    cmd/root

    Registration, heartbeats and deregistration of agents, the periodic task of
    the root that ages them out (initAgentWorker in cmd/root/main.go), and the
    interceptor that decides which peer may call.  YAML is a parameter. *)

From S2P Require Import Prelude GoStrings GoRuntime Identity Model World Lifecycle Providers.
From S2P Require Import Hierarchy Config Sql KeyStore KeyVersionStore StoreInvariant StoreTheorems.

Local Open Scope string_scope.

(** ** The service *)

(** [yaml.Marshal] of an [AgentConfig]. *)
Class AgentConfigCodec := marshal_agent_config : AgentConfig → option string.

Section agent_service.
Context {ENV : Env} {YAML : AgentConfigCodec} (config : RootConfig).

(** [validateInput]. *)
Definition validateInput (agentName instanceID : string) : goerror :=
  if String.eqb agentName "" then Some (ErrDetailsWithCode InvalidArgument ERROR_CODE_ABORT)
  else if String.eqb instanceID "" then Some (ErrDetailsWithCode InvalidArgument ERROR_CODE_ABORT)
  else None.

(** The upsert of a registration, with the error of the service. *)
Definition register_as (status : AgentRegistrationStatus) (agentName instanceID : string) : M () :=
  now ← clock_Now;
  r ← try (Register (mkAgentRegistration agentName instanceID status now 0 0));
  match r with
  | inl _ => mret ()
  | inr _ => throw (ErrDetailsWithCode Internal ERROR_CODE_RETRY)
  end.

(** [AgentService.Register]. *)
Definition AgentService_Register (agentName instanceID : string) : M string :=
  _ ← check (validateInput agentName instanceID);
  match registration_config config agentName with
  | inr err => throw err
  | inl cfg =>
      match marshal_agent_config cfg with
      | None => throw (ErrDetailsWithCode Internal ERROR_CODE_ABORT)
      | Some rawCfg =>
          _ ← register_as AgentRegistrationStatusRegistered agentName instanceID;
          mret rawCfg
      end
  end.

(** [AgentService.SendHeartbeat]. *)
Definition AgentService_SendHeartbeat (agentName instanceID : string) : M () :=
  _ ← check (validateInput agentName instanceID);
  match Topology.GetSegmentByName (rc_Topology config) agentName with
  | None => throw (ErrDetailsWithCode NotFound ERROR_CODE_ABORT)
  | Some _ => register_as AgentRegistrationStatusHealthy agentName instanceID
  end.

(** [AgentService.Deregister]. *)
Definition AgentService_Deregister (agentName instanceID : string) : M () :=
  _ ← check (validateInput agentName instanceID);
  r ← try (UpdateStatus (mkUpdateAgentStatusQuery agentName instanceID
             [AgentRegistrationStatusRegistered; AgentRegistrationStatusHealthy;
              AgentRegistrationStatusUnhealthy] AgentRegistrationStatusDeregistered 0));
  match r with
  | inl _ => mret ()
  | inr _ => throw (ErrDetailsWithCode Internal ERROR_CODE_RETRY)
  end.
End agent_service.

(** ** Ageing: the worker of cmd/root/main.go *)

Definition second : Z := 1000000000.

(** [errors.Join]. *)
Definition errors_Join (errs : list goerror) : goerror :=
  match omap id errs with [] => None | es => Some (EWrap es) end.

Section worker.
Context {ENV : Env}.

Definition err_of {A} (r : A + error) : goerror := match r with inl _ => None | inr e => Some e end.

(** One run of the task [initAgentWorker] schedules. *)
Definition agent_sweep : M () :=
  r1 ← try (UpdateStatus (mkUpdateAgentStatusQuery "" ""
         [AgentRegistrationStatusRegistered; AgentRegistrationStatusHealthy]
         AgentRegistrationStatusUnhealthy (30 * second)));
  r2 ← try (UpdateStatus (mkUpdateAgentStatusQuery "" ""
         [AgentRegistrationStatusUnhealthy] AgentRegistrationStatusDeregistered (90 * second)));
  r3 ← try (DeleteAgents AgentRegistrationStatusDeregistered (120 * second));
  check (errors_Join [err_of r1; err_of r2; err_of r3]).
End worker.

(** ** Admission: internal/interceptor/authenticator.go *)

(** [p.AuthInfo]: the verified chains of a TLS peer, a certificate being the list
    of its URIs, or something else. *)
Inductive AuthInfo :=
  | TLSInfo (VerifiedChains : list (list (list string)))
  | OtherAuthInfo.

Record Authenticator := mkAuthenticator { au_allowedURIs : gset string }.

Definition ErrNoAllowedURIs : string := "interceptor.ErrNoAllowedURIs".

(** [NewAuthenticator]. *)
Definition NewAuthenticator (allowedURIs : list string) : Authenticator + error :=
  let uris : gset string := list_to_set (filter (λ u, u ≠ "") (trim_space <$> allowedURIs)) in
  if bool_decide (uris = ∅) then inr (ESentinel ErrNoAllowedURIs) else inl (mkAuthenticator uris).

(** [status.Error(c, _)]. *)
Definition status_Error (c : grpc_code) : error := EStatus c None.

(** [Authenticator.UnaryInterceptor]; [p] is [peer.FromContext]. *)
Definition UnaryInterceptor {S A} (a : Authenticator) (p : option AuthInfo) (handler : comp S A) : comp S A :=
  if bool_decide (au_allowedURIs a = ∅) then throw (status_Error PermissionDenied)
  else match p with
  | None => throw (status_Error Unauthenticated)
  | Some OtherAuthInfo => throw (status_Error Unauthenticated)
  | Some (TLSInfo []) => throw (status_Error Unauthenticated)
  | Some (TLSInfo ([] :: _)) => panic
  | Some (TLSInfo ((clientCert :: _) :: _)) =>
      match clientCert with
      | [uri] => if bool_decide (uri ∈ au_allowedURIs a) then handler
                 else throw (status_Error PermissionDenied)
      | _ => throw (status_Error Unauthenticated)
      end
  end.

(** C38: the interceptor hands a call on exactly for a TLS peer whose leaf
    certificate carries one URI, and that URI is one of the configured ones,
    white space aside; every other peer is refused with [Unauthenticated] or
    [PermissionDenied] without the handler running.  Verified chains are never
    empty. *)
Theorem interceptor_admission {S A} uris a p (handler : comp S A) :
  NewAuthenticator uris = inl a →
  (∀ chains, p = Some (TLSInfo chains) → [] ∉ chains) →
  (∃ uri rest chains, p = Some (TLSInfo (([uri] :: rest) :: chains)) ∧ uri ≠ "" ∧
     uri ∈ trim_space <$> uris ∧ UnaryInterceptor a p handler = handler) ∨
  ((∀ uri rest chains, p = Some (TLSInfo (([uri] :: rest) :: chains)) → uri ≠ "" → uri ∉ trim_space <$> uris) ∧
   ∃ c, c ∈ [Unauthenticated; PermissionDenied] ∧ UnaryInterceptor a p handler = throw (status_Error c)).
Proof.
  intros Ha Hp. unfold NewAuthenticator in Ha. case_bool_decide as Hne; [done|]. injection Ha as <-.
  unfold UnaryInterceptor. simpl. rewrite bool_decide_false by done.
  assert (∀ c, c = Unauthenticated ∨ c = PermissionDenied → c ∈ [Unauthenticated; PermissionDenied]) as Hc.
  { intros c [->| ->]; repeat constructor. }
  destruct p as [[[|[|cert rest] chains]|]|]; try (right; split; [done|]; eexists; split; [apply Hc; by left|done]).
  { exfalso. apply (Hp _ eq_refl). left. }
  destruct cert as [|uri [|u us]]; try (right; split; [done|]; eexists; split; [apply Hc; by left|done]).
  case_bool_decide as Hin; [left|right].
  - apply elem_of_list_to_set, list_elem_of_filter in Hin as [Hu Hin]. by exists uri, rest, chains.
  - split; [|eexists; split; [apply Hc; by right|done]]. intros uri' rest' chains' [= <- _ _] Hu Hm.
    apply Hin, elem_of_list_to_set, list_elem_of_filter. done.
Qed.

(** ** What a run of the worker does *)

Section sweep.
Context {ENV : Env} {NF : NoFaults}.

Definition with_status (s : AgentRegistrationStatus) (now : Z) (r : AgentRegistration) : AgentRegistration :=
  mkAgentRegistration (ar_Name r) (ar_InstanceID r) s (ar_LastHeartbeat r) (ar_CreatedAt r) now.

(** What [UpdateStatus] does to the row of an agent. *)
Definition age_step (from : list string) (to : string) (now threshold : Z) (r : AgentRegistration) : AgentRegistration :=
  if (bool_decide (ar_Status r ∈ from) && stale now threshold r)%bool then with_status to now r else r.

(** An [UpdateStatus] of all stale agents. *)
Lemma age_out from to threshold w :
  from ≠ [] → to ≠ "" → (0 < threshold)%Z → agent_registrations ∈ db_tables (w_db w) →
  ∃ w', UpdateStatus (mkUpdateAgentStatusQuery "" "" from to threshold) w = (Ok (), w') ∧
    w_db w' = set_agents (age_step from to (e_clock (w_tick w)) threshold <$> db_agents (w_db w)) (w_db w).
Proof.
  intros Hf Ht Hth Htab. unfold UpdateStatus. simpl.
  rewrite bool_decide_false, (proj2 (String.eqb_neq _ _) Ht) by done. rewrite bind_clock_Now, bind_ret_l.
  rewrite (bind_Ok _ _ _ _ _ (statement_NoFaults agent_registrations (tick w) Htab)).
  eexists. split; [done|]. simpl. f_equal. apply map_fmap_ext. intros a r _.
  unfold agent_matches, age_step. simpl. rewrite !andb_true_r. by rewrite (proj2 (Z.ltb_lt 0 threshold) Hth).
Qed.

Lemma drop_out status threshold w :
  status ≠ "" → (0 < threshold)%Z → agent_registrations ∈ db_tables (w_db w) →
  ∃ now w', DeleteAgents status threshold w = (Ok (), w') ∧
    w_db w' = set_agents (filter (λ p, (String.eqb (ar_Status p.2) status && stale now threshold p.2)%bool = false)
      (db_agents (w_db w))) (w_db w).
Proof.
  intros Hs Hth Htab. unfold DeleteAgents. rewrite (proj2 (String.eqb_neq _ _) Hs).
  rewrite (proj2 (Z.leb_gt _ _)) by lia. rewrite bind_clock_Now.
  rewrite (bind_Ok _ _ _ _ _ (statement_NoFaults agent_registrations (tick w) Htab)).
  by eexists _, _.
Qed.

(** What is left of an agent's row after a run. *)
Definition aged (t1 t2 t3 : Z) (r : AgentRegistration) (r' : option AgentRegistration) : Prop :=
  match r' with
  | None => stale t3 (120 * second) r = true
  | Some r' =>
      ar_Name r' = ar_Name r ∧ ar_InstanceID r' = ar_InstanceID r ∧ ar_LastHeartbeat r' = ar_LastHeartbeat r ∧
      (r' = r ∨
       ar_Status r' = AgentRegistrationStatusUnhealthy ∧ stale t1 (30 * second) r = true ∨
       ar_Status r' = AgentRegistrationStatusDeregistered ∧ stale t2 (90 * second) r = true) ∧
      (ar_Status r' = AgentRegistrationStatusRegistered ∨ ar_Status r' = AgentRegistrationStatusHealthy →
         stale t1 (30 * second) r = false) ∧
      (ar_Status r' = AgentRegistrationStatusUnhealthy → stale t2 (90 * second) r = false) ∧
      (ar_Status r' = AgentRegistrationStatusDeregistered → stale t3 (120 * second) r = false)
  end.

Lemma stale_age_step t threshold from to now th r :
  stale t threshold (age_step from to now th r) = stale t threshold r.
Proof. unfold age_step. by destruct (_ && _)%bool. Qed.

Ltac by_age :=
  repeat match goal with |- context [stale ?t ?x ?y] => generalize (stale t x y); intros [] end;
  vm_compute; try reflexivity; repeat split; naive_solver.

Lemma aged_steps t1 t2 t3 r :
  let r2 := age_step [AgentRegistrationStatusUnhealthy] AgentRegistrationStatusDeregistered t2 (90 * second)
    (age_step [AgentRegistrationStatusRegistered; AgentRegistrationStatusHealthy]
       AgentRegistrationStatusUnhealthy t1 (30 * second) r) in
  aged t1 t2 t3 r
    (if (String.eqb (ar_Status r2) AgentRegistrationStatusDeregistered && stale t3 (120 * second) r2)%bool
     then None else Some r2).
Proof.
  cbv zeta. rewrite !stale_age_step. set (r1 := age_step _ _ t1 _ r).
  assert (stale t2 (90 * second) r1 = stale t2 (90 * second) r) as H12 by apply stale_age_step.
  unfold age_step. rewrite !H12. unfold r1, age_step. clear r1 H12. unfold aged.
  destruct r as [n i s hb c u]. cbn [ar_Status].
  destruct (decide (s = AgentRegistrationStatusRegistered)) as [->|H1]; [by_age|].
  destruct (decide (s = AgentRegistrationStatusHealthy)) as [->|H2]; [by_age|].
  destruct (decide (s = AgentRegistrationStatusUnhealthy)) as [->|H3]; [by_age|].
  destruct (decide (s = AgentRegistrationStatusDeregistered)) as [->|H4]; [by_age|].
  assert (∀ l : list string, s ∉ l → bool_decide (s ∈ l) = false) as Hno by (intros; by apply bool_decide_false).
  rewrite (Hno [_; _]) by (rewrite !not_elem_of_cons; split_and!; [done..|apply not_elem_of_nil]).
  cbn [andb ar_Status].
  rewrite (Hno [_]) by (rewrite !not_elem_of_cons; split_and!; [done..|apply not_elem_of_nil]).
  cbn [andb ar_Status].
  rewrite (proj2 (String.eqb_neq _ _)) by done. simpl. split_and!; naive_solver.
Qed.

(** An agent in good standing that is not stale is not touched. *)
Lemma fresh_steps t1 t2 t3 r :
  ar_Status r ∈ [AgentRegistrationStatusRegistered; AgentRegistrationStatusHealthy] → stale t1 (30 * second) r = false →
  let r2 := age_step [AgentRegistrationStatusUnhealthy] AgentRegistrationStatusDeregistered t2 (90 * second)
    (age_step [AgentRegistrationStatusRegistered; AgentRegistrationStatusHealthy]
       AgentRegistrationStatusUnhealthy t1 (30 * second) r) in
  r2 = r ∧ (String.eqb (ar_Status r2) AgentRegistrationStatusDeregistered && stale t3 (120 * second) r2)%bool = false.
Proof.
  intros Hs Hst. cbv zeta.
  assert (age_step [AgentRegistrationStatusRegistered; AgentRegistrationStatusHealthy]
    AgentRegistrationStatusUnhealthy t1 (30 * second) r = r) as -> by (unfold age_step; by rewrite Hst, andb_false_r).
  unfold age_step. rewrite !elem_of_cons, elem_of_nil in Hs. destruct r as [n i s hb c u]. cbn [ar_Status] in *.
  destruct Hs as [-> |[-> |[]]]; split; reflexivity.
Qed.

Lemma agent_sweep_run w :
  agent_registrations ∈ db_tables (w_db w) →
  ∃ t1 t2 t3 w', agent_sweep w = (Ok (), w') ∧ t1 = e_clock (w_tick w) ∧ w_db w' = set_agents (db_agents (w_db w')) (w_db w) ∧
    (∀ a, match db_agents (w_db w) !! a with
         | None => db_agents (w_db w') !! a = None
         | Some r => aged t1 t2 t3 r (db_agents (w_db w') !! a)
         end) ∧
    ∀ a r, db_agents (w_db w) !! a = Some r →
      ar_Status r ∈ [AgentRegistrationStatusRegistered; AgentRegistrationStatusHealthy] →
      stale t1 (30 * second) r = false → db_agents (w_db w') !! a = Some r.
Proof.
  intros Htab. unfold agent_sweep. rewrite bind_try.
  destruct (age_out [AgentRegistrationStatusRegistered; AgentRegistrationStatusHealthy]
    AgentRegistrationStatusUnhealthy (30 * second) w) as (w1 & -> & H1); [done..|].
  rewrite bind_try.
  destruct (age_out [AgentRegistrationStatusUnhealthy] AgentRegistrationStatusDeregistered (90 * second) w1)
    as (w2 & -> & H2); [done..|by rewrite H1|].
  rewrite bind_try.
  destruct (drop_out AgentRegistrationStatusDeregistered (120 * second) w2)
    as (t3 & w3 & -> & H3); [done..|by rewrite H2, H1|].
  set (t1 := e_clock (w_tick w)) in *. set (t2 := e_clock (w_tick w1)) in *.
  exists t1, t2, t3, w3. split; [done|]. split; [done|]. rewrite H3, H2, H1. split; [done|]. split; intros a; simpl.
  2:{ intros r Hr Hs Hst. rewrite map_lookup_filter, !lookup_fmap, Hr. simpl.
      destruct (fresh_steps t1 t2 t3 r Hs Hst) as [-> Hf]. by rewrite option_guard_True. }
  rewrite map_lookup_filter, !lookup_fmap.
  destruct (db_agents (w_db w) !! a) as [r|]; [|done]. simpl.
  pose proof (aged_steps t1 t2 t3 r) as Ha. cbv zeta in Ha. revert Ha.
  set (r2 := age_step _ _ t2 _ _). destruct (String.eqb (ar_Status r2) _ && _)%bool eqn:E; intros Ha.
  - rewrite option_guard_False by (simpl; congruence). exact Ha.
  - rewrite option_guard_True by done. exact Ha.
Qed.

(** A run of the root's worker on a reachable database succeeds, adds no
    agent, removes only agents whose last heartbeat is older than 120 seconds,
    and otherwise changes nothing but the status: to unhealthy only beyond 30
    seconds without a heartbeat when it starts, to deregistered only beyond 90; what it leaves
    registered or healthy, unhealthy, or deregistered was heard from within 30,
    90, and 120 seconds. *)
Theorem agent_sweep_ages w :
  agent_registrations ∈ db_tables (w_db w) →
  ∃ t1 t2 t3 w', agent_sweep w = (Ok (), w') ∧ t1 = e_clock (w_tick w) ∧ w_db w' = set_agents (db_agents (w_db w')) (w_db w) ∧
    ∀ a, match db_agents (w_db w) !! a with
         | None => db_agents (w_db w') !! a = None
         | Some r => aged t1 t2 t3 r (db_agents (w_db w') !! a)
         end.
Proof.
  intros Htab. destruct (agent_sweep_run w Htab) as (t1 & t2 & t3 & w' & Hs & Ht & Hd & Ha & _). by exists t1, t2, t3, w'.
Qed.
End sweep.

Module AgentSamples.
Import Sample.

(** A migrated root with one agent, healthy and last heard from at [hb]. *)
Definition agent_at (hb : Z) : AgentRegistration :=
  mkAgentRegistration "eu" uuid1 AgentRegistrationStatusHealthy hb 0 0.
Definition world_with (hb : Z) : world :=
  run_calls [CMigrate "root"; CStep (SRegister (agent_at hb))] (world0 empty_db).

Lemma agent_sweep_ages_witness :
  ∃ t1 t2 t3 w', agent_sweep (world_with 0) = (Ok (), w') ∧
    ∃ r, db_agents (w_db (world_with 0)) !! ("eu", uuid1) = Some r ∧
         aged t1 t2 t3 r (db_agents (w_db w') !! ("eu", uuid1)).
Proof.
  destruct (agent_sweep_ages (world_with 0)) as (t1 & t2 & t3 & w' & H & _ & _ & Ha).
  - apply (bool_decide_unpack _). vm_compute. exact I.
  - exists t1, t2, t3, w'. split; [exact H|]. specialize (Ha ("eu", uuid1)).
    destruct (db_agents (w_db (world_with 0)) !! ("eu", uuid1)) as [r|] eqn:E.
    + exists r. split; [reflexivity|exact Ha].
    + vm_compute in E. discriminate E.
Defined.

(** An agent that was never marked unhealthy is dropped in a single run of
    the worker when its last heartbeat is old enough (after the root was down,
    say): "unhealthy for more than 90 seconds" is not what deregisters it. *)
Theorem healthy_agent_dropped_at_once :
  (ar_Status <$> db_agents (w_db (world_with (-121 * second))) !! ("eu", uuid1))
    = Some AgentRegistrationStatusHealthy ∧
  ∃ w', agent_sweep (world_with (-121 * second)) = (Ok (), w') ∧
    db_agents (w_db w') !! ("eu", uuid1) = None.
Proof. split; [vm_compute; reflexivity|]. eexists. split; vm_compute; reflexivity. Qed.

Lemma interceptor_admission_witness :
  ∃ a, NewAuthenticator [" kryptonid://acme/node/eu"] = inl a ∧
    UnaryInterceptor a (Some (TLSInfo [[["kryptonid://acme/node/eu"]]])) (mret 7 : M nat) = mret 7.
Proof.
  eexists. split; [vm_compute; reflexivity|].
  destruct (interceptor_admission [" kryptonid://acme/node/eu"]
    (mkAuthenticator {["kryptonid://acme/node/eu"]}) (Some (TLSInfo [[["kryptonid://acme/node/eu"]]]))
    (mret 7 : M nat)) as [(uri & rest & chains & _ & _ & _ & H)|[H _]].
  - vm_compute. reflexivity.
  - intros chains [= <-]. apply (bool_decide_unpack _). vm_compute. exact I.
  - exact H.
  - exfalso. apply (H "kryptonid://acme/node/eu" [] [] eq_refl); [discriminate|].
    apply (bool_decide_unpack _). vm_compute. exact I.
Defined.
End AgentSamples.
