(* ===== verification/SecureMem.v ===== *)
(** * Secure memory (internal/securemem)

    - system calls: [mmap], [madvise], [mlock], [mprotect], [munlock] and
      [munmap] on regions, each of which may fail; [Zero], [alloc], [unalloc],
      [readonly] and [readwrite] of securemem.go and securemem_linux.go;
    - [Data] (data.go): [NewData], [SecureBytes], [Destroy], [MarkReadOnly], the
      redacting printers and the cleanup of the garbage collector;
    - [MemVault] (memvault.go): the named vault of [Data] objects;
    - [Run] (handler.go) and [RPCHandler] (rpc_handler.go): who destroys what.

    A pointer to a [Data] is an optional location ([None] is nil) and a slice of
    secure memory the optional region it points to.  Writing to a region that is
    unmapped or write protected kills a Go process and runs no deferred function:
    it is [fatal].  The mutexes serialise the calls on one object, so a call is
    one step here.

    The invariant [sm_wf] says that every [Data] owns its region, that the
    protection flag tells the truth, and that a region nobody owns holds zero
    bytes only: secrets do not outlive the object that holds them. *)

From S2P Require Import Prelude GoStrings GoRuntime Model World.
From Stdlib Require Import Ascii.

Local Open Scope string_scope.

Definition Redacted : string := "<<REDACTED>>".

(** [*Data]. *)
Notation ptr := (option loc) (only parsing).
(** A slice of secure memory. *)
Notation SecureBytes_t := (option loc) (only parsing).

(** ** State *)

Definition upd_heap (f : gmap loc Data → gmap loc Data) (w : world) : world :=
  set_sm (mkSecmem (f (sm_heap (w_sm w))) (sm_mem (w_sm w)) (sm_mvs (w_sm w)) (sm_next (w_sm w))) w.
Definition upd_mem (f : gmap loc Region → gmap loc Region) (w : world) : world :=
  set_sm (mkSecmem (sm_heap (w_sm w)) (f (sm_mem (w_sm w))) (sm_mvs (w_sm w)) (sm_next (w_sm w))) w.
Definition upd_mvs (f : gmap loc (gmap string loc) → gmap loc (gmap string loc)) (w : world) : world :=
  set_sm (mkSecmem (sm_heap (w_sm w)) (sm_mem (w_sm w)) (f (sm_mvs (w_sm w))) (sm_next (w_sm w))) w.

(** A location nothing has used yet. *)
Definition fresh : M loc := λ w,
  (Ok (sm_next (w_sm w)),
   set_sm (mkSecmem (sm_heap (w_sm w)) (sm_mem (w_sm w)) (sm_mvs (w_sm w))
             (Pos.succ (sm_next (w_sm w)))) w).

(** The process dies. *)
Definition fatal {A} : M A := diverge.

Definition or_panic {A} (o : option A) : M A :=
  match o with Some a => mret a | None => panic end.

Definition load_data (l : loc) : M Data := λ w, or_panic (sm_heap (w_sm w) !! l) w.
Definition store_data (l : loc) (d : Data) : M () := modify (upd_heap <[l := d]>).
Definition load_region (r : loc) : M Region := λ w, or_panic (sm_mem (w_sm w) !! r) w.
Definition store_region (r : loc) (reg : Region) : M () := modify (upd_mem <[r := reg]>).
Definition load_mv (v : loc) : M (gmap string loc) := λ w, or_panic (sm_mvs (w_sm w) !! v) w.
Definition store_mv (v : loc) (m : gmap string loc) : M () := modify (upd_mvs <[v := m]>).

(** [n] zero bytes. *)
Definition zeros (n : nat) : string := unchars (replicate n Ascii.zero).
Definition all_zero (s : string) : Prop := s = zeros (String.length s).

Section securemem.
Context {ENV : Env}.

(** ** System calls and securemem.go *)

Definition mmap (size : nat) : M loc :=
  external "mmap";;
  r ← fresh;
  store_region r (mkRegion (zeros size) true true);;
  mret r.

(** A call on pages that are not mapped fails; otherwise it may. *)
Definition on_mapped (what : string) (r : loc) (k : Region → M ()) : M () :=
  reg ← load_region r;
  if r_mapped reg then external what;; k reg else throw (EForeign what).

Definition mprotect (r : loc) (writable : bool) : M () :=
  on_mapped "mprotect" r (λ reg, store_region r (mkRegion (r_bytes reg) writable true)).
Definition munmap (r : loc) : M () :=
  on_mapped "munmap" r (λ reg, store_region r (mkRegion (r_bytes reg) (r_writable reg) false)).
Definition madvise (r : loc) : M () := on_mapped "madvise" r (λ _, mret ()).
Definition mlock (r : loc) : M () := on_mapped "mlock" r (λ _, mret ()).
Definition munlock (r : loc) : M () := on_mapped "munlock" r (λ _, mret ()).

(** Replace the bytes of a region. *)
Definition write_region (r : loc) (f : string → string) : M () :=
  reg ← load_region r;
  if (r_mapped reg && r_writable reg)%bool
  then store_region r (mkRegion (f (r_bytes reg)) true true)
  else fatal.

(** [for i := range data { data[i] = 0 }]. *)
Definition Zero (r : loc) : M () := write_region r (λ s, zeros (String.length s)).

Definition readonly (r : loc) : M () := mprotect r false.
Definition readwrite (r : loc) : M () := mprotect r true.

(** [err] of a call whose other results are dropped. *)
Definition err_of {A} (m : M A) : M (option error) :=
  r ← try m; mret (match r with inl _ => None | inr e => Some e end).

Definition unalloc (r : loc) : M () :=
  Zero r;;
  unlockErr ← err_of (munlock r);
  unmapErr ← err_of (munmap r);
  check (errors_Join [unlockErr; unmapErr]).

Definition alloc (size : nat) : M loc :=
  data ← mmap size;
  err ← err_of (madvise data);
  match err with
  | Some e =>
      errUnmap ← err_of (munmap data);
      check (errors_Join [Some e; errUnmap]);; mret data
  | None =>
      err ← err_of (mlock data);
      match err with
      | Some e =>
          errUnmap ← err_of (munmap data);
          check (errors_Join [Some e; errUnmap]);; mret data
      | None => mret data
      end
  end.

(** [NoDump]: both calls act on the process, not on its memory. *)
Definition NoDump : M () := external "setrlimit";; external "prctl".

(** ** Data (data.go) *)

Definition ErrInvalidSize : error := ESentinel "securemem.ErrInvalidSize".

Definition NewData (name : string) (size : Z) : M loc :=
  if (size <=? 0)%Z then throw ErrInvalidSize else
  b ← alloc (Z.to_nat size);
  l ← fresh;
  store_data l (mkData name (Some b) false);;
  mret l.

(** Dereference of a pointer: nil panics. *)
Definition deref (p : ptr) : M loc := or_panic p.

Definition SecureBytes (m : ptr) : M SecureBytes_t :=
  l ← deref m; d ← load_data l; mret (d_data d).

Definition Data_Destroy (m : ptr) : M () :=
  match m with
  | None => mret ()
  | Some l =>
      d ← load_data l;
      match d_data d with
      | None => mret ()
      | Some r =>
          (if d_isReadOnly d
           then readwrite r;; store_data l (mkData (d_name d) (Some r) false)
           else mret ());;
          defer (store_data l (mkData (d_name d) None false)) (unalloc r)
      end
  end.

Definition MarkReadOnly (m : ptr) : M () :=
  l ← deref m; d ← load_data l;
  match d_data d with
  | None => mret ()
  | Some r =>
      if d_isReadOnly d then mret () else
      err ← err_of (readonly r);
      store_data l (mkData (d_name d) (Some r) (match err with None => true | Some _ => false end));;
      check err
  end.

Definition Name (m : ptr) : M string := l ← deref m; d ← load_data l; mret (d_name d).
Definition IsReadOnly (m : ptr) : M bool := l ← deref m; d ← load_data l; mret (d_isReadOnly d).

(** The printers of a slice and of a [Data]: the bytes are not read. *)
Definition SecureBytes_String (s : SecureBytes_t) : string := Redacted.
Definition SecureBytes_GoString (s : SecureBytes_t) : string := Redacted.
Definition SecureBytes_MarshalText (s : SecureBytes_t) : string := Redacted.
Definition quote : string := String (Ascii.ascii_of_nat 34) "".
Definition Data_String (m : ptr) : M string :=
  l ← deref m; d ← load_data l;
  mret ("{" +:+ quote +:+ "Name" +:+ quote +:+ ":" +:+ quote +:+ d_name d +:+ quote +:+ ", " +:+
        quote +:+ "Value" +:+ quote +:+ ":" +:+ quote +:+ SecureBytes_String (d_data d) +:+ quote +:+ "}").
Definition Data_GoString (m : ptr) : M string := Data_String m.
Definition Data_MarshalText (m : ptr) : M string := Data_String m.
Definition SecureBytes_LogValue (s : SecureBytes_t) : string := Redacted.
Definition Data_LogValue (m : ptr) : M string := Data_String m.
(** [json.Marshal] of a string is the encoder's. *)
Definition SecureBytes_MarshalJSON (marshal : string → string) (s : SecureBytes_t) : string := marshal Redacted.
Definition Data_MarshalJSON (marshal : string → string) (m : ptr) : M string := s ← Data_String m; mret (marshal s).

(** [dataCleanupRef.Destroy]: what the garbage collector runs on a [Data] that
    nobody reaches, through a temporary object that claims to be read-only. *)
Definition dataCleanupRef_Destroy (name : string) (data : SecureBytes_t) : M () :=
  l ← fresh;
  store_data l (mkData name data true);;
  Data_Destroy (Some l).

(** The clean-up [NewData] registers with [runtime.AddCleanup]: when nothing
    refers to a [Data] any more the collector drops it and runs the closure on
    the slice it had; a failure is logged.  ([Data.Destroy] stops the clean-up,
    as it leaves no slice.) *)
Definition NewData_cleanup (l : loc) : M () :=
  d ← load_data l;
  modify (upd_heap (delete l));;
  _ ← err_of (dataCleanupRef_Destroy (d_name d) (d_data d));
  mret ().

(** ** Slices of secure memory *)

(** [len(s)]: known without touching the memory. *)
Definition len (s : SecureBytes_t) : M Z :=
  match s with
  | None => mret 0%Z
  | Some r => reg ← load_region r; mret (Z.of_nat (String.length (r_bytes reg)))
  end.

(** The bytes of a slice. *)
Definition read_bytes (s : SecureBytes_t) : M string :=
  match s with
  | None => mret ""
  | Some r => reg ← load_region r; if r_mapped reg then mret (r_bytes reg) else fatal
  end.

(** [copy(dst, src)] of the first [min(len(dst), len(src))] bytes. *)
Definition overwrite (dst src : string) : string :=
  unchars ((take (length (chars dst)) (chars src)) ++ drop (length (chars src)) (chars dst))%list.
Definition copy_bytes (dst : SecureBytes_t) (src : string) : M () :=
  match dst with
  | None => mret ()
  | Some r => if String.eqb src "" then mret () else write_region r (λ s, overwrite s src)
  end.

(** ** MemVault (memvault.go) *)

Definition ErrVaultDataAlreadyExists : error := ESentinel "securemem.ErrVaultDataAlreadyExists".
Definition ErrDataIsNil : error := ESentinel "securemem.ErrDataIsNil".

Definition NewMemVault : M loc :=
  v ← fresh; store_mv v ∅;; mret v.

Definition Reserve (v : loc) (name : string) (size : Z) : M SecureBytes_t :=
  store ← load_mv v;
  match store !! name with
  | Some _ => throw ErrVaultDataAlreadyExists
  | None =>
      data ← NewData name size;
      store_mv v (<[name := data]> store);;
      SecureBytes (Some data)
  end.

(** [Get]: the pointer, nil with [ok = false] when there is none. *)
Definition MemVault_Get (v : loc) (name : string) : M ptr :=
  store ← load_mv v; mret (store !! name).

Definition MemVault_Destroy (v : loc) (name : string) : M () :=
  store ← load_mv v;
  match store !! name with
  | None => mret ()
  | Some data =>
      Data_Destroy (Some data);;
      store_mv v (delete name store)
  end.

(** One iteration of the loop of [DestroyAll]; [errs] is the slice so far. *)
Definition DestroyAll_iter (v : loc) (errs : list error) (entry : string * loc) : M (list error) :=
  err ← err_of (Data_Destroy (Some entry.2));
  match err with
  | Some e => mret (errs ++ [e])%list
  | None => store ← load_mv v; store_mv v (delete entry.1 store);; mret errs
  end.
Definition DestroyAll (v : loc) : M () :=
  store ← load_mv v;
  entries ← range_map store;
  errs ← foldM (DestroyAll_iter v) [] entries;
  check (errors_Join (Some <$> errs)).

Definition MarkAllReadOnly_iter (errs : list error) (entry : string * loc) : M (list error) :=
  err ← err_of (MarkReadOnly (Some entry.2));
  mret (match err with Some e => (errs ++ [e])%list | None => errs end).
Definition MarkAllReadOnly (v : loc) : M () :=
  store ← load_mv v;
  entries ← range_map store;
  errs ← foldM MarkAllReadOnly_iter [] entries;
  check (errors_Join (Some <$> errs)).

Definition MemVault_Import (v : loc) (name : string) (d : ptr) : M () :=
  match d with
  | None => throw ErrDataIsNil
  | Some l =>
      store ← load_mv v;
      match store !! name with
      | Some _ => throw ErrVaultDataAlreadyExists
      | None => store_mv v (<[name := l]> store)
      end
  end.

(** ** Handlers (handler.go) *)

Record HandlerRequest := mkHandlerRequest {
  temporaryVault : loc;
  persistentVault : loc;
}.
Record HandlerResponse := mkHandlerResponse { hr_vault : loc }.

Definition newHandlerRequest : M HandlerRequest :=
  t ← NewMemVault; p ← NewMemVault; mret (mkHandlerRequest t p).

(** [ctx.Err()]: the context is cancelled when the environment says so. *)
Definition ctx_Err : M () := external "context".

(** The deferred function of [Run]: errors of the vaults are logged. *)
Definition Run_cleanup (req : HandlerRequest) (resp : option HandlerResponse) : M () :=
  _ ← err_of (DestroyAll (temporaryVault req));
  match resp with
  | None => _ ← err_of (DestroyAll (persistentVault req)); mret ()
  | Some _ => mret ()
  end.

(** [Run] of a closure that assigns variables of its caller: [A] is what it
    assigned.  Most closures assign none. *)
Definition Run_capture {A} (handler : HandlerRequest → M A) : M (HandlerResponse * A) :=
  ctx_Err;;
  req ← newHandlerRequest;
  defer_with (λ r, Run_cleanup req (fst <$> r)) (
    a ← handler req;
    ctx_Err;;
    MarkAllReadOnly (persistentVault req);;
    mret (mkHandlerResponse (persistentVault req), a)).

Definition Run (handler : HandlerRequest → M ()) : M HandlerResponse :=
  r ← Run_capture handler; mret r.1.

(** ** Per-RPC vaults (rpc_handler.go) *)

(** The value of [rpcVaultKey] in a context. *)
Notation rpc_context := (option loc) (only parsing).
Inductive RPCStats := StatsEnd | StatsOther.

Definition vaultToContext (ctx : rpc_context) (v : loc) : rpc_context := Some v.
Definition VaultFromContext (ctx : rpc_context) : option loc := ctx.
Definition TagRPC (ctx : rpc_context) : M rpc_context :=
  v ← NewMemVault; mret (vaultToContext ctx v).
Definition HandleRPC (ctx : rpc_context) (s : RPCStats) : M () :=
  match s with
  | StatsOther => mret ()
  | StatsEnd =>
      match VaultFromContext ctx with
      | None => mret ()
      | Some v => _ ← err_of (DestroyAll v); mret ()
      end
  end.
End securemem.

(** ** Well-formed memory *)

(** Location [l] holds a [Data] whose slice points to [r]. *)
Definition owns (s : secmem) (l r : loc) : Prop :=
  ∃ d, sm_heap s !! l = Some d ∧ d_data d = Some r.

Record sm_wf (s : secmem) : Prop := {
  wf_heap_lt : ∀ l d, sm_heap s !! l = Some d → (l < sm_next s)%positive;
  wf_mem_lt : ∀ r reg, sm_mem s !! r = Some reg → (r < sm_next s)%positive;
  wf_mvs_lt : ∀ v m, sm_mvs s !! v = Some m → (v < sm_next s)%positive;
  wf_own : ∀ l d r, sm_heap s !! l = Some d → d_data d = Some r →
    ∃ reg, sm_mem s !! r = Some reg ∧ r_mapped reg = true ∧
           r_writable reg = negb (d_isReadOnly d) ∧ r_bytes reg ≠ "";
  wf_inj : ∀ l1 l2 r, owns s l1 r → owns s l2 r → l1 = l2;
  wf_entries : ∀ v m n l, sm_mvs s !! v = Some m → m !! n = Some l → is_Some (sm_heap s !! l);
  wf_zero : ∀ r reg, sm_mem s !! r = Some reg → (∃ l, owns s l r) ∨ all_zero (r_bytes reg);
}.

(** The invariant as a relation between worlds. *)
Notation keeps_sm := (keeps (λ w, sm_wf (w_sm w))).

Lemma length_zeros n : String.length (zeros n) = n.
Proof. induction n as [|n IH]; simpl; [done|]. by rewrite <-IH at 2. Qed.
Lemma all_zero_zeros n : all_zero (zeros n).
Proof. unfold all_zero. by rewrite length_zeros. Qed.
Lemma zeros_nonempty n : 0 < n → zeros n ≠ "".
Proof. destruct n; [lia|done]. Qed.

Lemma empty_secmem_wf : sm_wf empty_secmem.
Proof.
  split; unfold empty_secmem, owns; simpl; intros *; rewrite ?lookup_empty; try done.
  - by intros (? & ? & ?).
Qed.

(** *** The states the operations go through *)

Section state_wf.
Context (s : secmem) (Hwf : sm_wf s).

Lemma sm_heap_next : sm_heap s !! sm_next s = None.
Proof.
  destruct (sm_heap s !! sm_next s) eqn:E; [|done]. apply (wf_heap_lt _ Hwf) in E. lia.
Qed.
Lemma sm_mem_next : sm_mem s !! sm_next s = None.
Proof.
  destruct (sm_mem s !! sm_next s) eqn:E; [|done]. apply (wf_mem_lt _ Hwf) in E. lia.
Qed.
Lemma sm_mvs_next : sm_mvs s !! sm_next s = None.
Proof.
  destruct (sm_mvs s !! sm_next s) eqn:E; [|done]. apply (wf_mvs_lt _ Hwf) in E. lia.
Qed.

Lemma owns_mem l r : owns s l r → ∃ reg, sm_mem s !! r = Some reg ∧ r_mapped reg = true ∧ r_bytes reg ≠ "".
Proof. intros (d & Hl & Hd). destruct (wf_own _ Hwf _ _ _ Hl Hd) as (reg & ? & ? & _ & ?); eauto. Qed.

Lemma wf_fresh :
  sm_wf (mkSecmem (sm_heap s) (sm_mem s) (sm_mvs s) (Pos.succ (sm_next s))).
Proof.
  destruct Hwf. split; simpl; eauto; intros; etrans; eauto; lia.
Qed.

(** A new region of zero bytes that nobody owns. *)
Lemma wf_new_region n :
  sm_wf (mkSecmem (sm_heap s) (<[sm_next s := mkRegion (zeros n) true true]> (sm_mem s))
           (sm_mvs s) (Pos.succ (sm_next s))).
Proof.
  pose proof sm_mem_next as Hn. pose proof owns_mem as Ho. destruct Hwf. split; simpl; eauto.
  - intros l d H. apply wf_heap_lt0 in H. lia.
  - intros r reg. rewrite lookup_insert_Some. intros [[<- _]|[_ H]]; [lia|].
    apply wf_mem_lt0 in H. lia.
  - intros v m H. apply wf_mvs_lt0 in H. lia.
  - intros l d r Hl Hd. destruct (wf_own0 _ _ _ Hl Hd) as (reg & Hr & ?).
    exists reg. rewrite lookup_insert_ne by congruence. done.
  - intros r reg. rewrite lookup_insert_Some. intros [[<- <-]|[_ H]].
    + right. apply all_zero_zeros.
    + apply wf_zero0 in H. exact H.
Qed.

(** A region nobody owns may change as long as it stays zero. *)
Lemma wf_unowned_region r reg reg' :
  sm_mem s !! r = Some reg → (∀ l, ¬ owns s l r) → all_zero (r_bytes reg') →
  sm_wf (mkSecmem (sm_heap s) (<[r := reg']> (sm_mem s)) (sm_mvs s) (sm_next s)).
Proof.
  intros Hr Hno Hz. destruct Hwf. split; simpl; eauto.
  - intros r' reg0. rewrite lookup_insert_Some. intros [[<- _]|[_ H]]; eauto.
  - intros l d r' Hl Hd. destruct (wf_own0 _ _ _ Hl Hd) as (reg0 & Hr' & ?).
    exists reg0. rewrite lookup_insert_ne; [done|]. intros <-. destruct (Hno l). by exists d.
  - intros r' reg0. rewrite lookup_insert_Some. intros [[<- <-]|[_ H]]; [by right|].
    apply wf_zero0 in H. exact H.
Qed.

(** The owner of a region changes its bytes or, with its flag, its protection. *)
Lemma wf_owned_region l r d' reg' :
  owns s l r → d_data d' = Some r → r_mapped reg' = true →
  r_writable reg' = negb (d_isReadOnly d') → r_bytes reg' ≠ "" →
  sm_wf (mkSecmem (<[l := d']> (sm_heap s)) (<[r := reg']> (sm_mem s)) (sm_mvs s) (sm_next s)).
Proof.
  intros Hown Hd' Hm Hw Hb. pose proof Hown as (d & Hl & Hd).
  assert (∀ l' r', owns (mkSecmem (<[l := d']> (sm_heap s)) (<[r := reg']> (sm_mem s)) (sm_mvs s) (sm_next s)) l' r'
           ↔ owns s l' r') as Howns.
  { intros l' r'. unfold owns. simpl. destruct (decide (l' = l)) as [->|Hne].
    - rewrite lookup_insert_eq, Hl. naive_solver.
    - by rewrite lookup_insert_ne. }
  destruct Hwf. split; simpl.
  - intros l' d0. rewrite lookup_insert_Some. intros [[<- _]|[_ H]]; eauto.
  - intros r' reg0. rewrite lookup_insert_Some. intros [[<- _]|[_ H]]; eauto.
    destruct (wf_own0 _ _ _ Hl Hd) as (? & ? & _); eauto.
  - eauto.
  - intros l' d0 r' Hl' Hd0. destruct (decide (r' = r)) as [->|Hne].
    + assert (l' = l) as ->. { eapply wf_inj0; [|done]. apply Howns. by exists d0. }
      rewrite lookup_insert_eq in Hl'. simplify_eq. exists reg'. by rewrite lookup_insert_eq.
    + assert (l' ≠ l). { intros ->. rewrite lookup_insert_eq in Hl'. congruence. }
      rewrite lookup_insert_ne in Hl' by done. rewrite lookup_insert_ne by done. eauto.
  - intros l1 l2 r'. rewrite !Howns. eauto.
  - intros v m n l' Hv Hn. destruct (decide (l' = l)) as [->|]; [by rewrite lookup_insert_eq|].
    rewrite lookup_insert_ne by done. eauto.
  - intros r' reg0 Hr'. setoid_rewrite Howns. revert Hr'.
    rewrite lookup_insert_Some. intros [[<- _]|[_ H]]; eauto.
Qed.

(** [Destroy]: the owner lets go of a region whose bytes were wiped. *)
Lemma wf_destroyed l r d' reg' :
  owns s l r → d_data d' = None → all_zero (r_bytes reg') →
  sm_wf (mkSecmem (<[l := d']> (sm_heap s)) (<[r := reg']> (sm_mem s)) (sm_mvs s) (sm_next s)).
Proof.
  intros Hown Hd' Hz. pose proof Hown as (d & Hl & Hd).
  assert (∀ l' r', owns (mkSecmem (<[l := d']> (sm_heap s)) (<[r := reg']> (sm_mem s)) (sm_mvs s) (sm_next s)) l' r'
           ↔ owns s l' r' ∧ l' ≠ l) as Howns.
  { intros l' r'. unfold owns. simpl. destruct (decide (l' = l)) as [->|Hne].
    - rewrite lookup_insert_eq. naive_solver.
    - rewrite lookup_insert_ne; naive_solver. }
  destruct Hwf. split; simpl.
  - intros l' d0. rewrite lookup_insert_Some. intros [[<- _]|[_ H]]; eauto.
  - intros r' reg0. rewrite lookup_insert_Some. intros [[<- _]|[_ H]]; eauto.
    destruct (wf_own0 _ _ _ Hl Hd) as (? & ? & _); eauto.
  - eauto.
  - intros l' d0 r' Hl' Hd0. assert (l' ≠ l) as Hne.
    { intros ->. rewrite lookup_insert_eq in Hl'. congruence. }
    rewrite lookup_insert_ne in Hl' by done.
    assert (r' ≠ r). { intros ->. apply Hne. eapply wf_inj0; [by exists d0|done]. }
    rewrite lookup_insert_ne by done. eauto.
  - intros l1 l2 r'. rewrite !Howns. naive_solver.
  - intros v m n l' Hv Hn. destruct (decide (l' = l)) as [->|]; [by rewrite lookup_insert_eq|].
    rewrite lookup_insert_ne by done. eauto.
  - intros r' reg0. rewrite lookup_insert_Some. intros [[<- <-]|[Hne H]]; [by right|].
    apply wf_zero0 in H as [(l' & Ho)|]; [|by right]. left. exists l'. apply Howns.
    split; [done|]. intros ->. destruct Ho as (? & ? & ?). congruence.
Qed.

(** A new [Data] object takes a region nobody owned. *)
Lemma wf_new_data r reg d' :
  sm_mem s !! r = Some reg → (∀ l, ¬ owns s l r) → d_data d' = Some r → r_mapped reg = true →
  r_writable reg = negb (d_isReadOnly d') → r_bytes reg ≠ "" →
  sm_wf (mkSecmem (<[sm_next s := d']> (sm_heap s)) (sm_mem s) (sm_mvs s) (Pos.succ (sm_next s))).
Proof.
  intros Hr Hno Hd' Hm Hw Hb. pose proof sm_heap_next as Hn.
  assert (∀ l' r', owns (mkSecmem (<[sm_next s := d']> (sm_heap s)) (sm_mem s) (sm_mvs s) (Pos.succ (sm_next s))) l' r'
           ↔ owns s l' r' ∨ (l' = sm_next s ∧ r' = r)) as Howns.
  { intros l' r'. unfold owns. simpl. destruct (decide (l' = sm_next s)) as [->|Hne].
    - rewrite lookup_insert_eq, Hn. naive_solver.
    - rewrite lookup_insert_ne; naive_solver. }
  destruct Hwf. split; simpl.
  - intros l' d0. rewrite lookup_insert_Some. intros [[<- _]|[_ H]]; [lia|].
    apply wf_heap_lt0 in H. lia.
  - intros r' reg0 H. apply wf_mem_lt0 in H. lia.
  - intros v m H. apply wf_mvs_lt0 in H. lia.
  - intros l' d0 r'. rewrite lookup_insert_Some. intros [[<- <-]|[_ H]] Hd0; [|eauto].
    simplify_eq. eauto.
  - intros l1 l2 r'. rewrite !Howns. naive_solver.
  - intros v m n l' Hv Hm'. destruct (decide (l' = sm_next s)) as [->|]; [by rewrite lookup_insert_eq|].
    rewrite lookup_insert_ne by done. eauto.
  - intros r' reg0 H. setoid_rewrite Howns. apply wf_zero0 in H as [[]|]; eauto.
Qed.

(** A vault whose entries exist. *)
Lemma wf_mv v m :
  (v < sm_next s)%positive → (∀ n l, m !! n = Some l → is_Some (sm_heap s !! l)) →
  sm_wf (mkSecmem (sm_heap s) (sm_mem s) (<[v := m]> (sm_mvs s)) (sm_next s)).
Proof.
  intros Hv Hm. destruct Hwf. split; simpl; eauto.
  - intros v' m'. rewrite lookup_insert_Some. intros [[<- _]|[_ H]]; eauto.
  - intros v' m' n l. rewrite lookup_insert_Some. intros [[<- <-]|[_ H]]; eauto.
Qed.
End state_wf.
