(* ===== verification/SecureMemTheorems.v ===== *)
(** * Memory safety of internal/securemem

    Every operation keeps the memory well formed whatever system call fails
    ([keeps_sm]), none of them touches the database, the vaults or the response
    ([memonly]), and none of them kills the process on well-formed memory. *)

From S2P Require Import Prelude GoStrings GoRuntime Model World SecureMem.

Local Open Scope string_scope.

(** ** Frames *)

(** Everything but secure memory and the tick is the same. *)
Definition outside (w : world) := (w_db w, w_vault w, w_resp w).
Notation memonly := (unchanged outside).

Section effects_sm.
Context {ENV : Env}.

Lemma memonly_modify f : (∀ w, outside (f w) = outside w) → respects memonly (modify f).
Proof. intros H w. apply H. Qed.
Lemma memonly_external what : respects memonly (external what).
Proof. by apply respects_external. Qed.
Lemma memonly_fresh : respects memonly fresh.
Proof. done. Qed.
Lemma memonly_range_map m : respects memonly (range_map m).
Proof. done. Qed.
Lemma memonly_or_panic {A} (o : option A) : respects memonly (or_panic o).
Proof. by destruct o. Qed.
Lemma memonly_load_data l : respects memonly (load_data l).
Proof. intros w. apply memonly_or_panic. Qed.
Lemma memonly_load_region r : respects memonly (load_region r).
Proof. intros w. apply memonly_or_panic. Qed.
Lemma memonly_load_mv v : respects memonly (load_mv v).
Proof. intros w. apply memonly_or_panic. Qed.
Lemma memonly_store_data l d : respects memonly (store_data l d).
Proof. done. Qed.
Lemma memonly_store_region r d : respects memonly (store_region r d).
Proof. done. Qed.
Lemma memonly_store_mv v m : respects memonly (store_mv v m).
Proof. done. Qed.
End effects_sm.

#[export] Hint Resolve memonly_external memonly_fresh memonly_range_map memonly_or_panic memonly_load_data
  memonly_load_region memonly_load_mv memonly_store_data memonly_store_region memonly_store_mv : respects.


Section memonly_ops.
Context {ENV : Env}.

Lemma memonly_err_of {A} (m : M A) : respects memonly m → respects memonly (err_of m).
Proof. intros. unfold err_of; solve_respects. Qed.
Hint Resolve memonly_err_of : respects.

Lemma memonly_on_mapped what r k : (∀ reg, respects memonly (k reg)) → respects memonly (on_mapped what r k).
Proof. intros. unfold on_mapped; solve_respects. Qed.
Hint Resolve memonly_on_mapped : respects.
Lemma memonly_mprotect r b : respects memonly (mprotect r b).
Proof. unfold mprotect; solve_respects. Qed.
Lemma memonly_munmap r : respects memonly (munmap r).
Proof. unfold munmap; solve_respects. Qed.
Lemma memonly_write_region r f : respects memonly (write_region r f).
Proof. unfold write_region; solve_respects. Qed.
Hint Resolve memonly_mprotect memonly_munmap memonly_write_region : respects.
Lemma memonly_unalloc r : respects memonly (unalloc r).
Proof. unfold unalloc, Zero, munlock. solve_respects. Qed.
Lemma memonly_alloc n : respects memonly (alloc n).
Proof. unfold alloc, mmap, madvise, mlock. solve_respects. Qed.
Hint Resolve memonly_unalloc memonly_alloc : respects.
Lemma memonly_NewData name size : respects memonly (NewData name size).
Proof. unfold NewData; solve_respects. Qed.
Lemma memonly_SecureBytes p : respects memonly (SecureBytes p).
Proof. unfold SecureBytes, deref. solve_respects. Qed.
Lemma memonly_Data_Destroy p : respects memonly (Data_Destroy p).
Proof. unfold Data_Destroy, readwrite. solve_respects. Qed.
Lemma memonly_MarkReadOnly p : respects memonly (MarkReadOnly p).
Proof. unfold MarkReadOnly, readonly, deref. solve_respects. Qed.
Lemma memonly_Name p : respects memonly (Name p).
Proof. unfold Name, deref. solve_respects. Qed.
Lemma memonly_len s : respects memonly (len s).
Proof. unfold len; solve_respects. Qed.
Lemma memonly_read_bytes s : respects memonly (read_bytes s).
Proof. unfold read_bytes; solve_respects. Qed.
Lemma memonly_copy_bytes s src : respects memonly (copy_bytes s src).
Proof. unfold copy_bytes; solve_respects. Qed.
Lemma memonly_rand_Read n : respects memonly (rand_Read n).
Proof. by apply respects_rand_Read. Qed.
Hint Resolve memonly_NewData memonly_SecureBytes memonly_Data_Destroy memonly_MarkReadOnly : respects.
Lemma memonly_NewMemVault : respects memonly NewMemVault.
Proof. unfold NewMemVault; solve_respects. Qed.
Lemma memonly_Reserve v n size : respects memonly (Reserve v n size).
Proof. unfold Reserve; solve_respects. Qed.
Lemma memonly_MemVault_Get v n : respects memonly (MemVault_Get v n).
Proof. unfold MemVault_Get; solve_respects. Qed.
Lemma memonly_MemVault_Destroy v n : respects memonly (MemVault_Destroy v n).
Proof. unfold MemVault_Destroy; solve_respects. Qed.
Lemma memonly_DestroyAll v : respects memonly (DestroyAll v).
Proof. unfold DestroyAll, DestroyAll_iter. solve_respects. Qed.
Lemma memonly_MarkAllReadOnly v : respects memonly (MarkAllReadOnly v).
Proof. unfold MarkAllReadOnly, MarkAllReadOnly_iter. solve_respects. Qed.
Lemma memonly_MemVault_Import v n d : respects memonly (MemVault_Import v n d).
Proof. unfold MemVault_Import; solve_respects. Qed.
Hint Resolve memonly_NewMemVault memonly_DestroyAll memonly_MarkAllReadOnly : respects.

(** [Run] touches the rest of the world only through its handler. *)
Lemma respects_Run_capture R `{!PreOrder R} {A} (handler : HandlerRequest → M A) :
  (∀ B (m : M B), respects memonly m → respects R m) →
  (∀ req, respects R (handler req)) → respects R (Run_capture handler).
Proof.
  intros HR Hh. unfold Run_capture, newHandlerRequest, Run_cleanup, ctx_Err.
  repeat (respects_step || (apply HR; solve [solve_respects]) || (apply Hh)).
Qed.
Lemma respects_Run R `{!PreOrder R} (handler : HandlerRequest → M ()) :
  (∀ B (m : M B), respects memonly m → respects R m) →
  (∀ req, respects R (handler req)) → respects R (Run handler).
Proof.
  intros HR Hh. unfold Run. apply respects_bind; [done|by apply respects_Run_capture|].
  intros ?. by apply respects_ret.
Qed.
Lemma memonly_Run handler : (∀ req, respects memonly (handler req)) → respects memonly (Run handler).
Proof. apply respects_Run; [apply _|done]. Qed.
End memonly_ops.

#[export] Hint Resolve memonly_err_of memonly_mprotect memonly_munmap memonly_write_region memonly_unalloc
  memonly_alloc memonly_NewData memonly_SecureBytes memonly_Data_Destroy memonly_MarkReadOnly memonly_Name memonly_len
  memonly_read_bytes memonly_copy_bytes memonly_rand_Read memonly_NewMemVault memonly_Reserve memonly_MemVault_Get
  memonly_MemVault_Destroy memonly_DestroyAll memonly_MarkAllReadOnly memonly_MemVault_Import memonly_Run : respects.

(** ** A program logic for memory safety *)

(** Objects are never forgotten, and the database and the response of a task
    are not touched. *)
Record grows (w w' : world) : Prop := {
  grows_heap : ∀ l, is_Some (sm_heap (w_sm w) !! l) → is_Some (sm_heap (w_sm w') !! l);
  grows_mvs : ∀ v, is_Some (sm_mvs (w_sm w) !! v) → is_Some (sm_mvs (w_sm w') !! v);
  grows_db : w_db w' = w_db w;
  grows_resp : w_resp w' = w_resp w;
}.

#[export] Instance grows_preorder : PreOrder grows.
Proof. split; [by intros w|]. intros w1 w2 w3 [] []. split; try congruence; eauto. Qed.

(** An error that is no task disposition. *)
Notation benign e := (errors_AsOrbital e = None).

(** [wpe m w Q E]: run on the memory [w], the computation [m] leaves the
    memory well formed and the database alone, returns (it neither panics nor
    dies), its value, if it has one, satisfies [Q] and its error, if it has
    one, is no task disposition and satisfies [E]. *)
Definition wpe {A} (m : M A) (w : world) (Q : A → world → Prop) (E : error → world → Prop) : Prop :=
  sm_wf (w_sm (m w).2) ∧ grows w (m w).2 ∧
  match (m w).1 with
  | Ok a => Q a (m w).2
  | Err e => benign e ∧ E e (m w).2
  | Panic | Diverge => False
  end.
Notation wp m w Q := (wpe m w Q (λ _ _, True)).

(** The invariant, shorter. *)
Notation wf w := (sm_wf (w_sm w)).
(** The pointer is not nil. *)
Definition valid (w : world) (p : option positive) : Prop :=
  match p with None => False | Some l => is_Some (sm_heap (w_sm w) !! l) end.
Definition valid_mv (w : world) (v : positive) : Prop := is_Some (sm_mvs (w_sm w) !! v).
(** A slice that is nil or belongs to an object. *)
Definition owned (w : world) (s : option positive) : Prop :=
  match s with None => True | Some r => ∃ l, owns (w_sm w) l r end.

Lemma grows_valid w w' p : grows w w' → valid w p → valid w' p.
Proof. destruct p; [|done]. intros []; simpl; eauto. Qed.
Lemma grows_valid_mv w w' v : grows w w' → valid_mv w v → valid_mv w' v.
Proof. intros []. unfold valid_mv; eauto. Qed.

Lemma benign_EWrap es : (∀ e, e ∈ es → benign e) → benign (EWrap es).
Proof.
  intros H. simpl. induction es as [|e es IH]; [done|]. rewrite (H e) by left. apply IH.
  intros e' He'. apply H. by right.
Qed.
Lemma benign_wrap1 e : benign e → benign (wrap1 e).
Proof. intros H. apply benign_EWrap. intros e' ->%list_elem_of_singleton. done. Qed.
Lemma benign_wrap2 sn e : benign e → benign (wrap2 sn e).
Proof.
  intros H. apply benign_EWrap. intros e' [-> | ->%list_elem_of_singleton]%elem_of_cons; done.
Qed.
Lemma benign_Join es e : (∀ e, Some e ∈ es → benign e) → errors_Join es = Some e → benign e.
Proof.
  intros H. unfold errors_Join. destruct (omap id es) as [|e0 es'] eqn:E; [done|]. intros [= <-].
  apply benign_EWrap. intros e1 He1. rewrite <-E in He1.
  apply list_elem_of_omap in He1 as (o & Ho & Heq). simpl in Heq. subst. by apply H.
Qed.

Create HintDb mem.
#[export] Hint Resolve benign_wrap1 benign_wrap2 : mem.
#[export] Hint Resolve grows_valid grows_valid_mv : mem.

Section wp_rules.
Context {ENV : Env}.

Lemma wp_ret {A} (a : A) w (Q : A → world → Prop) E : wf w → Q a w → wpe (mret a) w Q E.
Proof. intros Hw HQ. split_and!; [done|reflexivity|done]. Qed.
Lemma wp_throw {A} e w (Q : A → world → Prop) (E : error → world → Prop) :
  wf w → benign e → E e w → wpe (throw e) w Q E.
Proof. intros Hw He HE. split; [|split]; [done|reflexivity|done]. Qed.
Lemma wp_check o w (Q : () → world → Prop) (E : error → world → Prop) :
  wf w → match o with None => Q tt w | Some e => benign e ∧ E e w end → wpe (check o) w Q E.
Proof. intros Hw Ho. destruct o; [destruct Ho; by apply wp_throw|by apply wp_ret]. Qed.

Lemma wp_bind {A B} (m : M A) (k : A → M B) w (Q : A → world → Prop) (R : B → world → Prop) E :
  wpe m w Q E → (∀ a w', wf w' → grows w w' → Q a w' → wpe (k a) w' R E) → wpe (m ≫= k) w R E.
Proof.
  unfold wpe. intros (Hw & Hg & HQ) Hk. rewrite bind_run.
  destruct (m w) as [[a|e| |] w'] eqn:Em; simpl in *; [|done..].
  destruct (Hk a w') as (? & ? & ?); [done..|]. split_and!; [done|by etrans|done].
Qed.

Lemma wp_weaken {A} (m : M A) w (Q R : A → world → Prop) (E F : error → world → Prop) :
  wpe m w Q E → (∀ a w', wf w' → grows w w' → Q a w' → R a w') →
  (∀ e w', wf w' → grows w w' → E e w' → F e w') → wpe m w R F.
Proof.
  unfold wpe. intros (Hw & Hg & HQ) HR HE. split_and!; [done..|].
  destruct (m w) as [[a|e| |] w']; simpl in *; eauto. destruct HQ. eauto.
Qed.
Lemma wp_post {A} (m : M A) w (Q R : A → world → Prop) E :
  wpe m w Q E → (∀ a w', wf w' → grows w w' → Q a w' → R a w') → wpe m w R E.
Proof. intros H HR. eapply wp_weaken; eauto. Qed.
Lemma wp_any {A} (m : M A) w (Q R : A → world → Prop) E :
  wpe m w Q E → (∀ a w', wf w' → grows w w' → Q a w' → R a w') → wp m w R.
Proof. intros H HR. eapply wp_weaken; eauto. Qed.

Lemma wp_try {A} (m : M A) w (Q : A → world → Prop) E F :
  wpe m w Q E → wpe (try m) w (λ r w', match r with inl a => Q a w' | inr e => benign e ∧ E e w' end) F.
Proof. unfold wpe, try. by destruct (m w) as [[] ?]. Qed.

Lemma wp_err_of {A} (m : M A) w (Q : A → world → Prop) E F :
  wpe m w Q E →
  wpe (err_of m) w (λ o w', match o with None => ∃ a, Q a w' | Some e => benign e ∧ E e w' end) F.
Proof. unfold wpe, err_of. rewrite bind_try. destruct (m w) as [[] ?]; simpl; naive_solver. Qed.

(** A deferred call after every outcome. *)
Lemma wp_defer {A} (c : M ()) (m : M A) w (Q R : A → world → Prop) (E F : error → world → Prop) :
  wpe m w Q E →
  (∀ a w', wf w' → grows w w' → Q a w' → wf (c w').2 ∧ grows w' (c w').2 ∧ R a (c w').2) →
  (∀ e w', wf w' → grows w w' → E e w' → wf (c w').2 ∧ grows w' (c w').2 ∧ F e (c w').2) →
  wpe (defer c m) w R F.
Proof.
  unfold wpe, defer. intros (Hw & Hg & HQ) HR HE.
  destruct (m w) as [[a|e| |] w'] eqn:Em; simpl in *; try done.
  - destruct (HR a w') as (? & ? & ?); try done; split_and!; [done|by etrans|done].
  - destruct HQ as [Hb HQ]. destruct (HE e w') as (? & ? & ?); try done; split_and!; [done|by etrans|done|done].
Qed.

Lemma wp_defer_with {A} (c : option A → M ()) (m : M A) w (Q R : A → world → Prop) (E F : error → world → Prop) :
  wpe m w Q E →
  (∀ a w', wf w' → grows w w' → Q a w' → wf (c (Some a) w').2 ∧ grows w' (c (Some a) w').2 ∧ R a (c (Some a) w').2) →
  (∀ e w', wf w' → grows w w' → E e w' → wf (c None w').2 ∧ grows w' (c None w').2 ∧ F e (c None w').2) →
  wpe (defer_with c m) w R F.
Proof.
  unfold wpe, defer_with. intros (Hw & Hg & HQ) HR HE.
  destruct (m w) as [[a|e| |] w'] eqn:Em; simpl in *; try done.
  - destruct (HR a w') as (? & ? & ?); try done; split_and!; [done|by etrans|done].
  - destruct HQ as [Hb HQ]. destruct (HE e w') as (? & ? & ?); try done; split_and!; [done|by etrans|done|done].
Qed.

(** A loop: [I done a w] after the elements [done]. *)
Lemma wp_foldM {A B} (f : A → B → M A) (I : list B → A → world → Prop) E l a w :
  wf w → I [] a w →
  (∀ done x a w', x ∈ l → wf w' → grows w w' → I done a w' → wpe (f a x) w' (I (done ++ [x])%list) E) →
  wpe (foldM f a l) w (I l) E.
Proof.
  intros Hw HI Hf.
  cut (∀ todo done a w', l = (done ++ todo)%list → wf w' → grows w w' → I done a w' → wpe (foldM f a todo) w' (I l) E).
  { intros Hc. by apply (Hc l []). }
  induction todo as [|x todo IH]; intros done a' w' Hl Hw' Hg HI'; simpl.
  - apply wp_ret; [done|]. by rewrite Hl, app_nil_r.
  - eapply wp_bind; [apply Hf; [rewrite Hl; apply elem_of_app; right; left|done..]|].
    intros a'' w'' Hw'' Hg' HI''. apply (IH (done ++ [x])%list); [|done|by etrans|done].
    by rewrite Hl, <-app_assoc.
Qed.

Lemma grows_same w w' : w_sm w' = w_sm w → w_db w' = w_db w → w_resp w' = w_resp w → grows w w'.
Proof. intros Hs ? ?. split; rewrite ?Hs; done. Qed.
Lemma wp_external what w :
  wf w → wpe (external what) w (λ _ w', w_sm w' = w_sm w) (λ _ w', w_sm w' = w_sm w ∧ ¬ NoFaults).
Proof.
  intros. unfold wpe, external. destruct (e_fault (w_tick w)) eqn:E; simpl; split_and!; try done.
  intros Hnf. by rewrite Hnf in E.
Qed.
Lemma wp_external_any what w : wf w → wp (external what) w (λ _ w', w_sm w' = w_sm w).
Proof. intros. by eapply wp_weaken; [apply wp_external|..]. Qed.
Lemma wp_range_map m w :
  wf w → wpe (range_map m) w (λ l w', w_sm w' = w_sm w ∧ l ≡ₚ map_to_list m) (λ _ _, False).
Proof. intros. split; [|split]; [done|by apply grows_same|split; [done|apply e_order_perm]]. Qed.
End wp_rules.

(** ** The operations *)

Section wp_ops.
Context {ENV : Env}.

Lemma wp_deref p w E : wf w → valid w p →
  wpe (deref p) w (λ l w', p = Some l ∧ w' = w ∧ is_Some (sm_heap (w_sm w) !! l)) E.
Proof. intros. destruct p; [|done]. by apply wp_ret. Qed.
Lemma wp_load_data l w E :
  wf w → is_Some (sm_heap (w_sm w) !! l) → wpe (load_data l) w (λ d w', sm_heap (w_sm w) !! l = Some d ∧ w' = w) E.
Proof. intros Hw [d Hd]. unfold wpe, load_data. rewrite Hd. by split_and!. Qed.
Lemma wp_load_mv v w E :
  wf w → valid_mv w v → wpe (load_mv v) w (λ m w', sm_mvs (w_sm w) !! v = Some m ∧ w' = w) E.
Proof. intros Hw [d Hd]. unfold wpe, load_mv. rewrite Hd. by split_and!. Qed.
Lemma wp_load_region r w E :
  wf w → is_Some (sm_mem (w_sm w) !! r) → wpe (load_region r) w (λ g w', sm_mem (w_sm w) !! r = Some g ∧ w' = w) E.
Proof. intros Hw [d Hd]. unfold wpe, load_region. rewrite Hd. by split_and!. Qed.

(** A region nobody owns, as [mmap] returned it. *)
Definition unowned (w : world) (r : positive) (n : nat) : Prop :=
  sm_mem (w_sm w) !! r = Some (mkRegion (zeros n) true true) ∧ ∀ l, ¬ owns (w_sm w) l r.

Lemma wp_mmap n w : wf w → wp (mmap n) w (λ r w', unowned w' r n).
Proof.
  intros Hw. unfold mmap. eapply wp_bind; [by apply wp_external_any|].
  intros [] w' Hw' _ Hs.
  change (wpe (λ w, (Ok (sm_next (w_sm w)), upd_mem <[sm_next (w_sm w) := mkRegion (zeros n) true true]>
    (set_sm (mkSecmem (sm_heap (w_sm w)) (sm_mem (w_sm w)) (sm_mvs (w_sm w)) (Pos.succ (sm_next (w_sm w)))) w)))
    w' (λ r w', unowned w' r n) (λ _ _, True)).
  unfold wpe. simpl. split_and!; [by apply wf_new_region|done|].
  split; simpl; [apply lookup_insert_eq|]. intros l (d & Hl & Hd).
  destruct (wf_own _ Hw' _ _ _ Hl Hd) as (reg & Hr & _). apply (wf_mem_lt _ Hw') in Hr. lia.
Qed.

(** System calls on a region: an error leaves everything as it was. *)
Lemma wp_on_mapped what r k w reg (Q : () → world → Prop) (E : error → world → Prop) :
  wf w → sm_mem (w_sm w) !! r = Some reg →
  (∀ w', wf w' → w_sm w' = w_sm w → wpe (k reg) w' Q E) →
  (∀ e w', wf w' → w_sm w' = w_sm w → E e w') → wpe (on_mapped what r k) w Q E.
Proof.
  intros Hw Hr Hk HE. unfold on_mapped. eapply wp_bind; [by apply wp_load_region|].
  intros reg' w' _ _ [Hr' ->]. assert (reg' = reg) as -> by congruence.
  destruct (r_mapped reg); [|by apply wp_throw; eauto].
  eapply wp_bind; [eapply wp_weaken; [by apply wp_external|..]|]; naive_solver.
Qed.
Lemma wp_munmap_unowned r n w : wf w → unowned w r n → wp (munmap r) w (λ _ _, True).
Proof.
  intros Hw [Hr Hno]. unfold munmap. eapply wp_on_mapped; [done..| |done].
  intros w' Hw' Hs. rewrite <-Hs in Hr, Hno. split_and!; [|done|done].
  eapply (wf_unowned_region _ Hw'); [done..|]. apply all_zero_zeros.
Qed.
(** [madvise], [mlock] and [munlock] change nothing, whether they fail or not. *)
Lemma wp_mem_call what r w E :
  wf w → is_Some (sm_mem (w_sm w) !! r) →
  wpe (err_of (on_mapped what r (λ _, mret ()))) w
    (λ o w', w_sm w' = w_sm w ∧ ∀ e, o = Some e → benign e) E.
Proof.
  intros Hw [reg Hr].
  eapply wp_post; [eapply (wp_err_of _ _ (λ _ w', w_sm w' = w_sm w) (λ _ w', w_sm w' = w_sm w))|].
  - eapply wp_on_mapped; [done..| |done]. intros. by apply wp_ret.
  - intros [e|] w' _ _; naive_solver.
Qed.

(** A failed call on a region that [alloc] has not handed out yet. *)
Lemma wp_alloc_fail {A} e r n w (k : M A) (Q : A → world → Prop) :
  wf w → unowned w r n → benign e →
  wp (errUnmap ← err_of (munmap r); check (errors_Join [Some e; errUnmap]);; k) w Q.
Proof.
  intros Hw Hu Hb. eapply wp_bind; [by eapply wp_err_of, wp_munmap_unowned|].
  intros o w' Hw' _ Ho. eapply (wp_bind _ _ _ (λ _ _, False)); [|done].
  assert (∃ e', errors_Join [Some e; o] = Some e') as [e' He'] by (destruct o; eauto).
  rewrite He'. apply wp_throw; [done| |done]. eapply benign_Join; [|done].
  intros e1. rewrite elem_of_cons, list_elem_of_singleton. intros [[= ->]|He1]; [done|].
  destruct o; [|done]. injection He1 as ->. by destruct Ho.
Qed.
End wp_ops.

Section wp_data.
Context {ENV : Env}.

Lemma unowned_same w w' r n : w_sm w' = w_sm w → unowned w r n → unowned w' r n.
Proof. unfold unowned. by intros ->. Qed.

Lemma wp_alloc n w : wf w → wp (alloc n) w (λ r w', unowned w' r n).
Proof.
  intros Hw. unfold alloc. eapply wp_bind; [by apply wp_mmap|]. intros r w1 Hw1 _ Hu1.
  eapply wp_bind; [apply wp_mem_call; [done|]; destruct Hu1; eauto|]. intros [e|] w2 Hw2 _ [Hs2 Hb2].
  { eapply wp_alloc_fail; [done| |by apply Hb2]. eapply unowned_same; [exact Hs2|exact Hu1]. }
  eapply wp_bind; [apply wp_mem_call; [done|]; rewrite Hs2; destruct Hu1; eauto|].
  intros [e|] w3 Hw3 _ [Hs3 Hb3]; [eapply wp_alloc_fail; [done| |by apply Hb3]|apply wp_ret; [done|]];
    (eapply unowned_same; [|exact Hu1]); congruence.
Qed.

(** [NewData] returns a new writable object of zero bytes. *)
Definition holds (w : world) (l : positive) (name bytes : string) (ro : bool) : Prop :=
  ∃ r, sm_heap (w_sm w) !! l = Some (mkData name (Some r) ro) ∧
       sm_mem (w_sm w) !! r = Some (mkRegion bytes (negb ro) true).

Lemma wp_NewData name size w :
  wf w → wp (NewData name size) w (λ l w', holds w' l name (zeros (Z.to_nat size)) false).
Proof.
  intros Hw. unfold NewData. destruct (size <=? 0)%Z eqn:Hz; [by apply wp_throw|]. to_prop.
  eapply wp_bind; [by apply wp_alloc|]. intros r w1 Hw1 _ [Hr Hno].
  unfold wpe. simpl. split_and!.
  - eapply (wf_new_data _ Hw1); [done..|]. apply zeros_nonempty. lia.
  - split; simpl; try done. intros l Hl. destruct (decide (l = sm_next (w_sm w1))) as [->|].
    + by rewrite lookup_insert_eq.
    + by rewrite lookup_insert_ne.
  - exists r. simpl. by rewrite lookup_insert_eq.
Qed.

Lemma holds_valid w l n b ro : holds w l n b ro → valid w (Some l).
Proof. intros (r & H & _). simpl. by rewrite H. Qed.

Lemma SecureBytes_run l d w : sm_heap (w_sm w) !! l = Some d → SecureBytes (Some l) w = (Ok (d_data d), w).
Proof. intros Hl. unfold SecureBytes, deref, load_data, mbind, comp_bind. simpl. by rewrite Hl. Qed.

Lemma wp_SecureBytes p w E : wf w → valid w p → wpe (SecureBytes p) w (λ s w', w' = w ∧ owned w s) E.
Proof.
  intros Hw Hp. unfold SecureBytes. eapply wp_bind; [by apply wp_deref|].
  intros l ? _ _ (-> & -> & Hl). eapply wp_bind; [by apply wp_load_data|].
  intros d ? _ _ [Hd ->]. apply wp_ret; [done|]. split; [done|].
  destruct (d_data d) eqn:Hdd; [|done]. by exists l, d.
Qed.

Lemma wp_Name p w E : wf w → valid w p → wpe (Name p) w (λ _ w', w' = w) E.
Proof.
  intros Hw Hp. unfold Name. eapply wp_bind; [by apply wp_deref|].
  intros l ? _ _ (-> & -> & Hl). eapply wp_bind; [by apply wp_load_data|].
  intros d ? _ _ [Hd ->]. by apply wp_ret.
Qed.

Lemma wp_len s w E : wf w → owned w s → wpe (len s) w (λ _ w', w' = w) E.
Proof.
  intros Hw Hs. destruct s as [r|]; simpl in *; [|by apply wp_ret].
  destruct Hs as (l & Hl). destruct (owns_mem _ Hw _ _ Hl) as (reg & Hr & _).
  eapply wp_bind; [by apply wp_load_region|]. intros ? ? _ _ [_ ->]. by apply wp_ret.
Qed.

Lemma wp_read_bytes s w E : wf w → owned w s → wpe (read_bytes s) w (λ _ w', w' = w) E.
Proof.
  intros Hw Hs. destruct s as [r|]; simpl in *; [|by apply wp_ret].
  destruct Hs as (l & Hl). destruct (owns_mem _ Hw _ _ Hl) as (reg & Hr & Hm & _).
  eapply wp_bind; [by apply wp_load_region|]. intros reg' ? _ _ [Hr' ->]. assert (reg' = reg) as -> by congruence.
  rewrite Hm. by apply wp_ret.
Qed.

(** Writing needs a region that its owner has not protected. *)
Definition writable (w : world) (s : option positive) : Prop :=
  match s with
  | None => True
  | Some r => ∃ l d, sm_heap (w_sm w) !! l = Some d ∧ d_data d = Some r ∧ d_isReadOnly d = false
  end.

Lemma wp_write_region r f w E :
  wf w → writable w (Some r) → (∀ s, s ≠ "" → f s ≠ "") →
  wpe (write_region r f) w (λ _ w', writable w' (Some r) ∧ sm_mvs (w_sm w') = sm_mvs (w_sm w)) E.
Proof.
  intros Hw (l & d & Hl & Hd & Hro) Hf.
  destruct (wf_own _ Hw _ _ _ Hl Hd) as (reg & Hr & Hm & Hwr & Hb).
  unfold write_region. eapply wp_bind; [by apply wp_load_region|].
  intros reg' ? _ _ [Hr' ->]. assert (reg' = reg) as -> by congruence. rewrite Hm, Hwr, Hro. simpl.
  split_and!; [|done|split; [by exists l, d|done]]. simpl.
  replace (sm_heap (w_sm w)) with (<[l := d]> (sm_heap (w_sm w))) by (by rewrite insert_id).
  apply wf_owned_region; simpl; [done|by exists d|done|done|by rewrite Hro|by apply Hf].
Qed.

Lemma length_unchars l : String.length (unchars l) = length l.
Proof. induction l; simpl; congruence. Qed.
Lemma length_chars s : length (chars s) = String.length s.
Proof. induction s; simpl; congruence. Qed.
Lemma length_overwrite s t : String.length (overwrite s t) = String.length s.
Proof.
  unfold overwrite. rewrite length_unchars, length_app, length_take, length_drop, length_chars. lia.
Qed.
Lemma length_nonempty s : s ≠ "" ↔ 0 < String.length s.
Proof. destruct s; simpl; split; try done; lia. Qed.

Lemma wp_copy_bytes s src w E :
  wf w → writable w s →
  wpe (copy_bytes s src) w (λ _ w', writable w' s ∧ sm_mvs (w_sm w') = sm_mvs (w_sm w)) E.
Proof.
  intros Hw Hs. destruct s as [r|]; [|by apply wp_ret]. unfold copy_bytes.
  destruct (String.eqb src ""); [by apply wp_ret|]. apply wp_write_region; [done..|].
  intros s. rewrite !length_nonempty, length_overwrite. done.
Qed.
End wp_data.

(** ** Destroying *)

(** The memory after the region of [l] was wiped and let go of; [m] tells
    whether the pages are still mapped ([munmap] failed). *)
Definition sm_destroy (l r : positive) (d : Data) (reg : Region) (m : bool) (s : secmem) : secmem :=
  mkSecmem (<[l := mkData (d_name d) None false]> (sm_heap s))
    (<[r := mkRegion (zeros (String.length (r_bytes reg))) true m]> (sm_mem s))
    (sm_mvs s) (sm_next s).

Section destroy.
Context {ENV : Env}.

Lemma on_mapped_run what r k w reg :
  sm_mem (w_sm w) !! r = Some reg → r_mapped reg = true →
  on_mapped what r k w =
    if e_fault (w_tick w) then (Err (EForeign what), tick w) else k reg (tick w).
Proof.
  intros Hr Hm. unfold on_mapped. rewrite bind_run. unfold load_region at 1. rewrite Hr. simpl.
  rewrite Hm, bind_run. unfold external. by destruct (e_fault (w_tick w)).
Qed.

(** What an error value of a call was, and the state it left. *)
Lemma err_of_run {A} (m : M A) w :
  err_of m w = match m w with
               | (Ok _, w') => (Ok None, w')
               | (Err e, w') => (Ok (Some e), w')
               | (Panic, w') => (Panic, w')
               | (Diverge, w') => (Diverge, w')
               end.
Proof. unfold err_of. rewrite bind_try. by destruct (m w) as [[] ?]. Qed.

Lemma unalloc_cases r w reg :
  sm_mem (w_sm w) !! r = Some reg → r_mapped reg = true → r_writable reg = true →
  ∃ res w' m, unalloc r w = (res, w') ∧ (res = Ok () ∨ ∃ e, res = Err e ∧ benign e) ∧
    (NoFaults → res = Ok () ∧ m = false) ∧
    w_sm w' = mkSecmem (sm_heap (w_sm w))
      (<[r := mkRegion (zeros (String.length (r_bytes reg))) true m]> (sm_mem (w_sm w)))
      (sm_mvs (w_sm w)) (sm_next (w_sm w)).
Proof.
  intros Hr Hm Hwr. unfold unalloc, Zero, write_region.
  rewrite !bind_run. unfold load_region at 1. rewrite Hr. simpl. rewrite Hm, Hwr. simpl.
  rewrite bind_run, err_of_run. unfold munlock.
  rewrite (on_mapped_run _ _ _ _ (mkRegion (zeros (String.length (r_bytes reg))) true true));
    [|simpl; apply lookup_insert_eq|done]. simpl.
  destruct (e_fault (w_tick w)) eqn:E1; simpl;
    rewrite bind_run, err_of_run; unfold munmap;
    (rewrite (on_mapped_run _ _ _ _ (mkRegion (zeros (String.length (r_bytes reg))) true true));
      [|simpl; apply lookup_insert_eq|done]); simpl;
    destruct (e_fault (S (w_tick w))) eqn:E2; simpl;
    eexists _, _, _; (split_and!; [reflexivity|eauto| |]);
    try (by intros Hnf; rewrite Hnf in *); simpl; rewrite ?insert_insert_eq; reflexivity.
Qed.

Lemma Data_Destroy_nil w : Data_Destroy None w = (Ok (), w).
Proof. done. Qed.

Lemma Data_Destroy_cases l d w :
  wf w → sm_heap (w_sm w) !! l = Some d →
  ∃ res w', Data_Destroy (Some l) w = (res, w') ∧ (res = Ok () ∨ ∃ e, res = Err e ∧ benign e) ∧
    match d_data d with
    | None => res = Ok () ∧ w' = w
    | Some r =>
        (d_isReadOnly d = true ∧ res ≠ Ok () ∧ w_sm w' = w_sm w ∧ ¬ NoFaults) ∨
        ∃ reg m, sm_mem (w_sm w) !! r = Some reg ∧ w_sm w' = sm_destroy l r d reg m (w_sm w) ∧
                 (NoFaults → res = Ok () ∧ m = false)
    end.
Proof.
  intros Hw Hl. unfold Data_Destroy. rewrite bind_run. unfold load_data at 1. rewrite Hl. simpl.
  destruct (d_data d) as [r|] eqn:Hd; [|by eexists _, _; eauto].
  destruct (wf_own _ Hw _ _ _ Hl Hd) as (reg & Hr & Hm & Hwr & Hb).
  destruct (d_isReadOnly d) eqn:Hro.
  - unfold readwrite, mprotect. rewrite !bind_run, (on_mapped_run _ _ _ _ reg) by done.
    destruct (e_fault (w_tick w)) eqn:E.
    { eexists _, _. split_and!; [reflexivity|eauto|]. left. split_and!; try done.
      intros Hnf. by rewrite Hnf in E. }
    simpl. set (w1 := upd_heap _ _). unfold defer.
    destruct (unalloc_cases r w1 (mkRegion (r_bytes reg) true true)) as (res & w2 & m & -> & Hres & Hnf & Hs);
      [by subst w1; simpl; rewrite lookup_insert_eq|done..|].
    exists res, (upd_heap <[l := mkData (d_name d) None false]> w2).
    split_and!; [by destruct Hres as [->|(? & -> & _)]|done|]. right. exists reg, m. split_and!; [done| |done].
    unfold sm_destroy. subst w1. simpl in *. rewrite Hs. simpl. by rewrite !insert_insert_eq.
  - simpl in Hwr. rewrite bind_run. simpl. unfold defer.
    destruct (unalloc_cases r w reg) as (res & w2 & m & -> & Hres & Hnf & Hs); [done..|].
    exists res, (upd_heap <[l := mkData (d_name d) None false]> w2).
    split_and!; [by destruct Hres as [->|(? & -> & _)]|done|]. right. exists reg, m. split_and!; [done| |done].
    unfold sm_destroy. simpl. by rewrite Hs.
Qed.

Lemma wf_sm_destroy l r d reg m s :
  sm_wf s → sm_heap s !! l = Some d → d_data d = Some r → sm_wf (sm_destroy l r d reg m s).
Proof. intros. apply wf_destroyed; [done|by exists d|done|apply all_zero_zeros]. Qed.

(** A [Data] that [Destroy] returned from without error has no bytes left. *)
Definition dead (w : world) (l : positive) : Prop :=
  ∃ d, sm_heap (w_sm w) !! l = Some d ∧ d_data d = None.

(** The object cannot be written any more: it is read-only or destroyed. *)
Definition sealed (w : world) (l : positive) : Prop :=
  ∃ d, sm_heap (w_sm w) !! l = Some d ∧ (d_data d = None ∨ d_isReadOnly d = true).

Lemma grows_upd_heap l d w w' :
  sm_heap (w_sm w') = <[l := d]> (sm_heap (w_sm w)) → sm_mvs (w_sm w') = sm_mvs (w_sm w) →
  outside w' = outside w → grows w w'.
Proof.
  intros Hh Hm [= ? ? ?]. split; rewrite ?Hh, ?Hm; try done. intros l' Hl'.
  destruct (decide (l' = l)) as [->|]; [by rewrite lookup_insert_eq|by rewrite lookup_insert_ne].
Qed.

(** What [Destroy] leaves alone: the vaults, and what was destroyed or protected. *)
Definition mem_kept (w w' : world) : Prop :=
  sm_mvs (w_sm w') = sm_mvs (w_sm w) ∧ (∀ l, dead w l → dead w' l) ∧ (∀ l, sealed w l → sealed w' l).

#[export] Instance mem_kept_preorder : PreOrder mem_kept.
Proof. split; [by intros w|]. intros w1 w2 w3 (? & ? & ?) (? & ? & ?). split_and!; [congruence|naive_solver..]. Qed.

Lemma mem_kept_same w w' : w_sm w' = w_sm w → mem_kept w w'.
Proof. unfold mem_kept, dead, sealed. by intros ->. Qed.

Lemma mem_kept_destroy l r d reg m w w' : w_sm w' = sm_destroy l r d reg m (w_sm w) → mem_kept w w' ∧ dead w' l.
Proof.
  intros Hs. unfold mem_kept, dead, sealed. rewrite Hs. simpl.
  assert (∃ d0, <[l := mkData (d_name d) None false]> (sm_heap (w_sm w)) !! l = Some d0 ∧ d_data d0 = None) as Hdead.
  { rewrite lookup_insert_eq. eauto. }
  split_and!; [done| | |done]; intros l' Hl'; (destruct (decide (l' = l)) as [->|];
    [|rewrite lookup_insert_ne by done]); naive_solver.
Qed.

(** [Destroy] on any pointer, nil included. *)
Lemma wp_Data_Destroy p w :
  wf w → (p ≠ None → valid w p) →
  wpe (Data_Destroy p) w
    (λ _ w', mem_kept w w' ∧ (∀ l, p = Some l → dead w' l))
    (λ _ w', mem_kept w w' ∧ ¬ NoFaults).
Proof.
  intros Hw Hp. destruct p as [l|]; [|by apply wp_ret].
  destruct Hp as [d Hl]; [done|].
  destruct (Data_Destroy_cases l d w) as (res & w' & Hrun & Hres & Hcases); [done..|].
  pose proof (memonly_Data_Destroy (Some l) w) as Hq. rewrite Hrun in Hq. simpl in Hq.
  unfold wpe. rewrite Hrun. simpl. destruct (d_data d) as [r|] eqn:Hd.
  - destruct Hcases as [(_ & Hne & Hs & Hnf)|(reg & m & Hr & Hs & Hnf)].
    + injection Hq as ? ? ?. split_and!; [by rewrite Hs|by apply grows_same|].
      destruct Hres as [->|(? & -> & ?)]; [done|]. split_and!; [done|by apply mem_kept_same|done].
    + split_and!; [by rewrite Hs; apply wf_sm_destroy|eapply grows_upd_heap; [by rewrite Hs..|done]|].
      destruct (mem_kept_destroy _ _ _ _ _ _ _ Hs) as [? ?].
      destruct Hres as [->|(? & -> & ?)]; [split; [done|naive_solver]|].
      split_and!; [done..|]. intros Hf. by destruct (Hnf Hf).
  - destruct Hcases as [-> ->]. split_and!; [done|done|done|]. intros ? [= <-]. by exists d.
Qed.
End destroy.

(** ** Protection and vaults *)

(** The vault [v] with the entries [m]. *)
Definition vault_is (w : world) (v : positive) (m : gmap string positive) : Prop :=
  sm_mvs (w_sm w) !! v = Some m.

Section vault_ops.
Context {ENV : Env}.

Lemma wp_MarkReadOnly p w :
  wf w → valid w p →
  wpe (MarkReadOnly p) w
    (λ _ w', sm_mvs (w_sm w') = sm_mvs (w_sm w) ∧ (∀ l, sealed w l ∨ p = Some l → sealed w' l))
    (λ _ w', sm_mvs (w_sm w') = sm_mvs (w_sm w) ∧ (∀ l, sealed w l → sealed w' l) ∧ ¬ NoFaults).
Proof.
  intros Hw Hp. unfold MarkReadOnly. eapply wp_bind; [by apply wp_deref|].
  intros l ? _ _ (-> & -> & Hl). eapply wp_bind; [by apply wp_load_data|].
  intros d ? _ _ [Hd ->]. destruct (d_data d) as [r|] eqn:Hdd.
  2: { apply wp_ret; [done|]. split; [done|]. intros ? [?|[= <-]]; [done|]. exists d; eauto. }
  destruct (d_isReadOnly d) eqn:Hro.
  { apply wp_ret; [done|]. split; [done|]. intros ? [?|[= <-]]; [done|]. exists d; eauto. }
  destruct (wf_own _ Hw _ _ _ Hd Hdd) as (reg & Hr & Hm & Hwr & Hb).
  unfold wpe. rewrite bind_run, err_of_run. unfold readonly, mprotect.
  rewrite (on_mapped_run _ _ _ _ reg) by done.
  assert (∀ b l' w', sealed w l' → sm_heap (w_sm w') = <[l := mkData (d_name d) (Some r) b]> (sm_heap (w_sm w)) → sealed w' l') as Hkeep.
  { intros b l' w' (d' & Hd' & Hor) Hh. exists d'. rewrite Hh, lookup_insert_ne; [done|].
    intros ->. destruct Hor; congruence. }
  destruct (e_fault (w_tick w)) eqn:Hf; simpl; split_and!.
  - rewrite <-(insert_id (sm_mem (w_sm w)) r reg) by done.
    apply wf_owned_region; simpl; [done|by exists d|done|done| |done]. by rewrite Hwr, Hro.
  - eapply grows_upd_heap; done.
  - done.
  - done.
  - intros l' Hl'. by eapply Hkeep.
  - intros Hnf. by rewrite Hnf in Hf.
  - apply wf_owned_region; simpl; [done|by exists d|done..].
  - eapply grows_upd_heap; done.
  - done.
  - intros l' [?|[= <-]]; [by eapply Hkeep|].
    eexists. simpl. rewrite lookup_insert_eq. eauto.
Qed.

Lemma wp_NewMemVault w E :
  wf w → wpe NewMemVault w (λ v w', v = sm_next (w_sm w) ∧ vault_is w' v ∅ ∧
    sm_heap (w_sm w') = sm_heap (w_sm w) ∧ sm_mem (w_sm w') = sm_mem (w_sm w) ∧
    sm_next (w_sm w') = Pos.succ (sm_next (w_sm w)) ∧
    (∀ v' m, vault_is w v' m → vault_is w' v' m)) E.
Proof.
  intros Hw. unfold wpe. simpl. split; [|split].
  - apply (wf_mv _ (wf_fresh _ Hw)); simpl; [lia|]. intros n l. by rewrite lookup_empty.
  - split; simpl; try done. intros v Hv.
    destruct (decide (v = sm_next (w_sm w))) as [->|]; [by rewrite lookup_insert_eq|by rewrite lookup_insert_ne].
  - split_and!; try done; unfold vault_is; simpl; [by rewrite lookup_insert_eq|].
    intros v' m Hv'. rewrite lookup_insert_ne; [done|]. intros <-. apply (wf_mvs_lt _ Hw) in Hv'. lia.
Qed.

Lemma wp_MemVault_Get v n w E :
  wf w → valid_mv w v →
  wpe (MemVault_Get v n) w (λ p w', w' = w ∧ (∃ m, vault_is w v m ∧ p = m !! n) ∧ (p ≠ None → valid w p)) E.
Proof.
  intros Hw Hv. unfold MemVault_Get. eapply wp_bind; [by apply wp_load_mv|].
  intros m ? _ _ [Hm ->]. apply wp_ret; [done|]. split_and!; [done|by eauto|].
  destruct (m !! n) eqn:E'; [|done]. intros _. by eapply (wf_entries _ Hw).
Qed.

Lemma wp_store_mv v m w E :
  wf w → valid_mv w v → (∀ n l, m !! n = Some l → valid w (Some l)) →
  wpe (store_mv v m) w (λ _ w', sm_heap (w_sm w') = sm_heap (w_sm w) ∧ sm_mem (w_sm w') = sm_mem (w_sm w) ∧
    sm_next (w_sm w') = sm_next (w_sm w) ∧ sm_mvs (w_sm w') = <[v := m]> (sm_mvs (w_sm w))) E.
Proof.
  intros Hw [m0 Hv] Hm. unfold wpe. simpl. split; [|split; [split; simpl; try done|done]].
  - apply (wf_mv _ Hw); [by eapply (wf_mvs_lt _ Hw)|done].
  - intros v' Hv'. destruct (decide (v' = v)) as [->|]; [by rewrite lookup_insert_eq|by rewrite lookup_insert_ne].
Qed.

Lemma valid_entries w v m n l : wf w → vault_is w v m → m !! n = Some l → valid w (Some l).
Proof. intros Hw Hv Hn. by eapply (wf_entries _ Hw). Qed.

Lemma wp_MemVault_Import v n d w :
  wf w → valid_mv w v → (d ≠ None → valid w d) → wp (MemVault_Import v n d) w (λ _ _, True).
Proof.
  intros Hw Hv Hd. unfold MemVault_Import. destruct d as [l|]; [|by apply wp_throw].
  eapply wp_bind; [by apply wp_load_mv|]. intros m ? _ _ [Hm ->].
  destruct (m !! n); [by apply wp_throw|]. eapply wp_post; [apply wp_store_mv; [done..|]|done].
  intros n' l'. rewrite lookup_insert_Some. intros [[_ <-]|[_ H]]; [by apply Hd|by eapply valid_entries].
Qed.

Lemma wp_Reserve v n size w :
  wf w → valid_mv w v → wp (Reserve v n size) w (λ s w', writable w' s ∧ s ≠ None).
Proof.
  intros Hw Hv. unfold Reserve. eapply wp_bind; [by apply wp_load_mv|]. intros m ? _ _ [Hm ->].
  destruct (m !! n); [by apply wp_throw|].
  eapply wp_bind; [by apply wp_NewData|]. intros l w1 Hw1 Hg1 Hl.
  eapply wp_bind; [apply wp_store_mv; [done|by eauto with mem|]|].
  - intros n' l'. rewrite lookup_insert_Some. intros [[_ <-]|[_ H]]; [eapply holds_valid, Hl|].
    eapply grows_valid; [done|by eapply valid_entries].
  - intros _ w2 Hw2 _ (Hh & Hmem & _). destruct Hl as (r & Hl & Hr). rewrite <-Hh in Hl.
    unfold wpe. rewrite (SecureBytes_run _ _ _ Hl). simpl.
    split_and!; [done|done| |done]. eexists l, _. eauto.
Qed.
End vault_ops.

Section vault_loops.
Context {ENV : Env}.

(** What the loop of [DestroyAll] keeps: of the vault [v] with entries [m0],
    the entries visited without error are destroyed and gone. *)
Definition destroying (v : positive) (m0 : gmap string positive) (w : world)
    (visited : list (string * positive)) (errs : list error) (w' : world) : Prop :=
  (∃ m, vault_is w' v m ∧ m ⊆ m0 ∧ (errs = [] → ∀ x, x ∈ visited → m !! x.1 = None)) ∧
  (errs = [] → ∀ x, x ∈ visited → dead w' x.2) ∧
  (∀ l, sealed w l → sealed w' l) ∧ (∀ l, dead w l → dead w' l) ∧
  (∀ v', v' ≠ v → sm_mvs (w_sm w') !! v' = sm_mvs (w_sm w) !! v') ∧ (NoFaults → errs = []) ∧
  (∀ e, e ∈ errs → benign e).

Lemma elem_of_snoc {A} (x y : A) l : x ∈ (l ++ [y])%list → x ∈ l ∨ x = y.
Proof. rewrite elem_of_app, list_elem_of_singleton. done. Qed.

(** The error a loop joins its errors to. *)
Lemma benign_errs errs e :
  (∀ e, e ∈ errs → benign e) → errors_Join (Some <$> errs) = Some e → benign e.
Proof.
  intros H. apply benign_Join. intros e' He'. apply list_elem_of_fmap in He' as (e0 & [= ->] & ?). by apply H.
Qed.

Lemma wp_DestroyAll_iter v m0 w visited errs x w' E :
  wf w' → destroying v m0 w visited errs w' → valid w' (Some x.2) →
  wpe (DestroyAll_iter v errs x) w' (destroying v m0 w (visited ++ [x])%list) E.
Proof.
  intros Hw' ((m & Hm & Hsub & Hgone) & Hdead & Hseal & Hkd & Hoth & Hnf & Hben) Hx.
  unfold DestroyAll_iter. eapply wp_bind; [by eapply wp_err_of, wp_Data_Destroy|].
  intros [e|] w1 Hw1 _ H1.
  - destruct H1 as (He & (Hmv & Hk1 & Hk2) & Hf). apply wp_ret; [done|]. unfold destroying, vault_is.
    rewrite Hmv. split_and!; eauto.
    + exists m. split_and!; [done..|]. intros Ha. by destruct errs.
    + intros Ha. by destruct errs.
    + done.
    + intros e' [?| ->]%elem_of_snoc; eauto.
  - destruct H1 as (_ & (Hmv & Hk1 & Hk2) & Hdx).
    eapply wp_bind; [apply wp_load_mv; [done|exists m; by rewrite Hmv]|].
    intros m' ? _ _ [Hm' ->]. assert (m' = m) as -> by (unfold vault_is in Hm; congruence).
    eapply wp_bind; [apply wp_store_mv; [done|by exists m|]|].
    { intros n l [_ Hl]%lookup_delete_Some. eapply valid_entries; [exact Hw1|exact Hm'|exact Hl]. }
    intros _ w2 Hw2 _ (Hh & _ & _ & Hmvs). apply wp_ret; [done|].
    assert (∀ l, dead w1 l → dead w2 l) as Hd2 by (unfold dead; by rewrite Hh).
    assert (∀ l, sealed w1 l → sealed w2 l) as Hs2 by (unfold sealed; by rewrite Hh).
    split_and!; eauto.
    + exists (delete x.1 m). unfold vault_is. rewrite Hmvs, lookup_insert_eq. split_and!; [done| |].
      * etrans; [apply delete_subseteq|done].
      * intros He y [Hy| ->]%elem_of_snoc; [|by apply lookup_delete_eq].
        apply lookup_delete_None. right. by apply Hgone.
    + intros He y [Hy| ->]%elem_of_snoc; eauto.
    + intros v' Hv'. by rewrite Hmvs, lookup_insert_ne, Hmv, Hoth.
Qed.

(** [DestroyAll]: without error every object is destroyed and the vault empty. *)
Lemma wp_DestroyAll v m w :
  wf w → vault_is w v m →
  wpe (DestroyAll v) w
    (λ _ w', (∀ n l, m !! n = Some l → dead w' l) ∧ vault_is w' v ∅ ∧
       (∀ l, sealed w l → sealed w' l) ∧ (∀ l, dead w l → dead w' l) ∧
       (∀ v', v' ≠ v → sm_mvs (w_sm w') !! v' = sm_mvs (w_sm w) !! v'))
    (λ _ w', ¬ NoFaults ∧ valid_mv w' v ∧ (∀ l, sealed w l → sealed w' l) ∧
       (∀ v', v' ≠ v → sm_mvs (w_sm w') !! v' = sm_mvs (w_sm w) !! v')).
Proof.
  intros Hw Hv. unfold DestroyAll. eapply wp_bind; [apply wp_load_mv; [done|by exists m]|].
  intros m' ? _ _ [Hm' ->]. assert (m' = m) as -> by (unfold vault_is in Hv; congruence).
  eapply wp_bind; [eapply wp_weaken; [by apply wp_range_map|done|done]|].
  intros l w1 Hw1 _ [Hs Hperm].
  assert (∀ n x, m !! n = Some x → (n, x) ∈ l) as Hin by (intros; rewrite Hperm; by apply elem_of_map_to_list).
  eapply wp_bind; [apply (wp_foldM _ (destroying v m w)); [done| |]|].
  - unfold destroying, dead, sealed, vault_is. rewrite Hs. split_and!; try done.
    + exists m. split_and!; [done..|]. intros _ x Hx. by apply elem_of_nil in Hx.
    + intros _ x Hx. by apply elem_of_nil in Hx.
    + intros x Hx. by apply elem_of_nil in Hx.
  - intros visited x errs w2 Hx Hw2 Hg HI. apply wp_DestroyAll_iter; [done..|].
    eapply grows_valid; [done|]. rewrite Hperm in Hx. destruct x as [n x]. apply elem_of_map_to_list in Hx.
    unfold valid. simpl. rewrite Hs. by eapply (wf_entries _ Hw).
  - intros errs w2 Hw2 _ ((m2 & Hm2 & Hsub & Hgone) & Hdead & Hseal & Hkd & Hoth & Hnf & Hben).
    destruct errs as [|e errs]; simpl.
    + apply wp_ret; [done|]. split_and!; try done.
      * intros n x Hx. by apply (Hdead eq_refl (n, x)), Hin.
      * unfold vault_is in *. rewrite Hm2. f_equal. apply map_empty. intros n.
        destruct (m2 !! n) eqn:E2; [|done]. eapply lookup_weaken in E2 as E3; [|done].
        pose proof (Hgone eq_refl (n, p) (Hin _ _ E3)) as Hn. simpl in Hn. congruence.
    + apply wp_throw; [done|by eapply benign_errs|]. split_and!; [intros Hf; by specialize (Hnf Hf)|by exists m2|done..].
Qed.

(** [MarkAllReadOnly]: without error no object of the vault can be written. *)
Lemma wp_MarkAllReadOnly v m w :
  wf w → vault_is w v m →
  wpe (MarkAllReadOnly v) w
    (λ _ w', sm_mvs (w_sm w') = sm_mvs (w_sm w) ∧ (∀ n l, m !! n = Some l → sealed w' l))
    (λ _ w', sm_mvs (w_sm w') = sm_mvs (w_sm w) ∧ ¬ NoFaults).
Proof.
  intros Hw Hv. unfold MarkAllReadOnly. eapply wp_bind; [apply wp_load_mv; [done|by exists m]|].
  intros m' ? _ _ [Hm' ->]. assert (m' = m) as -> by (unfold vault_is in Hv; congruence).
  eapply wp_bind; [eapply wp_weaken; [by apply wp_range_map|done|done]|].
  intros l w1 Hw1 _ [Hs Hperm].
  assert (∀ n x, m !! n = Some x → (n, x) ∈ l) as Hin by (intros; rewrite Hperm; by apply elem_of_map_to_list).
  eapply wp_bind; [apply (wp_foldM _ (λ visited errs w', sm_mvs (w_sm w') = sm_mvs (w_sm w) ∧
    (errs = [] → ∀ x, x ∈ visited → sealed w' x.2) ∧ (NoFaults → errs = []) ∧ (∀ e, e ∈ errs → benign e))); [done| |]|].
  - rewrite Hs. split_and!; try done; [intros _ x Hx|intros x Hx]; by apply elem_of_nil in Hx.
  - intros visited x errs w2 Hx Hw2 Hg (Hmv & Hseal & Hnf & Hben). unfold MarkAllReadOnly_iter.
    rewrite Hperm in Hx. destruct x as [n x]. apply elem_of_map_to_list in Hx. simpl.
    eapply wp_bind; [eapply wp_err_of, wp_MarkReadOnly; [done|]|].
    { eapply grows_valid; [done|]. unfold valid. simpl. rewrite Hs. by eapply (wf_entries _ Hw). }
    intros [e|] w3 Hw3 _ H3; (apply wp_ret; [done|]).
    + destruct H3 as (He & Hmv3 & _ & Hf). split_and!; [congruence|by destruct errs|done|].
      intros e' [?| ->]%elem_of_snoc; eauto.
    + destruct H3 as (_ & Hmv3 & Hk). split_and!; [congruence| |done|done].
      intros He y [Hy| ->]%elem_of_snoc; eauto.
  - intros errs w2 Hw2 _ (Hmv & Hseal & Hnf & Hben). destruct errs as [|e errs]; simpl.
    + apply wp_ret; [done|]. split; [done|]. intros n x Hx. by apply (Hseal eq_refl (n, x)), Hin.
    + apply wp_throw; [done|by eapply benign_errs|]. split; [done|]. intros Hf. by specialize (Hnf Hf).
Qed.

Lemma wp_MemVault_Destroy v n w : wf w → valid_mv w v → wp (MemVault_Destroy v n) w (λ _ _, True).
Proof.
  intros Hw Hv. unfold MemVault_Destroy. eapply wp_bind; [by apply wp_load_mv|].
  intros m ? _ _ [Hm ->]. destruct (m !! n) as [l|] eqn:Hn; [|by apply wp_ret].
  eapply wp_bind; [eapply wp_any; [apply wp_Data_Destroy; [done|]|]|].
  - intros _. by eapply valid_entries.
  - intros ? ? _ _ H. exact H.
  - intros _ w1 Hw1 Hg _. eapply wp_post; [apply wp_store_mv; [done|by eauto with mem|]|done].
    intros n' l' [_ Hl']%lookup_delete_Some. eapply grows_valid; [done|]. by eapply valid_entries.
Qed.
End vault_loops.

(** ** Handlers *)

Section handlers.
Context {ENV : Env}.

(** The two vaults [Run] hands to its handler. *)
Definition vaults_of (req : HandlerRequest) (w : world) (mt mp : gmap string positive) : Prop :=
  vault_is w (temporaryVault req) mt ∧ vault_is w (persistentVault req) mp ∧
  temporaryVault req ≠ persistentVault req.

Lemma wp_newHandlerRequest w E :
  wf w → wpe newHandlerRequest w (λ req w', vaults_of req w' ∅ ∅ ∧
    sm_heap (w_sm w') = sm_heap (w_sm w) ∧ sm_mem (w_sm w') = sm_mem (w_sm w) ∧
    (∀ v m, vault_is w v m → vault_is w' v m ∧ v ≠ temporaryVault req ∧ v ≠ persistentVault req)) E.
Proof.
  intros Hw. unfold newHandlerRequest. eapply wp_bind; [by apply wp_NewMemVault|].
  intros t w1 Hw1 _ (-> & Ht & Hh1 & Hm1 & Hn1 & Hv1).
  eapply wp_bind; [by apply wp_NewMemVault|].
  intros p w2 Hw2 _ (-> & Hp & Hh2 & Hm2 & Hn2 & Hv2). apply wp_ret; [done|]. simpl.
  assert (sm_next (w_sm w1) ≠ sm_next (w_sm w)) by (rewrite Hn1; lia).
  split_and!; [split_and!; eauto|congruence|congruence|].
  intros v m Hv. split_and!; [eauto|..]; simpl.
  - apply (wf_mvs_lt _ Hw) in Hv. lia.
  - apply Hv1, (wf_mvs_lt _ Hw1) in Hv. lia.
Qed.

Lemma wp_Run_cleanup req resp w mt mp :
  wf w → vaults_of req w mt mp →
  wpe (Run_cleanup req resp) w
    (λ _ w', (NoFaults → (∀ n l, mt !! n = Some l → dead w' l) ∧
                         (resp = None → ∀ n l, mp !! n = Some l → dead w' l)) ∧
       (∀ l, sealed w l → sealed w' l) ∧ (resp ≠ None → vault_is w' (persistentVault req) mp))
    (λ _ _, False).
Proof.
  intros Hw (Ht & Hp & Hne). unfold Run_cleanup.
  eapply wp_bind; [by eapply wp_err_of, wp_DestroyAll|]. intros o w1 Hw1 _ Ho.
  assert ((NoFaults → ∀ n l, mt !! n = Some l → dead w1 l) ∧ (∀ l, sealed w l → sealed w1 l) ∧
    vault_is w1 (persistentVault req) mp) as (Hd & Hs & Hp1).
  { destruct o as [e|]; [destruct Ho as (_ & ? & _ & ? & Ho)|destruct Ho as (_ & ? & _ & ? & _ & Ho)];
      (split_and!; [done|done|]); unfold vault_is; by rewrite Ho. }
  destruct resp; [apply wp_ret; [done|]; split_and!; [|done|done]; intros Hf; split; [by apply Hd|done]|].
  eapply wp_bind; [by eapply wp_err_of, wp_DestroyAll|]. intros o2 w2 Hw2 _ Ho2.
  apply wp_ret; [done|]. destruct o2 as [e|].
  - destruct Ho2 as (_ & ? & _ & ? & _). split_and!; [done|by eauto|done].
  - destruct Ho2 as (_ & ? & _ & ? & ? & _). split_and!; [by eauto|by eauto|done].
Qed.

(** [Run] of a handler that is safe. *)
Lemma wp_Run_capture {A} (handler : HandlerRequest → M A) w :
  wf w →
  (∀ req w1 mt mp, wf w1 → grows w w1 → vaults_of req w1 mt mp →
    wp (handler req) w1 (λ _ _, True)) →
  wp (Run_capture handler) w
    (λ r w', ∃ m, vault_is w' (hr_vault r.1) m ∧ ∀ n l, m !! n = Some l → sealed w' l).
Proof.
  intros Hw Hh. unfold Run_capture, ctx_Err. eapply wp_bind; [by apply wp_external_any|].
  intros _ w0 Hw0 Hg0 _. eapply wp_bind; [by apply wp_newHandlerRequest|].
  intros req w1 Hw1 Hg1 (Hreq & _). pose proof Hreq as (Ht & Hp & Hne).
  assert (grows w w1) as Hg by (by etrans).
  eapply (wp_defer_with _ _ _ (λ r w', r.1 = mkHandlerResponse (persistentVault req) ∧
      ∃ mt mp, vaults_of req w' mt mp ∧ ∀ n l, mp !! n = Some l → sealed w' l) _ (λ _ _, True)).
  - eapply wp_bind; [eapply Hh; [done|done|exact Hreq]|]. intros a w2 Hw2 Hg2 _.
    eapply wp_bind; [by apply wp_external_any|]. intros ? w3 Hw3 Hg3 Hs3.
    assert (grows w1 w3) as Hg13 by (by etrans).
    destruct (grows_valid_mv _ _ (temporaryVault req) Hg13) as [mt Hmt]; [by eexists|].
    destruct (grows_valid_mv _ _ (persistentVault req) Hg13) as [mp Hmp]; [by eexists|].
    eapply wp_bind; [eapply wp_any; [by eapply (wp_MarkAllReadOnly _ mp)|]|]; [by intros ? ? _ _ H; exact H|].
    intros _ w4 Hw4 _ [Hmv Hseal]. apply wp_ret; [done|]. split; [done|].
    exists mt, mp. split; [|done]. unfold vaults_of, vault_is. by rewrite Hmv.
  - intros [resp a] w' Hw' _ [Hresp (mt & mp & Hv & Hseal)]. simpl in *. subst resp.
    destruct (wp_Run_cleanup req (Some (mkHandlerResponse (persistentVault req))) w' mt mp) as (? & ? & Hc); [done..|].
    split_and!; [done..|]. destruct (Run_cleanup _ _ w') as [[] w'']; [|by destruct Hc as [_ []]|done..]. simpl in *.
    exists mp. destruct Hc as (_ & Hsl & Hvl). split; [by apply Hvl|eauto].
  - intros e w' Hw' Hg' _.
    destruct (grows_valid_mv _ _ (temporaryVault req) Hg') as [mt Hmt]; [by eexists|].
    destruct (grows_valid_mv _ _ (persistentVault req) Hg') as [mp Hmp]; [by eexists|].
    destruct (wp_Run_cleanup req None w' mt mp) as (? & ? & Hc); [done|by split|]. done.
Qed.
Lemma wp_Run handler w :
  wf w →
  (∀ req w1 mt mp, wf w1 → grows w w1 → vaults_of req w1 mt mp →
    wp (handler req) w1 (λ _ _, True)) →
  wp (Run handler) w (λ resp w', ∃ m, vault_is w' (hr_vault resp) m ∧ ∀ n l, m !! n = Some l → sealed w' l).
Proof.
  intros Hw Hh. unfold Run. eapply wp_bind; [by apply wp_Run_capture|].
  intros r w' Hw' _ H. by apply wp_ret.
Qed.

(** [Run] without the captured variables. *)
Lemma Run_unfold handler w :
  Run handler w =
  (ctx_Err;; req ← newHandlerRequest;
   defer_with (Run_cleanup req) (
     handler req;; ctx_Err;; MarkAllReadOnly (persistentVault req);;
     mret (mkHandlerResponse (persistentVault req)))) w.
Proof.
  unfold Run, Run_capture. rewrite !bind_run. destruct (ctx_Err w) as [[] w1]; try done.
  rewrite !bind_run. destruct (newHandlerRequest w1) as [[req| | |] w2]; try done.
  unfold defer_with. rewrite !bind_run. destruct (handler req w2) as [[] w3]; try done.
  rewrite !bind_run. destruct (ctx_Err w3) as [[] w4]; try done.
  rewrite !bind_run. by destruct (MarkAllReadOnly _ w4) as [[] w5].
Qed.
End handlers.

(** ** What [Run] promises, whatever its handler does *)

Section run_contract.
Context {ENV : Env}.

(** The body of [Run] after its handler succeeded. *)
Lemma wp_Run_finish req w mt mp :
  wf w → vaults_of req w mt mp →
  wpe (ctx_Err;; MarkAllReadOnly (persistentVault req);; mret (mkHandlerResponse (persistentVault req))) w
    (λ resp w', resp = mkHandlerResponse (persistentVault req) ∧ vaults_of req w' mt mp ∧
       ∀ n l, mp !! n = Some l → sealed w' l)
    (λ _ w', vaults_of req w' mt mp).
Proof.
  intros Hw Hv.
  eapply wp_bind; [eapply wp_weaken; [by apply wp_external|intros ? ? _ _ H; exact H|]|].
  { intros _ w' _ _ [Hs _]. unfold vaults_of, vault_is. by rewrite Hs. }
  intros ? w1 Hw1 _ Hs1.
  assert (vaults_of req w1 mt mp) as Hv1 by (unfold vaults_of, vault_is; by rewrite Hs1).
  eapply wp_bind; [eapply wp_weaken; [apply (wp_MarkAllReadOnly _ mp); [done|apply Hv1]|..]|].
  - intros ? ? _ _ H. exact H.
  - intros ? w2 _ _ [Hm _]. unfold vaults_of, vault_is. by rewrite Hm.
  - intros ? w2 Hw2 _ [Hm Hseal]. apply wp_ret; [done|]. split_and!; [done| |done].
    unfold vaults_of, vault_is. by rewrite Hm.
Qed.

(** The cleanup after a failure destroys both vaults. *)
Lemma Run_cleanup_failed req w mt mp :
  wf w → vaults_of req w mt mp →
  let w' := (Run_cleanup req None w).2 in
  wf w' ∧ (NoFaults → ∀ n l, mt !! n = Some l → dead w' l) ∧ (NoFaults → ∀ n l, mp !! n = Some l → dead w' l).
Proof.
  intros Hw Hv. destruct (wp_Run_cleanup req None w mt mp) as (? & _ & Hc); [done..|].
  destruct (Run_cleanup _ _ w) as [[] w4]; [|by destruct Hc as [_ []]|done..]. destruct Hc as (Hd & _ & _). simpl.
  split_and!; try done; intros Hn; by apply (Hd Hn).
Qed.

Lemma Run_contract_spec handler w req w1 r2 w2 mt mp r w' :
  wf w → e_fault (w_tick w) = false →
  newHandlerRequest (tick w) = (Ok req, w1) →
  handler req w1 = (r2, w2) → r2 ≠ Diverge → wf w2 → vaults_of req w2 mt mp →
  Run handler w = (r, w') →
  wf w' ∧
  (NoFaults → ∀ n l, mt !! n = Some l → dead w' l) ∧
  match r with
  | Ok resp => is_ok r2 = true ∧ vault_is w' (hr_vault resp) mp ∧ ∀ n l, mp !! n = Some l → sealed w' l
  | _ => NoFaults → ∀ n l, mp !! n = Some l → dead w' l
  end.
Proof.
  intros Hw Hf Hreq Hh Hnd Hw2 Hv2. rewrite Run_unfold.
  assert (ctx_Err w = (Ok (), tick w)) as Hctx by (unfold ctx_Err, external; by rewrite Hf).
  rewrite (bind_Ok _ _ _ _ _ Hctx), (bind_Ok _ _ _ _ _ Hreq). unfold defer_with. rewrite bind_run, Hh.
  destruct r2 as [[]|e| |]; [|intros [= <- <-]..|done].
  - destruct (wp_Run_finish req w2 mt mp Hw2 Hv2) as (Hw3 & _ & H3).
    destruct ((ctx_Err;; _) w2) as [[resp|e| |] w3] eqn:E3; [intros [= <- <-]..|done|done].
    + simpl in *. destruct H3 as (-> & Hv3 & Hs3).
      destruct (wp_Run_cleanup req (Some (mkHandlerResponse (persistentVault req))) w3 mt mp) as (? & _ & Hc); [done..|].
      destruct (Run_cleanup _ _ w3) as [[] w4]; [|by destruct Hc as [_ []]|done..]. destruct Hc as (Hd & Hs & Hvl). simpl.
      split_and!; try done; [by intros Hn; apply (Hd Hn)|by apply Hvl|by eauto].
    + destruct H3 as [_ H3]. by apply Run_cleanup_failed.
  - by apply Run_cleanup_failed.
  - by apply Run_cleanup_failed.
Qed.

(** C12: [Run] (internal/securemem/handler.go) and the memory of its handler,
    which may succeed, fail or panic: when no system call fails, every object the
    temporary vault held is destroyed, and so is every object of the persistent
    vault unless [Run] succeeds.  When it does succeed, the handler did, the
    vault of the response is the persistent vault with the entries the handler
    left in it, and none of its objects can be written any more, whatever system
    calls failed. *)
Theorem Run_contract handler w req w1 r2 w2 mt mp r w' :
  wf w → e_fault (w_tick w) = false →
  newHandlerRequest (tick w) = (Ok req, w1) →
  handler req w1 = (r2, w2) → r2 ≠ Diverge → wf w2 → vaults_of req w2 mt mp →
  Run handler w = (r, w') →
  wf w' ∧
  (NoFaults → ∀ n l, mt !! n = Some l → dead w' l) ∧
  match r with
  | Ok resp => is_ok r2 = true ∧ vault_is w' (hr_vault resp) mp ∧ ∀ n l, mp !! n = Some l → sealed w' l
  | _ => NoFaults → ∀ n l, mp !! n = Some l → dead w' l
  end.
Proof. apply Run_contract_spec. Qed.
End run_contract.

(** ** Programs of securemem calls *)

(** One call of a client, on objects it got from earlier calls. *)
Inductive sm_call :=
  | SMNewData (name : string) (size : Z)
  | SMDestroy (p : option positive)
  | SMMarkReadOnly (p : option positive)
  | SMWrite (p : option positive) (src : string)   (* [copy(p.SecureBytes(), src)] *)
  | SMNewMemVault
  | SMReserve (v : positive) (name : string) (size : Z)
  | SMVaultDestroy (v : positive) (name : string)
  | SMDestroyAll (v : positive)
  | SMMarkAllReadOnly (v : positive)
  | SMImport (v : positive) (name : string) (d : option positive)
  | SMHandleRPC (ctx : option positive) (s : RPCStats).

Section programs.
Context {ENV : Env}.

Definition run_sm_call (c : sm_call) : M () :=
  match c with
  | SMNewData n s => _ ← NewData n s; mret ()
  | SMDestroy p => Data_Destroy p
  | SMMarkReadOnly p => MarkReadOnly p
  | SMWrite p src => b ← SecureBytes p; copy_bytes b src
  | SMNewMemVault => _ ← NewMemVault; mret ()
  | SMReserve v n s => _ ← Reserve v n s; mret ()
  | SMVaultDestroy v n => MemVault_Destroy v n
  | SMDestroyAll v => DestroyAll v
  | SMMarkAllReadOnly v => MarkAllReadOnly v
  | SMImport v n d => MemVault_Import v n d
  | SMHandleRPC ctx s => HandleRPC ctx s
  end.

(** The pointers of a call are not nil where the code dereferences them, and
    were obtained from earlier calls; a write is to an unprotected object. *)
Definition call_ok (w : world) (c : sm_call) : Prop :=
  match c with
  | SMNewData _ _ | SMNewMemVault => True
  | SMDestroy p => p ≠ None → valid w p
  | SMMarkReadOnly p => valid w p
  | SMWrite p _ => valid w p ∧ ∀ l d, p = Some l → sm_heap (w_sm w) !! l = Some d → d_isReadOnly d = false
  | SMReserve v _ _ | SMVaultDestroy v _ | SMDestroyAll v | SMMarkAllReadOnly v => valid_mv w v
  | SMImport v _ d => valid_mv w v ∧ (d ≠ None → valid w d)
  | SMHandleRPC ctx _ => ∀ v, ctx = Some v → valid_mv w v
  end.

(** A run of calls; the client goes on after errors. *)
Inductive sm_run : world → list sm_call → world → Prop :=
  | sm_run_nil w : sm_run w [] w
  | sm_run_cons w c cs w' :
      call_ok w c → sm_run (run_sm_call c w).2 cs w' → sm_run w (c :: cs) w'.

Lemma wp_run_sm_call c w : wf w → call_ok w c → wp (run_sm_call c) w (λ _ _, True).
Proof.
  intros Hw Hc. destruct c; simpl in *.
  - eapply wp_bind; [by apply wp_NewData|]. intros. by apply wp_ret.
  - eapply wp_weaken; [by apply wp_Data_Destroy|done..].
  - eapply wp_weaken; [by apply wp_MarkReadOnly|done..].
  - destruct Hc as [Hp Hro]. destruct p as [l|]; [|done]. destruct Hp as [d Hl].
    unfold wpe. rewrite (bind_Ok _ _ _ _ _ (SecureBytes_run l d w Hl)).
    assert (writable w (d_data d)) as Hwr.
    { destruct (d_data d) eqn:Hd; [|done]. exists l, d. split_and!; [done..|by eapply Hro]. }
    destruct (wp_copy_bytes (d_data d) src w (λ _ _, True) Hw Hwr) as (? & ? & ?).
    split_and!; [done..|]. by destruct (copy_bytes _ _ w) as [[] ?].
  - eapply wp_bind; [by apply wp_NewMemVault|]. intros. by apply wp_ret.
  - eapply wp_bind; [by apply wp_Reserve|]. intros. by apply wp_ret.
  - by apply wp_MemVault_Destroy.
  - destruct Hc as [m Hm]. eapply wp_weaken; [by eapply wp_DestroyAll|done..].
  - destruct Hc as [m Hm]. eapply wp_weaken; [by eapply wp_MarkAllReadOnly|done..].
  - destruct Hc. by apply wp_MemVault_Import.
  - destruct s; [|by apply wp_ret]. unfold HandleRPC, VaultFromContext. destruct ctx as [v|]; [|by apply wp_ret].
    destruct (Hc v eq_refl) as [m Hm]. eapply wp_bind; [by eapply wp_err_of, wp_DestroyAll|].
    intros. by apply wp_ret.
Qed.

Lemma sm_run_wf w cs w' : wf w → sm_run w cs w' → wf w'.
Proof.
  intros Hw Hrun. induction Hrun as [|w c cs w' Hc Hrun IH]; [done|]. apply IH.
  by destruct (wp_run_sm_call c w Hw Hc) as [? _].
Qed.

(** C11: whatever sequence of securemem calls a process makes and whichever
    system calls fail, a region of secure memory holds bytes other than zero
    only while it is mapped and exactly one [Data] object that was not destroyed
    owns it, and it can be written only while that object is not read-only:
    [Destroy] wipes before it lets go, also when [munlock] or [munmap] fails. *)
Theorem no_secret_outlives_its_data w cs w' r reg :
  wf w → sm_run w cs w' → sm_mem (w_sm w') !! r = Some reg → ¬ all_zero (r_bytes reg) →
  r_mapped reg = true ∧
  ∃ l d, sm_heap (w_sm w') !! l = Some d ∧ d_data d = Some r ∧
         r_writable reg = negb (d_isReadOnly d) ∧ ∀ l', owns (w_sm w') l' r → l' = l.
Proof.
  intros Hw Hrun Hr Hz. pose proof (sm_run_wf _ _ _ Hw Hrun) as Hw'.
  destruct (wf_zero _ Hw' _ _ Hr) as [(l & d & Hl & Hd)|]; [|done].
  destruct (wf_own _ Hw' _ _ _ Hl Hd) as (reg' & Hr' & Hm & Hwr & _).
  assert (reg' = reg) as -> by congruence. split; [done|]. exists l, d. split_and!; try done.
  intros l' Hl'. eapply (wf_inj _ Hw'); [done|by exists d].
Qed.

(** The calls of internal/securemem neither panic nor kill the process:
    on well-formed memory each returns, whichever system call fails. *)
Theorem securemem_returns w cs w' c :
  wf w → sm_run w cs w' → call_ok w' c →
  match (run_sm_call c w').1 with Ok _ | Err _ => True | Panic | Diverge => False end.
Proof.
  intros Hw Hrun Hc. pose proof (sm_run_wf _ _ _ Hw Hrun) as Hw'.
  destruct (wp_run_sm_call c w' Hw' Hc) as (_ & _ & H). by destruct (run_sm_call c w').1.
Qed.
End programs.
