(* ===== verification/AesGcm.v ===== *)
(** * AES-256-GCM (crypto/aes and crypto/cipher of the Go standard library)

    What internal/cryptor/aes256gcm uses of them: [aes.NewCipher] with a key of 32
    bytes, [cipher.NewGCM] with its nonce size 12 and its overhead 16, [Seal] and
    [Open].  The class [GCM] states what the program relies on (lengths, and that
    [Open] recovers what [Seal] sealed); the components that encrypt are
    verified against it.  [aes_gcm] is AES-256 in Galois counter mode (FIPS 197,
    NIST SP 800-38D), executable, so that the components can be run; it
    discharges the class. *)

From S2P Require Import Prelude GoStrings.
From Stdlib Require Import Ascii NArith.

Local Open Scope string_scope.
Local Open Scope nat_scope.

(** [gcm.NonceSize()] and [gcm.Overhead()]. *)
Definition gcmNonceSize : nat := 12.
Definition gcmOverhead : nat := 16.

(** The authenticated cipher of a 32 byte key: key, nonce, text, authenticated data. *)
Class GCM := {
  gcm_Seal : string → string → string → string → string;
  gcm_Open : string → string → string → string → option string;
  gcm_Seal_length : ∀ k n p a, String.length (gcm_Seal k n p a) = String.length p + gcmOverhead;
  gcm_Open_Seal : ∀ k n p a, gcm_Open k n (gcm_Seal k n p a) a = Some p;
  gcm_Open_length : ∀ k n c a p,
    gcm_Open k n c a = Some p → String.length c = String.length p + gcmOverhead;
}.

(** ** Bytes *)

Definition ascii_xor (a b : ascii) : ascii :=
  match a, b with
  | Ascii a0 a1 a2 a3 a4 a5 a6 a7, Ascii b0 b1 b2 b3 b4 b5 b6 b7 =>
      Ascii (xorb a0 b0) (xorb a1 b1) (xorb a2 b2) (xorb a3 b3)
            (xorb a4 b4) (xorb a5 b5) (xorb a6 b6) (xorb a7 b7)
  end.

Lemma ascii_xor_cancel a b : ascii_xor (ascii_xor a b) b = a.
Proof.
  destruct a, b. simpl. rewrite !xorb_assoc, !xorb_nilpotent, !xorb_false_r. done.
Qed.

(** Big-endian numbers. *)
Definition be_value (l : list ascii) : N :=
  fold_left (λ acc c, N.lor (N.shiftl acc 8) (N_of_ascii c)) l 0%N.
Fixpoint be_bytes (n : nat) (x : N) : list ascii :=
  match n with
  | 0 => []
  | S n' => (be_bytes n' (N.shiftr x 8) ++ [ascii_of_N (N.land x 255)])%list
  end.
Lemma length_be_bytes n x : length (be_bytes n x) = n.
Proof. revert x. induction n as [|n IH]; intros x; simpl; [done|]. rewrite length_app, IH. simpl. lia. Qed.

(** ** The block cipher *)

Module AES.
Definition sbox_table : list N :=
  [99; 124; 119; 123; 242; 107; 111; 197; 48; 1; 103; 43; 254; 215; 171; 118;
   202; 130; 201; 125; 250; 89; 71; 240; 173; 212; 162; 175; 156; 164; 114; 192;
   183; 253; 147; 38; 54; 63; 247; 204; 52; 165; 229; 241; 113; 216; 49; 21;
   4; 199; 35; 195; 24; 150; 5; 154; 7; 18; 128; 226; 235; 39; 178; 117;
   9; 131; 44; 26; 27; 110; 90; 160; 82; 59; 214; 179; 41; 227; 47; 132;
   83; 209; 0; 237; 32; 252; 177; 91; 106; 203; 190; 57; 74; 76; 88; 207;
   208; 239; 170; 251; 67; 77; 51; 133; 69; 249; 2; 127; 80; 60; 159; 168;
   81; 163; 64; 143; 146; 157; 56; 245; 188; 182; 218; 33; 16; 255; 243; 210;
   205; 12; 19; 236; 95; 151; 68; 23; 196; 167; 126; 61; 100; 93; 25; 115;
   96; 129; 79; 220; 34; 42; 144; 136; 70; 238; 184; 20; 222; 94; 11; 219;
   224; 50; 58; 10; 73; 6; 36; 92; 194; 211; 172; 98; 145; 149; 228; 121;
   231; 200; 55; 109; 141; 213; 78; 169; 108; 86; 244; 234; 101; 122; 174; 8;
   186; 120; 37; 46; 28; 166; 180; 198; 232; 221; 116; 31; 75; 189; 139; 138;
   112; 62; 181; 102; 72; 3; 246; 14; 97; 53; 87; 185; 134; 193; 29; 158;
   225; 248; 152; 17; 105; 217; 142; 148; 155; 30; 135; 233; 206; 85; 40; 223;
   140; 161; 137; 13; 191; 230; 66; 104; 65; 153; 45; 15; 176; 84; 187; 22]%N.
Definition sbox (x : N) : N := nth (N.to_nat x) sbox_table 0%N.

(** Multiplication by [x] in GF(2^8). *)
Definition xtime (x : N) : N :=
  let y := N.shiftl x 1 in if N.testbit y 8 then N.lxor y 283 else y.

Definition xor_list (a b : list N) : list N := zip_with N.lxor a b.

(** The 60 words of the key schedule of AES-256, newest first while building. *)
Definition next_word (i : nat) (prev back8 : list N) (rcon : N) : list N :=
  let t :=
    if Nat.eqb (Nat.modulo i 8) 0 then
      match prev with
      | [a; b; c; d] => [N.lxor (sbox b) rcon; sbox c; sbox d; sbox a]
      | _ => prev
      end
    else if Nat.eqb (Nat.modulo i 8) 4 then sbox <$> prev
    else prev in
  xor_list back8 t.

Fixpoint expand (n i : nat) (rcon : N) (acc : list (list N)) : list (list N) :=
  match n with
  | 0 => acc
  | S n' =>
      let w := next_word i (default [] (acc !! 0)) (default [] (acc !! 7)) rcon in
      expand n' (S i) (if Nat.eqb (Nat.modulo i 8) 0 then xtime rcon else rcon) (w :: acc)
  end.

Fixpoint words (n : nat) (l : list N) : list (list N) :=
  match n with 0 => [] | S n' => take 4 l :: words n' (drop 4 l) end.

Fixpoint group4 (n : nat) (l : list (list N)) : list (list N) :=
  match n with 0 => [] | S n' => mjoin (take 4 l) :: group4 n' (drop 4 l) end.

(** The 15 round keys of 16 bytes. *)
Definition round_keys (key : list N) : list (list N) :=
  group4 15 (rev (expand 52 8 1%N (rev (words 8 key)))).

(** The state is in column order. *)
Definition shift_rows (s : list N) : list N :=
  (λ i, default 0%N (s !! i)) <$> [0; 5; 10; 15; 4; 9; 14; 3; 8; 13; 2; 7; 12; 1; 6; 11].

Definition mix_column (c : list N) : list N :=
  match c with
  | [a; b; c; d] =>
      let two := xtime in
      let three x := N.lxor (xtime x) x in
      [N.lxor (N.lxor (two a) (three b)) (N.lxor c d);
       N.lxor (N.lxor a (two b)) (N.lxor (three c) d);
       N.lxor (N.lxor a b) (N.lxor (two c) (three d));
       N.lxor (N.lxor (three a) b) (N.lxor c (two d))]
  | _ => c
  end.
Definition mix_columns (s : list N) : list N := mjoin (mix_column <$> words 4 s).

Fixpoint rounds (s : list N) (ks : list (list N)) : list N :=
  match ks with
  | [] => s
  | [k] => xor_list (shift_rows (sbox <$> s)) k
  | k :: ks' => rounds (xor_list (mix_columns (shift_rows (sbox <$> s))) k) ks'
  end.

Definition encrypt_block (ks : list (list N)) (block : list ascii) : list ascii :=
  let s := N_of_ascii <$> block in
  match ks with
  | [] => block
  | k0 :: ks' => ascii_of_N <$> rounds (xor_list s k0) ks'
  end.
End AES.

(** ** Galois counter mode *)

Module GCMMode.
Definition R : N := N.shiftl 225 120.

Fixpoint mul_loop (n : nat) (x v z : N) : N :=
  match n with
  | 0 => z
  | S n' =>
      let z' := if N.testbit x (N.of_nat n') then N.lxor z v else z in
      let v' := if N.testbit v 0 then N.lxor (N.shiftr v 1) R else N.shiftr v 1 in
      mul_loop n' x v' z'
  end.
Definition mul (x y : N) : N := mul_loop 128 x y 0%N.

(** The 16 byte blocks of a text, the last one padded with zeros. *)
Definition pad_block (l : list ascii) : list ascii :=
  (l ++ replicate (16 - length l) Ascii.zero)%list.
Fixpoint blocks (fuel : nat) (l : list ascii) : list (list ascii) :=
  match fuel, l with
  | S fuel', _ :: _ => pad_block (take 16 l) :: blocks fuel' (drop 16 l)
  | _, _ => []
  end.
Definition to_blocks (l : list ascii) : list (list ascii) := blocks (length l) l.

Definition ghash (h : N) (bs : list (list ascii)) : N :=
  fold_left (λ y b, mul (N.lxor y (be_value b)) h) bs 0%N.

(** Counter block number [i] for a 12 byte nonce; number 1 is for the tag. *)
Definition counter_block (nonce : list ascii) (i : nat) : list ascii :=
  (nonce ++ be_bytes 4 (N.of_nat i))%list.

Definition block_count (n : nat) : nat := Nat.div (n + 15) 16.
Definition keystream (ks : list (list N)) (nonce : list ascii) (n : nat) : list ascii :=
  mjoin ((λ i, pad_block (AES.encrypt_block ks (counter_block nonce i))) <$> seq 2 (block_count n)).

Definition tag (ks : list (list N)) (nonce ct aad : list ascii) : list ascii :=
  let h := be_value (AES.encrypt_block ks (replicate 16 Ascii.zero)) in
  let lens := (be_bytes 8 (N.of_nat (8 * length aad)) ++ be_bytes 8 (N.of_nat (8 * length ct)))%list in
  let s := ghash h (to_blocks aad ++ to_blocks ct ++ [lens])%list in
  be_bytes 16 (N.lxor s (be_value (AES.encrypt_block ks (counter_block nonce 1)))).

Definition keys_of (key : string) : list (list N) := AES.round_keys (N_of_ascii <$> chars key).

Definition xor_stream (ks : list (list N)) (nonce text : list ascii) : list ascii :=
  zip_with ascii_xor text (keystream ks nonce (length text)).

Definition seal (key nonce plaintext aad : string) : string :=
  let ks := keys_of key in
  let ct := xor_stream ks (chars nonce) (chars plaintext) in
  unchars (ct ++ tag ks (chars nonce) ct (chars aad))%list.

Definition open (key nonce ciphertext aad : string) : option string :=
  let ks := keys_of key in
  let l := chars ciphertext in
  if Nat.ltb (length l) gcmOverhead then None
  else
    let ct := take (length l - gcmOverhead) l in
    let t := drop (length l - gcmOverhead) l in
    if bool_decide (tag ks (chars nonce) ct (chars aad) = t)
    then Some (unchars (xor_stream ks (chars nonce) ct))
    else None.

Lemma length_pad_block l : 16 ≤ length (pad_block l).
Proof. unfold pad_block. rewrite length_app, length_replicate. lia. Qed.

Lemma length_keystream ks nonce n : n ≤ length (keystream ks nonce n).
Proof.
  unfold keystream. rewrite length_join.
  assert (∀ k s, 16 * k ≤ sum_list (length <$> ((λ i, pad_block (AES.encrypt_block ks (counter_block nonce i))) <$> seq s k))) as H.
  { induction k as [|k IH]; intros s; [simpl; lia|]. specialize (IH (S s)).
    pose proof (length_pad_block (AES.encrypt_block ks (counter_block nonce s))).
    change (seq s (S k)) with (s :: seq (S s) k). rewrite !fmap_cons.
    match goal with |- _ ≤ sum_list (?x :: ?l) => change (sum_list (x :: l)) with (x + sum_list l) end. lia. }
  etrans; [|apply H]. unfold block_count. pose proof (Nat.div_mod_eq (n + 15) 16).
  pose proof (Nat.mod_upper_bound (n + 15) 16). lia.
Qed.

Lemma length_xor_stream ks nonce l : length (xor_stream ks nonce l) = length l.
Proof.
  unfold xor_stream. rewrite length_zip_with. pose proof (length_keystream ks nonce (length l)). lia.
Qed.

Lemma zip_xor_cancel l k : length l ≤ length k → zip_with ascii_xor (zip_with ascii_xor l k) k = l.
Proof.
  revert k. induction l as [|x l IH]; intros [|y k]; simpl; intros H; try done; [lia|].
  rewrite ascii_xor_cancel, IH by lia. done.
Qed.

Lemma xor_stream_cancel ks nonce l : xor_stream ks nonce (xor_stream ks nonce l) = l.
Proof.
  unfold xor_stream at 1. rewrite length_xor_stream. apply zip_xor_cancel, length_keystream.
Qed.

Lemma length_tag ks n c a : length (tag ks n c a) = 16.
Proof. apply length_be_bytes. Qed.

Lemma str_length l : String.length (unchars l) = length l.
Proof. induction l; simpl; congruence. Qed.
Lemma chars_length s : length (chars s) = String.length s.
Proof. induction s; simpl; congruence. Qed.

Lemma seal_length k n p a : String.length (seal k n p a) = String.length p + gcmOverhead.
Proof. unfold seal. rewrite str_length, length_app, length_xor_stream, length_tag, chars_length. done. Qed.

Lemma open_seal k n p a : open k n (seal k n p a) a = Some p.
Proof.
  unfold open, seal. rewrite chars_unchars, length_app, length_tag, length_xor_stream. unfold gcmOverhead.
  destruct (Nat.ltb_spec (length (chars p) + 16) 16); [lia|].
  replace (length (chars p) + 16 - 16) with (length (xor_stream (keys_of k) (chars n) (chars p)))
    by (rewrite length_xor_stream; lia).
  rewrite take_app_length, drop_app_length, bool_decide_eq_true_2 by done.
  by rewrite xor_stream_cancel, unchars_chars.
Qed.

Lemma open_length k n c a p : open k n c a = Some p → String.length c = String.length p + gcmOverhead.
Proof.
  unfold open. destruct (Nat.ltb_spec (length (chars c)) gcmOverhead); [done|].
  case_bool_decide; [|done]. intros [= <-]. rewrite str_length, length_xor_stream, length_take, chars_length in *. lia.
Qed.
End GCMMode.

(** AES-256-GCM has the properties the program relies on. *)
#[export] Instance aes_gcm : GCM := {|
  gcm_Seal := GCMMode.seal;
  gcm_Open := GCMMode.open;
  gcm_Seal_length := GCMMode.seal_length;
  gcm_Open_Seal := GCMMode.open_seal;
  gcm_Open_length := GCMMode.open_length;
|}.

(** The published test vector with the all-zero key, nonce and text:
    ciphertext cea7403d4d606b6e074ec5d3baf39d18, tag d0d1c8a799996bf0265b98b5d48ab919. *)
Example aes_gcm_test_vector :
  N_of_ascii <$> chars (GCMMode.seal (unchars (replicate 32 Ascii.zero)) (unchars (replicate 12 Ascii.zero))
    (unchars (replicate 16 Ascii.zero)) "") =
  [206; 167; 64; 61; 77; 96; 107; 110; 7; 78; 197; 211; 186; 243; 157; 24; 208; 209; 200; 167; 153; 153; 107; 240; 38; 91; 152; 181; 212; 138; 185; 25]%N.
Proof. vm_compute. reflexivity. Qed.
