(* ===== verification/Cryptor.v ===== *)
(** * Cryptors (internal/cryptor)

    - cryptor.go: requests and their validation;
    - secretgen.go: [AES256SecretGenerator.GenerateSecret];
    - aes256gcm/aes256gcm.go: [Encrypt] and [Decrypt], whose ciphertext is
      [nonce || ciphertext || tag];
    - cryptorprovider/provider.go: [GetBundle] and [newCryptorConfig].

    The block cipher is the interface [GCM]; keys, plaintexts and ciphertexts
    are [Data] objects of internal/securemem. *)

From S2P Require Import Prelude GoStrings GoRuntime Model World Providers SecureMem AesGcm.

Local Open Scope string_scope.

(** [KeyAlgorithmAES256]. *)
Definition KeyAlgorithmAES256 : string := "AES256".

Record Secret := mkSecret {
  sec_Algorithm : string;
  sec_Data : option positive;
}.
Record EncryptRequest := mkEncryptRequest {
  er_Secret : Secret;
  er_Plaintext : option positive;
  er_AAD : string;
}.
Record DecryptRequest := mkDecryptRequest {
  dr_Secret : Secret;
  dr_Ciphertext : option positive;
  dr_AAD : string;
}.

Definition ErrRequest : string := "cryptor.ErrRequest".
Definition ErrUnknownCryptorType : string := "cryptor.ErrUnknownType".
Definition ErrAllocatedSecretNotFound : string := "cryptor.ErrAllocatedSecretNotFound".
Definition ErrAllocatedDataNotFound : string := "aes256gcm.ErrAllocatedDataNotFound".

Section cryptor.
Context {ENV : Env} {G : GCM}.

(** ** Validation (cryptor.go) *)

(** [d == nil || len(d.SecureBytes()) == 0]. *)
Definition nil_or_empty (d : option positive) : M bool :=
  match d with
  | None => mret true
  | Some _ => b ← SecureBytes d; n ← len b; mret (Z.eqb n 0)
  end.

Definition Secret_Validate (cs : Secret) : M () :=
  if String.eqb (sec_Algorithm cs) "" then throw (wrap1 (ESentinel ErrRequest)) else
  bad ← nil_or_empty (sec_Data cs);
  if bad : bool then throw (wrap1 (ESentinel ErrRequest)) else mret ().

Definition EncryptRequest_Validate (req : EncryptRequest) : M () :=
  bad ← nil_or_empty (er_Plaintext req);
  if bad : bool then throw (wrap1 (ESentinel ErrRequest)) else Secret_Validate (er_Secret req).

Definition DecryptRequest_Validate (req : DecryptRequest) : M () :=
  bad ← nil_or_empty (dr_Ciphertext req);
  if bad : bool then throw (wrap1 (ESentinel ErrRequest)) else Secret_Validate (dr_Secret req).

(** ** Secure memory through slices *)

(** Writes to the slice [s[off:]]. *)
Definition write_at (s : option positive) (off : nat) (src : string) : M () :=
  match s with
  | None => mret ()
  | Some r =>
      if String.eqb src "" then mret () else
      write_region r (λ b,
        unchars (take off (chars b) ++ chars (overwrite (unchars (drop off (chars b))) src))%list)
  end.

(** The bytes a pointer leads to: [d.SecureBytes()], read. *)
Definition data_bytes (d : option positive) : M string := b ← SecureBytes d; read_bytes b.

(** [vault.Get(name)], then destroy the vault and fail when there is nothing. *)
Definition get_or_destroy (resp : HandlerResponse) (name sentinel : string) : M positive :=
  p ← MemVault_Get (hr_vault resp) name;
  match p with
  | Some l => mret l
  | None => DestroyAll (hr_vault resp);; throw (wrap1 (ESentinel sentinel))
  end.

(** ** Generation of secrets (secretgen.go) *)

Definition secretKey : string := "secretKey".

Definition GenerateSecret : M positive :=
  resp ← Run (λ hReq,
    r ← try (Reserve (persistentVault hReq) secretKey 32);
    match r with
    | inr e => throw (wrap1 e)
    | inl b => bytes ← rand_Read 32; write_at b 0 bytes
    end);
  get_or_destroy resp secretKey ErrAllocatedSecretNotFound.

(** ** AES-256-GCM (aes256gcm.go) *)

Definition TypeAES256GCM : string := "aes256gcm".
Definition plainTextKey : string := "plainText".
Definition cipherTextKey : string := "cipherText".

(** [cryptor.Info] of an instance. *)
Record AES256GCM := mkAES256GCM { ag_Name : string; ag_Type : string }.
Definition aes256gcm_New (name : string) : AES256GCM := mkAES256GCM name TypeAES256GCM.

(** [aes.NewCipher]: the key length is 16, 24 or 32. *)
Definition aes_NewCipher (key : string) : M () :=
  if bool_decide (String.length key ∈ [16; 24; 32]) then mret () else throw (wrap1 (EForeign "aes")).

(** The checks both operations start with. *)
Definition check_secret (s : Secret) : M () :=
  if negb (String.eqb (sec_Algorithm s) KeyAlgorithmAES256) then throw (wrap1 (ESentinel ErrRequest)) else
  b ← SecureBytes (sec_Data s);
  secretSize ← len b;
  if negb (Z.eqb secretSize (Z.of_nat KeySize)) then throw (wrap1 (ESentinel ErrRequest)) else mret ().

Definition Encrypt_handler (req : EncryptRequest) (hr : HandlerRequest) : M () :=
  key ← data_bytes (sec_Data (er_Secret req));
  aes_NewCipher key;;
  b ← SecureBytes (er_Plaintext req);
  n ← len b;
  let totalSealDataSize := (Z.of_nat gcmNonceSize + n + Z.of_nat gcmOverhead)%Z in
  r ← try (Reserve (persistentVault hr) cipherTextKey totalSealDataSize);
  match r with
  | inr e => throw (wrap1 e)
  | inl cipherBytes =>
      nonce ← rand_Read gcmNonceSize;
      write_at cipherBytes 0 nonce;;
      plaintext ← data_bytes (er_Plaintext req);
      write_at cipherBytes gcmNonceSize (gcm_Seal key nonce plaintext (er_AAD req))
  end.

Definition Encrypt (a : AES256GCM) (req : EncryptRequest) : M positive :=
  EncryptRequest_Validate req;;
  check_secret (er_Secret req);;
  resp ← Run (Encrypt_handler req);
  get_or_destroy resp cipherTextKey ErrAllocatedDataNotFound.

Definition Decrypt_handler (req : DecryptRequest) (hr : HandlerRequest) : M () :=
  key ← data_bytes (sec_Data (dr_Secret req));
  aes_NewCipher key;;
  b ← SecureBytes (dr_Ciphertext req);
  cipherTextSize ← len b;
  if (cipherTextSize <? Z.of_nat gcmNonceSize + Z.of_nat gcmOverhead)%Z
  then throw (wrap1 (ESentinel ErrRequest)) else
  let plainTextSize := (cipherTextSize - Z.of_nat gcmNonceSize - Z.of_nat gcmOverhead)%Z in
  r ← try (Reserve (persistentVault hr) plainTextKey plainTextSize);
  match r with
  | inr e => throw (wrap1 e)
  | inl plainBytes =>
      sealed ← data_bytes (dr_Ciphertext req);
      let nonce := unchars (take gcmNonceSize (chars sealed)) in
      let ciphertext := unchars (drop gcmNonceSize (chars sealed)) in
      match gcm_Open key nonce ciphertext (dr_AAD req) with
      | None => throw (wrap1 (EForeign "cipher: message authentication failed"))
      | Some plaintext => write_at plainBytes 0 plaintext
      end
  end.

Definition Decrypt (a : AES256GCM) (req : DecryptRequest) : M positive :=
  DecryptRequest_Validate req;;
  check_secret (dr_Secret req);;
  resp ← Run (Decrypt_handler req);
  get_or_destroy resp plainTextKey ErrAllocatedDataNotFound.

(** ** Providers (cryptorprovider/provider.go) *)

(** [cryptor.Bundle]: the only generator is the one of AES-256 secrets. *)
Record Bundle := mkBundle { bd_Cryptor : AES256GCM }.

Definition GetBundle (spec : CryptorSpec) : Bundle + error :=
  match cr_Config spec with
  | Some AES256GCMConfig => inl (mkBundle (aes256gcm_New (cr_Name spec)))
  | None => inr (wrap1 (ESentinel ErrUnknownCryptorType))
  end.

Definition newCryptorConfig (t : string) : CryptorConfig + error :=
  if String.eqb t TypeAES256GCM then inl AES256GCMConfig
  else inr (wrap1 (ESentinel ErrUnknownCryptorType)).
End cryptor.
