(* ===== verification/Sealers.v ===== *)
(** * Secret sources and sealers (internal/secret, internal/sealer)

    - secret/envvar and secret/inline: [LoadSecret]; secretprovider: [newLoader],
      [newConfig] and [GetSecret];
    - sealer/sealer.go: the [Sealer] interface, a record of its two operations;
    - sealer/staticsecret: [New], [Seal] and [Unseal];
    - sealer/sealerprovider: [GetSealer].

    The environment variables of the process are the parameter [OsEnv]. *)

From S2P Require Import Prelude GoStrings GoRuntime Model World Providers SecureMem AesGcm Cryptor.

Local Open Scope string_scope.

(** [os.Getenv]: the empty string for a variable that is not set. *)
Class OsEnv := os_Getenv : string → string.

(** ** The interface (sealer.go) *)

Record SealRequest := mkSealRequest {
  sr_TenantID : string;
  sr_KeyID : string;
  sr_KeyVersion : Z;
  sr_Plaintext : option positive;
  sr_AAD : string;
  sr_Metadata : gmap string string;   (* a nil map reads as an empty one *)
}.
Record UnsealRequest := mkUnsealRequest {
  ur_TenantID : string;
  ur_KeyID : string;
  ur_KeyVersion : Z;
  ur_Ciphertext : option positive;
  ur_AAD : string;
  ur_Metadata : gmap string string;
}.

(** [sealer.Sealer]: the responses carry one pointer. *)
Record Sealer := mkSealer {
  Seal : SealRequest → M positive;
  Unseal : UnsealRequest → M positive;
}.

Section sealers.
Context {ENV : Env} {G : GCM} {OS : OsEnv}.

(** ** Secret sources *)

Definition ErrEnvVarEmpty : string := "envvar.ErrEnvVarEmpty".
Definition envvar_ErrBase64Decode : string := "envvar.ErrBase64Decode".
Definition envvar_ErrSecureMemory : string := "envvar.ErrSecureMemory".
Definition inline_ErrSecureMemory : string := "inline.ErrSecureMemory".
Definition envvar_memKey : string := "envvar-secret".
Definition inline_memKey : string := "inline-secret".

(** The handler both loaders pass to [Run]. *)
Definition load_handler (raw memKey decodeErr : string) (req : HandlerRequest) : M () :=
  match Base64.StdDecodeString raw with
  | None => throw (wrap2 decodeErr (EForeign "base64"))
  | Some keyBytes =>
      b ← Reserve (persistentVault req) memKey (Z.of_nat (String.length keyBytes));
      copy_bytes b keyBytes
  end.

(** The part after [Run], the same in both loaders. *)
Definition load_finish (memKey memErr : string) (r : HandlerResponse + error) : M positive :=
  match r with
  | inr e => throw (wrap2 memErr e)
  | inl resp =>
      p ← MemVault_Get (hr_vault resp) memKey;
      match p with
      | Some secdata => mret secdata
      | None =>
          destroyErr ← err_of (DestroyAll (hr_vault resp));
          check (errors_Join [Some (wrap1 (ESentinel memErr)); destroyErr]);; panic
      end
  end.

Definition envvar_LoadSecret (name : string) : M positive :=
  let raw := os_Getenv name in
  if String.eqb raw "" then throw (wrap1 (ESentinel ErrEnvVarEmpty)) else
  resp ← try (Run (load_handler raw envvar_memKey envvar_ErrBase64Decode));
  load_finish envvar_memKey envvar_ErrSecureMemory resp.

Definition inline_LoadSecret (secret : string) : M positive :=
  if String.eqb secret "" then throw (ESentinel ErrSecretEmpty) else
  resp ← try (Run (load_handler secret inline_memKey ErrBase64Decode));
  load_finish inline_memKey inline_ErrSecureMemory resp.

(** [secretprovider.newLoader] and the call of the loader it returns. *)
Definition newLoader (spec : SecretSpec) : (M positive) + error :=
  if String.eqb (ss_Type spec) envvar_Type then
    match ss_Config spec with
    | Some (EnvVarConfig name) => inl (envvar_LoadSecret name)
    | _ => inr (EForeign "expected *envvar.Config")
    end
  else if String.eqb (ss_Type spec) inline_Type then
    match ss_Config spec with
    | Some (InlineConfig secret) => inl (inline_LoadSecret secret)
    | _ => inr (EForeign "expected *inline.Config")
    end
  else inr (wrap1 (ESentinel ErrUnknownSecretType)).

Definition GetSecret (spec : SecretSpec) : M positive :=
  match newLoader spec with
  | inr e => throw e
  | inl load => load
  end.

Definition newSecretConfig (t : string) : SecretConfig + error :=
  if String.eqb t envvar_Type then inl (EnvVarConfig "")
  else if String.eqb t inline_Type then inl (InlineConfig "")
  else inr (wrap1 (ESentinel ErrUnknownSecretType)).

(** ** The static secret sealer (staticsecret.go) *)

Record StaticSecret := mkStaticSecret {
  st_secret : positive;
  st_aes256gcm : AES256GCM;
  st_name : string;
}.

Definition ErrInitializationFailed : string := "staticsecret.ErrInitializationFailed".

Definition staticsecret_New (name : string) (secret : option positive) : M StaticSecret :=
  if String.eqb name "" then throw (wrap1 (ESentinel ErrInitializationFailed)) else
  match secret with
  | None => throw (wrap1 (ESentinel ErrInitializationFailed))
  | Some l =>
      b ← SecureBytes secret;
      n ← len b;
      if negb (Z.eqb n (Z.of_nat KeySize)) then throw (wrap1 (ESentinel ErrInitializationFailed)) else
      mret (mkStaticSecret l (aes256gcm_New name) name)
  end.

Definition StaticSecret_Seal (s : StaticSecret) (req : SealRequest) : M positive :=
  bad ← nil_or_empty (sr_Plaintext req);
  if bad : bool then throw (wrap1 (ESentinel ErrRequest)) else
  Encrypt (st_aes256gcm s)
    (mkEncryptRequest (mkSecret KeyAlgorithmAES256 (Some (st_secret s))) (sr_Plaintext req) (sr_AAD req)).

Definition StaticSecret_Unseal (s : StaticSecret) (req : UnsealRequest) : M positive :=
  bad ← nil_or_empty (ur_Ciphertext req);
  if bad : bool then throw (wrap1 (ESentinel ErrRequest)) else
  Decrypt (st_aes256gcm s)
    (mkDecryptRequest (mkSecret KeyAlgorithmAES256 (Some (st_secret s))) (ur_Ciphertext req) (ur_AAD req)).

Definition static_sealer (s : StaticSecret) : Sealer :=
  mkSealer (StaticSecret_Seal s) (StaticSecret_Unseal s).

(** ** Providers (sealerprovider/provider.go) *)

Definition GetSealer (spec : SealerSpec) : M StaticSecret :=
  match sl_Config spec with
  | Some (StaticSecretConfig secretSpec) =>
      r ← try (GetSecret secretSpec);
      match r with
      | inr e => throw (wrap1 e)
      | inl secret => staticsecret_New (sl_Name spec) (Some secret)
      end
  | None => throw (wrap1 (ESentinel ErrUnknownSealerType))
  end.
End sealers.
