(* ===== verification/Vault.v ===== *)
(** * Vaults (internal/vault)

    - vault.go: the requests and the [Vault] interface, a record of operations;
    - sqlitevault/unsafesqlite.go: the SQLite vault, whose rows are the rows of
      [w_vault] under its data source;
    - openbaovault/openbao.go: the OpenBao vault, over the client [OpenBao];
    - vaultprovider/provider.go: [GetVault].

    The OpenBao server and its client are not code of this repository: [OpenBao]
    is what the vault calls of them.  A call goes over the network, so it leaves
    the database, the secure memory and the responses of this process alone. *)

From S2P Require Import Prelude GoStrings GoRuntime Model World Providers SecureMem AesGcm Cryptor.

Local Open Scope string_scope.

(** ** The interface (vault.go) *)

Record ImportKeyRequest := mkImportKeyRequest {
  ik_TenantID : string; ik_KeyID : string; ik_KeyVersion : Z; ik_KeyRevision : Z;
  ik_KeyMaterial : option positive;
  ik_AAD : string;
}.
(** [ExportKeyRequest] and [DestroyKeyRequest] have the same fields. *)
Record KeyRef := mkKeyRef {
  kr_TenantID : string; kr_KeyID : string; kr_KeyVersion : Z; kr_KeyRevision : Z;
}.
Record ExportKeyResponse := mkExportKeyResponse {
  ex_KeyMaterial : positive;
  ex_AAD : string;
}.

Record Vault := mkVault {
  PrepareTenant : string → M ();
  ImportKey : ImportKeyRequest → M ();
  ExportKey : KeyRef → M ExportKeyResponse;
  DestroyKey : KeyRef → M ();
  DestroyTenant : string → M ();
  Vault_Info : string * string;
}.

Definition ErrKeyNotFoundVault : string := "vault.ErrKeyNotFound".
Definition ErrInvalidRequest : string := "vault.ErrInvalidRequest".

(** ** SQLite (unsafesqlite.go) *)

Definition MemorySource : string := "file::memory:?cache=shared".
Definition FileSource (path : string) : string := path.

Definition kr_ident (r : KeyRef) : string * string * Z * Z :=
  (kr_TenantID r, kr_KeyID r, kr_KeyVersion r, kr_KeyRevision r).
Definition ik_ident (r : ImportKeyRequest) : string * string * Z * Z :=
  (ik_TenantID r, ik_KeyID r, ik_KeyVersion r, ik_KeyRevision r).

(** [Unsafe]: its info and its data source. *)
Record Unsafe := mkUnsafe { un_Name : string; un_Type : string; un_source : string }.

Section sqlite.
Context {ENV : Env}.

(** [migrate] creates the table unless it exists. *)
Definition Unsafe_migrate (u : Unsafe) : M () := external "create table".

Definition NewUnsafe (name source : string) : M Unsafe :=
  external "open";;
  external "ping";;
  let t := if String.eqb source MemorySource then TypeUnsafeMemory else TypeUnsafe in
  let u := mkUnsafe name t source in
  Unsafe_migrate u;;
  mret u.

Definition Unsafe_PrepareTenant (u : Unsafe) (tenantID : string) : M () := mret ().

(** [DELETE FROM keys WHERE tenant_id = ?]. *)
Definition Unsafe_DestroyTenant (u : Unsafe) (tenantID : string) : M () :=
  external "delete";;
  modify (λ w, set_vault
    (filter (λ p, ¬ (p.1.1 = un_source u ∧ p.1.2.1.1.1 = tenantID)) (w_vault w)) w).

(** The columns [tenant_id] and [key_id] are checked to be non-empty, and a nil
    slice is NULL, which [key_material] must not be. *)
Definition Unsafe_ImportKey (u : Unsafe) (req : ImportKeyRequest) : M () :=
  match ik_KeyMaterial req with
  | None => throw (ESentinel ErrInvalidRequest)
  | Some _ =>
      b ← SecureBytes (ik_KeyMaterial req);
      material ← read_bytes b;
      _ ← clock_Now;
      external "insert";;
      if (String.eqb (ik_TenantID req) "" || String.eqb (ik_KeyID req) "" || negb (bool_decide (is_Some b)))%bool
      then throw (EForeign "constraint failed") else
      modify (λ w, set_vault
        (<[(un_source u, ik_ident req) := mkVaultRow material (ik_AAD req)]> (w_vault w)) w)
  end.

Definition Unsafe_ExportKey (u : Unsafe) (req : KeyRef) : M ExportKeyResponse :=
  external "select";;
  row ← gets (λ w, w_vault w !! (un_source u, kr_ident req));
  match row with
  | None => throw (ESentinel ErrKeyNotFoundVault)
  | Some row =>
      data ← NewData "" (Z.of_nat (String.length (vr_material row)));
      b ← SecureBytes (Some data);
      copy_bytes b (vr_material row);;
      mret (mkExportKeyResponse data (vr_aad row))
  end.

Definition Unsafe_DestroyKey (u : Unsafe) (req : KeyRef) : M () :=
  external "delete";;
  modify (λ w, set_vault (delete (un_source u, kr_ident req) (w_vault w)) w).

Definition sqlite_vault (u : Unsafe) : Vault :=
  mkVault (Unsafe_PrepareTenant u) (Unsafe_ImportKey u) (Unsafe_ExportKey u) (Unsafe_DestroyKey u)
    (Unsafe_DestroyTenant u) (un_Name u, un_Type u).
End sqlite.

(** ** OpenBao (openbao.go) *)

(** The errors the vault tells apart: [openbao.ErrSecretNotFound], a
    [ResponseError] with its status code and messages, and any other. *)
Inductive bao_error :=
  | BaoSecretNotFound
  | BaoResponse (StatusCode : Z) (Errors : list string)
  | BaoOther.

(** The client: a call either answers or fails; the world it leaves differs
    from the one before in the rows of the server, which [w_vault] holds
    under the address. *)
Class OpenBao := {
  bao_Write : string → string → M (() + bao_error);              (* address, path *)
  bao_Delete : string → string → M (() + bao_error);
  kv_Put : string → string → string → string * string → M (() + bao_error);
  kv_Get : string → string → string → M ((string * string) + bao_error);
  kv_Delete : string → string → string → M (() + bao_error);
}.

Definition kvSecretName : string := "kv-secrets".
Definition securememImportKey : string := "key_material".
Definition errAllocatedDataNotFound : string := "openbaovault.errAllocatedDataNotFound".

Definition kvMountPath (tenantID : string) : string := tenantID +:+ "/" +:+ kvSecretName.
Definition kvPath (keyID : string) (keyVersion keyRevision : Z) : string :=
  keyID +:+ "/" +:+ pretty keyVersion +:+ "/" +:+ pretty keyRevision.
Definition kvSecretPath (tenantID : string) : string := tenantID +:+ "/sys/mounts/" +:+ kvSecretName.
Definition namespacePath (tenantID : string) : string := "sys/namespaces/" +:+ tenantID.

(** [strings.Contains(s, sub)]. *)
Fixpoint contains_chars (sub s : list Ascii.ascii) : bool :=
  bool_decide (take (length sub) s = sub) ||
  match s with [] => false | _ :: s' => contains_chars sub s' end.
Definition strings_Contains (s sub : string) : bool := contains_chars (chars sub) (chars s).

Definition isKVPathDeleted (e : bao_error) : bool :=
  match e with BaoResponse code _ => Z.eqb code 404 | _ => false end.
Definition isKVPathExists (e : bao_error) : bool :=
  match e with
  | BaoResponse code errs =>
      (Z.eqb code 400 &&
       existsb (λ m, strings_Contains m ("path is already in use at " +:+ kvSecretName +:+ "/")) errs)%bool
  | _ => false
  end.

(** The client's error as an error value. *)
Definition ErrSecretNotFound : string := "openbao.ErrSecretNotFound".
Definition bao_to_error (e : bao_error) : error :=
  match e with
  | BaoSecretNotFound => ESentinel ErrSecretNotFound
  | _ => EForeign "openbao"
  end.

Section openbao.
Context {ENV : Env} {BAO : OpenBao}.

(** [Vault] of openbao.go: its name and the address its client was given. *)
Record BaoVault := mkBaoVault { bv_Name : string; bv_address : string }.

(** [New], with the option that sets the address. *)
Definition bao_New (name address : string) : M BaoVault :=
  external "openbao.NewClient";;
  external "SetAddress";;
  mret (mkBaoVault name address).

Definition Bao_PrepareTenant (v : BaoVault) (tenantID : string) : M () :=
  r ← bao_Write (bv_address v) (namespacePath tenantID);
  match r with
  | inr e => throw (bao_to_error e)
  | inl _ =>
      r ← bao_Write (bv_address v) (kvSecretPath tenantID);
      match r with
      | inr e => if isKVPathExists e then mret () else throw (bao_to_error e)
      | inl _ => mret ()
      end
  end.

Definition Bao_DestroyTenant (v : BaoVault) (tenantID : string) : M () :=
  r ← bao_Delete (bv_address v) (kvSecretPath tenantID);
  match match r with inr e => if isKVPathDeleted e then None else Some e | inl _ => None end with
  | Some e => throw (bao_to_error e)
  | None =>
      r ← bao_Delete (bv_address v) (namespacePath tenantID);
      match r with inr e => throw (bao_to_error e) | inl _ => mret () end
  end.

(** [toKvData] cannot fail on two strings; the client is given both encoded. *)
Definition Bao_ImportKey (v : BaoVault) (req : ImportKeyRequest) : M () :=
  match ik_KeyMaterial req with
  | None => throw (ESentinel ErrInvalidRequest)
  | Some _ =>
      _ ← Run (λ hreq,
        material ← data_bytes (ik_KeyMaterial req);
        r ← kv_Put (bv_address v) (kvMountPath (ik_TenantID req))
              (kvPath (ik_KeyID req) (ik_KeyVersion req) (ik_KeyRevision req))
              (Base64.StdEncodeToString material, Base64.StdEncodeToString (ik_AAD req));
        match r with inr e => throw (bao_to_error e) | inl _ => mret () end);
      mret ()
  end.

(** The handler of [ExportKey] assigns the variable [aad] of its caller. *)
Definition Bao_ExportKey_handler (v : BaoVault) (req : KeyRef) (hreq : HandlerRequest) : M string :=
  r ← kv_Get (bv_address v) (kvMountPath (kr_TenantID req))
        (kvPath (kr_KeyID req) (kr_KeyVersion req) (kr_KeyRevision req));
  match r with
  | inr e => throw (bao_to_error e)
  | inl (keyMaterial, encodedAAD) =>
      match Base64.StdDecodeString keyMaterial with
      | None => throw (EForeign "base64")
      | Some b64Km =>
          sKm ← Reserve (persistentVault hreq) securememImportKey (Z.of_nat (String.length b64Km));
          copy_bytes sKm b64Km;;
          match Base64.StdDecodeString encodedAAD with
          | None => throw (EForeign "base64")
          | Some aad => mret aad
          end
      end
  end.

Definition Bao_ExportKey (v : BaoVault) (req : KeyRef) : M ExportKeyResponse :=
  r ← try (Run_capture (Bao_ExportKey_handler v req));
  match r with
  | inr e =>
      if errors_Is e ErrSecretNotFound then throw (ESentinel ErrKeyNotFoundVault) else throw e
  | inl (resp, aad) =>
      p ← MemVault_Get (hr_vault resp) securememImportKey;
      match p with
      | Some data => mret (mkExportKeyResponse data aad)
      | None => DestroyAll (hr_vault resp);; throw (ESentinel errAllocatedDataNotFound)
      end
  end.

Definition Bao_DestroyKey (v : BaoVault) (req : KeyRef) : M () :=
  r ← kv_Delete (bv_address v) (kvMountPath (kr_TenantID req))
        (kvPath (kr_KeyID req) (kr_KeyVersion req) (kr_KeyRevision req));
  match r with
  | inr e => if isKVPathDeleted e then mret () else throw (bao_to_error e)
  | inl _ => mret ()
  end.

Definition bao_vault (v : BaoVault) : Vault :=
  mkVault (Bao_PrepareTenant v) (Bao_ImportKey v) (Bao_ExportKey v) (Bao_DestroyKey v)
    (Bao_DestroyTenant v) (bv_Name v, TypeOpenBao).

(** ** Providers (vaultprovider/provider.go) *)

Definition GetVault (spec : VaultSpec) : M Vault :=
  if String.eqb (vs_Type spec) TypeUnsafeMemory then
    u ← NewUnsafe (vs_Name spec) MemorySource; mret (sqlite_vault u)
  else if String.eqb (vs_Type spec) TypeUnsafe then
    match vs_Config spec with
    | Some (FileConfig path) => u ← NewUnsafe (vs_Name spec) (FileSource path); mret (sqlite_vault u)
    | _ => throw (EForeign "expected *sqlitevault.FileConfig")
    end
  else if String.eqb (vs_Type spec) TypeOpenBao then
    match vs_Config spec with
    | Some (OpenBaoConfig address) => v ← bao_New (vs_Name spec) address; mret (bao_vault v)
    | _ => throw (EForeign "expected *openbaovault.Config")
    end
  else throw (wrap1 (ESentinel ErrUnknownVaultType)).
End openbao.
