(* ===== verification/SpecYaml.v ===== *)
(** * Specifications as YAML

    The methods [MarshalYAML] and [UnmarshalYAML] of the specifications of
    secrets, sealers, cryptors and vaults (secretprovider, sealerprovider,
    cryptorprovider, vaultprovider), and the key bindings that hold them: a
    configuration that the root reads from its file, hands to an agent when it
    registers, or keeps in the vault of the root key goes through them.  The
    library (gopkg.in/yaml.v3) is the class [Yaml]: nodes, the struct and string
    codecs, text.  A struct is encoded by the tags of its fields. *)

From S2P Require Import Prelude GoStrings GoRuntime Model World Providers Hierarchy Sql KeyStore StoreTheorems.
From S2P Require Import Sealers Cryptor Vault.

Local Open Scope string_scope.

(** ** The library *)

Class Yaml := {
  node : Type;
  y_null : node;
  y_string : string → node;
  y_struct : list (string * node) → node;
  y_is_null : node → bool;
  y_decode_string : node → string + error;
  y_field : node → string → option node + error;   (* decoding a struct: the node of a field, if there is one *)
  y_no_fields : node → goerror;                    (* decoding a struct that has none *)
  y_marshal : node → string + error;
  y_parse : string → option node + error;          (* no node: an empty document *)
}.

Fixpoint assoc {A} (k : string) (l : list (string * A)) : option A :=
  match l with
  | [] => None
  | (k', a) :: l => if String.eqb k' k then Some a else assoc k l
  end.

(** What the code relies on: strings, structs and documents read back as they
    were written, and a null sets no field. *)
Class YamlLaws (Y : Yaml) : Prop := {
  y_string_read : ∀ s, y_decode_string (y_string s) = inl s;
  y_string_not_null : ∀ s, y_is_null (y_string s) = false;
  y_struct_not_null : ∀ l, y_is_null (y_struct l) = false;
  y_struct_read : ∀ l k, NoDup l.*1 → y_field (y_struct l) k = inl (assoc k l);
  y_null_read : ∀ k, y_field y_null k = inl None;
  y_struct_no_fields : ∀ l, y_no_fields (y_struct l) = None;
  y_null_no_fields : y_no_fields y_null = None;
  y_text_read : ∀ n b, y_marshal n = inl b → y_parse b = inl (Some n);
}.

(** Results of decoding in sequence. *)
Definition and_then {A B} (r : A + error) (k : A → B + error) : B + error :=
  match r with inl a => k a | inr e => inr e end.
Notation "'let*' x := r 'in' k" := (and_then r (λ x, k)) (at level 200, x pattern, r at level 100, k at level 200).

Section yaml.
Context {Y : Yaml}.

(** A field of an interface or pointer type, with and without [omitempty]. *)
Definition omitempty (k : string) (v : option node) : list (string * node) :=
  match v with Some n => [(k, n)] | None => [] end.
Definition always (k : string) (v : option node) : list (string * node) := [(k, default y_null v)].

(** A field of type [string], decoded over its present value. *)
Definition text_field (n : node) (k old : string) : string + error :=
  let* f := y_field n k in
  match f with
  | None => inl old
  | Some m => if y_is_null m then inl old else y_decode_string m
  end.

(** [raw.Config.Kind != 0], then [raw.Config.Decode(cfg)]. *)
Definition decode_over {A} (decode : node → A → A + error) (n : option node) (a : A) : A + error :=
  match n with
  | None => inl a
  | Some m => match decode m a with inl b => inl b | inr e => inr (wrap1 e) end
  end.

(** ** Secrets (secretprovider/provider.go) *)

Definition SecretConfig_node (c : SecretConfig) : node :=
  match c with
  | EnvVarConfig name => y_struct [("name", y_string name)]
  | InlineConfig secret => y_struct [("secret", y_string secret)]
  end.
Definition SecretConfig_decode (n : node) (c : SecretConfig) : SecretConfig + error :=
  match c with
  | EnvVarConfig name => let* name := text_field n "name" name in inl (EnvVarConfig name)
  | InlineConfig secret => let* secret := text_field n "secret" secret in inl (InlineConfig secret)
  end.

Definition SecretSpec_MarshalYAML (s : SecretSpec) : node :=
  y_struct ([("type", y_string (ss_Type s))] ++ always "config" (SecretConfig_node <$> ss_Config s)).

(** The raw struct: the fields of the alias and the node of the configuration. *)
Definition SecretSpec_raw (n : node) : (string * option node) + error :=
  let* t := text_field n "type" "" in let* c := y_field n "config" in inl (t, c).
Definition SecretSpec_UnmarshalYAML (n : node) : SecretSpec + error :=
  match SecretSpec_raw n with
  | inr e => inr (wrap1 e)
  | inl (t, c) =>
      let* cfg := newSecretConfig t in
      let* cfg := decode_over SecretConfig_decode c cfg in
      inl (mkSecretSpec t (Some cfg))
  end.

(** ** Sealers (sealerprovider/provider.go) *)

(** [Secret] is a value: the decoder calls its method unless it is null. *)
Definition SealerConfig_node (c : SealerConfig) : node :=
  match c with StaticSecretConfig s => y_struct [("secret", SecretSpec_MarshalYAML s)] end.
Definition SealerConfig_decode (n : node) (c : SealerConfig) : SealerConfig + error :=
  match c with
  | StaticSecretConfig old =>
      let* f := y_field n "secret" in
      match f with
      | None => inl (StaticSecretConfig old)
      | Some m => if y_is_null m then inl (StaticSecretConfig old)
                  else let* s := SecretSpec_UnmarshalYAML m in inl (StaticSecretConfig s)
      end
  end.

(** [staticsecret.Auth] has no fields. *)
Definition SealerAuth_node (a : SealerAuth) : node := match a with StaticSecretAuth => y_struct [] end.
Definition SealerAuth_decode (n : node) (a : SealerAuth) : SealerAuth + error :=
  match y_no_fields n with Some e => inr e | None => inl a end.

Definition SealerSpec_MarshalYAML (s : SealerSpec) : node :=
  y_struct ([("name", y_string (sl_Name s)); ("type", y_string (sl_Type s))] ++
            omitempty "auth" (SealerAuth_node <$> sl_Auth s) ++
            omitempty "config" (SealerConfig_node <$> sl_Config s)).

Definition SealerSpec_raw (n : node) : (string * string * option node * option node) + error :=
  let* name := text_field n "name" "" in let* t := text_field n "type" "" in
  let* a := y_field n "auth" in let* c := y_field n "config" in inl (name, t, a, c).
Definition SealerSpec_UnmarshalYAML (n : node) : SealerSpec + error :=
  match SealerSpec_raw n with
  | inr e => inr (wrap1 e)
  | inl (name, t, a, c) =>
      match newSealer t with
      | None => inr (wrap1 (ESentinel ErrUnknownSealerType))
      | Some (cfg, auth) =>
          let* cfg := decode_over SealerConfig_decode c cfg in
          let* auth := decode_over SealerAuth_decode a auth in
          inl (mkSealerSpec name t (Some cfg) (Some auth))
      end
  end.

(** [yaml.Marshal(&spec)] and [yaml.Unmarshal(b, &spec)] into the zero value. *)
Definition yaml_Marshal (s : SealerSpec) : string + error := y_marshal (SealerSpec_MarshalYAML s).
Definition yaml_Unmarshal (b : string) : SealerSpec + error :=
  let* doc := y_parse b in
  match doc with
  | None => inl (mkSealerSpec "" "" None None)
  | Some n => if y_is_null n then inl (mkSealerSpec "" "" None None) else SealerSpec_UnmarshalYAML n
  end.

(** ** Cryptors (cryptorprovider/provider.go) *)

Definition CryptorConfig_node (c : CryptorConfig) : node := match c with AES256GCMConfig => y_struct [] end.
Definition CryptorConfig_decode (n : node) (c : CryptorConfig) : CryptorConfig + error :=
  match y_no_fields n with Some e => inr e | None => inl c end.

Definition CryptorSpec_MarshalYAML (s : CryptorSpec) : node :=
  y_struct ([("name", y_string (cr_Name s)); ("type", y_string (cr_Type s))] ++
            always "config" (CryptorConfig_node <$> cr_Config s)).

Definition named_raw (n : node) : (string * string * option node) + error :=
  let* name := text_field n "name" "" in let* t := text_field n "type" "" in
  let* c := y_field n "config" in inl (name, t, c).
Definition CryptorSpec_UnmarshalYAML (n : node) : CryptorSpec + error :=
  match named_raw n with
  | inr e => inr (wrap1 e)
  | inl (name, t, c) =>
      let* cfg := newCryptorConfig t in
      let* cfg := decode_over CryptorConfig_decode c cfg in
      inl (mkCryptorSpec name t (Some cfg))
  end.

(** ** Vaults (vaultprovider/provider.go) *)

Definition VaultConfig_node (c : VaultConfig) : node :=
  match c with
  | InMemoryConfig => y_struct []
  | FileConfig path => y_struct [("path", y_string path)]
  | OpenBaoConfig address => y_struct [("address", y_string address)]
  end.
Definition VaultConfig_decode (n : node) (c : VaultConfig) : VaultConfig + error :=
  match c with
  | InMemoryConfig => match y_no_fields n with Some e => inr e | None => inl InMemoryConfig end
  | FileConfig path => let* path := text_field n "path" path in inl (FileConfig path)
  | OpenBaoConfig address => let* address := text_field n "address" address in inl (OpenBaoConfig address)
  end.

Definition VaultSpec_MarshalYAML (s : VaultSpec) : node :=
  y_struct ([("name", y_string (vs_Name s)); ("type", y_string (vs_Type s))] ++
            omitempty "config" (VaultConfig_node <$> vs_Config s)).
Definition VaultSpec_UnmarshalYAML (n : node) : VaultSpec + error :=
  match named_raw n with
  | inr e => inr (wrap1 e)
  | inl (name, t, c) =>
      match newVaultConfig t with
      | None => inr (wrap1 (ESentinel ErrUnknownVaultType))
      | Some cfg =>
          let* cfg := decode_over VaultConfig_decode c cfg in
          inl (mkVaultSpec name t (Some cfg))
      end
  end.

(** ** Key bindings (spec/topology.go) *)

Definition KeyBinding_node (b : KeyBinding) : node :=
  y_struct (omitempty "sealer" (SealerSpec_MarshalYAML <$> kb_SealerSpec b) ++
            omitempty "crypto" (CryptorSpec_MarshalYAML <$> kb_CryptorSpec b) ++
            omitempty "vault" (VaultSpec_MarshalYAML <$> kb_VaultSpec b) ++
            omitempty "parent_key_provider"
              ((λ a, y_struct [("agent_name", y_string a)]) <$> kb_ParentKeyProvider b)).

(** A field that is a pointer: a null leaves it nil. *)
Definition pointer_field {A} (n : node) (k : string) (decode : node → A + error) : option A + error :=
  let* f := y_field n k in
  match f with
  | None => inl None
  | Some m => if y_is_null m then inl None else let* a := decode m in inl (Some a)
  end.
Definition KeyBinding_decode (n : node) : KeyBinding + error :=
  let* s := pointer_field n "sealer" SealerSpec_UnmarshalYAML in
  let* c := pointer_field n "crypto" CryptorSpec_UnmarshalYAML in
  let* v := pointer_field n "vault" VaultSpec_UnmarshalYAML in
  let* p := pointer_field n "parent_key_provider" (λ m, text_field m "agent_name" "") in
  inl (mkKeyBinding s c v p).
End yaml.

(** ** Reading back what was written *)

(** The configuration is of the type the specification names, or there is none. *)
Definition SecretConfig_is (t : string) (c : SecretConfig) : Prop :=
  t = match c with EnvVarConfig _ => envvar_Type | InlineConfig _ => inline_Type end.
Definition SecretSpec_fits (s : SecretSpec) : Prop :=
  match ss_Config s with
  | Some c => SecretConfig_is (ss_Type s) c
  | None => ss_Type s ∈ [envvar_Type; inline_Type]
  end.
Definition SealerSpec_fits (s : SealerSpec) : Prop :=
  sl_Type s = TypeStaticSecret ∧
  match sl_Config s with Some (StaticSecretConfig sec) => SecretSpec_fits sec | None => True end.
Definition CryptorSpec_fits (s : CryptorSpec) : Prop := cr_Type s = TypeAES256GCM.
Definition VaultConfig_is (t : string) (c : VaultConfig) : Prop :=
  t = match c with InMemoryConfig => TypeUnsafeMemory | FileConfig _ => TypeUnsafe | OpenBaoConfig _ => TypeOpenBao end.
Definition VaultSpec_fits (s : VaultSpec) : Prop :=
  match vs_Config s with
  | Some c => VaultConfig_is (vs_Type s) c
  | None => vs_Type s ∈ [TypeUnsafeMemory; TypeUnsafe; TypeOpenBao]
  end.

(** A configuration that is nil reads back as the empty one of its type. *)
Definition SecretSpec_filled (s : SecretSpec) : SecretSpec :=
  mkSecretSpec (ss_Type s)
    (match ss_Config s with Some c => Some c
     | None => match newSecretConfig (ss_Type s) with inl c => Some c | inr _ => None end end).
Definition SealerSpec_filled (s : SealerSpec) : SealerSpec :=
  mkSealerSpec (sl_Name s) (sl_Type s)
    (Some (match sl_Config s with
           | Some (StaticSecretConfig sec) => StaticSecretConfig (SecretSpec_filled sec)
           | None => StaticSecretConfig (mkSecretSpec "" None)
           end))
    (Some StaticSecretAuth).
Definition CryptorSpec_filled (s : CryptorSpec) : CryptorSpec :=
  mkCryptorSpec (cr_Name s) (cr_Type s) (Some AES256GCMConfig).
Definition VaultSpec_filled (s : VaultSpec) : VaultSpec :=
  mkVaultSpec (vs_Name s) (vs_Type s)
    (match vs_Config s with Some c => Some c | None => newVaultConfig (vs_Type s) end).

Definition KeyBinding_fits (b : KeyBinding) : Prop :=
  from_option SealerSpec_fits True (kb_SealerSpec b) ∧ from_option CryptorSpec_fits True (kb_CryptorSpec b) ∧
  from_option VaultSpec_fits True (kb_VaultSpec b).
Definition KeyBinding_filled (b : KeyBinding) : KeyBinding :=
  mkKeyBinding (SealerSpec_filled <$> kb_SealerSpec b) (CryptorSpec_filled <$> kb_CryptorSpec b)
    (VaultSpec_filled <$> kb_VaultSpec b) (kb_ParentKeyProvider b).

Section laws.
Context {Y : Yaml} {L : YamlLaws Y}.

(** Fields of a struct with distinct literal names. *)
Ltac read_fields :=
  repeat first
    [ rewrite y_null_read | rewrite y_string_not_null | rewrite y_struct_not_null | rewrite y_string_read
    | rewrite y_struct_no_fields | rewrite y_null_no_fields
    | rewrite y_struct_read by (cbn; apply (bool_decide_unpack _); vm_compute; exact I)
    | progress cbn [assoc String.eqb Ascii.eqb Bool.eqb and_then decode_over app default from_option id fmap option_fmap option_map] ].

Lemma text_field_read l k old s :
  NoDup l.*1 → assoc k l = Some (y_string s) → text_field (y_struct l) k old = inl s.
Proof. intros Hl Hk. unfold text_field. rewrite y_struct_read, Hk by done. simpl. by rewrite y_string_not_null, y_string_read. Qed.

Lemma SecretConfig_yaml c z :
  newSecretConfig (match c with EnvVarConfig _ => envvar_Type | InlineConfig _ => inline_Type end) = inl z →
  SecretConfig_decode (SecretConfig_node c) z = inl c.
Proof. destruct c as [x|x]; intros [= <-]; simpl; unfold text_field; by read_fields. Qed.

Lemma SecretSpec_yaml s :
  SecretSpec_fits s → SecretSpec_UnmarshalYAML (SecretSpec_MarshalYAML s) = inl (SecretSpec_filled s).
Proof.
  intros H. assert (∃ z, newSecretConfig (ss_Type s) = inl z) as [z Hz].
  { unfold SecretSpec_fits, SecretConfig_is in H. destruct s as [t [[]|]]; cbn [ss_Type ss_Config] in *; [subst t; by eexists..|]. set_unfold. destruct H as [-> |[-> |[]]]; by eexists. }
  unfold SecretSpec_UnmarshalYAML, SecretSpec_raw, SecretSpec_MarshalYAML, text_field, always. read_fields.
  rewrite Hz. cbn [and_then]. unfold SecretSpec_filled, SecretSpec_fits, SecretConfig_is in *.
  destruct s as [t [c|]]; cbn [ss_Type ss_Config fmap option_fmap option_map default from_option] in *.
  - subst t. unfold id. cbn [decode_over]. by rewrite (SecretConfig_yaml c z Hz).
  - rewrite Hz. unfold id. destruct z; simpl; unfold text_field; by read_fields.
Qed.

Lemma SecretSpec_not_null s : y_is_null (SecretSpec_MarshalYAML s) = false.
Proof. apply y_struct_not_null. Qed.

Lemma SealerSpec_yaml s :
  SealerSpec_fits s → SealerSpec_UnmarshalYAML (SealerSpec_MarshalYAML s) = inl (SealerSpec_filled s).
Proof.
  destruct s as [name t cfg auth]. intros [Ht Hc]. cbn [sl_Type sl_Config] in *. subst t.
  unfold SealerSpec_UnmarshalYAML, SealerSpec_raw, SealerSpec_MarshalYAML, SealerSpec_filled, text_field.
  cbn [sl_Name sl_Type sl_Config sl_Auth].
  destruct cfg as [[sec]|], auth as [[]|]; cbn [omitempty SealerConfig_node SealerAuth_node fmap option_fmap option_map app];
    read_fields; cbn [newSealer String.eqb Ascii.eqb Bool.eqb TypeStaticSecret]; unfold SealerConfig_decode, SealerAuth_decode;
    read_fields; rewrite ?SecretSpec_not_null, ?SecretSpec_yaml by done; by read_fields.
Qed.

Lemma CryptorSpec_yaml s :
  CryptorSpec_fits s → CryptorSpec_UnmarshalYAML (CryptorSpec_MarshalYAML s) = inl (CryptorSpec_filled s).
Proof.
  destruct s as [name t cfg]. intros Ht. cbv [CryptorSpec_fits cr_Type] in Ht. subst t.
  unfold CryptorSpec_UnmarshalYAML, named_raw, CryptorSpec_MarshalYAML, CryptorSpec_filled, text_field, always.
  cbn [cr_Name cr_Type cr_Config]. destruct cfg as [[]|]; cbn [fmap option_fmap option_map CryptorConfig_node]; read_fields; unfold CryptorConfig_decode; by read_fields.
Qed.

Lemma VaultSpec_yaml s :
  VaultSpec_fits s → VaultSpec_UnmarshalYAML (VaultSpec_MarshalYAML s) = inl (VaultSpec_filled s).
Proof.
  intros H. destruct s as [name t cfg]. unfold VaultSpec_fits, VaultConfig_is in H. cbn [vs_Type vs_Config] in H.
  unfold VaultSpec_UnmarshalYAML, named_raw, VaultSpec_MarshalYAML, VaultSpec_filled, text_field.
  cbn [vs_Name vs_Type vs_Config]. destruct cfg as [c|].
  - subst t. destruct c; cbn [omitempty VaultConfig_node fmap option_fmap option_map app]; read_fields;
      unfold VaultConfig_decode, text_field; simpl; by read_fields.
  - cbn [omitempty fmap option_fmap option_map app]. read_fields. set_unfold. by destruct H as [-> |[-> |[-> |[]]]].
Qed.

Lemma SealerSpec_not_null s : y_is_null (SealerSpec_MarshalYAML s) = false.
Proof. apply y_struct_not_null. Qed.
Lemma CryptorSpec_not_null s : y_is_null (CryptorSpec_MarshalYAML s) = false.
Proof. apply y_struct_not_null. Qed.
Lemma VaultSpec_not_null s : y_is_null (VaultSpec_MarshalYAML s) = false.
Proof. apply y_struct_not_null. Qed.

Lemma SealerSpec_text s text :
  SealerSpec_fits s → yaml_Marshal s = inl text → yaml_Unmarshal text = inl (SealerSpec_filled s).
Proof.
  intros Hfit Htext. unfold yaml_Unmarshal. rewrite (y_text_read _ _ Htext). cbn [and_then].
  rewrite SealerSpec_not_null. by apply SealerSpec_yaml.
Qed.

(** C37: a specification survives YAML.  A key binding whose configurations are of
    the types it names is read back by an agent as the root wrote it, and a
    sealer's specification is read back from the vault as it was stored; the
    only difference is that a configuration or authentication that was nil comes
    back as the empty one of its type. *)
Theorem specs_survive_yaml b s text :
  KeyBinding_fits b → SealerSpec_fits s → yaml_Marshal s = inl text →
  KeyBinding_decode (KeyBinding_node b) = inl (KeyBinding_filled b) ∧
  yaml_Unmarshal text = inl (SealerSpec_filled s).
Proof.
  intros (Hs & Hc & Hv) Hfit Htext. split.
  - unfold KeyBinding_decode, KeyBinding_node, KeyBinding_filled, pointer_field, text_field.
    destruct b as [[sl|] [cr|] [vs|] [p|]]; cbn [kb_SealerSpec kb_CryptorSpec kb_VaultSpec kb_ParentKeyProvider from_option] in *;
      cbn [omitempty fmap option_fmap option_map app]; read_fields; rewrite ?SealerSpec_not_null, ?CryptorSpec_not_null, ?VaultSpec_not_null;
      rewrite ?SealerSpec_yaml, ?CryptorSpec_yaml, ?VaultSpec_yaml by done; by read_fields.
  - by apply SealerSpec_text.
Qed.
End laws.

(** ** A concrete library *)

Module YamlSamples.

(** Nodes as trees, texts as the digits of an encoding of them. *)
Definition tree_struct (l : list (string * gen_tree string)) : gen_tree string :=
  GenNode 1 ((λ p, GenNode 2 [GenLeaf p.1; p.2]) <$> l).
Fixpoint tree_assoc (k : string) (l : list (gen_tree string)) : option (gen_tree string) :=
  match l with
  | GenNode _ [GenLeaf k'; n] :: l => if String.eqb k' k then Some n else tree_assoc k l
  | _ => None
  end.

#[export] Instance yaml : Yaml := {|
  node := gen_tree string;
  y_null := GenNode 0 [];
  y_string := GenLeaf;
  y_struct := tree_struct;
  y_is_null := λ n, match n with GenNode 0 _ => true | _ => false end;
  y_decode_string := λ n, match n with GenLeaf s => inl s | _ => inr (EForeign "yaml: not a string") end;
  y_field := λ n k, match n with
    | GenNode 0 _ => inl None
    | GenNode _ l => inl (tree_assoc k l)
    | GenLeaf _ => inr (EForeign "yaml: not a mapping")
    end;
  y_no_fields := λ n, match n with GenLeaf _ => Some (EForeign "yaml: not a mapping") | _ => None end;
  y_marshal := λ n, inl (StoreSamples.digits (encode n));
  y_parse := λ b, match StoreSamples.undigits b ≫= decode with Some n => inl (Some n) | None => inr (EForeign "yaml") end;
|}.

#[export] Instance yaml_laws : YamlLaws yaml.
Proof.
  split; try done.
  - intros l k _. simpl. f_equal. induction l as [|[k' n] l IH]; [done|]. simpl. by destruct (String.eqb k' k).
  - intros n b [= <-]. simpl. rewrite StoreSamples.undigits_digits. simpl. by rewrite decode_encode.
Qed.

Definition binding : KeyBinding :=
  mkKeyBinding
    (Some (mkSealerSpec "s" TypeStaticSecret (Some (StaticSecretConfig (mkSecretSpec envvar_Type (Some (EnvVarConfig "KEY"))))) None))
    (Some (mkCryptorSpec "c" TypeAES256GCM None)) (Some (mkVaultSpec "v" TypeOpenBao (Some (OpenBaoConfig "http://bao"))))
    (Some "parent").
Definition stored_spec : SealerSpec :=
  mkSealerSpec "s" TypeStaticSecret (Some (StaticSecretConfig (mkSecretSpec inline_Type None))) None.

Lemma specs_survive_yaml_witness :
  KeyBinding_decode (KeyBinding_node binding) = inl (KeyBinding_filled binding) ∧
  yaml_Unmarshal (StoreSamples.digits (encode (SealerSpec_MarshalYAML stored_spec))) = inl (SealerSpec_filled stored_spec).
Proof.
  apply (specs_survive_yaml binding stored_spec).
  - split_and!; [split; reflexivity|reflexivity|reflexivity].
  - split; [reflexivity|]. right. left.
  - reflexivity.
Defined.
End YamlSamples.
