(* ===== verification/KeyProcessor.v ===== *)
(** * Key processors (internal/keyprocessor)

    - processor.go: one key kind's secrets: generation, sealing by the transport
      sealer and the parent, storage in the vault, and the way back;
    - manager.go: [Manager], which picks the processor of a key's kind and the
      usable version of a key; it is itself a [Sealer], the parent of the
      processors one level below, so that opening a key walks up the hierarchy;
    - remotemanager.go: [RPCManager], the sealer of a remote parent;
    - rootmanager.go: [RootManager], the sealer of the root key's provider.

    A [processor] holds its parent; the parent that is the manager itself is
    [PSelf], and the operations of the manager take the sealer [PSelf] stands for,
    so that the recursion is tied in [manager_sealer] with as much fuel as there
    are levels to climb.  The stores of the manager are read on the database as
    it is at the call. *)

From S2P Require Import Prelude GoStrings GoRuntime Model World Lifecycle Providers Hierarchy.
From S2P Require Import Sql KeyStore KeyVersionStore Validator SecureMem AesGcm Cryptor Sealers Vault.

Local Open Scope string_scope.

(** ** Processors (processor.go) *)

Definition persistSecName : string := "persistedSec".
Definition ErrMissingParentKey : string := "keyprocessor.ErrMissingParentKey".
Definition ErrSecNotPersisted : string := "keyprocessor.ErrSecNotPersisted".

(** [processor], over the type of its parent; nil interfaces are [None].  The
    generator and the cryptor are set together. *)
Record processor (P : Type) := mkProcessor {
  p_cryptor : option AES256GCM;
  p_transportSealer : option Sealer;
  p_parent : P;
  p_vault : option Vault;
}.
Arguments mkProcessor {P} _ _ _ _.
Arguments p_cryptor {P} _.
Arguments p_transportSealer {P} _.
Arguments p_parent {P} _.
Arguments p_vault {P} _.

Section processor.
Context {ENV : Env} {G : GCM} {OS : OsEnv} {BAO : OpenBao}.

Definition newProcessor {P} (binding : KeyBinding) (parent : P) : M (processor P) :=
  cryptor ← match kb_CryptorSpec binding with
            | None => mret None
            | Some spec => match GetBundle spec with
                           | inr e => throw e
                           | inl bundle => mret (Some (bd_Cryptor bundle))
                           end
            end;
  vault ← match kb_VaultSpec binding with
          | None => mret None
          | Some spec => v ← GetVault spec; mret (Some v)
          end;
  transport ← match kb_SealerSpec binding with
              | None => mret None
              | Some spec => s ← GetSealer spec; mret (Some (static_sealer s))
              end;
  mret (mkProcessor cryptor transport parent vault).

(** A call on an interface that may be nil. *)
Definition on_vault (v : option Vault) {A} (k : Vault → M A) : M A :=
  match v with None => panic | Some v => k v end.
Definition on_cryptor (c : option AES256GCM) {A} (k : AES256GCM → M A) : M A :=
  match c with None => panic | Some c => k c end.

Definition transportSeal (p : processor Sealer) (kv : KeyVersion) (sec : positive) (aad : string) : M positive :=
  match p_transportSealer p with
  | None => mret sec
  | Some s => Seal s (mkSealRequest (kv_TenantID kv) (kv_KeyID kv) (kv_Version kv) (Some sec) aad ∅)
  end.

Definition transportUnseal (p : processor Sealer) (kv : KeyVersion) (sec : positive) (aad : string) : M positive :=
  match p_transportSealer p with
  | None => mret sec
  | Some s => Unseal s (mkUnsealRequest (kv_TenantID kv) (kv_KeyID kv) (kv_Version kv) (Some sec) aad ∅)
  end.

(** [parentVersion]: zero when the version of the parent is not known. *)
Definition parent_version (kv : KeyVersion) : Z := default 0%Z (kv_ParentKeyVersion kv).

Definition parentSeal (p : processor Sealer) (kv : KeyVersion) (sec : positive) (aad : string) : M positive :=
  match kv_ParentKeyID kv with
  | None => throw (ESentinel ErrMissingParentKey)
  | Some parentID =>
      Seal (p_parent p) (mkSealRequest (kv_TenantID kv) parentID (parent_version kv) (Some sec) aad ∅)
  end.

Definition parentUnseal (p : processor Sealer) (kv : KeyVersion) (sec : positive) (aad : string) : M positive :=
  match kv_ParentKeyID kv with
  | None => throw (ESentinel ErrMissingParentKey)
  | Some parentID =>
      Unseal (p_parent p) (mkUnsealRequest (kv_TenantID kv) parentID (parent_version kv) (Some sec) aad ∅)
  end.

(** The error of [getPersistedSec] is the sentinel joined with the error of
    [DestroyAll]. *)
Definition getPersistedSec (resp : HandlerResponse) : M positive :=
  p ← MemVault_Get (hr_vault resp) persistSecName;
  match p with
  | Some sec => mret sec
  | None =>
      err ← err_of (DestroyAll (hr_vault resp));
      throw (EWrap (ESentinel ErrSecNotPersisted :: match err with Some e => [e] | None => [] end))
  end.

Definition copySec (src : positive) : M positive :=
  name ← Name (Some src);
  b ← SecureBytes (Some src);
  n ← len b;
  dst ← NewData name n;
  d ← SecureBytes (Some dst);
  s ← data_bytes (Some src);
  copy_bytes d s;;
  mret dst.

(** The closure of [createSecret]. *)
Definition createSecret_handler (p : processor Sealer) (kv : KeyVersion) (aad : string)
    (_ : HandlerRequest) : M () :=
  secret ← on_cryptor (p_cryptor p) (λ _, GenerateSecret);
  defer (Data_Destroy (Some secret)) (
    transSealed ← transportSeal p kv secret aad;
    defer (Data_Destroy (Some transSealed)) (
      parentSealed ← parentSeal p kv transSealed aad;
      defer (Data_Destroy (Some parentSealed)) (
        on_vault (p_vault p) (λ v,
          ImportKey v (mkImportKeyRequest (kv_TenantID kv) (kv_KeyID kv) (kv_Version kv) (kv_Revision kv)
                         (Some parentSealed) aad))))).

Definition createSecret (p : processor Sealer) (kv : KeyVersion) (aad : string) : M () :=
  _ ← Run (createSecret_handler p kv aad); mret ().

Definition encrypt (p : processor Sealer) (req : EncryptRequest) : M positive :=
  resp ← Run (λ sreq,
    ciphertext ← on_cryptor (p_cryptor p) (λ c, Encrypt c req);
    MemVault_Import (persistentVault sreq) persistSecName (Some ciphertext));
  getPersistedSec resp.

Definition decrypt (p : processor Sealer) (req : DecryptRequest) : M positive :=
  resp ← Run (λ sreq,
    plaintext ← on_cryptor (p_cryptor p) (λ c, Decrypt c req);
    MemVault_Import (persistentVault sreq) persistSecName (Some plaintext));
  getPersistedSec resp.

Definition kv_ref (kv : KeyVersion) : KeyRef :=
  mkKeyRef (kv_TenantID kv) (kv_KeyID kv) (kv_Version kv) (kv_Revision kv).

Definition deleteSecret (p : processor Sealer) (kv : KeyVersion) : M () :=
  on_vault (p_vault p) (λ v, DestroyKey v (kv_ref kv)).

(** The closure of [resolveSecret]. *)
Definition resolveSecret_handler (p : processor Sealer) (kv : KeyVersion) (sreq : HandlerRequest) : M () :=
  exported ← on_vault (p_vault p) (λ v, ExportKey v (kv_ref kv));
  defer (Data_Destroy (Some (ex_KeyMaterial exported))) (
    parentUnsealed ← parentUnseal p kv (ex_KeyMaterial exported) (ex_AAD exported);
    defer (Data_Destroy (Some parentUnsealed)) (
      transUnsealed ← transportUnseal p kv parentUnsealed (ex_AAD exported);
      defer (Data_Destroy (Some transUnsealed)) (
        sec ← copySec transUnsealed;
        MemVault_Import (persistentVault sreq) persistSecName (Some sec)))).

Definition resolveSecret (p : processor Sealer) (kv : KeyVersion) : M Secret :=
  resp ← Run (resolveSecret_handler p kv);
  sec ← getPersistedSec resp;
  mret (mkSecret KeyAlgorithmAES256 (Some sec)).
End processor.

(** ** Remote parents (remotemanager.go) *)

(** What travels to the sealer service of the parent agent. *)
Record WireRequest := mkWireRequest {
  wr_TenantId : string;
  wr_KeyId : string;
  wr_KeyVersion : Z;      (* an int32 *)
  wr_Bytes : string;      (* plaintext or ciphertext *)
  wr_Aad : string;
}.

(** The client stub of the sealer service, by connection: the bytes of the
    answer, or the error of the call. *)
Class SealerClient := {
  rpc_Seal : string → WireRequest → M (string + error);
  rpc_Unseal : string → WireRequest → M (string + error);
}.

(** The conversion [int32(v)]. *)
Definition to_int32 (v : Z) : Z := ((v + 2^31) mod 2^32 - 2^31)%Z.

Definition handlerKey : string := "handlerKey".
Definition ErrNilSecureBytes : string := "keyprocessor.ErrNilSecureBytes".
Definition ErrNilGRPCConn : string := "keyprocessor.ErrNilGRPCConn".

Section remote.
Context {ENV : Env} {CLI : SealerClient}.

(** [NewRPCManager]: the manager is its connection. *)
Definition NewRPCManager (conn : option string) : string + error :=
  match conn with None => inr (ESentinel ErrNilGRPCConn) | Some c => inl c end.

(** If the import fails, the data is destroyed. *)
Definition vaultImport (vault : positive) (name : string) (data : option positive) : M () :=
  r ← try (MemVault_Import vault name data);
  match r with
  | inl _ => mret ()
  | inr e => _ ← err_of (Data_Destroy data); throw e
  end.

Definition cleanHandlerResponse (resp : HandlerResponse) : M () :=
  _ ← err_of (DestroyAll (hr_vault resp)); mret ().

(** The body both operations share: call the stub with the bytes, keep the
    answer in the persistent vault, and destroy what was passed in. *)
Definition rpc_handler (call : WireRequest → M (string + error)) (tenant key : string) (version : Z)
    (data : option positive) (aad : string) (hreq : HandlerRequest) : M () :=
  defer (Data_Destroy data) (
    bytes ← data_bytes data;
    r ← call (mkWireRequest tenant key (to_int32 version) bytes aad);
    match r with
    | inr e => throw e
    | inl answer =>
        text ← NewData "data" (Z.of_nat (String.length answer));
        b ← SecureBytes (Some text);
        copy_bytes b answer;;
        vaultImport (persistentVault hreq) handlerKey (Some text)
    end).

Definition rpc_finish (resp : HandlerResponse) : M positive :=
  p ← MemVault_Get (hr_vault resp) handlerKey;
  match p with
  | Some text => mret text
  | None => cleanHandlerResponse resp;; throw (ESentinel ErrSecNotPersisted)
  end.

Definition RPCManager_Seal (conn : string) (req : SealRequest) : M positive :=
  bad ← nil_or_empty (sr_Plaintext req);
  if bad : bool then throw (wrap1 (ESentinel ErrNilSecureBytes)) else
  resp ← Run (rpc_handler (rpc_Seal conn) (sr_TenantID req) (sr_KeyID req) (sr_KeyVersion req)
                (sr_Plaintext req) (sr_AAD req));
  rpc_finish resp.

Definition RPCManager_Unseal (conn : string) (req : UnsealRequest) : M positive :=
  bad ← nil_or_empty (ur_Ciphertext req);
  if bad : bool then throw (wrap1 (ESentinel ErrNilSecureBytes)) else
  resp ← Run (rpc_handler (rpc_Unseal conn) (ur_TenantID req) (ur_KeyID req) (ur_KeyVersion req)
                (ur_Ciphertext req) (ur_AAD req));
  rpc_finish resp.

Definition rpc_sealer (conn : string) : Sealer := mkSealer (RPCManager_Seal conn) (RPCManager_Unseal conn).
End remote.

(** ** The manager (manager.go) *)

Definition ErrProcessorNotFound : string := "keyprocessor.ErrProcessorNotFound".
Definition ErrNoUsableKeyVersion : string := "keyprocessor.ErrNoUsableKeyVersion".
Definition ErrKeyNotActivated : string := "keyprocessor.ErrKeyNotActivated".
Definition ErrKeyVersionRequired : string := "keyprocessor.ErrKeyVersionRequired".
Definition ErrKeyStoreMissing : string := "keyprocessor.ErrKeyStoreMissing".
Definition ErrKeyVersionStoreMissing : string := "keyprocessor.ErrKeyVersionStoreMissing".
Definition ErrRootManagerMissing : string := "keyprocessor.ErrRootManagerMissing".
Definition ErrRegistryRequired : string := "keyprocessor.ErrRegistryRequired".
Definition ErrParentNotRegistered : string := "keyprocessor.ErrParentNotRegistered".

(** The parent of a processor: the manager itself, or another sealer. *)
Inductive ParentRef := PSelf | PSealer (s : Sealer).

Record Manager := mkManager {
  m_processors : gmap KeyKind (processor ParentRef);
  m_algorithms : gmap KeyKind string;
}.

(** The stores are there or nil; the registry maps names to connections. *)
Record ManagerConfig := mkManagerConfig {
  mc_KeyStore : bool;
  mc_KeyVersionStore : bool;
  mc_Bindings : gmap KeyKind KeyBinding;
  mc_Hierarchy : KeyHierarchy;
  mc_Registry : option (gmap string string);
  mc_RootManager : option Sealer;
}.

Section manager.
Context {ENV : Env} {G : GCM} {OS : OsEnv} {BAO : OpenBao} {CLI : SealerClient}.

Definition resolveRemoteParent (cfg : ManagerConfig) (binding : KeyBinding) : ParentRef + error :=
  match kb_ParentKeyProvider binding with
  | None => inr (EForeign "unreachable: a remote parent has a name")
  | Some name =>
      match mc_Registry cfg with
      | None => inr (wrap1 (ESentinel ErrRegistryRequired))
      | Some conns =>
          match conns !! name with
          | None => inr (wrap1 (ESentinel ErrParentNotRegistered))
          | Some conn =>
              match NewRPCManager (Some conn) with
              | inr e => inr (wrap1 e)
              | inl mgr => inl (PSealer (rpc_sealer mgr))
              end
          end
      end
  end.

Definition resolveLocalParent (cfg : ManagerConfig) (kind : KeyKind) : ParentRef + error :=
  match KeyHierarchy.FindParentKeySpec (mc_Hierarchy cfg) kind with
  | None => inr (EForeign "no parent key spec found")
  | Some parentSpec =>
      if negb (String.eqb (KeySpec.ks_Role parentSpec) KeySpec.KeyRoleRoot) then inl PSelf else
      match mc_RootManager cfg with
      | None => inr (ESentinel ErrRootManagerMissing)
      | Some root => inl (PSealer root)
      end
  end.

Definition resolveParent (cfg : ManagerConfig) (kind : KeyKind) (binding : KeyBinding) : ParentRef + error :=
  if HasRemoteParent binding then resolveRemoteParent cfg binding else resolveLocalParent cfg kind.

(** One iteration of the loop of [NewManager]. *)
Definition add_processor (cfg : ManagerConfig) (mgr : Manager) (entry : KeyKind * KeyBinding) : M Manager :=
  let '(kind, binding) := entry in
  match KeyHierarchy.FindKeySpec (mc_Hierarchy cfg) kind with
  | None => throw (EForeign "no key spec found")
  | Some sp =>
      if String.eqb (KeySpec.ks_Role sp) KeySpec.KeyRoleRoot then mret mgr else
      match resolveParent cfg kind binding with
      | inr e => throw e
      | inl parent =>
          r ← try (newProcessor binding parent);
          match r with
          | inr e => throw (wrap1 e)
          | inl proc =>
              mret (mkManager (<[kind := proc]> (m_processors mgr))
                      (<[kind := KeySpec.ks_Algorithm sp]> (m_algorithms mgr)))
          end
      end
  end.

Definition NewManager (cfg : ManagerConfig) : M Manager :=
  if negb (mc_KeyStore cfg) then throw (ESentinel ErrKeyStoreMissing) else
  if negb (mc_KeyVersionStore cfg) then throw (ESentinel ErrKeyVersionStoreMissing) else
  foldM (add_processor cfg) (mkManager ∅ ∅) (map_to_list (mc_Bindings cfg)).

(** The processor with the sealer its parent stands for. *)
Definition with_parent (self : Sealer) (p : processor ParentRef) : processor Sealer :=
  mkProcessor (p_cryptor p) (p_transportSealer p)
    (match p_parent p with PSelf => self | PSealer s => s end) (p_vault p).

Definition Manager_GenerateAndSealSecret (self : Sealer) (m : Manager) (kv : KeyVersion) (aad : string)
    (kind : KeyKind) : M () :=
  match m_processors m !! kind with
  | None => throw (wrap1 (ESentinel ErrProcessorNotFound))
  | Some proc => createSecret (with_parent self proc) kv aad
  end.

Definition resolveUsableKeyVersion (tenantID keyID : string) (version : Z) : M KeyVersion :=
  let orderBy := if Z.eqb version 0
                 then [KeyVersionOrderCreatedAtDesc; KeyVersionOrderRevisionDesc]
                 else [KeyVersionOrderRevisionDesc] in
  result ← ListKeyVersions (mkListKeyVersionsQuery tenantID keyID version "" KeyVersionUsable orderBy 1);
  match result with
  | [] => throw (wrap1 (ESentinel ErrNoUsableKeyVersion))
  | kv :: _ => mret kv
  end.

Definition resolveActiveKey (tenantID keyID : string) (version : Z) : M (Key * KeyVersion) :=
  kv ← resolveUsableKeyVersion tenantID keyID version;
  key ← GetKeyByID keyID tenantID;
  if negb (String.eqb (k_LifeCycleState key) KeyLifeCycleActive)
  then throw (wrap1 (ESentinel ErrKeyNotActivated)) else
  mret (key, kv).

Definition resolveProcessorAndSecret (self : Sealer) (m : Manager) (tenantID keyID : string) (version : Z)
    : M (processor Sealer * Secret) :=
  '(key, kv) ← resolveActiveKey tenantID keyID version;
  match m_processors m !! k_Kind key with
  | None => throw (wrap1 (ESentinel ErrProcessorNotFound))
  | Some proc =>
      sec ← resolveSecret (with_parent self proc) kv;
      mret (with_parent self proc, sec)
  end.

Definition ExportSecret (self : Sealer) (m : Manager) (tenantID keyID : string) (version : Z) : M Secret :=
  '(_, sec) ← resolveProcessorAndSecret self m tenantID keyID version; mret sec.

(** [DescribeKeyResponse]. *)
Definition DescribeKey (m : Manager) (tenantID keyID : string) (version : Z) : M (Key * KeyVersion * string) :=
  '(key, kv) ← resolveActiveKey tenantID keyID version;
  match m_algorithms m !! k_Kind key with
  | None => throw (wrap1 (ESentinel ErrProcessorNotFound))
  | Some alg => mret (key, kv, alg)
  end.

Definition Manager_Seal (self : Sealer) (m : Manager) (req : SealRequest) : M positive :=
  if Z.eqb (sr_KeyVersion req) 0 then throw (ESentinel ErrKeyVersionRequired) else
  '(proc, sec) ← resolveProcessorAndSecret self m (sr_TenantID req) (sr_KeyID req) (sr_KeyVersion req);
  defer (Data_Destroy (sec_Data sec))
    (encrypt proc (mkEncryptRequest sec (sr_Plaintext req) (sr_AAD req))).

Definition Manager_Unseal (self : Sealer) (m : Manager) (req : UnsealRequest) : M positive :=
  if Z.eqb (ur_KeyVersion req) 0 then throw (ESentinel ErrKeyVersionRequired) else
  '(proc, sec) ← resolveProcessorAndSecret self m (ur_TenantID req) (ur_KeyID req) (ur_KeyVersion req);
  defer (Data_Destroy (sec_Data sec))
    (decrypt proc (mkDecryptRequest sec (ur_Ciphertext req) (ur_AAD req))).

(** The manager as a sealer, for a hierarchy of at most [fuel] levels above. *)
Fixpoint manager_sealer (fuel : nat) (m : Manager) : Sealer :=
  match fuel with
  | 0 => mkSealer (λ _, diverge) (λ _, diverge)
  | S fuel' =>
      let self := manager_sealer fuel' m in
      mkSealer (Manager_Seal self m) (Manager_Unseal self m)
  end.
End manager.
