(* ===== verification/RootManager.v ===== *)
(** * The root key's provider (internal/keyprocessor/rootmanager.go)

    The root key itself is not stored: the vault of the root holds, under
    version 0 and revision 0 of the key, the specification of the provider that
    seals for it, and the versions of the key name the provider's own keys in a
    label.  The specification is stored as YAML (SpecYaml.v). *)

From S2P Require Import Prelude GoStrings GoRuntime Model World Lifecycle Providers Hierarchy.
From S2P Require Import Config Sql KeyStore KeyVersionStore Validator SecureMem AesGcm Cryptor Sealers Vault.
From S2P Require Import SpecYaml KeyProcessor.

Local Open Scope string_scope.

Definition ErrProviderNotAllowed : string := "keyprocessor.ErrProviderNotAllowed".
Definition ErrProviderTypeMismatch : string := "keyprocessor.ErrProviderTypeMismatch".
Definition ErrNoProviderKeyVersion : string := "keyprocessor.ErrNoProviderKeyVersion".
Definition ErrProviderKeyLabelEmpty : string := "keyprocessor.ErrProviderKeyLabelEmpty".
Definition ErrTransactorMissing : string := "keyprocessor.ErrTransactorMissing".

Record RootManager := mkRootManager {
  rm_vault : Vault;
  rm_allowed : gset string;
}.

(** [RootManagerConfig]: the transactor is there or nil. *)
Record RootManagerConfig := mkRootManagerConfig {
  rmc_Transactor : bool;
  rmc_Vault : VaultSpec;
  rmc_AllowedProviders : list string;
}.

Record CreateProviderInput := mkCreateProviderInput {
  cp_TenantID : string; cp_KeyID : string; cp_Spec : SealerSpec; cp_ProviderKeyID : string;
}.
Record RotateAuthInput := mkRotateAuthInput {
  ra_TenantID : string; ra_KeyID : string; ra_Type : string; ra_Auth : SealerAuth;
}.
Record RotateProviderKeyInput := mkRotateProviderKeyInput {
  rk_TenantID : string; rk_KeyID : string; rk_Type : string; rk_ProviderKeyID : string;
}.

Definition providerKeyLabel (t : string) : string := ReservedLabelPrefix +:+ t +:+ ":provider-key".

Section root_manager.
Context {ENV : Env} {G : GCM} {OS : OsEnv} {BAO : OpenBao} {YAML : Yaml}.

Definition NewRootManager (cfg : RootManagerConfig) : M RootManager :=
  if negb (rmc_Transactor cfg) then throw (ESentinel ErrTransactorMissing) else
  r ← try (GetVault (rmc_Vault cfg));
  match r with
  | inr e => throw (wrap1 e)
  | inl v => mret (mkRootManager v (list_to_set (rmc_AllowedProviders cfg)))
  end.

(** ** The specification in the vault *)

Definition importSpec (rm : RootManager) (tenantID keyID : string) (spec : SealerSpec) : M () :=
  match yaml_Marshal spec with
  | inr e => throw e
  | inl b =>
      d ← NewData "spec" (Z.of_nat (String.length b));
      defer (Data_Destroy (Some d)) (
        s ← SecureBytes (Some d);
        copy_bytes s b;;
        ImportKey (rm_vault rm) (mkImportKeyRequest tenantID keyID 0 0 (Some d) ""))
  end.

Definition exportSpec (rm : RootManager) (tenantID keyID : string) : M SealerSpec :=
  resp ← ExportKey (rm_vault rm) (mkKeyRef tenantID keyID 0 0);
  defer (Data_Destroy (Some (ex_KeyMaterial resp))) (
    b ← data_bytes (Some (ex_KeyMaterial resp));
    match yaml_Unmarshal b with
    | inr e => throw e
    | inl spec => mret spec
    end).

Definition destroySpec (rm : RootManager) (tenantID keyID : string) : M () :=
  DestroyKey (rm_vault rm) (mkKeyRef tenantID keyID 0 0).

(** ** The versions of the provider's key *)

Definition fetchOne (tenantID keyID : string) (version : Z) (orderBy : list Z) : M KeyVersion :=
  res ← ListKeyVersions (mkListKeyVersionsQuery tenantID keyID version "" "" orderBy 1);
  match res with
  | [] => throw (ESentinel ErrNoProviderKeyVersion)
  | kv :: _ => mret kv
  end.

Definition pkv_latest (tenantID keyID : string) : M KeyVersion :=
  fetchOne tenantID keyID 0 [KeyVersionOrderVersionDesc].

Definition resolveLabel (tenantID keyID : string) (version : Z) (t : string) : M string :=
  kv ← fetchOne tenantID keyID version [KeyVersionOrderRevisionDesc];
  match kv_Labels kv !! providerKeyLabel t with
  | None => throw (ESentinel ErrProviderKeyLabelEmpty)
  | Some label =>
      if String.eqb label "" then throw (ESentinel ErrProviderKeyLabelEmpty) else mret label
  end.

Definition pkv_create (tenantID keyID : string) (version : Z) (t providerKeyID : string) : M () :=
  v ← NewKeyVersion tenantID keyID version None None;
  _ ← CreateKeyVersion (WithLabels v {[providerKeyLabel t := providerKeyID]});
  mret ().

(** ** Operations *)

(** The steps of a transaction that share no variable. *)
Definition unit_steps (l : list (M ())) : list (() → M ()) := (λ m _, m) <$> l.

Definition CreateProvider (rm : RootManager) (inp : CreateProviderInput) : M () :=
  if negb (bool_decide (sl_Type (cp_Spec inp) ∈ rm_allowed rm)) then throw (ESentinel ErrProviderNotAllowed) else
  check (SealerSpec_Validate (cp_Spec inp));;
  ChainTransaction (unit_steps
    [ValidateTenant (cp_TenantID inp);
     ValidateKeyUsage (cp_TenantID inp) (cp_KeyID inp) KeyUsage.KeyUsageLink;
     (importSpec rm (cp_TenantID inp) (cp_KeyID inp) (cp_Spec inp);;
      pkv_create (cp_TenantID inp) (cp_KeyID inp) 1 (sl_Type (cp_Spec inp)) (cp_ProviderKeyID inp))]) ().

Definition RotateAuth (rm : RootManager) (inp : RotateAuthInput) : M () :=
  check (ValidateSealerAuth (ra_Auth inp));;
  ChainTransaction (unit_steps
    [ValidateTenant (ra_TenantID inp);
     ValidateKeyUsage (ra_TenantID inp) (ra_KeyID inp) KeyUsage.KeyUsageRotate;
     (spec ← exportSpec rm (ra_TenantID inp) (ra_KeyID inp);
      if negb (String.eqb (sl_Type spec) (ra_Type inp)) then throw (ESentinel ErrProviderTypeMismatch) else
      importSpec rm (ra_TenantID inp) (ra_KeyID inp)
        (mkSealerSpec (sl_Name spec) (sl_Type spec) (sl_Config spec) (Some (ra_Auth inp))))]) ().

Definition RotateProviderKey (rm : RootManager) (inp : RotateProviderKeyInput) : M () :=
  ChainTransaction (unit_steps
    [ValidateTenant (rk_TenantID inp);
     ValidateKeyUsage (rk_TenantID inp) (rk_KeyID inp) KeyUsage.KeyUsageRotate;
     (spec ← exportSpec rm (rk_TenantID inp) (rk_KeyID inp);
      if negb (String.eqb (sl_Type spec) (rk_Type inp)) then throw (ESentinel ErrProviderTypeMismatch) else
      latest ← pkv_latest (rk_TenantID inp) (rk_KeyID inp);
      pkv_create (rk_TenantID inp) (rk_KeyID inp) (kv_Version latest + 1) (rk_Type inp) (rk_ProviderKeyID inp))]) ().

Definition RemoveProvider (rm : RootManager) (tenantID keyID : string) : M () :=
  ChainTransaction (unit_steps [ValidateTenant tenantID; destroySpec rm tenantID keyID]) ().

(** The step [Seal] and [Unseal] share: the provider's sealer and its key. *)
Definition provider_of (rm : RootManager) (tenantID keyID : string) (version : Z)
    : M (StaticSecret * string * string) :=
  sp ← exportSpec rm tenantID keyID;
  s ← GetSealer sp;
  label ← resolveLabel tenantID keyID version (sl_Type sp);
  mret (s, providerKeyLabel (sl_Type sp), label).

(** The variable [resp] the closures share: nil until the last step. *)
Definition resp_steps (l : list (M ())) (last : M positive) : list (option positive → M (option positive)) :=
  (((λ m resp, m;; mret resp) <$> l) ++ [λ _, r ← last; mret (Some r)])%list.

Definition RootManager_Seal (rm : RootManager) (req : SealRequest) : M positive :=
  if Z.eqb (sr_KeyVersion req) 0 then throw (ESentinel ErrKeyVersionRequired) else
  resp ← ChainTransaction (resp_steps
    [ValidateTenant (sr_TenantID req);
     ValidateKeyUsage (sr_TenantID req) (sr_KeyID req) KeyUsage.KeyUsageEncrypt]
    ('(s, name, label) ← provider_of rm (sr_TenantID req) (sr_KeyID req) (sr_KeyVersion req);
     StaticSecret_Seal s (mkSealRequest (sr_TenantID req) (sr_KeyID req) (sr_KeyVersion req)
       (sr_Plaintext req) (sr_AAD req) (<[name := label]> (sr_Metadata req))))) None;
  or_panic resp.

Definition RootManager_Unseal (rm : RootManager) (req : UnsealRequest) : M positive :=
  if Z.eqb (ur_KeyVersion req) 0 then throw (ESentinel ErrKeyVersionRequired) else
  resp ← ChainTransaction (resp_steps
    [ValidateTenant (ur_TenantID req);
     ValidateKeyUsage (ur_TenantID req) (ur_KeyID req) KeyUsage.KeyUsageDecrypt]
    ('(s, name, label) ← provider_of rm (ur_TenantID req) (ur_KeyID req) (ur_KeyVersion req);
     StaticSecret_Unseal s (mkUnsealRequest (ur_TenantID req) (ur_KeyID req) (ur_KeyVersion req)
       (ur_Ciphertext req) (ur_AAD req) (<[name := label]> (ur_Metadata req))))) None;
  or_panic resp.

Definition root_sealer (rm : RootManager) : Sealer := mkSealer (RootManager_Seal rm) (RootManager_Unseal rm).
End root_manager.
