(* ===== verification/RootKeyService.v ===== *)
(** * The root key and sealer services

    - pkg/api/v1/proto/admin/rootkey/service.go: the handlers that bind, rotate
      and remove the provider of a root key;
    - pkg/api/v1/proto/sealer/service.go: the handlers an agent below calls to
      seal and unseal with a key of this node. *)

From S2P Require Import Prelude GoStrings GoRuntime Model World Lifecycle Providers Hierarchy.
From S2P Require Import Config Sql KeyStore KeyVersionStore Validator SecureMem AesGcm Cryptor Sealers Vault.
From S2P Require Import SpecYaml KeyProcessor RootManager.

Local Open Scope string_scope.

(** ** Root key service *)

Module RootKeyService.
(** The oneofs of the messages; [None] is a message or a oneof that is not set. *)
Inductive ProviderConfig := ProviderConfig_StaticSecret (Secret SecretName : string) | ProviderConfig_AwsKms.
Inductive ProviderKey := ProviderKey_StaticSecret (Id : string) | ProviderKey_AwsKms.
Inductive ProviderAuth := ProviderAuth_StaticSecret | ProviderAuth_AwsKms.

Definition invalidArgument : error := ErrDetailsWithCode InvalidArgument ERROR_CODE_ABORT.
Definition unsupportedProvider : error := ErrDetailsWithCode Unimplemented ERROR_CODE_ABORT.

Definition validateIDs (tenantID keyID : string) : goerror :=
  if negb (is_valid_uuid tenantID) then Some invalidArgument
  else if negb (is_valid_uuid keyID) then Some invalidArgument
  else None.

(** The secret travels as raw bytes and is stored in base64. *)
Definition staticSecretSpec (secret secretName : string) : SealerSpec + error :=
  if Nat.eqb (String.length secret) 0 then inr invalidArgument else
  inl (mkSealerSpec secretName TypeStaticSecret
         (Some (StaticSecretConfig (mkSecretSpec inline_Type
            (Some (InlineConfig (Base64.StdEncodeToString secret)))))) None).

Definition providerSpec (cfg : option ProviderConfig) : SealerSpec + error :=
  match cfg with
  | Some (ProviderConfig_StaticSecret secret name) => staticSecretSpec secret name
  | Some ProviderConfig_AwsKms => inr unsupportedProvider
  | None => inr unsupportedProvider
  end.

Definition providerKey (key : option ProviderKey) : (string * string) + error :=
  match key with
  | Some (ProviderKey_StaticSecret id) =>
      if String.eqb id "" then inr invalidArgument else inl (TypeStaticSecret, id)
  | Some ProviderKey_AwsKms => inr unsupportedProvider
  | None => inr unsupportedProvider
  end.

Definition providerAuth (auth : option ProviderAuth) : (string * SealerAuth) + error :=
  match auth with
  | Some ProviderAuth_StaticSecret => inl (TypeStaticSecret, StaticSecretAuth)
  | Some ProviderAuth_AwsKms => inr unsupportedProvider
  | None => inr unsupportedProvider
  end.

Definition ErrInvalidKey : string := "validator.ErrInvalidKey".

Definition errorIsOneOf (err : error) (trgts : list string) : bool := existsb (errors_Is err) trgts.

Definition mapToProtoErr (err : error) : error :=
  if (errors_Is err ErrKeyNotFound || errors_Is err ErrKeyNotFoundVault)%bool
  then ErrDetailsWithCode NotFound ERROR_CODE_ABORT
  else if errors_Is err ErrTenantNotFound then ErrDetailsWithCode NotFound ERROR_CODE_ABORT
  else if errorIsOneOf err [ErrProviderNotAllowed; ErrProviderTypeMismatch; ErrNoProviderKeyVersion;
                            ErrKeyTransientState; ErrInvalidKey]
  then ErrDetailsWithCode FailedPrecondition ERROR_CODE_ABORT
  else ErrDetailsWithCode Internal ERROR_CODE_RETRY.

Section handlers.
Context {ENV : Env} {G : GCM} {OS : OsEnv} {BAO : OpenBao} {YAML : Yaml}.

(** [if err != nil { return nil, mapToProtoErr(err) }]. *)
Definition mapped (m : M ()) : M () :=
  r ← try m; match r with inl _ => mret () | inr e => throw (mapToProtoErr e) end.

Definition or_return {A B} (r : A + error) (k : A → M B) : M B :=
  match r with inr e => throw e | inl a => k a end.

Definition CreateProvider (root : RootManager) (tenantID keyID : string) (key : option ProviderKey)
    (auth : option ProviderAuth) (cfg : option ProviderConfig) : M () :=
  check (validateIDs tenantID keyID);;
  or_return (providerKey key) (λ '(keyType, providerKeyID),
  or_return (providerAuth auth) (λ '(authType, auth),
  or_return (providerSpec cfg) (λ spec,
    let typesMatch := (String.eqb (sl_Type spec) authType && String.eqb (sl_Type spec) keyType)%bool in
    if negb typesMatch then throw invalidArgument else
    mapped (RootManager.CreateProvider root
      (mkCreateProviderInput tenantID keyID
         (mkSealerSpec (sl_Name spec) (sl_Type spec) (sl_Config spec) (Some auth)) providerKeyID))))).

Definition RotateAuth (root : RootManager) (tenantID keyID : string) (auth : option ProviderAuth) : M () :=
  check (validateIDs tenantID keyID);;
  or_return (providerAuth auth) (λ '(t, auth),
    mapped (RootManager.RotateAuth root (mkRotateAuthInput tenantID keyID t auth))).

Definition RotateProviderKey (root : RootManager) (tenantID keyID : string) (key : option ProviderKey) : M () :=
  check (validateIDs tenantID keyID);;
  or_return (providerKey key) (λ '(t, providerKeyID),
    mapped (RootManager.RotateProviderKey root (mkRotateProviderKeyInput tenantID keyID t providerKeyID))).

Definition RemoveProvider (root : RootManager) (tenantID keyID : string) : M () :=
  check (validateIDs tenantID keyID);;
  mapped (RootManager.RemoveProvider root tenantID keyID).
End handlers.
End RootKeyService.

(** ** Sealer service *)

Module SealerService.
Definition handlerKey : string := "handlerKey".

(** [SealRequest] and [UnsealRequest] of the API: the payload is the plaintext
    or the ciphertext. *)
Record Request := mkRequest {
  rq_TenantId : string;
  rq_KeyId : string;
  rq_KeyVersion : Z;     (* an int32 *)
  rq_Payload : string;
  rq_Aad : string;
  rq_Metadata : gmap string string;
}.

(** [validateRequest]: every complaint is collected; one suffices to fail. *)
Definition request_complaints (r : Request) : list string :=
  ((if is_valid_uuid (rq_TenantId r) then [] else ["sealer.ErrInvalidTenantID"]) ++
   (if is_valid_uuid (rq_KeyId r) then [] else ["sealer.ErrInvalidKeyID"]) ++
   (if (rq_KeyVersion r <=? 0)%Z then ["sealer.ErrInvalidKeyVersion"] else []) ++
   (if Nat.eqb (String.length (rq_Payload r)) 0 then ["sealer.ErrInvalidText"] else []) ++
   (if Nat.eqb (String.length (rq_Aad r)) 0 then ["sealer.ErrInvalidAAD"] else []))%list.
Definition validateRequest (r : Request) : goerror :=
  match request_complaints r with
  | [] => None
  | _ => Some (ErrDetailsWithCode InvalidArgument ERROR_CODE_ABORT)
  end.

Definition internal_abort : error := ErrDetailsWithCode Internal ERROR_CODE_ABORT.

Section handlers.
Context {ENV : Env}.

Definition newData (size : Z) : M positive :=
  r ← try (NewData "text" size);
  match r with inl d => mret d | inr _ => throw internal_abort end.

Definition vaultImport (vault : positive) (name : string) (data : option positive) : M () :=
  r ← try (MemVault_Import vault name data);
  match r with
  | inl _ => mret ()
  | inr _ => _ ← err_of (Data_Destroy data); throw internal_abort
  end.

(** Ownership of [d] goes to the vault of the RPC. *)
Definition addToContextVault (ctx : option positive) (d : option positive) : M () :=
  match VaultFromContext ctx with
  | None => throw internal_abort
  | Some memVault => name ← uuid_New; vaultImport memVault name d
  end.

(** The closure of both handlers: [op] is the sealer's operation on the payload
    in secure memory, [on_error] maps its error. *)
Definition service_handler (op : option positive → M positive) (on_error : error → error) (r : Request)
    (hReq : HandlerRequest) : M () :=
  text ← newData (Z.of_nat (String.length (rq_Payload r)));
  defer (Data_Destroy (Some text)) (
    b ← SecureBytes (Some text);
    copy_bytes b (rq_Payload r);;
    resp ← try (op (Some text));
    match resp with
    | inr e => throw (on_error e)
    | inl answer => vaultImport (persistentVault hReq) handlerKey (Some answer)
    end).

(** After [Run]: the answer moves to the vault of the RPC and is returned as a
    slice of secure memory. *)
Definition service_finish (ctx : option positive) (resp : HandlerResponse) : M (option positive) :=
  p ← MemVault_Get (hr_vault resp) handlerKey;
  match p with
  | None => cleanHandlerResponse resp;; throw internal_abort
  | Some text =>
      r ← try (addToContextVault ctx (Some text));
      match r with
      | inr e => cleanHandlerResponse resp;; throw e
      | inl _ => SecureBytes (Some text)
      end
  end.

Definition Seal (s : Sealer) (ctx : option positive) (r : Request) : M (option positive) :=
  check (validateRequest r);;
  resp ← Run (service_handler
    (λ text, Sealers.Seal s (mkSealRequest (rq_TenantId r) (rq_KeyId r) (rq_KeyVersion r) text (rq_Aad r) (rq_Metadata r)))
    (λ _, internal_abort) r);
  service_finish ctx resp.

Definition unseal_error (e : error) : error :=
  if (errors_Is e Lifecycle.ErrOperationNotAllowedInState || errors_Is e ErrKeyTransientState)%bool
  then ErrDetailsWithCode FailedPrecondition ERROR_CODE_ABORT else internal_abort.

Definition Unseal (s : Sealer) (ctx : option positive) (r : Request) : M (option positive) :=
  check (validateRequest r);;
  resp ← Run (service_handler
    (λ text, Sealers.Unseal s (mkUnsealRequest (rq_TenantId r) (rq_KeyId r) (rq_KeyVersion r) text (rq_Aad r) (rq_Metadata r)))
    unseal_error r);
  service_finish ctx resp.
End handlers.
End SealerService.
