(* ===== verification/SealingSafety.v ===== *)
(** * Memory safety of the sealing stack

    Cryptor, sealers, vaults, processors and managers run in the logic [wp] of
    [SecureMemTheorems]: whichever system call, statement or remote call fails,
    they return, keep secure memory well formed and leave the database alone.
    The interfaces promise this to their clients: [sealer_safe] for sealers and
    [vault_safe] for vaults; every implementation is shown to keep the promise. *)

From S2P Require Import Prelude GoStrings GoRuntime Model World Lifecycle Providers Hierarchy.
From S2P Require Import Sql KeyStore KeyVersionStore StoreInvariant StoreTheorems Validator TaskTheorems.
From S2P Require Import SecureMem SecureMemTheorems.
From S2P Require Import AesGcm Cryptor Sealers Vault SpecYaml KeyProcessor RootManager.

Local Open Scope string_scope.

(** A pointer that is nil or leads to an object. *)
Definition ptr_ok (w : world) (p : option positive) : Prop := p ≠ None → valid w p.

Lemma ptr_ok_grows w w' p : grows w w' → ptr_ok w p → ptr_ok w' p.
Proof. intros Hg Hp Hn. eapply grows_valid; [done|by apply Hp]. Qed.
Lemma valid_ptr_ok w p : valid w p → ptr_ok w p.
Proof. by intros ? ?. Qed.
#[export] Hint Resolve ptr_ok_grows valid_ptr_ok : mem.

(** One step of a proof about a sequence: the lemma of the first call. *)
Ltac wp_call H := eapply wp_bind; [eapply H; eauto with mem|].

Section cryptor_safe.
Context {ENV : Env} {G : GCM} {OS : OsEnv}.

Lemma wp_nil_or_empty p w E :
  wf w → ptr_ok w p → wpe (nil_or_empty p) w (λ b w', w' = w ∧ (b = false → valid w p)) E.
Proof.
  intros Hw Hp. destruct p as [l|]; [|by apply wp_ret]. unfold nil_or_empty.
  assert (valid w (Some l)) as Hl by (by apply Hp).
  eapply wp_bind; [by apply wp_SecureBytes|]. intros b ? _ _ [-> Hb].
  eapply wp_bind; [by apply wp_len|]. intros n ? _ _ ->. by apply wp_ret.
Qed.

Lemma wp_Secret_Validate s w :
  wf w → ptr_ok w (sec_Data s) → wp (Secret_Validate s) w (λ _ w', w' = w ∧ valid w (sec_Data s)).
Proof.
  intros Hw Hs. unfold Secret_Validate. destruct (String.eqb _ _); [by apply wp_throw|].
  eapply wp_bind; [by apply wp_nil_or_empty|]. intros [] ? _ _ [-> Hv]; [by apply wp_throw|].
  apply wp_ret; eauto.
Qed.

Lemma wp_check_secret s w :
  wf w → valid w (sec_Data s) → wp (check_secret s) w (λ _ w', w' = w).
Proof.
  intros Hw Hs. unfold check_secret. destruct (negb _); [by apply wp_throw|].
  eapply wp_bind; [by apply wp_SecureBytes|]. intros b ? _ _ [-> Hb].
  eapply wp_bind; [by apply wp_len|]. intros n ? _ _ ->.
  destruct (negb _); [by apply wp_throw|by apply wp_ret].
Qed.

Lemma wp_data_bytes p w E : wf w → valid w p → wpe (data_bytes p) w (λ _ w', w' = w) E.
Proof.
  intros Hw Hp. unfold data_bytes. eapply wp_bind; [by apply wp_SecureBytes|].
  intros b ? _ _ [-> Hb]. by apply wp_read_bytes.
Qed.

(** The slice of an object that was just allocated. *)
Lemma wp_SecureBytes_new l n b w E :
  wf w → holds w l n b false → wpe (SecureBytes (Some l)) w (λ s w', w' = w ∧ writable w s) E.
Proof.
  intros Hw (r & Hl & Hr). unfold wpe. rewrite (SecureBytes_run _ _ _ Hl). simpl.
  split_and!; try done. by eexists l, _.
Qed.

Lemma wp_rand_Read n w E : wf w → wpe (rand_Read n) w (λ s w', w_sm w' = w_sm w) E.
Proof. intros Hw. split; [|split]; [done|by apply grows_same|done]. Qed.

Lemma length_chars_overwrite b src : length (chars (overwrite b src)) = length (chars b).
Proof. by rewrite !length_chars, length_overwrite. Qed.

Lemma wp_write_at s off src w E :
  wf w → writable w s → wpe (write_at s off src) w (λ _ w', writable w' s) E.
Proof.
  intros Hw Hs. destruct s as [r|]; [|by apply wp_ret]. unfold write_at.
  destruct (String.eqb src ""); [by apply wp_ret|].
  eapply wp_post; [apply wp_write_region; [done..|]|].
  - intros b. rewrite !length_nonempty, length_unchars, length_app, length_chars_overwrite, chars_unchars.
    rewrite length_take, length_drop, length_chars. lia.
  - by intros ? ? _ _ [? _].
Qed.

Lemma writable_same w w' s : w_sm w' = w_sm w → writable w s → writable w' s.
Proof. unfold writable. by intros ->. Qed.

Lemma wp_try_Reserve v n size w :
  wf w → valid_mv w v →
  wp (try (Reserve v n size)) w
    (λ r w', match r with inl s => writable w' s ∧ s ≠ None | inr e => benign e end).
Proof.
  intros Hw Hv. eapply wp_post; [by eapply wp_try, wp_Reserve|]. intros [s|e] w' _ _; [done|by intros [? _]].
Qed.

Lemma wp_get_or_destroy resp n sn w :
  wf w → valid_mv w (hr_vault resp) → wp (get_or_destroy resp n sn) w (λ l w', valid w' (Some l)).
Proof.
  intros Hw Hv. unfold get_or_destroy. eapply wp_bind; [by apply wp_MemVault_Get|].
  intros p ? _ _ (-> & _ & Hp). destruct p as [l|]; [apply wp_ret; [done|by apply Hp]|].
  destruct Hv as [m Hm]. eapply wp_bind; [eapply wp_any; [by eapply wp_DestroyAll|]|];
    [by intros ? ? _ _ H; exact H|]. intros _ w' Hw' _ _. by apply wp_throw.
Qed.

Lemma vaults_persistent req w mt mp : vaults_of req w mt mp → valid_mv w (persistentVault req).
Proof. intros (_ & H & _). by exists mp. Qed.

Lemma wp_GenerateSecret w : wf w → wp GenerateSecret w (λ l w', valid w' (Some l)).
Proof.
  intros Hw. unfold GenerateSecret. eapply wp_bind; [apply wp_Run; [done|]|].
  - intros req w1 mt mp Hw1 Hg Hv.
    eapply wp_bind; [apply wp_try_Reserve; [done|by eapply vaults_persistent]|].
    intros [b|e] w2 Hw2 _ Hb; [|apply wp_throw; eauto with mem].
    eapply wp_bind; [by apply wp_rand_Read|]. intros bytes w3 Hw3 _ Hs3.
    eapply wp_post; [apply wp_write_at; [done|]|done]. by eapply writable_same, Hb.
  - intros resp w2 Hw2 _ (m & Hm & _). apply wp_get_or_destroy; [done|by exists m].
Qed.

Definition secret_ok (w : world) (s : Secret) : Prop := ptr_ok w (sec_Data s).

Lemma wp_Encrypt a req w :
  wf w → secret_ok w (er_Secret req) → ptr_ok w (er_Plaintext req) →
  wp (Encrypt a req) w (λ l w', valid w' (Some l)).
Proof.
  intros Hw Hs Hp. unfold Encrypt.
  eapply (wp_bind _ _ _ (λ _ w', w' = w ∧ valid w (er_Plaintext req) ∧ valid w (sec_Data (er_Secret req)))).
  { unfold EncryptRequest_Validate. eapply wp_bind; [by apply wp_nil_or_empty|].
    intros [] ? _ _ [-> Hv]; [by apply wp_throw|]. eapply wp_post; [by apply wp_Secret_Validate|].
    intros ? ? _ _ [-> ?]. eauto. }
  intros _ ? _ _ (-> & Hvp & Hvs). eapply wp_bind; [by apply wp_check_secret|]. intros _ ? _ _ ->.
  eapply wp_bind; [apply wp_Run; [done|]|].
  - intros hr w1 mt mp Hw1 Hg Hv. unfold Encrypt_handler.
    wp_call wp_data_bytes. intros key ? _ _ ->. eapply (wp_bind _ _ _ (λ _ w', w' = w1)).
    { unfold aes_NewCipher. case_bool_decide; [by apply wp_ret|by apply wp_throw]. }
    intros _ ? _ _ ->. wp_call wp_SecureBytes. intros b ? _ _ [-> Hb].
    eapply wp_bind; [by apply wp_len|]. intros n ? _ _ ->. cbv zeta.
    eapply wp_bind; [apply wp_try_Reserve; [done|by eapply vaults_persistent]|].
    intros [c|e] w2 Hw2 Hg2 Hc; [|apply wp_throw; eauto with mem].
    eapply wp_bind; [by apply wp_rand_Read|]. intros nonce w3 Hw3 Hg3 Hs3.
    eapply wp_bind; [apply wp_write_at; [done|by eapply writable_same, Hc]|].
    intros ? w4 Hw4 Hg4 Hc4. eapply wp_bind; [apply wp_data_bytes; [done|]; eauto 6 with mem|].
    intros plaintext ? _ _ ->. eapply wp_post; [by apply wp_write_at|done].
  - intros resp w2 Hw2 _ (m & Hm & _). apply wp_get_or_destroy; [done|by exists m].
Qed.

Lemma wp_Decrypt a req w :
  wf w → secret_ok w (dr_Secret req) → ptr_ok w (dr_Ciphertext req) →
  wp (Decrypt a req) w (λ l w', valid w' (Some l)).
Proof.
  intros Hw Hs Hp. unfold Decrypt.
  eapply (wp_bind _ _ _ (λ _ w', w' = w ∧ valid w (dr_Ciphertext req) ∧ valid w (sec_Data (dr_Secret req)))).
  { unfold DecryptRequest_Validate. eapply wp_bind; [by apply wp_nil_or_empty|].
    intros [] ? _ _ [-> Hv]; [by apply wp_throw|]. eapply wp_post; [by apply wp_Secret_Validate|].
    intros ? ? _ _ [-> ?]. eauto. }
  intros _ ? _ _ (-> & Hvp & Hvs). eapply wp_bind; [by apply wp_check_secret|]. intros _ ? _ _ ->.
  eapply wp_bind; [apply wp_Run; [done|]|].
  - intros hr w1 mt mp Hw1 Hg Hv. unfold Decrypt_handler.
    wp_call wp_data_bytes. intros key ? _ _ ->. eapply (wp_bind _ _ _ (λ _ w', w' = w1)).
    { unfold aes_NewCipher. case_bool_decide; [by apply wp_ret|by apply wp_throw]. }
    intros _ ? _ _ ->. wp_call wp_SecureBytes. intros b ? _ _ [-> Hb].
    eapply wp_bind; [by apply wp_len|]. intros n ? _ _ ->. destruct (_ <? _)%Z; [by apply wp_throw|]. cbv zeta.
    eapply wp_bind; [apply wp_try_Reserve; [done|by eapply vaults_persistent]|].
    intros [c|e] w2 Hw2 Hg2 Hc; [|apply wp_throw; eauto with mem].
    eapply wp_bind; [apply wp_data_bytes; [done|]; eauto 6 with mem|].
    intros sealed ? _ _ ->. destruct (gcm_Open _ _ _ _); [|by apply wp_throw].
    eapply wp_post; [apply wp_write_at; [done|by apply Hc]|done].
  - intros resp w2 Hw2 _ (m & Hm & _). apply wp_get_or_destroy; [done|by exists m].
Qed.
End cryptor_safe.

(** ** Calls over the network *)

(** A remote call answers or fails, and touches nothing of this process but
    what [w_vault] holds for the remote side. *)
Definition remote {A} (m : M A) : Prop := ∀ w, ∃ a w', m w = (Ok a, w') ∧
  w_sm w' = w_sm w ∧ w_db w' = w_db w ∧ w_resp w' = w_resp w.

Class OpenBaoRemote `{OpenBao} : Prop := {
  bao_Write_remote : ∀ a p, remote (bao_Write a p);
  bao_Delete_remote : ∀ a p, remote (bao_Delete a p);
  kv_Put_remote : ∀ a m p d, remote (kv_Put a m p d);
  kv_Get_remote : ∀ a m p, remote (kv_Get a m p);
  kv_Delete_remote : ∀ a m p, remote (kv_Delete a m p);
}.

(** The stub of the sealer service returns a status error, never a disposition. *)
Definition remote_call (m : M (string + error)) : Prop :=
  remote m ∧ ∀ w e, (m w).1 = Ok (inr e) → benign e.
Class SealerClientRemote `{SealerClient} : Prop := {
  rpc_Seal_remote : ∀ c r, remote_call (rpc_Seal c r);
  rpc_Unseal_remote : ∀ c r, remote_call (rpc_Unseal c r);
}.

(** ** The promises of the interfaces *)

(** [sealer_safe w0 Pre s]: from the world [w0] on, [s] seals and unseals safely
    for the keys [Pre] allows. *)
Record sealer_safe (w0 : world) (Pre : string → string → Prop) (s : Sealer) : Prop := {
  Seal_safe : ∀ w req, wf w → grows w0 w → Pre (sr_TenantID req) (sr_KeyID req) →
    ptr_ok w (sr_Plaintext req) → wp (Seal s req) w (λ l w', valid w' (Some l));
  Unseal_safe : ∀ w req, wf w → grows w0 w → Pre (ur_TenantID req) (ur_KeyID req) →
    ptr_ok w (ur_Ciphertext req) → wp (Unseal s req) w (λ l w', valid w' (Some l));
}.

Record vault_safe (v : Vault) : Prop := {
  ImportKey_safe : ∀ w req, wf w → ptr_ok w (ik_KeyMaterial req) → wp (ImportKey v req) w (λ _ _, True);
  ExportKey_safe : ∀ w req, wf w →
    wp (ExportKey v req) w (λ r w', valid w' (Some (ex_KeyMaterial r)));
  DestroyKey_safe : ∀ w req, wf w → wp (DestroyKey v req) w (λ _ _, True);
}.

Definition any_key : string → string → Prop := λ _ _, True.

Lemma sealer_safe_grows w w' Pre s : grows w w' → sealer_safe w Pre s → sealer_safe w' Pre s.
Proof. intros Hg [H1 H2]. split; intros w'' req ? ?; [apply H1|apply H2]; try done; by etrans. Qed.

Section sealers_safe.
Context {ENV : Env} {G : GCM} {OS : OsEnv}.

Lemma wp_load_finish k me r w :
  wf w → match r with inl resp => valid_mv w (hr_vault resp) | inr e => benign e end →
  wp (load_finish k me r) w (λ l w', valid w' (Some l)).
Proof.
  intros Hw Hr. destruct r as [resp|e]; cbn [load_finish]; [|apply wp_throw; eauto with mem].
  eapply wp_bind; [by apply wp_MemVault_Get|]. intros p ? _ _ (-> & _ & Hp).
  destruct p as [l|]; [apply wp_ret; [done|by apply Hp]|]. destruct Hr as [m Hm].
  eapply wp_bind; [by eapply wp_err_of, wp_DestroyAll|]. intros o w' Hw' _ Ho.
  eapply (wp_bind _ _ _ (λ _ _, False)); [|done].
  assert (∃ e, errors_Join [Some (wrap1 (ESentinel me)); o] = Some e) as [e He] by (destruct o; eauto).
  rewrite He. apply wp_throw; [done| |done]. eapply benign_Join; [|done].
  intros e1. rewrite elem_of_cons, list_elem_of_singleton. intros [[= ->]|He1]; [done|].
  destruct o; [|done]. injection He1 as ->. by destruct Ho.
Qed.

Lemma wp_load raw k de me w :
  wf w → wp (resp ← try (Run (load_handler raw k de)); load_finish k me resp) w (λ l w', valid w' (Some l)).
Proof.
  intros Hw. eapply wp_bind; [eapply wp_try, wp_Run; [done|]|].
  - intros req w1 mt mp Hw1 Hg Hv. unfold load_handler. destruct (Base64.StdDecodeString raw); [|by apply wp_throw].
    eapply wp_bind; [apply wp_Reserve; [done|by eapply vaults_persistent]|].
    intros b w2 Hw2 _ [Hb _]. eapply wp_post; [by apply wp_copy_bytes|done].
  - intros [resp|e] w1 Hw1 _ Hr; apply wp_load_finish; try done; [|by destruct Hr].
    destruct Hr as (m & Hm & _). by exists m.
Qed.

Lemma wp_GetSecret spec w : wf w → wp (GetSecret spec) w (λ l w', valid w' (Some l)).
Proof.
  intros Hw. unfold GetSecret, newLoader.
  destruct (String.eqb _ _); [|destruct (String.eqb _ _); [|by apply wp_throw]];
    destruct (ss_Config spec) as [[]|]; try by apply wp_throw.
  - unfold envvar_LoadSecret. cbv zeta. destruct (String.eqb _ _); [by apply wp_throw|by apply wp_load].
  - unfold inline_LoadSecret. destruct (String.eqb _ _); [by apply wp_throw|by apply wp_load].
Qed.

Lemma wp_staticsecret_New name l w :
  wf w → valid w (Some l) →
  wp (staticsecret_New name (Some l)) w (λ s w', w' = w ∧ st_secret s = l).
Proof.
  intros Hw Hl. unfold staticsecret_New. destruct (String.eqb _ _); [by apply wp_throw|].
  eapply wp_bind; [by apply wp_SecureBytes|]. intros b ? _ _ [-> Hb].
  eapply wp_bind; [by apply wp_len|]. intros n ? _ _ ->.
  destruct (negb _); [by apply wp_throw|by apply wp_ret].
Qed.

(** The static sealer keeps the promise for as long as its secret exists. *)
Lemma static_sealer_safe w s : valid w (Some (st_secret s)) → sealer_safe w any_key (static_sealer s).
Proof.
  intros Hs. split; intros w' req Hw' Hg _ Hp; simpl.
  - unfold StaticSecret_Seal. eapply wp_bind; [by apply wp_nil_or_empty|].
    intros [] ? _ _ [-> _]; [by apply wp_throw|]. apply wp_Encrypt; [done| |done].
    unfold secret_ok. simpl. eauto with mem.
  - unfold StaticSecret_Unseal. eapply wp_bind; [by apply wp_nil_or_empty|].
    intros [] ? _ _ [-> _]; [by apply wp_throw|]. apply wp_Decrypt; [done| |done].
    unfold secret_ok. simpl. eauto with mem.
Qed.

Lemma wp_GetSealer spec w : wf w → wp (GetSealer spec) w (λ s w', valid w' (Some (st_secret s))).
Proof.
  intros Hw. unfold GetSealer. destruct (sl_Config spec) as [[secretSpec]|]; [|by apply wp_throw].
  eapply wp_bind; [by eapply wp_try, wp_GetSecret|].
  intros [l|e] w1 Hw1 _ Hl; [|destruct Hl; apply wp_throw; eauto with mem].
  eapply wp_post; [by apply wp_staticsecret_New|]. by intros s ? _ _ [-> ->].
Qed.
End sealers_safe.

Section vaults_safe.
Context {ENV : Env} {BAO : OpenBao} `{!OpenBaoRemote}.

Lemma wp_remote {A} (m : M A) w E : remote m → wf w → wpe m w (λ _ w', w_sm w' = w_sm w) E.
Proof.
  intros Hm Hw. destruct (Hm w) as (a & w' & Hrun & Hs & Hd & Hr). unfold wpe. rewrite Hrun. simpl.
  split_and!; [by rewrite Hs|by apply grows_same|done].
Qed.

Lemma wp_set_vault f w E : wf w → wpe (modify (λ w, set_vault (f w) w)) w (λ _ w', w_sm w' = w_sm w) E.
Proof. intros Hw. split; [|split]; [done|by apply grows_same|done]. Qed.

Lemma wp_external_same what w : wf w → wp (external what) w (λ _ _, True).
Proof. intros Hw. eapply wp_weaken; [by apply wp_external|done..]. Qed.

Lemma sqlite_vault_safe u : vault_safe (sqlite_vault u).
Proof.
  split; intros w req Hw; simpl.
  - intros Hp. unfold Unsafe_ImportKey. destruct (ik_KeyMaterial req) as [l|]; [|by apply wp_throw].
    eapply wp_bind; [apply wp_SecureBytes; [done|by apply Hp]|]. intros b ? _ _ [-> Hb].
    eapply wp_bind; [by apply wp_read_bytes|]. intros material ? _ _ ->.
    eapply (wp_bind _ _ _ (λ _ _, True)); [split; [|split]; [done|by apply grows_same|done]|].
    intros _ w1 Hw1 _ _. eapply wp_bind; [by apply wp_external_same|]. intros _ w2 Hw2 _ _.
    destruct (_ || _)%bool; [by apply wp_throw|]. eapply wp_post; [by apply wp_set_vault|done].
  - unfold Unsafe_ExportKey. eapply wp_bind; [by apply wp_external_same|]. intros _ w1 Hw1 _ _.
    eapply (wp_bind _ _ _ (λ _ w', w' = w1)); [by split; [|split]|]. intros row ? _ _ ->.
    destruct row as [row|]; [|by apply wp_throw].
    eapply wp_bind; [by apply wp_NewData|]. intros l w2 Hw2 _ Hl.
    eapply wp_bind; [eapply wp_SecureBytes_new; [done|exact Hl]|]. intros b ? _ _ [-> Hb].
    eapply wp_bind; [by apply wp_copy_bytes|]. intros ? w3 Hw3 Hg3 _.
    apply wp_ret; [done|]. simpl. eapply (grows_valid w2 w3 (Some l)); [done|eapply holds_valid, Hl].
  - unfold Unsafe_DestroyKey. eapply wp_bind; [by apply wp_external_same|]. intros _ w1 Hw1 _ _.
    eapply wp_post; [by apply wp_set_vault|done].
Qed.

Lemma benign_bao e : benign (bao_to_error e).
Proof. by destruct e. Qed.

Lemma bao_vault_safe v : vault_safe (bao_vault v).
Proof.
  split; intros w req Hw; simpl.
  - intros Hp. unfold Bao_ImportKey. destruct (ik_KeyMaterial req) as [l|]; [|by apply wp_throw].
    eapply wp_bind; [apply wp_Run; [done|]|by intros; apply wp_ret].
    intros hreq w1 mt mp Hw1 Hg Hv.
    eapply wp_bind; [apply wp_data_bytes; [done|by eapply grows_valid, Hp]|]. intros material ? _ _ ->.
    eapply wp_bind; [by eapply wp_remote; [apply kv_Put_remote|]|]. intros [] w2 Hw2 _ _; [by apply wp_ret|].
    apply wp_throw; [done|apply benign_bao|done].
  - unfold Bao_ExportKey. eapply wp_bind; [eapply wp_try, wp_Run_capture; [done|]|].
    + intros hreq w1 mt mp Hw1 Hg Hv. unfold Bao_ExportKey_handler.
      eapply wp_bind; [by eapply wp_remote; [apply kv_Get_remote|]|].
      intros [[km aad]|e] w2 Hw2 Hg2 _; [|by apply wp_throw; [|apply benign_bao|]].
      destruct (Base64.StdDecodeString km); [|by apply wp_throw].
      eapply wp_bind; [apply wp_Reserve; [done|by eapply grows_valid_mv, vaults_persistent]|].
      intros b w3 Hw3 _ [Hb _]. eapply wp_bind; [by apply wp_copy_bytes|]. intros ? w4 Hw4 _ _.
      destruct (Base64.StdDecodeString aad); [by apply wp_ret|by apply wp_throw].
    + intros [[resp aad]|e] w1 Hw1 _ Hr.
      * destruct Hr as (m & Hm & _). simpl in Hm. eapply wp_bind; [apply wp_MemVault_Get; [done|by exists m]|].
        intros p ? _ _ (-> & _ & Hp). destruct p as [l|]; [apply wp_ret; [done|by apply Hp]|].
        eapply wp_bind; [eapply wp_any; [by eapply wp_DestroyAll|]|]; [by intros ? ? _ _ Hx; exact Hx|].
        intros _ w2 Hw2 _ _. by apply wp_throw.
      * destruct Hr. destruct (errors_Is e _); by apply wp_throw.
  - unfold Bao_DestroyKey. eapply wp_bind; [by eapply wp_remote; [apply kv_Delete_remote|]|].
    intros [] w2 Hw2 _ _; [by apply wp_ret|]. destruct (isKVPathDeleted _); [by apply wp_ret|].
    apply wp_throw; [done|apply benign_bao|done].
Qed.

Lemma wp_GetVault spec w : wf w → wp (GetVault spec) w (λ v _, vault_safe v).
Proof.
  intros Hw.
  assert (∀ name src w, wf w → wp (u ← NewUnsafe name src; mret (sqlite_vault u)) w (λ v _, vault_safe v)) as Hsq.
  { intros name src w0 Hw0. eapply (wp_bind _ _ _ (λ _ _, True)).
    - unfold NewUnsafe, Unsafe_migrate. eapply wp_bind; [by apply wp_external_same|]. intros _ w1 Hw1 _ _.
      eapply wp_bind; [by apply wp_external_same|]. intros _ w2 Hw2 _ _. cbv zeta.
      eapply wp_bind; [by apply wp_external_same|]. intros _ w3 Hw3 _ _. by apply wp_ret.
    - intros u w1 Hw1 _ _. apply wp_ret; [done|apply sqlite_vault_safe]. }
  unfold GetVault. destruct (String.eqb _ _); [by apply Hsq|]. destruct (String.eqb _ _).
  { destruct (vs_Config spec) as [[]|]; try by apply wp_throw. by apply Hsq. }
  destruct (String.eqb _ _); [|by apply wp_throw].
  destruct (vs_Config spec) as [[]|]; try by apply wp_throw. unfold bao_New.
  eapply (wp_bind _ _ _ (λ _ _, True)).
  - eapply wp_bind; [by apply wp_external_same|]. intros _ w1 Hw1 _ _.
    eapply wp_bind; [by apply wp_external_same|]. intros _ w2 Hw2 _ _. by apply wp_ret.
  - intros v w1 Hw1 _ _. apply wp_ret; [done|apply bao_vault_safe].
Qed.
End vaults_safe.

(** ** Processors *)

(** What [newProcessor] builds from a binding with a cryptor and a vault, with a
    parent that serves the keys [Pre]. *)
Record processor_ok (w : world) (Pre : string → string → Prop) (p : processor Sealer) : Prop := {
  po_cryptor : is_Some (p_cryptor p);
  po_vault : ∃ v, p_vault p = Some v ∧ vault_safe v;
  po_transport : ∀ s, p_transportSealer p = Some s → sealer_safe w any_key s;
  po_parent : sealer_safe w Pre (p_parent p);
}.

Lemma processor_ok_grows w w' Pre p : grows w w' → processor_ok w Pre p → processor_ok w' Pre p.
Proof. intros Hg []. split; eauto using sealer_safe_grows. Qed.

(** The parent of a key version is one the processor's parent serves. *)
Definition parent_served (Pre : string → string → Prop) (kv : KeyVersion) : Prop :=
  ∀ parentID, kv_ParentKeyID kv = Some parentID → Pre (kv_TenantID kv) parentID.

Section processors_safe.
Context {ENV : Env} {G : GCM}.

Lemma wp_defer_destroy {A} l (m : M A) w Q :
  (∀ a w' w'', grows w' w'' → Q a w' → Q a w'') → wf w → ptr_ok w l →
  wp m w Q → wp (defer (Data_Destroy l) m) w Q.
Proof.
  intros HQ Hw Hl Hm.
  assert (∀ w', wf w' → grows w w' → wf (Data_Destroy l w').2 ∧ grows w' (Data_Destroy l w').2) as Hd.
  { intros w' Hw' Hg. destruct (wp_Data_Destroy l w') as (? & ? & _); [done| |done].
    by eapply ptr_ok_grows. }
  eapply wp_defer; [exact Hm|..]; intros a w' Hw' Hg Ha; destruct (Hd w' Hw' Hg); split_and!; eauto.
Qed.

Context (w0 : world) (Pre : string → string → Prop) (p : processor Sealer).
Hypothesis Hp : processor_ok w0 Pre p.

Lemma wp_transportSeal kv sec aad w :
  wf w → grows w0 w → valid w (Some sec) → wp (transportSeal p kv sec aad) w (λ l w', valid w' (Some l)).
Proof.
  intros Hw Hg Hs. unfold transportSeal. destruct (p_transportSealer p) as [s|] eqn:E; [|by apply wp_ret].
  eapply Seal_safe; [by eapply po_transport|done..|by apply valid_ptr_ok].
Qed.
Lemma wp_transportUnseal kv sec aad w :
  wf w → grows w0 w → valid w (Some sec) → wp (transportUnseal p kv sec aad) w (λ l w', valid w' (Some l)).
Proof.
  intros Hw Hg Hs. unfold transportUnseal. destruct (p_transportSealer p) as [s|] eqn:E; [|by apply wp_ret].
  eapply Unseal_safe; [by eapply po_transport|done..|by apply valid_ptr_ok].
Qed.
Lemma wp_parentSeal kv sec aad w :
  wf w → grows w0 w → parent_served Pre kv → valid w (Some sec) →
  wp (parentSeal p kv sec aad) w (λ l w', valid w' (Some l)).
Proof.
  intros Hw Hg Hk Hs. unfold parentSeal. destruct (kv_ParentKeyID kv) as [q|] eqn:E; [|by apply wp_throw].
  eapply Seal_safe; [by eapply po_parent|done|done|by apply Hk|by apply valid_ptr_ok].
Qed.
Lemma wp_parentUnseal kv sec aad w :
  wf w → grows w0 w → parent_served Pre kv → valid w (Some sec) →
  wp (parentUnseal p kv sec aad) w (λ l w', valid w' (Some l)).
Proof.
  intros Hw Hg Hk Hs. unfold parentUnseal. destruct (kv_ParentKeyID kv) as [q|] eqn:E; [|by apply wp_throw].
  eapply Unseal_safe; [by eapply po_parent|done|done|by apply Hk|by apply valid_ptr_ok].
Qed.

Lemma wp_getPersistedSec resp w :
  wf w → valid_mv w (hr_vault resp) → wp (getPersistedSec resp) w (λ l w', valid w' (Some l)).
Proof.
  intros Hw Hv. unfold getPersistedSec. eapply wp_bind; [by apply wp_MemVault_Get|].
  intros q ? _ _ (-> & _ & Hq). destruct q as [l|]; [apply wp_ret; [done|by apply Hq]|].
  destruct Hv as [m Hm]. eapply wp_bind; [by eapply wp_err_of, wp_DestroyAll|].
  intros o w' Hw' _ Ho. apply wp_throw; [done| |done]. apply benign_EWrap.
  intros e [-> |He]%elem_of_cons; [done|]. destruct o; [|by apply elem_of_nil in He].
  apply list_elem_of_singleton in He as ->. by destruct Ho.
Qed.

Lemma wp_copySec src w : wf w → valid w (Some src) → wp (copySec src) w (λ l w', valid w' (Some l)).
Proof.
  intros Hw Hs. unfold copySec. eapply wp_bind; [by apply wp_Name|]. intros name ? _ _ ->.
  eapply wp_bind; [by apply wp_SecureBytes|]. intros b ? _ _ [-> Hb].
  eapply wp_bind; [by apply wp_len|]. intros n ? _ _ ->.
  eapply wp_bind; [by apply wp_NewData|]. intros l w1 Hw1 Hg1 Hl.
  eapply wp_bind; [eapply wp_SecureBytes_new; [done|exact Hl]|]. intros d ? _ _ [-> Hd].
  eapply wp_bind; [apply wp_data_bytes; [done|by eauto with mem]|]. intros s ? _ _ ->.
  eapply wp_bind; [by apply wp_copy_bytes|]. intros ? w2 Hw2 Hg2 _.
  apply wp_ret; [done|]. eapply (grows_valid w1 w2 (Some l)); [done|eapply holds_valid, Hl].
Qed.

Lemma wp_createSecret kv aad w :
  wf w → grows w0 w → parent_served Pre kv → wp (createSecret p kv aad) w (λ _ _, True).
Proof.
  intros Hw Hg0 Hk. unfold createSecret. eapply wp_bind; [apply wp_Run; [done|]|by intros; apply wp_ret].
  intros req w1 mt mp Hw1 Hg1 Hv. unfold createSecret_handler.
  destruct (po_cryptor _ _ _ Hp) as [c Hc]. destruct (po_vault _ _ _ Hp) as (v & Hv' & Hvs).
  rewrite Hc, Hv'. cbn [on_cryptor on_vault].
  eapply wp_bind; [by apply wp_GenerateSecret|]. intros secret w2 Hw2 Hg2 Hs.
  assert (grows w0 w2) as Hg02 by (etrans; [exact Hg0|by etrans]).
  apply wp_defer_destroy; [done|done|by apply valid_ptr_ok|].
  eapply wp_bind; [by apply wp_transportSeal|]. intros trans w3 Hw3 Hg3 Ht.
  assert (grows w0 w3) as Hg03 by (by etrans).
  apply wp_defer_destroy; [done|done|by apply valid_ptr_ok|].
  eapply wp_bind; [by apply wp_parentSeal|]. intros parent w4 Hw4 Hg4 Hpa.
  apply wp_defer_destroy; [done|done|by apply valid_ptr_ok|].
  apply ImportKey_safe; [done..|by apply valid_ptr_ok].
Qed.

Lemma wp_encrypt req w :
  wf w → secret_ok w (er_Secret req) → ptr_ok w (er_Plaintext req) →
  wp (encrypt p req) w (λ l w', valid w' (Some l)).
Proof.
  intros Hw Hs Hpt. unfold encrypt. destruct (po_cryptor _ _ _ Hp) as [c Hc]. rewrite Hc. cbn [on_cryptor].
  eapply wp_bind; [apply wp_Run; [done|]|].
  - intros sreq w1 mt mp Hw1 Hg1 Hv. eapply wp_bind; [apply wp_Encrypt; [done|by eapply ptr_ok_grows..]|].
    intros l w2 Hw2 Hg2 Hl. apply wp_MemVault_Import; [done| |by intros _].
    eapply grows_valid_mv; [done|by eapply vaults_persistent].
  - intros resp w2 Hw2 _ (m & Hm & _). apply wp_getPersistedSec; [done|by exists m].
Qed.

Lemma wp_decrypt req w :
  wf w → secret_ok w (dr_Secret req) → ptr_ok w (dr_Ciphertext req) →
  wp (decrypt p req) w (λ l w', valid w' (Some l)).
Proof.
  intros Hw Hs Hpt. unfold decrypt. destruct (po_cryptor _ _ _ Hp) as [c Hc]. rewrite Hc. cbn [on_cryptor].
  eapply wp_bind; [apply wp_Run; [done|]|].
  - intros sreq w1 mt mp Hw1 Hg1 Hv. eapply wp_bind; [apply wp_Decrypt; [done|by eapply ptr_ok_grows..]|].
    intros l w2 Hw2 Hg2 Hl. apply wp_MemVault_Import; [done| |by intros _].
    eapply grows_valid_mv; [done|by eapply vaults_persistent].
  - intros resp w2 Hw2 _ (m & Hm & _). apply wp_getPersistedSec; [done|by exists m].
Qed.

Lemma wp_deleteSecret kv w : wf w → wp (deleteSecret p kv) w (λ _ _, True).
Proof.
  intros Hw. unfold deleteSecret. destruct (po_vault _ _ _ Hp) as (v & Hv & Hvs). rewrite Hv.
  by apply DestroyKey_safe.
Qed.

Lemma wp_resolveSecret kv w :
  wf w → grows w0 w → parent_served Pre kv → wp (resolveSecret p kv) w (λ s w', valid w' (sec_Data s)).
Proof.
  intros Hw Hg0 Hk. unfold resolveSecret. eapply wp_bind; [apply wp_Run; [done|]|].
  - intros sreq w1 mt mp Hw1 Hg1 Hv. unfold resolveSecret_handler.
    destruct (po_vault _ _ _ Hp) as (v & Hv' & Hvs). rewrite Hv'. cbn [on_vault].
    assert (valid_mv w1 (persistentVault sreq)) as Hpv by (by eapply vaults_persistent).
    eapply wp_bind; [by apply ExportKey_safe|]. intros ex w2 Hw2 Hg2 Hex.
    assert (grows w0 w2) as Hg02 by (etrans; [exact Hg0|by etrans]).
    apply wp_defer_destroy; [done|done|by apply valid_ptr_ok|].
    eapply wp_bind; [by apply wp_parentUnseal|]. intros pu w3 Hw3 Hg3 Hpu.
    assert (grows w0 w3) as Hg03 by (by etrans).
    apply wp_defer_destroy; [done|done|by apply valid_ptr_ok|].
    eapply wp_bind; [by apply wp_transportUnseal|]. intros tu w4 Hw4 Hg4 Htu.
    apply wp_defer_destroy; [done|done|by apply valid_ptr_ok|].
    eapply wp_bind; [by apply wp_copySec|]. intros sec w5 Hw5 Hg5 Hsec.
    apply wp_MemVault_Import; [done| |by intros _]. eauto 8 with mem.
  - intros resp w2 Hw2 _ (m & Hm & _). eapply wp_bind; [apply wp_getPersistedSec; [done|by exists m]|].
    intros sec w3 Hw3 _ Hsec. by apply wp_ret.
Qed.
End processors_safe.

(** ** Reading the stores *)

(** A statement that only reads. *)
Definition core (w : world) := (w_db w, w_sm w, w_resp w).
Definition read_only {A} (m : M A) : Prop := respects (unchanged core) m ∧ throws plain m.

Section reads.
Context {ENV : Env}.

Lemma core_external what : respects (unchanged core) (external what).
Proof. by apply respects_external. Qed.
Lemma core_statement t : respects (unchanged core) (statement t).
Proof. unfold statement. solve_respects; apply core_external. Qed.
Lemma core_arg_uuid s : respects (unchanged core) (arg_uuid s).
Proof. unfold arg_uuid. solve_respects. Qed.
Lemma core_arg_int4 z : respects (unchanged core) (arg_int4 z).
Proof. unfold arg_int4. solve_respects. Qed.
Lemma core_get_db : respects (unchanged core) get_db.
Proof. unfold get_db. solve_respects. Qed.
#[local] Hint Resolve core_external core_statement core_arg_uuid core_arg_int4 core_get_db : respects.

Lemma read_only_GetKeyByID i t : read_only (GetKeyByID i t).
Proof. split; [unfold GetKeyByID, scan_row; solve_respects|apply plain_GetKeyByID]. Qed.
Lemma read_only_GetTenant i : read_only (GetTenant i).
Proof. split; [unfold GetTenant; solve_respects|apply plain_GetTenant]. Qed.
Lemma read_only_ListKeyVersions q : read_only (ListKeyVersions q).
Proof. split; [unfold ListKeyVersions; solve_respects|apply plain_ListKeyVersions]. Qed.

Lemma wp_read_only {A} (m : M A) w :
  read_only m → wf w → wp m w (λ a w', w_sm w' = w_sm w ∧ m w = (Ok a, w')).
Proof.
  intros [Hc Ht] Hw. specialize (Hc w). specialize (Ht w). injection Hc as Hdb Hsm Hresp.
  unfold wpe. rewrite Hsm. split; [done|split; [by apply grows_same|]].
  destruct (m w) as [[] w'] eqn:E; simpl in *; done.
Qed.

Lemma wp_ValidateTenant t w : wf w → wp (ValidateTenant t) w (λ _ w', w_sm w' = w_sm w).
Proof.
  intros Hw. unfold ValidateTenant. eapply wp_bind; [apply wp_read_only; [apply read_only_GetTenant|done]|].
  intros tn w' Hw' _ [Hs _]. by apply wp_ret.
Qed.

Lemma benign_ValidateKeyUsage s u e : Lifecycle.ValidateKeyUsage s u = Some e → benign e.
Proof. unfold Lifecycle.ValidateKeyUsage. repeat case_match; naive_solver. Qed.

Lemma wp_ValidateKeyUsage t k u w : wf w → wp (ValidateKeyUsage t k u) w (λ _ w', w_sm w' = w_sm w).
Proof.
  intros Hw. unfold ValidateKeyUsage. eapply wp_bind; [apply wp_read_only; [apply read_only_GetKeyByID|done]|].
  intros key w' Hw' _ [Hs _]. destruct (negb _); [by apply wp_throw|].
  apply wp_check; [done|]. destruct (Lifecycle.ValidateKeyUsage _ _) eqn:E; [|done].
  split; [by eapply benign_ValidateKeyUsage|done].
Qed.

(** A transaction that writes nothing. *)
Lemma wp_Transaction {A} (fn : M A) w Q :
  (∀ a w' w'', w_sm w'' = w_sm w' → Q a w' → Q a w'') →
  wf w → (∀ w1, wf w1 → grows w w1 → wp fn w1 Q) → wp (Transaction fn) w Q.
Proof.
  intros HQ Hw Hfn. unfold Transaction. destruct (wp_external "begin" w Hw) as (Hw1 & Hg1 & H1).
  destruct (external "begin" w) as [[[]|e| |] w1] eqn:E1; [| |done..].
  2: { simpl in *. destruct H1. unfold wpe. rewrite E1. simpl. split_and!; eauto with mem. by apply benign_wrap1. }
  simpl in *. destruct (Hfn w1) as (Hw2 & Hg2 & H2); [done..|].
  assert (∀ w3, grows w1 w3 → grows w (set_db (w_db w1) w3)) as Hback.
  { intros w3 Hg3. etrans; [exact Hg1|]. destruct Hg3. split; done. }
  unfold wpe. rewrite E1. destruct (fn w1) as [[a|e| |] w2] eqn:E2; simpl in *; [|destruct H2; split_and!; eauto|done..].
  destruct (wp_external "commit" w2 Hw2) as (Hw3 & Hg3 & H3).
  destruct (external "commit" w2) as [[[]|e| |] w3] eqn:E3; simpl in *; [|destruct H3|done..].
  - split; [done|split; [by etrans; [|etrans]|]]. by eapply HQ.
  - split; [done|split; [|by split; [apply benign_wrap1|]]]. apply Hback. by etrans.
Qed.
End reads.

(** ** Remote parents *)

Section remote_safe.
Context {ENV : Env} {CLI : SealerClient} `{!SealerClientRemote}.

Lemma wp_vaultImport v n d w : wf w → valid_mv w v → ptr_ok w d → wp (vaultImport v n d) w (λ _ _, True).
Proof.
  intros Hw Hv Hd. unfold vaultImport. eapply wp_bind; [by eapply wp_try, wp_MemVault_Import|].
  intros [[]|e] w1 Hw1 Hg1 H1; [by apply wp_ret|]. destruct H1 as [He _].
  eapply wp_bind; [eapply wp_err_of, wp_Data_Destroy; [done|]|]; [by eapply ptr_ok_grows|].
  intros ? w2 Hw2 _ _. by apply wp_throw.
Qed.

Lemma wp_remote_call m w :
  remote_call m → wf w → wp m w (λ r w', w_sm w' = w_sm w ∧ ∀ e, r = inr e → benign e).
Proof.
  intros [Hm Hb] Hw. destruct (Hm w) as (a & w' & Hrun & Hs & Hd & Hr). unfold wpe. rewrite Hrun. simpl.
  split_and!; [by rewrite Hs|by apply grows_same|done|]. intros e ->. apply (Hb w). by rewrite Hrun.
Qed.

Lemma wp_rpc call tenant key version data aad w :
  (∀ r, remote_call (call r)) → wf w → valid w data →
  wp (resp ← Run (rpc_handler call tenant key version data aad); rpc_finish resp) w (λ l w', valid w' (Some l)).
Proof.
  intros Hcall Hw Hd. eapply wp_bind; [apply wp_Run; [done|]|].
  - intros hreq w1 mt mp Hw1 Hg1 Hv. unfold rpc_handler.
    apply wp_defer_destroy; [done|done|by eauto with mem|].
    eapply wp_bind; [apply wp_data_bytes; [done|by eauto with mem]|]. intros bytes ? _ _ ->.
    eapply wp_bind; [by eapply wp_remote_call|]. intros [answer|e] w2 Hw2 Hg2 [Hs2 He2]; [|apply wp_throw; eauto].
    eapply wp_bind; [by apply wp_NewData|]. intros text w3 Hw3 Hg3 Htext.
    eapply wp_bind; [eapply wp_SecureBytes_new; [done|exact Htext]|]. intros b ? _ _ [-> Hb].
    eapply wp_bind; [by apply wp_copy_bytes|]. intros ? w4 Hw4 Hg4 _.
    apply wp_vaultImport; [done| |].
    + apply vaults_persistent in Hv. eauto 6 with mem.
    + intros _. eapply (grows_valid w3 w4 (Some text)); [done|eapply holds_valid, Htext].
  - intros resp w2 Hw2 _ (m & Hm & _). unfold rpc_finish.
    eapply wp_bind; [apply wp_MemVault_Get; [done|by exists m]|]. intros p ? _ _ (-> & _ & Hp).
    destruct p as [l|]; [apply wp_ret; [done|by apply Hp]|]. unfold cleanHandlerResponse.
    eapply (wp_bind _ _ _ (λ _ _, True)).
    + eapply wp_bind; [by eapply wp_err_of, wp_DestroyAll|]. intros. by apply wp_ret.
    + intros _ w3 Hw3 _ _. by apply wp_throw.
Qed.

Lemma rpc_sealer_safe w conn : sealer_safe w any_key (rpc_sealer conn).
Proof.
  split; intros w' req Hw' _ _ Hp; simpl; unfold RPCManager_Seal, RPCManager_Unseal;
    (eapply wp_bind; [by apply wp_nil_or_empty|]; intros [] ? _ _ [-> Hv]; [by apply wp_throw|]);
    (apply wp_rpc; [|done|by apply Hv]); intros r; [apply rpc_Seal_remote|apply rpc_Unseal_remote].
Qed.
End remote_safe.

(** ** The root manager *)

(** Errors of the YAML package are no task dispositions. *)
Class YamlErrors (Y : Yaml) : Prop := {
  y_decode_string_benign : ∀ n e, y_decode_string n = inr e → benign e;
  y_field_benign : ∀ n k e, y_field n k = inr e → benign e;
  y_no_fields_benign : ∀ n e, y_no_fields n = Some e → benign e;
  y_marshal_benign : ∀ n e, y_marshal n = inr e → benign e;
  y_parse_benign : ∀ b e, y_parse b = inr e → benign e;
}.

(** So are those of the methods built on it. *)
Section yaml_errors.
Context {Y : Yaml} {YE : YamlErrors Y}.

Definition reads_benign {A} (r : A + error) : Prop := ∀ e, r = inr e → benign e.

Lemma reads_and_then {A B} (r : A + error) (k : A → B + error) :
  reads_benign r → (∀ a, reads_benign (k a)) → reads_benign (and_then r k).
Proof. intros Hr Hk e. destruct r as [a|e']; simpl; [apply Hk|by intros [= ->]; apply Hr]. Qed.
Lemma benign_ret {A} (a : A) : reads_benign (inl a).
Proof. done. Qed.
Lemma reads_field n k : reads_benign (y_field n k).
Proof. intros e. apply y_field_benign. Qed.
Lemma reads_text_field n k old : reads_benign (text_field n k old).
Proof.
  apply reads_and_then; [apply reads_field|]. intros [m|]; [|done]. destruct (y_is_null m); [done|].
  intros e. apply y_decode_string_benign.
Qed.
Lemma reads_decode_over {A} (d : node → A → A + error) n a :
  (∀ m, reads_benign (d m a)) → reads_benign (decode_over d n a).
Proof.
  intros Hd e. destruct n as [m|]; [|done]. simpl. destruct (d m a) eqn:E; [done|]. intros [= <-].
  by apply benign_wrap1, (Hd m).
Qed.

Lemma SecretSpec_UnmarshalYAML_benign n : reads_benign (SecretSpec_UnmarshalYAML n).
Proof.
  unfold SecretSpec_UnmarshalYAML. assert (reads_benign (SecretSpec_raw n)) as Hr.
  { apply reads_and_then; [apply reads_text_field|intros t]. apply reads_and_then; [apply reads_field|done]. }
  destruct (SecretSpec_raw n) as [[t c]|e]; [|by intros ? [= <-]; apply benign_wrap1, Hr].
  apply reads_and_then; [|intros cfg; apply reads_and_then; [|done]].
  - unfold newSecretConfig. repeat (case_match; [done|]). by intros ? [= <-].
  - apply reads_decode_over. intros m. destruct cfg; (apply reads_and_then; [apply reads_text_field|done]).
Qed.

Lemma yaml_Marshal_benign s e : yaml_Marshal s = inr e → benign e.
Proof. apply y_marshal_benign. Qed.

Lemma yaml_Unmarshal_benign b e : yaml_Unmarshal b = inr e → benign e.
Proof.
  revert e. change (reads_benign (yaml_Unmarshal b)). apply reads_and_then; [intros e; apply y_parse_benign|].
  intros [n|]; [|done]. destruct (y_is_null n); [done|]. unfold SealerSpec_UnmarshalYAML.
  assert (reads_benign (SealerSpec_raw n)) as Hr.
  { repeat (apply reads_and_then; [first [apply reads_text_field|apply reads_field]|intros ?]). done. }
  destruct (SealerSpec_raw n) as [[[[name t] a] c]|e]; [|by intros ? [= <-]; apply benign_wrap1, Hr].
  destruct (newSealer t) as [[cfg auth]|]; [|by intros ? [= <-]].
  apply reads_and_then; [apply reads_decode_over|intros cfg']; [intros m; destruct cfg|].
  - apply reads_and_then; [apply reads_field|]. intros [x|]; [|done]. destruct (y_is_null x); [done|].
    apply reads_and_then; [apply SecretSpec_UnmarshalYAML_benign|done].
  - apply reads_and_then; [apply reads_decode_over|done]. intros m e. unfold SealerAuth_decode.
    destruct (y_no_fields m) eqn:E; [|done]. intros [= <-]. by eapply y_no_fields_benign.
Qed.
End yaml_errors.

Section root_safe.
Context {ENV : Env} {G : GCM} {OS : OsEnv} {YAML : Yaml} {YE : YamlErrors YAML}.
Context (rm : RootManager) (Hv : vault_safe (rm_vault rm)).

Lemma wp_exportSpec t k w : wf w → wp (exportSpec rm t k) w (λ _ _, True).
Proof.
  intros Hw. unfold exportSpec. eapply wp_bind; [by apply ExportKey_safe|]. intros ex w1 Hw1 _ Hex.
  apply wp_defer_destroy; [done|done|by apply valid_ptr_ok|].
  eapply wp_bind; [by apply wp_data_bytes|]. intros b ? _ _ ->.
  destruct (yaml_Unmarshal b) eqn:E; [by apply wp_ret|]. apply wp_throw; [done|by eapply yaml_Unmarshal_benign|done].
Qed.

Lemma wp_importSpec t k spec w : wf w → wp (importSpec rm t k spec) w (λ _ _, True).
Proof.
  intros Hw. unfold importSpec. destruct (yaml_Marshal spec) as [b|e] eqn:E.
  2: { apply wp_throw; [done|by eapply yaml_Marshal_benign|done]. }
  eapply wp_bind; [by apply wp_NewData|]. intros d w1 Hw1 _ Hd.
  assert (valid w1 (Some d)) by (eapply holds_valid, Hd).
  apply wp_defer_destroy; [done|done|by apply valid_ptr_ok|].
  eapply wp_bind; [eapply wp_SecureBytes_new; [done|exact Hd]|]. intros s ? _ _ [-> Hs].
  eapply wp_bind; [by apply wp_copy_bytes|]. intros ? w2 Hw2 Hg2 _.
  apply ImportKey_safe; [done..|]. simpl. eauto with mem.
Qed.

Lemma wp_resolveLabel t k v ty w : wf w → wp (resolveLabel t k v ty) w (λ _ w', w_sm w' = w_sm w).
Proof.
  intros Hw. unfold resolveLabel. eapply (wp_bind _ _ _ (λ _ w', w_sm w' = w_sm w)).
  - unfold fetchOne. eapply wp_bind; [apply wp_read_only; [apply read_only_ListKeyVersions|done]|].
    intros [|kv l] w1 Hw1 _ [Hs _]; [by apply wp_throw|by apply wp_ret].
  - intros kv w1 Hw1 _ Hs. destruct (_ !! _); [|by apply wp_throw].
    destruct (String.eqb _ _); [by apply wp_throw|by apply wp_ret].
Qed.

Lemma wp_provider_of t k v w :
  wf w → wp (provider_of rm t k v) w (λ r w', valid w' (Some (st_secret r.1.1))).
Proof.
  intros Hw. unfold provider_of. eapply wp_bind; [by apply wp_exportSpec|]. intros sp w1 Hw1 _ _.
  eapply wp_bind; [by apply wp_GetSealer|]. intros s w2 Hw2 _ Hs.
  eapply wp_bind; [by apply wp_resolveLabel|]. intros label w3 Hw3 Hg3 _. apply wp_ret; [done|].
  by eapply (grows_valid w2 w3 (Some _)).
Qed.

(** The transaction of [Seal] and [Unseal]: two checks, then the sealer. *)
Lemma wp_root_op t k u last w :
  wf w → (∀ w1, wf w1 → grows w w1 → wp last w1 (λ l w', valid w' (Some l))) →
  wp (resp ← ChainTransaction (resp_steps [ValidateTenant t; ValidateKeyUsage t k u] last) None; or_panic resp)
    w (λ l w', valid w' (Some l)).
Proof.
  intros Hw Hlast. unfold ChainTransaction, resp_steps. cbn [fmap list_fmap app foldM].
  eapply (wp_bind _ _ _ (λ r w', valid w' r)).
  - apply wp_Transaction; [|done|].
    + intros [l|] w' w''; simpl; [by intros ->|done].
    + intros w1 Hw1 Hg1. eapply wp_bind; [eapply wp_bind; [by apply wp_ValidateTenant|]|].
      { intros ? w2 Hw2 _ _. by apply (wp_ret _ _ (λ r _, r = None)). }
      intros ? w2 Hw2 Hg2 ->. eapply wp_bind; [eapply wp_bind; [by apply wp_ValidateKeyUsage|]|].
      { intros ? w3 Hw3 _ _. by apply (wp_ret _ _ (λ r _, r = None)). }
      intros ? w3 Hw3 Hg3 ->. eapply wp_bind; [eapply wp_bind; [apply Hlast; [done|]|]|].
      * etrans; [exact Hg1|by etrans].
      * intros l w4 Hw4 _ Hl. by apply (wp_ret _ _ (λ r w', valid w' r)).
      * intros r w4 Hw4 _ Hr. by apply wp_ret.
  - intros [l|] w1 Hw1 _ Hr; [by apply wp_ret|done].
Qed.

Lemma root_sealer_safe w : sealer_safe w any_key (root_sealer rm).
Proof.
  split; intros w' req Hw' _ _ Hp; simpl; unfold RootManager_Seal, RootManager_Unseal;
    (destruct (Z.eqb _ _); [by apply wp_throw|]); apply wp_root_op; try done; intros w1 Hw1 Hg1;
    (eapply wp_bind; [by apply wp_provider_of|]); intros [[s name] label] w2 Hw2 Hg2 Hs; simpl in Hs.
  - eapply (Seal_safe _ _ _ (static_sealer_safe w2 s Hs)); [done..|]. simpl. eauto with mem.
  - eapply (Unseal_safe _ _ _ (static_sealer_safe w2 s Hs)); [done..|]. simpl. eauto with mem.
Qed.
End root_safe.

(** ** The manager *)

(** The spelling of an identifier the database uses. *)
Definition canon (s : string) : string := default s (uuid_column s).

(** Versions lead to versions of keys of smaller rank: no key is, through the
    parents its versions name, its own ancestor. *)
Definition ranked (d : DB) (rank : string → string → nat) : Prop := ∀ i kv q,
  db_kvs d !! i = Some kv → kv_ParentKeyID kv = Some q →
  (rank (canon (kv_TenantID kv)) (canon q) < rank (canon (kv_TenantID kv)) (canon (kv_KeyID kv)))%nat.

(** The keys a manager with [fuel] levels can open. *)
Definition within (rank : string → string → nat) (fuel : nat) (t k : string) : Prop :=
  (rank (canon t) (canon k) < fuel)%nat.

(** What [NewManager] builds from bindings with a cryptor and a vault. *)
Record manager_ok (w : world) (m : Manager) : Prop := {
  mo_processor : ∀ kind p, m_processors m !! kind = Some p →
    is_Some (p_cryptor p) ∧ (∃ v, p_vault p = Some v ∧ vault_safe v) ∧
    (∀ s, p_transportSealer p = Some s → sealer_safe w any_key s) ∧
    (∀ s, p_parent p = PSealer s → sealer_safe w any_key s);
}.

Section manager_safe.
Context {ENV : Env} {G : GCM}.

Lemma sealer_safe_weaken w (P Q : string → string → Prop) s :
  (∀ t k, Q t k → P t k) → sealer_safe w P s → sealer_safe w Q s.
Proof. intros HPQ []. split; eauto. Qed.

Lemma with_parent_ok w m kind p self Pre :
  manager_ok w m → m_processors m !! kind = Some p → sealer_safe w Pre self →
  processor_ok w Pre (with_parent self p).
Proof.
  intros Hm Hp Hself. destruct (mo_processor _ _ Hm _ _ Hp) as (Hc & Hv & Ht & Hpa).
  split; simpl; try done. destruct (p_parent p) eqn:E; [done|].
  eapply sealer_safe_weaken; [|by apply Hpa]. done.
Qed.

(** What [resolveActiveKey] found. *)
Definition resolved (w : world) (t k : string) (kv : KeyVersion) : Prop :=
  (∃ i, db_kvs (w_db w) !! i = Some kv) ∧
  uuid_column t = Some (kv_TenantID kv) ∧ uuid_column k = Some (kv_KeyID kv).

Lemma wp_resolveActiveKey t k v w :
  wf w → wp (resolveActiveKey t k v) w (λ r w', resolved w t k r.2).
Proof.
  intros Hw. unfold resolveActiveKey.
  eapply (wp_bind _ _ _ (λ kv w', w_db w' = w_db w ∧ (∃ i, db_kvs (w_db w) !! i = Some kv) ∧
     uuid_column t = Some (kv_TenantID kv) ∧ (k = "" ∨ uuid_column k = Some (kv_KeyID kv)))).
  - unfold resolveUsableKeyVersion. cbv zeta.
    eapply wp_bind; [apply wp_read_only; [apply read_only_ListKeyVersions|done]|].
    intros [|kv l] w1 Hw1 Hg1 [_ [Hdb Hl]%ListKeyVersions_Ok]; [by apply wp_throw|].
    apply wp_ret; [done|]. split; [done|]. apply Hl. left.
  - intros kv w1 Hw1 Hg1 (Hdb & Hi & Ht & Hk).
    eapply wp_bind; [apply wp_read_only; [apply read_only_GetKeyByID|done]|].
    intros key w2 Hw2 Hg2 [_ Hkey]. destruct (negb _); [by apply wp_throw|]. apply wp_ret; [done|].
    split_and!; [done..|]. destruct Hk as [-> |]; [|done].
    unfold GetKeyByID in Hkey. by rewrite bind_arg_uuid_eq in Hkey.
Qed.

Lemma resolved_parent_served w rank fuel t k kv :
  ranked (w_db w) rank → resolved w t k kv → within rank (S fuel) t k →
  parent_served (within rank fuel) kv.
Proof.
  intros Hr ((i & Hi) & Ht & Hk) Hf q Hq. unfold within in *. specialize (Hr _ _ _ Hi Hq).
  assert (canon t = canon (kv_TenantID kv)) as Et by (unfold canon; rewrite Ht; simpl; by rewrite (uuid_column_canonical _ _ Ht)).
  assert (canon k = canon (kv_KeyID kv)) as Ek by (unfold canon; rewrite Hk; simpl; by rewrite (uuid_column_canonical _ _ Hk)).
  rewrite Et, Ek in Hf. lia.
Qed.

Section levels.
Context (w0 : world) (rank : string → string → nat) (m : Manager).
Hypothesis Hrank : ranked (w_db w0) rank.
Hypothesis Hm : manager_ok w0 m.

Lemma wp_resolveProcessorAndSecret fuel self t k v w :
  sealer_safe w0 (within rank fuel) self → wf w → grows w0 w → within rank (S fuel) t k →
  wp (resolveProcessorAndSecret self m t k v) w
    (λ r w', processor_ok w0 (within rank fuel) r.1 ∧ valid w' (sec_Data r.2)).
Proof.
  intros Hself Hw Hg Hf. unfold resolveProcessorAndSecret.
  eapply wp_bind; [by apply wp_resolveActiveKey|]. intros [key kv] w1 Hw1 Hg1 Hres. simpl in Hres.
  destruct (m_processors m !! k_Kind key) as [p|] eqn:Hp; [|by apply wp_throw].
  assert (processor_ok w0 (within rank fuel) (with_parent self p)) as Hpo by (by eapply with_parent_ok).
  eapply wp_bind; [eapply wp_resolveSecret; [exact Hpo|done|by etrans|]|].
  - eapply resolved_parent_served; [|exact Hres|exact Hf]. by rewrite (grows_db _ _ Hg).
  - intros s w2 Hw2 _ Hs. by apply wp_ret.
Qed.

Lemma manager_sealer_safe fuel : sealer_safe w0 (within rank fuel) (manager_sealer fuel m).
Proof.
  induction fuel as [|fuel IH]; [split; intros w req ? ? Hpre; unfold within in Hpre; lia|].
  split; intros w req Hw Hg Hpre Hp; simpl; unfold Manager_Seal, Manager_Unseal;
    (destruct (Z.eqb _ _); [by apply wp_throw|]);
    (eapply wp_bind; [by eapply wp_resolveProcessorAndSecret|]);
    intros [proc sec] w1 Hw1 Hg1 [Hproc Hsec]; simpl in *;
    (apply wp_defer_destroy; [intros ? ? ? Hgr; by apply (grows_valid _ _ (Some _))|done|by apply valid_ptr_ok|]).
  - eapply wp_encrypt; [exact Hproc|done|by apply valid_ptr_ok|]. simpl. eauto with mem.
  - eapply wp_decrypt; [exact Hproc|done|by apply valid_ptr_ok|]. simpl. eauto with mem.
Qed.

Lemma wp_GenerateAndSealSecret fuel kv aad kind w :
  wf w → grows w0 w → parent_served (within rank fuel) kv →
  wp (Manager_GenerateAndSealSecret (manager_sealer fuel m) m kv aad kind) w (λ _ _, True).
Proof.
  intros Hw Hg Hkv. unfold Manager_GenerateAndSealSecret.
  destruct (m_processors m !! kind) as [p|] eqn:Hp; [|by apply wp_throw].
  eapply wp_createSecret; [|done|exact Hg|exact Hkv].
  eapply with_parent_ok; [done|exact Hp|apply manager_sealer_safe].
Qed.
End levels.
End manager_safe.
