(* ===== verification/ManagerSafety.v ===== *)
(** * The manager built from a configuration is safe

    [NewManager] (internal/keyprocessor/manager.go) turns bindings into
    processors.  When every binding has a cryptor and a vault, what it builds
    keeps, in every later state, the promise [KeyManager] makes to the task
    handlers, and climbing the hierarchy ends: [SealingSafety] has the parts. *)

From S2P Require Import Prelude GoStrings GoRuntime Model World Lifecycle Providers Hierarchy.
From S2P Require Import Sql KeyStore KeyVersionStore StoreInvariant Validator SecureMem SecureMemTheorems.
From S2P Require Import AesGcm Cryptor Sealers Vault KeyProcessor RootManager SealingSafety.

Local Open Scope string_scope.

(** Objects stay allocated: a later state of the process. *)
Definition later (w w' : world) : Prop := ∀ l, valid w (Some l) → valid w' (Some l).
Lemma grows_later w w' : grows w w' → later w w'.
Proof. intros Hg l. by apply grows_valid. Qed.
Lemma later_trans w1 w2 w3 : later w1 w2 → later w2 w3 → later w1 w3.
Proof. intros H1 H2 l Hl. auto. Qed.

Definition always_safe `{ENV : Env} (w : world) (s : Sealer) : Prop := ∀ w', later w w' → sealer_safe w' any_key s.

(** Every binding has a cryptor and a vault, and the root manager is safe. *)
Record complete `{ENV : Env} (cfg : ManagerConfig) : Prop := {
  cp_cryptor : ∀ kind b, mc_Bindings cfg !! kind = Some b → is_Some (kb_CryptorSpec b);
  cp_vault : ∀ kind b, mc_Bindings cfg !! kind = Some b → is_Some (kb_VaultSpec b);
  cp_root : ∀ root w, mc_RootManager cfg = Some root → sealer_safe w any_key root;
}.

Section new_manager.
Context {ENV : Env} {G : GCM} {OS : OsEnv} {BAO : OpenBao} {CLI : SealerClient} `{!OpenBaoRemote} `{!SealerClientRemote}.

Record proc_ready {P} (w : world) (p : processor P) : Prop := {
  pr_cryptor : is_Some (p_cryptor p);
  pr_vault : ∃ v, p_vault p = Some v ∧ vault_safe v;
  pr_transport : ∀ s, p_transportSealer p = Some s → always_safe w s;
}.

Lemma wp_newProcessor {P} b (parent : P) w :
  wf w → is_Some (kb_CryptorSpec b) → is_Some (kb_VaultSpec b) →
  wp (newProcessor b parent) w (λ p w', proc_ready w' p ∧ p_parent p = parent).
Proof.
  intros Hw [cs Hcs] [vs Hvs]. unfold newProcessor. rewrite Hcs, Hvs.
  eapply (wp_bind _ _ _ (λ c w', w' = w ∧ is_Some c)).
  { unfold GetBundle. destruct (cr_Config cs) as [[]|]; [by apply wp_ret|by apply wp_throw]. }
  intros c ? _ _ [-> Hc].
  eapply wp_bind; [eapply wp_bind; [by apply wp_GetVault|]|].
  { intros v w1 Hw1 _ Hv. apply wp_ret; [done|]. instantiate (1 := λ o _, ∃ v, o = Some v ∧ vault_safe v). by exists v. }
  intros v w1 Hw1 _ Hv.
  eapply (wp_bind _ _ _ (λ t w', ∀ s, t = Some s → always_safe w' s)).
  { destruct (kb_SealerSpec b) as [spec|]; [|by apply wp_ret].
    eapply wp_bind; [by apply wp_GetSealer|]. intros s w2 Hw2 _ Hs. apply wp_ret; [done|].
    intros ? [= <-] w' Hl. by apply static_sealer_safe, Hl. }
  intros t w2 Hw2 _ Ht. by apply wp_ret.
Qed.

Definition parent_safe (r : ParentRef) : Prop := ∀ s, r = PSealer s → ∀ w, sealer_safe w any_key s.

Lemma resolveParent_safe cfg kind b r : complete cfg → resolveParent cfg kind b = inl r → parent_safe r.
Proof.
  intros Hc. unfold resolveParent, resolveRemoteParent, resolveLocalParent, NewRPCManager.
  repeat case_match; intros; simplify_eq; intros sx Hsx wx; simplify_eq; first [apply rpc_sealer_safe|by eapply cp_root].
Qed.
Lemma resolveParent_benign cfg kind b e : resolveParent cfg kind b = inr e → benign e.
Proof.
  unfold resolveParent, resolveRemoteParent, resolveLocalParent, NewRPCManager.
  repeat case_match; intros; by simplify_eq.
Qed.

(** What the loop of [NewManager] has built so far. *)
Definition built (w : world) (m : Manager) : Prop := ∀ kind p, m_processors m !! kind = Some p →
  proc_ready w p ∧ parent_safe (p_parent p).

Lemma built_later w w' m : later w w' → built w m → built w' m.
Proof.
  intros Hl Hb kind p Hp. destruct (Hb kind p Hp) as [[] Hpa]. split; [|done]. split; [done..|].
  intros s Hs w'' Hl'. eapply pr_transport0; [done|]. by eapply later_trans.
Qed.
Lemma built_ok w m : built w m → manager_ok w m.
Proof.
  intros Hb. split. intros kind p Hp. destruct (Hb kind p Hp) as [[] Hpa]. split_and!; [done..| |].
  - intros s Hs. apply (pr_transport0 s Hs). by intros l.
  - intros s Hs. by apply Hpa.
Qed.

Lemma wp_add_processor cfg m kind b w :
  complete cfg → mc_Bindings cfg !! kind = Some b → wf w → built w m →
  wp (add_processor cfg m (kind, b)) w (λ m' w', built w' m').
Proof.
  intros Hc Hb Hw Hm. unfold add_processor. destruct (KeyHierarchy.FindKeySpec _ _) as [sp|]; [|by apply wp_throw].
  destruct (String.eqb _ _); [by apply wp_ret|].
  destruct (resolveParent cfg kind b) as [r|e] eqn:Hr; [|apply wp_throw; [done|by eapply resolveParent_benign|done]].
  eapply wp_bind; [eapply wp_try, wp_newProcessor; [done|by eapply cp_cryptor|by eapply cp_vault]|].
  intros [p|e] w1 Hw1 Hg Hres; [|destruct Hres; apply wp_throw; eauto with mem]. destruct Hres as [Hp <-]. apply wp_ret; [done|].
  intros kind' p'. simpl. rewrite lookup_insert_Some. intros [[<- <-]|[_ Hp']].
  - split; [done|]. by eapply resolveParent_safe.
  - by eapply built_later; [by apply grows_later|exact Hm|].
Qed.

Lemma wp_NewManager cfg w : complete cfg → wf w → wp (NewManager cfg) w (λ m w', built w' m).
Proof.
  intros Hc Hw. unfold NewManager. destruct (negb _); [by apply wp_throw|]. destruct (negb _); [by apply wp_throw|].
  eapply wp_post; [apply (wp_foldM _ (λ _ m w', built w' m)); [done|by intros ???|]|by intros ? ? _ _ HQ].
  intros visited [kind b] m w1 Hx Hw1 Hg Hm. apply elem_of_map_to_list in Hx. by apply wp_add_processor.
Qed.

(** C10: a manager that [NewManager] builds from bindings with a cryptor and a
    vault keeps the promise [KeyManager] makes to the task handlers, in every
    later state: generating and sealing a secret changes neither the database
    nor the messages sent, returns whichever system call, vault or remote parent
    fails, and its errors are no task dispositions.  As many levels are climbed
    as the key's ancestors have. *)
Theorem manager_keeps_the_promise cfg m rank n kv aad kind w w1 w2 :
  complete cfg → wf w → NewManager cfg w = (Ok m, w1) →
  later w1 w2 → wf w2 → ranked (w_db w2) rank → parent_served (within rank n) kv →
  let r := Manager_GenerateAndSealSecret (manager_sealer n m) m kv aad kind w2 in
  w_db r.2 = w_db w2 ∧ w_resp r.2 = w_resp w2 ∧ wf r.2 ∧
  match r.1 with Ok _ => True | Err e => errors_AsOrbital e = None | Panic | Diverge => False end.
Proof.
  intros Hc Hw Hnew Hl Hw2 Hrank Hkv. pose proof (wp_NewManager cfg w Hc Hw) as (_ & _ & Hb). rewrite Hnew in Hb. simpl in Hb.
  assert (manager_ok w2 m) as Hm by (by eapply built_ok, built_later).
  destruct (wp_GenerateAndSealSecret w2 rank m Hrank Hm n kv aad kind w2) as (Hwf & [_ _ Hd Hr] & HQ); [done..|].
  split_and!; [done..|]. destruct (Manager_GenerateAndSealSecret _ _ _ _ _ w2).1; naive_solver.
Qed.

(** C34: sealing and unsealing with a key end for every key of a database in
    which no key is its own ancestor, however the vaults, the remote parents and
    the system calls answer: with one level of recursion per ancestor the manager
    returns, a result or an error, and leaves the database alone. *)
Theorem manager_sealing_ends cfg m rank n w w1 w2 sreq ureq :
  complete cfg → wf w → NewManager cfg w = (Ok m, w1) → later w1 w2 → wf w2 → ranked (w_db w2) rank →
  within rank n (sr_TenantID sreq) (sr_KeyID sreq) → ptr_ok w2 (sr_Plaintext sreq) →
  within rank n (ur_TenantID ureq) (ur_KeyID ureq) → ptr_ok w2 (ur_Ciphertext ureq) →
  let returns (r : result positive * world) :=
    w_db r.2 = w_db w2 ∧ wf r.2 ∧
    match r.1 with Ok l => valid r.2 (Some l) | Err e => errors_AsOrbital e = None | Panic | Diverge => False end in
  returns (Seal (manager_sealer n m) sreq w2) ∧ returns (Unseal (manager_sealer n m) ureq w2).
Proof.
  intros Hc Hw Hnew Hl Hw2 Hrank Hs Hsp Hu Hup. pose proof (wp_NewManager cfg w Hc Hw) as (_ & _ & Hb).
  rewrite Hnew in Hb. simpl in Hb. assert (manager_ok w2 m) as Hm by (by eapply built_ok, built_later).
  destruct (manager_sealer_safe w2 rank m Hrank Hm n) as [HS HU].
  destruct (HS w2 sreq) as (? & [_ _ ? _] & HQ1); [done..|]. destruct (HU w2 ureq) as (? & [_ _ ? _] & HQ2); [done..|].
  split; (split_and!; [done..|]).
  - destruct (Seal _ _ w2).1; naive_solver.
  - destruct (Unseal _ _ w2).1; naive_solver.
Qed.
End new_manager.
