(* ===== verification/SealingEffects.v ===== *)
(** * What the memory operations do when no system call fails

    [bytes_of w l] is what the object [l] holds, [None] once it is destroyed (or
    before it exists).  The effect of an operation is stated as a frame: outside a
    list [X] of objects nothing holds anything else than before ([kept]).  So an
    operation that leaves no secret behind has the empty frame.  A call that ends
    in the root manager also leaves new objects, those its provider's secret was
    loaded into; the frame [keeps R] allows for new objects whose bytes satisfy
    [R].  The lemmas of this file refine those of [SecureMemTheorems] for the environments without
    faults ([NoFaults]); the errors the code itself decides on remain. *)

From S2P Require Import Prelude GoStrings GoRuntime Model World SecureMem SecureMemTheorems.

Local Open Scope string_scope.

Definition bytes_of (w : world) (l : positive) : option string :=
  d ← sm_heap (w_sm w) !! l; r ← d_data d; r_bytes <$> sm_mem (w_sm w) !! r.

(** Outside the objects [X] and the vaults [V] nothing has changed. *)
Record kept (X V : list positive) (w w' : world) : Prop := {
  kept_bytes : ∀ l, l ∉ X → bytes_of w' l = bytes_of w l;
  kept_vaults : ∀ v m, v ∉ V → vault_is w v m → vault_is w' v m;
}.

Lemma kept_refl X V w : kept X V w w.
Proof. by split. Qed.
Lemma kept_trans X1 X2 X V1 V2 V w1 w2 w3 :
  (∀ l, l ∈ X1 → l ∈ X) → (∀ l, l ∈ X2 → l ∈ X) → (∀ v, v ∈ V1 → v ∈ V) → (∀ v, v ∈ V2 → v ∈ V) →
  kept X1 V1 w1 w2 → kept X2 V2 w2 w3 → kept X V w1 w3.
Proof.
  intros HX1 HX2 HV1 HV2 [Hb1 Hv1] [Hb2 Hv2]. split.
  - intros l Hl. rewrite Hb2, Hb1; eauto.
  - intros v m Hv Hm. apply Hv2; [by eauto|]. apply Hv1; eauto.
Qed.
Lemma kept_weaken X X' V V' w w' :
  (∀ l, l ∈ X → l ∈ X') → (∀ v, v ∈ V → v ∈ V') → kept X V w w' → kept X' V' w w'.
Proof. intros HX HV [Hb Hv]. split; intros; eauto. Qed.

(** An object that holds what it held before need not be listed. *)
Lemma kept_drop l X V w w' : bytes_of w' l = bytes_of w l → kept (l :: X) V w w' → kept X V w w'.
Proof.
  intros Hl [Hb Hv]. split; [|done]. intros l' Hl'. destruct (decide (l' = l)) as [->|]; [done|].
  apply Hb. rewrite not_elem_of_cons. done.
Qed.
Lemma kept_same w w' : w_sm w' = w_sm w → kept [] [] w w'.
Proof. intros Hs. split; unfold bytes_of, vault_is; by rewrite Hs. Qed.

(** ** Frames with a residue *)

(** [l] holds what it held before, or it is new and its bytes satisfy [R]. *)
Definition same_or_residue (R : string → Prop) (w w' : world) (l : positive) : Prop :=
  bytes_of w' l = bytes_of w l ∨ (bytes_of w l = None ∧ ∃ b, bytes_of w' l = Some b ∧ R b).

(** Nothing may be left. *)
Definition no_residue : string → Prop := λ _, False.

Record keeps (R : string → Prop) (X V : list positive) (w w' : world) : Prop := {
  keeps_bytes : ∀ l, l ∉ X → same_or_residue R w w' l;
  keeps_vaults : ∀ v m, v ∉ V → vault_is w v m → vault_is w' v m;
}.
Arguments keeps_bytes {R X V w w'}.
Arguments keeps_vaults {R X V w w'}.

Section residue.
Context (R : string → Prop).

Lemma kept_keeps X V w w' : kept X V w w' → keeps R X V w w'.
Proof. intros [Hb Hv]. split; [|done]. intros l Hl. left. by apply Hb. Qed.
Lemma keeps_refl X V w : keeps R X V w w.
Proof. apply kept_keeps, kept_refl. Qed.

Lemma residue_trans w1 w2 w3 l :
  same_or_residue R w1 w2 l → same_or_residue R w2 w3 l → same_or_residue R w1 w3 l.
Proof.
  intros [H1|[H1 (b & H2 & Hb)]] [H3|[H3 (b' & H4 & Hb')]].
  - left. congruence.
  - right. split; [congruence|]. by exists b'.
  - right. split; [done|]. exists b. split; [congruence|done].
  - congruence.
Qed.
Lemma keeps_trans X1 X2 X V1 V2 V w1 w2 w3 :
  (∀ l, l ∈ X1 → l ∈ X) → (∀ l, l ∈ X2 → l ∈ X) → (∀ v, v ∈ V1 → v ∈ V) → (∀ v, v ∈ V2 → v ∈ V) →
  keeps R X1 V1 w1 w2 → keeps R X2 V2 w2 w3 → keeps R X V w1 w3.
Proof.
  intros HX1 HX2 HV1 HV2 [Hb1 Hv1] [Hb2 Hv2]. split.
  - intros l Hl. apply (residue_trans _ w2); eauto.
  - intros v m Hv Hm. apply Hv2; [by eauto|]. apply Hv1; eauto.
Qed.
(** A step without residue after or before one with. *)
Lemma keeps_kept_r X1 X2 X V1 V2 V w1 w2 w3 :
  (∀ l, l ∈ X1 → l ∈ X) → (∀ l, l ∈ X2 → l ∈ X) → (∀ v, v ∈ V1 → v ∈ V) → (∀ v, v ∈ V2 → v ∈ V) →
  keeps R X1 V1 w1 w2 → kept X2 V2 w2 w3 → keeps R X V w1 w3.
Proof. intros. eapply keeps_trans; [..|done|by apply kept_keeps]; done. Qed.
Lemma keeps_kept_l X1 X2 X V1 V2 V w1 w2 w3 :
  (∀ l, l ∈ X1 → l ∈ X) → (∀ l, l ∈ X2 → l ∈ X) → (∀ v, v ∈ V1 → v ∈ V) → (∀ v, v ∈ V2 → v ∈ V) →
  kept X1 V1 w1 w2 → keeps R X2 V2 w2 w3 → keeps R X V w1 w3.
Proof. intros. eapply keeps_trans; [..|by apply kept_keeps|done]; done. Qed.

Lemma keeps_weaken X X' V V' w w' :
  (∀ l, l ∈ X → l ∈ X') → (∀ v, v ∈ V → v ∈ V') → keeps R X V w w' → keeps R X' V' w w'.
Proof. intros HX HV [Hb Hv]. split; intros; eauto. Qed.
Lemma keeps_drop l X V w w' : same_or_residue R w w' l → keeps R (l :: X) V w w' → keeps R X V w w'.
Proof.
  intros Hl [Hb Hv]. split; [|done]. intros l' Hl'. destruct (decide (l' = l)) as [->|]; [done|].
  apply Hb. rewrite not_elem_of_cons. done.
Qed.
(** Objects that were not there before and are not there any more. *)
Lemma keeps_dead X Y V w w' :
  keeps R (X ++ Y) V w w' → (∀ l, l ∈ X → bytes_of w l = None ∧ bytes_of w' l = None) → keeps R Y V w w'.
Proof.
  intros [Hb Hv] HX. split; [|done]. intros l Hl. destruct (decide (l ∈ X)) as [HlX|HlX].
  - left. by destruct (HX l HlX) as [-> ->].
  - apply Hb. rewrite elem_of_app. tauto.
Qed.
(** What is there stays, and what is not there at the end never was. *)
Lemma keeps_live X V w w' l b : keeps R X V w w' → l ∉ X → bytes_of w l = Some b → bytes_of w' l = Some b.
Proof. intros Hk Hl Hb. destruct (keeps_bytes Hk l Hl) as [?|[? _]]; congruence. Qed.
Lemma keeps_none X V w w' l : keeps R X V w w' → l ∉ X → bytes_of w' l = None → bytes_of w l = None.
Proof. intros Hk Hl Hb. destruct (keeps_bytes Hk l Hl) as [?|[? _]]; congruence. Qed.
Lemma keeps_same_l X V w w' w'' : w_sm w' = w_sm w → keeps R X V w' w'' → keeps R X V w w''.
Proof. intros Hs Hk. eapply keeps_kept_l; [..|by apply kept_same|exact Hk]; set_solver. Qed.
End residue.
Arguments keeps_live {R X V w w' l b}.
Arguments keeps_none {R X V w w' l}.

Lemma keeps_mono (R R' : string → Prop) X V w w' : (∀ b, R b → R' b) → keeps R X V w w' → keeps R' X V w w'.
Proof.
  intros HR [Hb Hv]. split; [|done]. intros l Hl.
  destruct (Hb l Hl) as [?|(? & b & ? & ?)]; [by left|right; eauto].
Qed.
Lemma keeps_kept X V w w' : keeps no_residue X V w w' → kept X V w w'.
Proof. intros [Hb Hv]. split; [|done]. intros l Hl. by destruct (Hb l Hl) as [?|(_ & b & _ & [])]. Qed.

Lemma holds_bytes w l n b ro : holds w l n b ro → bytes_of w l = Some b.
Proof. intros (r & Hl & Hr). unfold bytes_of. rewrite Hl. simpl. by rewrite Hr. Qed.
Lemma dead_bytes w l : dead w l → bytes_of w l = None.
Proof. intros (d & Hl & Hd). unfold bytes_of. rewrite Hl. simpl. by rewrite Hd. Qed.
Lemma bytes_nonempty w l b : wf w → bytes_of w l = Some b → b ≠ "".
Proof.
  intros Hw. unfold bytes_of. destruct (sm_heap (w_sm w) !! l) as [d|] eqn:Hl; [|done]. simpl.
  destruct (d_data d) as [r|] eqn:Hd; [|done]. simpl.
  destruct (wf_own _ Hw _ _ _ Hl Hd) as (reg & Hr & _ & _ & Hb). rewrite Hr. by intros [= <-].
Qed.
Lemma bytes_valid w l b : bytes_of w l = Some b → valid w (Some l).
Proof. unfold bytes_of. destruct (sm_heap (w_sm w) !! l) eqn:E; [|done]. intros _. simpl. by rewrite E. Qed.
Lemma bytes_fresh w l : sm_heap (w_sm w) !! l = None → bytes_of w l = None.
Proof. intros H. unfold bytes_of. by rewrite H. Qed.

(** ** The changes of state *)

Section changes.
Context (w w' : world) (Hw : wf w).

(** Objects other than [l] do not share its region. *)
Lemma other_region l l' d d' r r' :
  sm_heap (w_sm w) !! l = Some d → d_data d = Some r → sm_heap (w_sm w) !! l' = Some d' → d_data d' = Some r' →
  l' ≠ l → r' ≠ r.
Proof.
  intros Hl Hd Hl' Hd' Hne ->. apply Hne. eapply (wf_inj _ Hw); [by exists d'|by exists d].
Qed.

(** [l] and its region change; the rest of the memory does not. *)
Lemma bytes_of_other l r d d1 reg1 l' :
  sm_heap (w_sm w) !! l = Some d → d_data d = Some r →
  sm_heap (w_sm w') = <[l := d1]> (sm_heap (w_sm w)) → sm_mem (w_sm w') = <[r := reg1]> (sm_mem (w_sm w)) →
  l' ≠ l → bytes_of w' l' = bytes_of w l'.
Proof.
  intros Hl Hd Hh Hm Hne. unfold bytes_of. rewrite Hh, Hm, lookup_insert_ne by done.
  destruct (sm_heap (w_sm w) !! l') as [d'|] eqn:Hl'; [|done]. simpl.
  destruct (d_data d') as [r'|] eqn:Hd'; [|done]. simpl.
  rewrite lookup_insert_ne; [done|]. intros <-. by eapply (other_region l l').
Qed.

Lemma kept_update l r d d1 reg1 :
  sm_heap (w_sm w) !! l = Some d → d_data d = Some r →
  sm_heap (w_sm w') = <[l := d1]> (sm_heap (w_sm w)) → sm_mem (w_sm w') = <[r := reg1]> (sm_mem (w_sm w)) →
  sm_mvs (w_sm w') = sm_mvs (w_sm w) → kept [l] [] w w'.
Proof.
  intros Hl Hd Hh Hm Hv. split; [|unfold vault_is; by rewrite Hv].
  intros l' Hl'. eapply bytes_of_other; [done..|]. intros ->. apply Hl'. left.
Qed.
End changes.

Section no_faults.
Context {ENV : Env} {NF : NoFaults}.

Lemma external_nf what w : external what w = (Ok (), tick w).
Proof. unfold external. by rewrite NF. Qed.

Lemma nf_external what w E : wf w → wpe (external what) w (λ _ w', w_sm w' = w_sm w) E.
Proof. intros Hw. unfold wpe. rewrite external_nf. split; [|split]; [done|by apply grows_same|done]. Qed.

(** ** Allocation *)

Lemma mmap_nf n w :
  ∃ w', mmap n w = (Ok (sm_next (w_sm w)), w') ∧
    w_sm w' = mkSecmem (sm_heap (w_sm w)) (<[sm_next (w_sm w) := mkRegion (zeros n) true true]> (sm_mem (w_sm w)))
      (sm_mvs (w_sm w)) (Pos.succ (sm_next (w_sm w))).
Proof. unfold mmap. rewrite bind_run, external_nf. eexists. split; [reflexivity|]. reflexivity. Qed.

Lemma mem_call_nf what r n w :
  sm_mem (w_sm w) !! r = Some (mkRegion n true true) →
  err_of (on_mapped what r (λ _, mret ())) w = (Ok None, tick w).
Proof. intros Hr. rewrite err_of_run, (on_mapped_run _ _ _ _ _ Hr) by done. by rewrite NF. Qed.

Lemma NewData_nf name size w :
  (0 < size)%Z → ∃ w', NewData name size w = (Ok (Pos.succ (sm_next (w_sm w))), w') ∧
    w_sm w' = mkSecmem
      (<[Pos.succ (sm_next (w_sm w)) := mkData name (Some (sm_next (w_sm w))) false]> (sm_heap (w_sm w)))
      (<[sm_next (w_sm w) := mkRegion (zeros (Z.to_nat size)) true true]> (sm_mem (w_sm w)))
      (sm_mvs (w_sm w)) (Pos.succ (Pos.succ (sm_next (w_sm w)))).
Proof.
  intros Hs. unfold NewData. destruct (Z.leb_spec size 0); [lia|].
  destruct (mmap_nf (Z.to_nat size) w) as (w1 & Hmap & Hs1).
  assert (sm_mem (w_sm w1) !! sm_next (w_sm w) = Some (mkRegion (zeros (Z.to_nat size)) true true)) as Hr.
  { rewrite Hs1. simpl. apply lookup_insert_eq. }
  assert (alloc (Z.to_nat size) w = (Ok (sm_next (w_sm w)), tick (tick w1))) as Halloc.
  { unfold alloc, madvise, mlock. rewrite (bind_Ok _ _ _ _ _ Hmap).
    rewrite (bind_Ok _ _ _ _ _ (mem_call_nf _ _ _ w1 Hr)). cbv iota beta.
    by rewrite (bind_Ok _ _ _ _ _ (mem_call_nf _ _ _ (tick w1) Hr)). }
  rewrite (bind_Ok _ _ _ _ _ Halloc).
  exists (upd_heap <[sm_next (w_sm w1) := mkData name (Some (sm_next (w_sm w))) false]>
    (set_sm (mkSecmem (sm_heap (w_sm w1)) (sm_mem (w_sm w1)) (sm_mvs (w_sm w1)) (Pos.succ (sm_next (w_sm w1))))
       (tick (tick w1)))).
  split; [|simpl; by rewrite Hs1]. unfold fresh, mbind, comp_bind. simpl. by rewrite Hs1.
Qed.

Lemma nf_NewData name size w E :
  wf w → (0 < size)%Z →
  wpe (NewData name size) w (λ l w', kept [l] [] w w' ∧ sm_heap (w_sm w) !! l = None ∧
    holds w' l name (zeros (Z.to_nat size)) false ∧ sm_mvs (w_sm w') = sm_mvs (w_sm w)) E.
Proof.
  intros Hw Hs. destruct (wp_NewData name size w Hw) as (Hw' & Hg & H).
  destruct (NewData_nf name size w Hs) as (w' & Hrun & Hsm). unfold wpe. rewrite Hrun in *. simpl in *.
  assert (sm_heap (w_sm w) !! Pos.succ (sm_next (w_sm w)) = None) as Hfresh.
  { destruct (_ !! _) eqn:E'; [|done]. apply (wf_heap_lt _ Hw) in E'. lia. }
  split_and!; try done; [|by rewrite Hsm]. split.
  - intros l Hl. rewrite list_elem_of_singleton in Hl. unfold bytes_of. rewrite Hsm. simpl.
    rewrite lookup_insert_ne by done. destruct (sm_heap (w_sm w) !! l) as [d|] eqn:Hd; [|done]. simpl.
    destruct (d_data d) as [r|] eqn:Hr; [|done]. simpl. rewrite lookup_insert_ne; [done|].
    destruct (wf_own _ Hw _ _ _ Hd Hr) as (reg & Hreg & _). intros <-. apply (wf_mem_lt _ Hw) in Hreg. lia.
  - intros v m _. unfold vault_is. by rewrite Hsm.
Qed.

(** ** Reading and writing *)

Lemma len_bytes w l b E :
  wf w → bytes_of w l = Some b →
  wpe (s ← SecureBytes (Some l); len s) w (λ n w', w' = w ∧ n = Z.of_nat (String.length b)) E.
Proof.
  intros Hw Hb. unfold bytes_of in Hb. destruct (sm_heap (w_sm w) !! l) as [d|] eqn:Hl; [|done].
  simpl in Hb. destruct (d_data d) as [r|] eqn:Hd; [|done]. simpl in Hb.
  destruct (sm_mem (w_sm w) !! r) as [reg|] eqn:Hr; [|done]. injection Hb as <-.
  unfold wpe. rewrite (bind_Ok _ _ _ _ _ (SecureBytes_run _ _ _ Hl)), Hd. simpl.
  rewrite bind_run. unfold load_region. rewrite Hr. simpl. by split_and!.
Qed.

Lemma write_nf w l n b (f : string → string) r E :
  wf w → sm_heap (w_sm w) !! l = Some (mkData n (Some r) false) →
  sm_mem (w_sm w) !! r = Some (mkRegion b true true) → f b ≠ "" →
  wpe (write_region r f) w (λ _ w', kept [l] [] w w' ∧ sm_mvs (w_sm w') = sm_mvs (w_sm w) ∧
    sm_heap (w_sm w') = sm_heap (w_sm w) ∧
    sm_mem (w_sm w') !! r = Some (mkRegion (f b) true true)) E.
Proof.
  intros Hw Hl Hr Hf. unfold write_region, wpe. rewrite bind_run. unfold load_region. rewrite Hr. simpl.
  assert (sm_heap (w_sm w) = <[l := mkData n (Some r) false]> (sm_heap (w_sm w))) as Hid by (by rewrite insert_id).
  split; [|split; [by split|split_and!; try done]].
  - rewrite Hid. apply wf_owned_region; simpl; try done. by eexists.
  - eapply (kept_update _ _ Hw); try done.
  - simpl. apply lookup_insert_eq.
Qed.

(** ** Destroying and protecting *)

Lemma nf_Data_Destroy l w E :
  wf w → valid w (Some l) →
  wpe (Data_Destroy (Some l)) w (λ _ w', kept [l] [] w w' ∧ bytes_of w' l = None ∧
    sm_mvs (w_sm w') = sm_mvs (w_sm w)) E.
Proof.
  intros Hw Hl. destruct (wp_Data_Destroy (Some l) w) as (Hw' & Hg & H); [done..|].
  destruct Hl as [d Hl]. destruct (Data_Destroy_cases l d w Hw Hl) as (res & w' & Hrun & _ & Hcases).
  unfold wpe. rewrite Hrun in *. simpl in *. destruct (d_data d) as [r|] eqn:Hd.
  - destruct Hcases as [(_ & _ & _ & Hnf)|(reg & m & Hr & Hs & Hres)]; [by destruct (Hnf NF)|].
    destruct (Hres NF) as [-> ->]. simpl in *. destruct H as [_ Hdead]. split_and!; try done.
    + eapply (kept_update _ _ Hw); [done..| | |]; by rewrite Hs.
    + by apply dead_bytes, Hdead.
    + by rewrite Hs.
  - destruct Hcases as [-> ->]. destruct H as [_ Hdead]. split_and!; try done; first [apply kept_refl|by apply dead_bytes, Hdead].
Qed.

Lemma nf_MarkReadOnly l w E :
  wf w → valid w (Some l) →
  wpe (MarkReadOnly (Some l)) w (λ _ w', kept [] [] w w' ∧ sm_mvs (w_sm w') = sm_mvs (w_sm w)) E.
Proof.
  intros Hw Hl. destruct (wp_MarkReadOnly (Some l) w Hw Hl) as (Hw' & Hg & H).
  assert (kept [] [] w (MarkReadOnly (Some l) w).2) as Hk.
  { destruct Hl as [d Hl]. unfold MarkReadOnly, deref. rewrite bind_run. simpl. rewrite bind_run.
    unfold load_data. rewrite Hl. simpl. destruct (d_data d) as [r|] eqn:Hd; [|apply kept_refl].
    destruct (d_isReadOnly d) eqn:Hro; [apply kept_refl|].
    destruct (wf_own _ Hw _ _ _ Hl Hd) as (reg & Hr & Hm & _).
    rewrite bind_run, err_of_run. unfold readonly, mprotect. rewrite (on_mapped_run _ _ _ _ reg) by done.
    rewrite NF. simpl. eapply (kept_drop l); [|eapply (kept_update _ _ Hw); [done..|]; done].
    unfold bytes_of. simpl. rewrite lookup_insert_eq, Hl. simpl. rewrite Hd. simpl.
    by rewrite lookup_insert_eq, Hr. }
  unfold wpe. split_and!; [done..|]. destruct (MarkReadOnly (Some l) w) as [[] w']; simpl in *; try done.
  - by destruct H.
  - destruct H as (_ & _ & _ & Hf). by destruct (Hf NF).
Qed.

(** The collector's clean-up of an object nothing refers to: its bytes are
    wiped, and no other object changes. *)
Lemma nf_NewData_cleanup l b w :
  wf w → bytes_of w l = Some b →
  ∃ w', NewData_cleanup l w = (Ok (), w') ∧ (∀ x, bytes_of w' x = if decide (x = l) then None else bytes_of w x) ∧
    ∀ r, owns (w_sm w) l r → sm_mem (w_sm w') !! r = Some (mkRegion (zeros (String.length b)) true false).
Proof.
  intros Hw Hb. unfold bytes_of in Hb. destruct (sm_heap (w_sm w) !! l) as [d|] eqn:Hl; [|done].
  simpl in Hb. destruct (d_data d) as [r|] eqn:Hd; [|done]. simpl in Hb.
  destruct (wf_own _ Hw _ _ _ Hl Hd) as (reg & Hr & Hm & _). rewrite Hr in Hb. injection Hb as <-.
  set (t := sm_next (w_sm w)).
  assert (sm_heap (w_sm w) !! t = None) as Hfresh.
  { destruct (_ !! t) eqn:E'; [|done]. apply (wf_heap_lt _ Hw) in E'. subst t. lia. }
  unfold NewData_cleanup, dataCleanupRef_Destroy, load_data, fresh, store_data. rewrite bind_run, Hl. simpl.
  rewrite bind_run. simpl. rewrite bind_run, err_of_run, bind_run. simpl. rewrite bind_run. simpl.
  unfold Data_Destroy, load_data. rewrite bind_run. simpl. rewrite lookup_insert_eq. simpl. rewrite Hd. simpl.
  unfold readwrite, mprotect. rewrite !bind_run, (on_mapped_run _ _ _ _ reg) by done. rewrite NF. simpl.
  set (w1 := upd_heap _ _). unfold defer.
  destruct (unalloc_cases r w1 (mkRegion (r_bytes reg) true true)) as (res & w2 & m & -> & _ & Hnf & Hs);
    [by subst w1; simpl; rewrite lookup_insert_eq|done..|].
  destruct (Hnf NF) as [-> ->]. simpl. eexists. split; [reflexivity|]. split.
  - intros x. unfold bytes_of. simpl. rewrite Hs. subst w1. simpl. rewrite !insert_insert_eq.
    destruct (decide (x = t)) as [->|Hxt].
    { rewrite lookup_insert_eq. simpl. rewrite Hfresh. by destruct (decide _). }
    rewrite lookup_insert_ne by done. destruct (decide (x = l)) as [->|Hxl]; [by rewrite lookup_delete_eq|].
    rewrite lookup_delete_ne by done. destruct (sm_heap (w_sm w) !! x) as [d'|] eqn:Hx; [|done]. simpl.
    destruct (d_data d') as [r'|] eqn:Hd'; [|done]. simpl. rewrite !lookup_insert_ne; [done|..];
      intros <-; by apply (other_region w Hw l x d d' r r).
  - intros r' (d' & Hd' & Hr'). assert (r' = r) as -> by congruence. simpl. rewrite Hs. simpl. by rewrite lookup_insert_eq.
Qed.
End no_faults.

(** ** Vaults *)

(** The objects of a vault. *)
Definition objects (m : gmap string positive) : list positive := (map_to_list m).*2.
Lemma elem_of_objects m l : l ∈ objects m ↔ ∃ n, m !! n = Some l.
Proof.
  unfold objects. rewrite list_elem_of_fmap. split.
  - intros ([n l'] & -> & H%elem_of_map_to_list). eauto.
  - intros (n & H). exists (n, l). by rewrite elem_of_map_to_list.
Qed.
Lemma objects_empty : objects ∅ = [].
Proof. unfold objects. by rewrite map_to_list_empty. Qed.
Lemma objects_singleton n l : objects {[n := l]} = [l].
Proof. unfold objects. by rewrite map_to_list_singleton. Qed.

(** The slice [s] is the unprotected memory of [l], which holds [b]. *)
Definition slice_of (w : world) (l : positive) (s : option positive) (n b : string) : Prop :=
  ∃ r, s = Some r ∧ sm_heap (w_sm w) !! l = Some (mkData n (Some r) false) ∧
       sm_mem (w_sm w) !! r = Some (mkRegion b true true).

Lemma slice_bytes w l s n b : slice_of w l s n b → bytes_of w l = Some b.
Proof. intros (r & _ & Hl & Hr). eapply holds_bytes. by exists r. Qed.

Section vault_effects.
Context {ENV : Env} {NF : NoFaults}.

Lemma nf_write_region w l s n b f E :
  wf w → slice_of w l s n b → f b ≠ "" →
  wpe (match s with None => mret () | Some r => write_region r f end) w
    (λ _ w', kept [l] [] w w' ∧ sm_mvs (w_sm w') = sm_mvs (w_sm w) ∧ slice_of w' l s n (f b)) E.
Proof.
  intros Hw (r & -> & Hl & Hr) Hf. eapply wp_post; [by eapply write_nf|].
  intros ? w' _ _ (Hk & Hmv & Hh & Hr'). split_and!; [done..|]. exists r. by rewrite Hh.
Qed.

Lemma nf_SecureBytes_new l n b w E :
  wf w → holds w l n b false → wpe (SecureBytes (Some l)) w (λ s w', w' = w ∧ slice_of w l s n b) E.
Proof.
  intros Hw (r & Hl & Hr). unfold wpe. rewrite (SecureBytes_run _ _ _ Hl). simpl.
  split_and!; try done. by exists r.
Qed.

(** Overwriting all of an object. *)
Lemma overwrite_all dst src : String.length src = String.length dst → overwrite dst src = src.
Proof.
  intros Hl. unfold overwrite. rewrite take_ge, drop_ge, app_nil_r, unchars_chars; rewrite ?length_chars; lia || done.
Qed.

Lemma nf_copy_bytes w l s n b src E :
  wf w → slice_of w l s n b → String.length src = String.length b →
  wpe (copy_bytes s src) w
    (λ _ w', kept [l] [] w w' ∧ sm_mvs (w_sm w') = sm_mvs (w_sm w) ∧ slice_of w' l s n src) E.
Proof.
  intros Hw Hs Hlen. pose proof (bytes_nonempty _ _ _ Hw (slice_bytes _ _ _ _ _ Hs)) as Hne.
  assert (src ≠ "") as Hsrc by (rewrite length_nonempty in *; lia).
  assert (copy_bytes s src = match s with None => mret () | Some r => write_region r (λ b, overwrite b src) end) as ->.
  { unfold copy_bytes. destruct s; [|done]. by destruct (String.eqb_spec src ""). }
  eapply wp_post; [eapply nf_write_region; [done..|]; by rewrite overwrite_all|].
  intros ? w' _ _ (Hk & Hmv & Hs'). by rewrite overwrite_all in Hs'.
Qed.

Lemma nf_store_mv v m w E :
  wf w → valid_mv w v → (∀ n l, m !! n = Some l → valid w (Some l)) →
  wpe (store_mv v m) w (λ _ w', kept [] [v] w w' ∧ sm_heap (w_sm w') = sm_heap (w_sm w) ∧
    sm_mem (w_sm w') = sm_mem (w_sm w) ∧ vault_is w' v m) E.
Proof.
  intros Hw Hv Hm. eapply wp_post; [by apply wp_store_mv|]. intros ? w' _ _ (Hh & Hmem & _ & Hmv).
  split_and!; [|done..|unfold vault_is; by rewrite Hmv, lookup_insert_eq]. split.
  - intros l _. unfold bytes_of. by rewrite Hh, Hmem.
  - intros v' m' Hv' Hm'. unfold vault_is. rewrite Hmv, lookup_insert_ne; [done|]. intros <-. apply Hv'. left.
Qed.

Lemma nf_Reserve v m n size w (E : error → world → Prop) :
  wf w → vault_is w v m → m !! n = None → ((size ≤ 0)%Z → E ErrInvalidSize w) →
  wpe (Reserve v n size) w
    (λ s w', ∃ l, kept [l] [v] w w' ∧ sm_heap (w_sm w) !! l = None ∧ vault_is w' v (<[n := l]> m) ∧
       slice_of w' l s n (zeros (Z.to_nat size))) E.
Proof.
  intros Hw Hv Hn HE. unfold Reserve. eapply wp_bind; [apply wp_load_mv; [done|by exists m]|].
  intros m' ? _ _ [Hm' ->]. assert (m' = m) as -> by (unfold vault_is in Hv; congruence). rewrite Hn.
  destruct (decide (size ≤ 0)%Z) as [Hle|Hgt].
  { unfold wpe. rewrite bind_run. unfold NewData. destruct (Z.leb_spec size 0); [|lia]. simpl.
    split; [done|split; [reflexivity|split; [done|by apply HE]]]. }
  eapply wp_bind; [apply nf_NewData; [done|lia]|]. intros l w1 Hw1 Hg1 (Hk1 & Hfresh & Hl & Hmv1).
  eapply wp_bind; [apply nf_store_mv; [done|by eapply grows_valid_mv; [|by exists m]|]|].
  { intros n' l'. rewrite lookup_insert_Some. intros [[_ <-]|[_ H]]; [eapply holds_valid, Hl|].
    eapply grows_valid; [done|by eapply valid_entries]. }
  intros ? w2 Hw2 _ (Hk2 & Hh & Hmem & Hv2).
  assert (holds w2 l n (zeros (Z.to_nat size)) false) as Hl2.
  { destruct Hl as (r & ? & ?). exists r. by rewrite Hh, Hmem. }
  eapply wp_post; [by eapply nf_SecureBytes_new|]. intros s ? _ _ [-> Hs]. exists l. split_and!; try done.
  eapply kept_trans; [..|exact Hk1|exact Hk2]; set_solver.
Qed.

Lemma nf_Import v m n l w E :
  wf w → vault_is w v m → m !! n = None → valid w (Some l) →
  wpe (MemVault_Import v n (Some l)) w (λ _ w', kept [] [v] w w' ∧ vault_is w' v (<[n := l]> m)) E.
Proof.
  intros Hw Hv Hn Hl. unfold MemVault_Import. eapply wp_bind; [apply wp_load_mv; [done|by exists m]|].
  intros m' ? _ _ [Hm' ->]. assert (m' = m) as -> by (unfold vault_is in Hv; congruence). rewrite Hn.
  eapply wp_post; [apply nf_store_mv; [done|by exists m|]|].
  - intros n' l'. rewrite lookup_insert_Some. intros [[_ <-]|[_ H]]; [done|by eapply valid_entries].
  - by intros ? w' _ _ (? & _ & _ & ?).
Qed.

Lemma nf_DestroyAll v m w E :
  wf w → vault_is w v m →
  wpe (DestroyAll v) w (λ _ w', kept (objects m) [v] w w' ∧ (∀ l, l ∈ objects m → bytes_of w' l = None)) E.
Proof.
  intros Hw Hv. destruct (wp_DestroyAll v m w Hw Hv) as (Hw' & Hg & H).
  assert (wpe (DestroyAll v) w (λ _ w', kept (objects m) [v] w w') (λ _ _, True)) as (_ & _ & Hk).
  { unfold DestroyAll. eapply wp_bind; [apply wp_load_mv; [done|by exists m]|].
    intros m' ? _ _ [Hm' ->]. assert (m' = m) as -> by (unfold vault_is in Hv; congruence).
    eapply wp_bind; [eapply wp_weaken; [by apply wp_range_map|by intros ? ? _ _ Hx; exact Hx|done]|].
    intros l w1 Hw1 _ [Hs Hperm].
    eapply wp_bind; [apply (wp_foldM _ (λ _ errs w', errs = [] ∧ kept (objects m) [v] w w' ∧ valid_mv w' v)); [done| |]|].
    - split_and!; [done|eapply kept_weaken; [| |by apply kept_same]; set_solver|exists m; unfold vault_is; by rewrite Hs].
    - intros done_ [n x] errs w2 Hx Hw2 Hg2 (-> & Hk2 & Hv2). rewrite Hperm in Hx. apply elem_of_map_to_list in Hx.
      assert (valid w2 (Some x)) as Hvx.
      { eapply grows_valid; [done|]. unfold valid. rewrite Hs. by eapply (wf_entries _ Hw). }
      unfold DestroyAll_iter. eapply wp_bind; [by eapply (wp_err_of _ _ _ (λ _ _, False)), nf_Data_Destroy|].
      intros [e|] w3 Hw3 Hg3 H3; [by destruct H3|]. destruct H3 as (_ & Hk3 & _ & Hmv3).
      eapply wp_bind; [apply wp_load_mv; [done|by eauto with mem]|]. intros m3 ? _ _ [Hm3 ->].
      eapply wp_bind; [apply nf_store_mv; [done|by exists m3|]|].
      { intros n' l' [_ Hl']%lookup_delete_Some. by eapply valid_entries. }
      intros ? w4 Hw4 _ (Hk4 & _ & _ & Hv4). apply wp_ret; [done|]. split_and!; [done| |by eexists].
      assert (kept [x] [v] w2 w4) as Hk24 by (eapply kept_trans; [..|exact Hk3|exact Hk4]; set_solver).
      eapply kept_trans; [..|exact Hk2|exact Hk24]; try set_solver.
      intros y. rewrite list_elem_of_singleton. intros ->. rewrite elem_of_objects. eauto.
    - intros errs w2 Hw2 _ (-> & Hk2 & _). by apply wp_ret. }
  unfold wpe. split_and!; [done..|]. destruct (DestroyAll v w) as [[] w']; simpl in *; try done.
  - split; [done|]. intros l Hl. apply elem_of_objects in Hl as [n Hn].
    destruct H as [Hd _]. by eapply dead_bytes, Hd.
  - destruct H as (_ & Hf & _). by destruct (Hf NF).
Qed.

Lemma nf_MarkAllReadOnly v m w E :
  wf w → vault_is w v m →
  wpe (MarkAllReadOnly v) w (λ _ w', kept [] [] w w' ∧ sm_mvs (w_sm w') = sm_mvs (w_sm w)) E.
Proof.
  intros Hw Hv. unfold MarkAllReadOnly. eapply wp_bind; [apply wp_load_mv; [done|by exists m]|].
  intros m' ? _ _ [Hm' ->]. assert (m' = m) as -> by (unfold vault_is in Hv; congruence).
  eapply wp_bind; [eapply wp_weaken; [by apply wp_range_map|by intros ? ? _ _ Hx; exact Hx|done]|].
  intros l w1 Hw1 _ [Hs Hperm].
  eapply wp_bind; [apply (wp_foldM _ (λ _ errs w', errs = [] ∧ kept [] [] w w' ∧
    sm_mvs (w_sm w') = sm_mvs (w_sm w))); [done| |]|].
  - split_and!; [done|by apply kept_same|by rewrite Hs].
  - intros done_ [n x] errs w2 Hx Hw2 Hg2 (-> & Hk2 & Hmv2). rewrite Hperm in Hx. apply elem_of_map_to_list in Hx.
    unfold MarkAllReadOnly_iter. eapply wp_bind; [eapply (wp_err_of _ _ _ (λ _ _, False)), nf_MarkReadOnly; [done|]|].
    { eapply grows_valid; [done|]. unfold valid. simpl. rewrite Hs. by eapply (wf_entries _ Hw). }
    intros [e|] w3 Hw3 _ H3; [by destruct H3|]. destruct H3 as (_ & Hk3 & Hmv3). apply wp_ret; [done|].
    split_and!; [done| |congruence]. eapply kept_trans; [..|exact Hk2|exact Hk3]; set_solver.
  - intros errs w2 Hw2 _ (-> & Hk2 & Hmv2). by apply wp_ret.
Qed.
End vault_effects.

(** ** Handlers *)

Section run_effects.
Context {ENV : Env} {NF : NoFaults} (R : string → Prop).

(** What a handler may leave: besides the objects [Y], only the objects of its
    persistent vault, all of them new, changed, and what [R] allows for is left. *)
Definition leaves (Y : list positive) (req : HandlerRequest) (w1 w2 : world) (mp : gmap string positive) : Prop :=
  vaults_of req w2 ∅ mp ∧ keeps R (objects mp ++ Y) [temporaryVault req; persistentVault req] w1 w2 ∧
  (∀ l, l ∈ objects mp → bytes_of w1 l = None).

Lemma nf_cleanup_ok req w mp E :
  wf w → vaults_of req w ∅ mp →
  wpe (Run_cleanup req (Some (mkHandlerResponse (persistentVault req)))) w
    (λ _ w', kept [] [temporaryVault req] w w' ∧ vault_is w' (persistentVault req) mp) E.
Proof.
  intros Hw (Ht & Hp & Hne). unfold Run_cleanup.
  eapply wp_bind; [by eapply (wp_err_of _ _ _ (λ _ _, False)), nf_DestroyAll|].
  intros [e|] w1 Hw1 _ H1; [by destruct H1|]. destruct H1 as (_ & Hk & _). rewrite objects_empty in Hk.
  apply wp_ret; [done|]. split; [done|]. apply (kept_vaults _ _ _ _ Hk); [|done].
  rewrite list_elem_of_singleton. done.
Qed.

Lemma nf_cleanup_err req w mp E :
  wf w → vaults_of req w ∅ mp →
  wpe (Run_cleanup req None) w
    (λ _ w', kept (objects mp) [temporaryVault req; persistentVault req] w w' ∧
       ∀ l, l ∈ objects mp → bytes_of w' l = None) E.
Proof.
  intros Hw (Ht & Hp & Hne). unfold Run_cleanup.
  eapply wp_bind; [by eapply (wp_err_of _ _ _ (λ _ _, False)), nf_DestroyAll|].
  intros [e|] w1 Hw1 _ H1; [by destruct H1|]. destruct H1 as (_ & Hk & _). rewrite objects_empty in Hk.
  assert (vault_is w1 (persistentVault req) mp) as Hp1.
  { apply (kept_vaults _ _ _ _ Hk); [|done]. rewrite list_elem_of_singleton. done. }
  eapply wp_bind; [by eapply (wp_err_of _ _ _ (λ _ _, False)), nf_DestroyAll|].
  intros [e|] w2 Hw2 _ H2; [by destruct H2|]. destruct H2 as (_ & Hk2 & Hd2).
  apply wp_ret; [done|]. split; [|done]. eapply kept_trans; [..|exact Hk|exact Hk2]; set_solver.
Qed.

(** The vaults of [Run] are nobody else's. *)
Lemma keeps_outer X req w w1 w2 :
  (∀ v m, vault_is w v m → vault_is w1 v m ∧ v ≠ temporaryVault req ∧ v ≠ persistentVault req) →
  (∀ l, bytes_of w1 l = bytes_of w l) →
  keeps R X [temporaryVault req; persistentVault req] w1 w2 → keeps R X [] w w2.
Proof.
  intros Hv Hb [Hb2 Hv2]. split.
  - intros l Hl. unfold same_or_residue in *. rewrite <-Hb. by apply Hb2.
  - intros v m _ Hm. destruct (Hv _ _ Hm) as (Hm1 & Ht & Hp). apply Hv2; [|done].
    rewrite !not_elem_of_cons. split_and!; [done..|apply not_elem_of_nil].
Qed.

(** The rows of the vaults change only where a handler changes them. *)
Lemma wpe_memonly {A} (m : M A) w (Q : A → world → Prop) (E : error → world → Prop) :
  respects memonly m → wpe m w Q E →
  wpe m w (λ a w', Q a w' ∧ w_vault w' = w_vault w) (λ e w', E e w' ∧ w_vault w' = w_vault w).
Proof.
  intros Hm. specialize (Hm w). injection Hm as _ Hv _. unfold wpe.
  destruct (m w) as [[] w']; simpl in *; tauto.
Qed.

(** The same for a call that has no error to return. *)
Lemma wpe_rows {A} (m : M A) w (Q : A → world → Prop) E :
  respects memonly m → wpe m w Q (λ _ _, False) → wpe m w (λ a w', Q a w' ∧ w_vault w' = w_vault w) E.
Proof. intros Hm H. eapply wp_weaken; [by apply wpe_memonly|done|]. by intros ? ? _ _ [[] _]. Qed.

Lemma memonly_newHandlerRequest : respects memonly newHandlerRequest.
Proof. unfold newHandlerRequest. solve_respects. Qed.
Lemma memonly_Run_cleanup req resp : respects memonly (Run_cleanup req resp).
Proof. unfold Run_cleanup. solve_respects. Qed.

(** After an error nothing stays of what the handler left in the vaults. *)
Lemma nf_cleanup_leaves Y req w1 w mp :
  wf w → leaves Y req w1 w mp →
  let w' := (Run_cleanup req None w).2 in
  wf w' ∧ grows w w' ∧ keeps R Y [temporaryVault req; persistentVault req] w1 w'.
Proof.
  intros Hw (Hl & Hk & Hn). destruct (nf_cleanup_err req w mp (λ _ _, False) Hw Hl) as (Hw' & Hg' & Hc).
  destruct (Run_cleanup _ _ w) as [[[]|e| |] w']; simpl in *; [|by destruct Hc|done..].
  destruct Hc as [Hkc Hdc]. split_and!; [done..|]. apply (keeps_dead _ (objects mp)); [|by auto].
  eapply keeps_kept_r; [..|exact Hk|exact Hkc]; set_solver.
Qed.

Lemma nf_Run handler w Y (Φ : gmap string positive → world → Prop) (Ee : error → Prop) :
  wf w →
  (∀ req w1, wf w1 → grows w w1 → (∀ l, bytes_of w1 l = bytes_of w l) → w_vault w1 = w_vault w →
    vaults_of req w1 ∅ ∅ →
    wpe (handler req) w1
      (λ _ w2, ∃ mp, leaves Y req w1 w2 mp ∧ Φ mp w2)
      (λ e w2, Ee e ∧ ∃ mp, leaves Y req w1 w2 mp)) →
  wpe (Run handler) w
    (λ resp w', ∃ mp w2, vault_is w' (hr_vault resp) mp ∧ Φ mp w2 ∧ (∀ l, bytes_of w' l = bytes_of w2 l) ∧
       (∀ l, l ∈ objects mp → bytes_of w l = None) ∧ keeps R (objects mp ++ Y) [] w w' ∧ w_vault w' = w_vault w2)
    (λ e w', Ee e ∧ keeps R Y [] w w').
Proof.
  intros Hw Hh. unfold wpe. rewrite Run_unfold. fold (@wpe HandlerResponse).
  assert (wpe (ctx_Err;; req ← newHandlerRequest;
     defer_with (Run_cleanup req) (handler req;; ctx_Err;; MarkAllReadOnly (persistentVault req);;
       mret (mkHandlerResponse (persistentVault req)))) w
    (λ resp w', ∃ mp w2, vault_is w' (hr_vault resp) mp ∧ Φ mp w2 ∧ (∀ l, bytes_of w' l = bytes_of w2 l) ∧
       (∀ l, l ∈ objects mp → bytes_of w l = None) ∧ keeps R (objects mp ++ Y) [] w w' ∧ w_vault w' = w_vault w2)
    (λ e w', Ee e ∧ keeps R Y [] w w')) as H; [|exact H].
  unfold ctx_Err. eapply wp_bind; [apply wpe_rows; [apply memonly_external|by apply nf_external]|]. intros ? w0 Hw0 Hg0 [Hs0 Hr0].
  eapply wp_bind; [apply wpe_rows; [apply memonly_newHandlerRequest|by apply wp_newHandlerRequest]|].
  intros req w1 Hw1 Hg1 ((Hreq & Hh1 & Hm1 & Hv1) & Hr1).
  assert (∀ l, bytes_of w1 l = bytes_of w l) as Hb1 by (intros; unfold bytes_of; by rewrite Hh1, Hm1, Hs0).
  assert (∀ v m, vault_is w v m → vault_is w1 v m ∧ v ≠ temporaryVault req ∧ v ≠ persistentVault req) as Hvs.
  { intros v m Hv. apply Hv1. unfold vault_is. by rewrite Hs0. }
  eapply (wp_defer_with _ _ _
    (λ resp w', ∃ mp w2, resp = mkHandlerResponse (persistentVault req) ∧ leaves Y req w1 w' mp ∧ Φ mp w2 ∧
       (∀ l, bytes_of w' l = bytes_of w2 l) ∧ w_vault w' = w_vault w2) _ (λ e w', Ee e ∧ ∃ mp, leaves Y req w1 w' mp)).
  - eapply wp_bind; [apply Hh; [done|by etrans|done|congruence|done]|]. intros ? w2 Hw2 _ (mp & (Hl & Hk & Hn) & HΦ).
    eapply wp_bind; [apply wpe_rows; [apply memonly_external|by apply nf_external]|]. intros ? w3 Hw3 _ [Hs3 Hr3].
    assert (vaults_of req w3 ∅ mp) as Hl3 by (unfold vaults_of, vault_is; by rewrite Hs3).
    eapply wp_bind; [apply wpe_rows; [apply memonly_MarkAllReadOnly|eapply nf_MarkAllReadOnly; [done|apply Hl3]]|].
    intros ? w4 Hw4 _ [[Hk4 Hm4] Hr4].
    apply wp_ret; [done|]. exists mp, w2. split_and!; [done| |done| |congruence].
    + split; [unfold vaults_of, vault_is; by rewrite Hm4|split; [|done]].
      pose proof (kept_same _ _ Hs3) as Hk3.
      assert (kept [] [] w2 w4) as Hk24 by (eapply kept_trans; [..|exact Hk3|exact Hk4]; set_solver).
      eapply keeps_kept_r; [..|exact Hk|exact Hk24]; set_solver.
    + intros l. rewrite (kept_bytes _ _ _ _ Hk4) by apply not_elem_of_nil. unfold bytes_of. by rewrite Hs3.
  - intros resp w' Hw' _ (mp & w2 & -> & (Hl & Hk & Hn) & HΦ & Hb & Hr).
    destruct (wpe_rows _ _ _ (λ _ _, False) (memonly_Run_cleanup _ _) (nf_cleanup_ok req w' mp _ Hw' Hl)) as (Hw'' & Hg'' & Hc).
    split_and!; [done..|]. destruct (Run_cleanup _ _ w') as [[[]|e| |] w'']; simpl in *; [|by destruct Hc|done..].
    destruct Hc as [[Hkc Hvc] Hrc]. exists mp, w2. split_and!; [done|done| | | |congruence].
    + intros l. rewrite (kept_bytes _ _ _ _ Hkc) by apply not_elem_of_nil. apply Hb.
    + intros l Hl'. rewrite <-Hb1. by apply Hn.
    + eapply keeps_outer; [exact Hvs|exact Hb1|]. eapply keeps_kept_r; [..|exact Hk|exact Hkc]; set_solver.
  - intros e w' Hw' _ (HEe & mp & Hl). destruct (nf_cleanup_leaves Y req w1 w' mp Hw' Hl) as (Hw'' & Hg'' & Hk).
    split_and!; [done..|]. by eapply keeps_outer.
Qed.
End run_effects.
