(* ===== verification/SealingTheorems.v ===== *)
(** * What sealing computes

    Functional theorems about the sealing stack, for environments in which no
    system call fails: what [Encrypt] and [Decrypt] produce and that they undo
    each other, that no call leaves a secret in memory behind, and that the
    secret a processor creates is the one it resolves later. *)

From S2P Require Import Prelude GoStrings GoRuntime Model World Lifecycle Providers Hierarchy.
From S2P Require Import Sql KeyStore KeyVersionStore StoreInvariant SecureMem SecureMemTheorems SealingEffects.
From S2P Require Import AesGcm Cryptor Sealers Vault KeyProcessor RootManager SealingSafety.

Local Open Scope string_scope.

(** ** Bytes *)

(** What [write_at off src] makes of the bytes [b]. *)
Definition spliced (off : nat) (src b : string) : string :=
  unchars (take off (chars b) ++ chars (overwrite (unchars (drop off (chars b))) src))%list.

Lemma length_spliced off src b : String.length (spliced off src b) = String.length b.
Proof.
  unfold spliced. rewrite length_unchars, length_app, length_chars_overwrite, chars_unchars.
  rewrite length_take, length_drop, length_chars. lia.
Qed.
Lemma length_str_app s t : String.length (s +:+ t) = (String.length s + String.length t)%nat.
Proof. rewrite <-!length_chars, chars_app. apply length_app. Qed.
Lemma chars_inj s t : chars s = chars t → s = t.
Proof. intros H. by rewrite <-(unchars_chars s), H, unchars_chars. Qed.

(** Writing up to the end. *)
Lemma spliced_end off src b :
  String.length b = (off + String.length src)%nat →
  chars (spliced off src b) = (take off (chars b) ++ chars src)%list.
Proof.
  intros Hl. unfold spliced. rewrite chars_unchars. f_equal. f_equal. apply overwrite_all.
  rewrite length_unchars, length_drop, length_chars. lia.
Qed.
(** Writing at the front. *)
Lemma spliced_front src b :
  (String.length src ≤ String.length b)%nat →
  take (String.length src) (chars (spliced 0 src b)) = chars src.
Proof.
  intros Hl. unfold spliced, overwrite. rewrite take_0, drop_0, !unchars_chars. simpl. rewrite !chars_unchars.
  rewrite (take_ge (chars src)) by (rewrite !length_chars; lia).
  rewrite <-length_chars. by rewrite take_app_length.
Qed.

(** A nonce written before a text. *)
Lemma spliced_nonce nonce text b :
  String.length b = (String.length nonce + String.length text)%nat →
  spliced (String.length nonce) text (spliced 0 nonce b) = nonce +:+ text.
Proof.
  intros Hl. apply chars_inj. rewrite spliced_end by (rewrite length_spliced; lia).
  rewrite spliced_front by lia. by rewrite chars_app.
Qed.

Definition take_str (n : nat) (s : string) : string := unchars (take n (chars s)).
Definition drop_str (n : nat) (s : string) : string := unchars (drop n (chars s)).
Lemma take_str_app s t : take_str (String.length s) (s +:+ t) = s.
Proof. unfold take_str. rewrite chars_app, <-length_chars, take_app_length. apply unchars_chars. Qed.
Lemma drop_str_app s t : drop_str (String.length s) (s +:+ t) = t.
Proof. unfold drop_str. rewrite chars_app, <-length_chars, drop_app_length. apply unchars_chars. Qed.

(** ** The cryptor *)

Section cryptor_effects.
Context {ENV : Env} {NF : NoFaults} {G : GCM}.

(** The slice of a live object, its length and its bytes. *)
Lemma live_slice l b w :
  wf w → bytes_of w l = Some b → ∃ r, SecureBytes (Some l) w = (Ok (Some r), w) ∧
    len (Some r) w = (Ok (Z.of_nat (String.length b)), w) ∧ read_bytes (Some r) w = (Ok b, w).
Proof.
  intros Hw Hb. unfold bytes_of in Hb. destruct (sm_heap (w_sm w) !! l) as [d|] eqn:Hl; [|done].
  simpl in Hb. destruct (d_data d) as [r|] eqn:Hd; [|done]. simpl in Hb.
  destruct (wf_own _ Hw _ _ _ Hl Hd) as (reg & Hr & Hm & _). rewrite Hr in Hb. injection Hb as <-.
  exists r. split_and!.
  - by rewrite (SecureBytes_run _ _ _ Hl), Hd.
  - unfold len, load_region, mbind, comp_bind. by rewrite Hr.
  - unfold read_bytes, load_region, mbind, comp_bind. rewrite Hr. simpl. by rewrite Hm.
Qed.

Lemma wpe_run {A} (m : M A) w a w' (Q : A → world → Prop) E :
  m w = (Ok a, w') → wf w' → grows w w' → Q a w' → wpe m w Q E.
Proof. intros Hm Hw Hg HQ. unfold wpe. by rewrite Hm. Qed.

(** A call that only reads. *)
Lemma wpe_Ok {A B} (m : M A) (k : A → M B) w a (Q : B → world → Prop) E :
  m w = (Ok a, w) → wpe (k a) w Q E → wpe (m ≫= k) w Q E.
Proof. intros Hm H. unfold wpe. by rewrite (bind_Ok _ _ _ _ _ Hm). Qed.

Lemma nf_data_bytes l b w E :
  wf w → bytes_of w l = Some b → wpe (data_bytes (Some l)) w (λ s w', w' = w ∧ s = b) E.
Proof.
  intros Hw Hb. destruct (live_slice l b w Hw Hb) as (r & H1 & _ & H3).
  eapply (wpe_run _ _ b w); [|done|done|done]. unfold data_bytes. by rewrite (bind_Ok _ _ _ _ _ H1).
Qed.

Lemma nf_len l b w E :
  wf w → bytes_of w l = Some b →
  wpe (SecureBytes (Some l)) w (λ s w', w' = w ∧ len s w = (Ok (Z.of_nat (String.length b)), w)) E.
Proof.
  intros Hw Hb. destruct (live_slice l b w Hw Hb) as (r & H1 & H2 & _). by eapply wpe_run.
Qed.

Lemma nf_nil_or_empty l b w E :
  wf w → bytes_of w l = Some b → wpe (nil_or_empty (Some l)) w (λ r w', w' = w ∧ r = false) E.
Proof.
  intros Hw Hb. pose proof (bytes_nonempty _ _ _ Hw Hb) as Hne. apply length_nonempty in Hne.
  destruct (live_slice l b w Hw Hb) as (r & H1 & H2 & _).
  eapply (wpe_run _ _ false w); [|done|done|done].
  unfold nil_or_empty. rewrite (bind_Ok _ _ _ _ _ H1), (bind_Ok _ _ _ _ _ H2).
  destruct (Z.eqb_spec (Z.of_nat (String.length b)) 0); [lia|done].
Qed.

Lemma nf_write_at w l s n b off src E :
  wf w → slice_of w l s n b → src ≠ "" →
  wpe (write_at s off src) w
    (λ _ w', kept [l] [] w w' ∧ sm_mvs (w_sm w') = sm_mvs (w_sm w) ∧ slice_of w' l s n (spliced off src b)) E.
Proof.
  intros Hw Hs Hsrc. pose proof (bytes_nonempty _ _ _ Hw (slice_bytes _ _ _ _ _ Hs)) as Hne.
  assert (write_at s off src = match s with None => mret () | Some r => write_region r (spliced off src) end) as ->.
  { unfold write_at, spliced. destruct s; [|done]. by destruct (String.eqb_spec src ""). }
  eapply nf_write_region; [done..|]. rewrite length_nonempty in *. by rewrite length_spliced.
Qed.

Lemma nf_get_or_destroy resp m n l sn w E :
  wf w → vault_is w (hr_vault resp) m → m !! n = Some l →
  wpe (get_or_destroy resp n sn) w (λ l' w', l' = l ∧ w' = w) E.
Proof.
  intros Hw Hv Hn. unfold get_or_destroy. eapply wp_bind; [apply wp_MemVault_Get; [done|by exists m]|].
  intros p ? _ _ (-> & (m' & Hm' & ->) & _). assert (m' = m) as -> by (unfold vault_is in *; congruence).
  rewrite Hn. by apply wp_ret.
Qed.

Lemma nf_rand_Read n w E :
  wf w → wpe (rand_Read n) w (λ s w', w_sm w' = w_sm w ∧ String.length s = n) E.
Proof.
  intros Hw. split; [|split]; [done|by apply grows_same|]. split; [done|]. simpl.
  by rewrite length_unchars, length_fmap, length_seq.
Qed.

Lemma kept_same_l X V w w' w'' : w_sm w' = w_sm w → kept X V w' w'' → kept X V w w''.
Proof.
  intros Hs [Hb Hv]. split.
  - intros l Hl. rewrite Hb by done. unfold bytes_of. by rewrite Hs.
  - intros v m Hv' Hm. apply Hv; [done|]. unfold vault_is. by rewrite Hs.
Qed.

(** What is left when a handler reserved one object and wrote to it. *)
Lemma leaves_one R req w1 w2 w3 n l :
  vaults_of req w1 ∅ ∅ → kept [l] [persistentVault req] w1 w2 → sm_heap (w_sm w1) !! l = None →
  vault_is w2 (persistentVault req) (<[n := l]> ∅) → kept [l] [] w2 w3 →
  leaves R [] req w1 w3 {[n := l]}.
Proof.
  intros (Ht & Hp & Hne) Hk2 Hf Hv2 Hk3.
  assert (kept [l] [persistentVault req] w1 w3) as Hk by (eapply kept_trans; [..|exact Hk2|exact Hk3]; set_solver).
  split; [|split].
  - split_and!; [|by apply (kept_vaults _ _ _ _ Hk3); [apply not_elem_of_nil|]|done].
    apply (kept_vaults _ _ _ _ Hk); [|done]. by rewrite list_elem_of_singleton.
  - rewrite objects_singleton. apply kept_keeps. eapply kept_weaken; [..|exact Hk]; set_solver.
  - intros l'. rewrite objects_singleton, list_elem_of_singleton. intros ->. by apply bytes_fresh.
Qed.

(** The single object of the response. *)
Definition one_object (n : string) (P : string → Prop) (m : gmap string positive) (w : world) : Prop :=
  ∃ l b, m = {[n := l]} ∧ bytes_of w l = Some b ∧ P b.

(** [Run], then [get_or_destroy]: the object the handler put in the vault. *)
Lemma nf_Run_get handler n sn P Ee w :
  wf w →
  (∀ req w1, wf w1 → grows w w1 → (∀ l, bytes_of w1 l = bytes_of w l) → vaults_of req w1 ∅ ∅ →
    wpe (handler req) w1
      (λ _ w2, ∃ mp, leaves no_residue [] req w1 w2 mp ∧ one_object n P mp w2)
      (λ e w2, Ee e ∧ ∃ mp, leaves no_residue [] req w1 w2 mp)) →
  wpe (resp ← Run handler; get_or_destroy resp n sn) w
    (λ l w', kept [l] [] w w' ∧ bytes_of w l = None ∧ ∃ b, bytes_of w' l = Some b ∧ P b)
    (λ e w', Ee e ∧ kept [] [] w w').
Proof.
  intros Hw Hh. eapply wp_bind; [eapply wp_weaken; [eapply (nf_Run no_residue _ _ [] (one_object n P)); [done|]|
    by intros ? ? _ _ HQ; exact HQ|by intros ? ? _ _ [? ?%keeps_kept]]|].
  - intros req w1 Hw1 Hg1 Hb1 _ Hv1. by apply Hh.
  - intros resp w1 Hw1 Hg1 (mp & w2 & Hv & (l & b & -> & Hb & HP) & Hb2 & Hn & Hk%keeps_kept & _).
    rewrite objects_singleton in *. eapply wp_post; [eapply nf_get_or_destroy; [done..|]; apply lookup_singleton_eq|].
    intros ? ? _ _ [-> ->]. split_and!; [done|apply Hn; left|]. exists b. by rewrite Hb2.
Qed.

Lemma nf_GenerateSecret w E :
  wf w →
  wpe GenerateSecret w (λ l w', kept [l] [] w w' ∧ bytes_of w l = None ∧
    ∃ b, bytes_of w' l = Some b ∧ String.length b = 32) E.
Proof.
  intros Hw. eapply wp_weaken; [eapply (nf_Run_get _ secretKey _ (λ b, String.length b = 32) (λ _, False)); [done|]|done|].
  - intros req w1 Hw1 Hg1 Hb1 Hv1. pose proof Hv1 as (_ & Hp & _).
    eapply wp_bind; [eapply (wp_try _ _ _ (λ _ _, False)), nf_Reserve; [done|exact Hp|done|lia]|].
    intros [s|e] w2 Hw2 _ H2; [|by destruct H2]. destruct H2 as (l & Hk2 & Hf & Hv2 & Hs).
    eapply wp_bind; [by apply nf_rand_Read|]. intros bytes w3 Hw3 _ [Hs3 Hlen].
    assert (slice_of w3 l s secretKey (zeros 32)) as Hsl by (unfold slice_of in *; by rewrite Hs3).
    eapply wp_post; [eapply nf_write_at; [done|exact Hsl|apply length_nonempty; lia]|].
    intros ? w4 _ _ (Hk4 & _ & Hs4). exists {[secretKey := l]}. split.
    + eapply leaves_one; [done..|]. eapply kept_same_l; [exact Hs3|exact Hk4].
    + eexists l, _. split_and!; [done|by eapply slice_bytes|]. by rewrite length_spliced, length_zeros.
  - by intros e w' _ _ [[] _].
Qed.

(** A usable secret: an AES-256 key in live memory. *)
Definition usable_secret (w : world) (s : Secret) (k : string) : Prop :=
  sec_Algorithm s = KeyAlgorithmAES256 ∧ String.length k = KeySize ∧
  ∃ l, sec_Data s = Some l ∧ bytes_of w l = Some k.

Lemma nf_Secret_Validate s k w E : wf w → usable_secret w s k → wpe (Secret_Validate s) w (λ _ w', w' = w) E.
Proof.
  intros Hw (Ha & _ & l & Hl & Hb). unfold Secret_Validate. rewrite Ha, Hl. simpl.
  eapply wp_bind; [by eapply nf_nil_or_empty|]. intros bad ? Hw' _ [-> ->]. by apply wp_ret.
Qed.

Lemma nf_check_secret s k w E : wf w → usable_secret w s k → wpe (check_secret s) w (λ _ w', w' = w) E.
Proof.
  intros Hw (Ha & Hk & l & Hl & Hb). unfold check_secret. rewrite Ha, Hl. simpl.
  destruct (live_slice l k w Hw Hb) as (r & H1 & H2 & _). rewrite Hk in H2.
  eapply (wpe_run _ _ () w); [|done..]. by rewrite (bind_Ok _ _ _ _ _ H1), (bind_Ok _ _ _ _ _ H2).
Qed.

Lemma nf_aes_NewCipher key w E : wf w → String.length key = KeySize → wpe (aes_NewCipher key) w (λ _ w', w' = w) E.
Proof. intros Hw Hk. unfold aes_NewCipher. rewrite Hk. by apply wp_ret. Qed.

(** Reserve, write, and nothing else: an object that the handler filled. *)
Definition sealed_form (k p aad c : string) : Prop :=
  ∃ nonce, String.length nonce = gcmNonceSize ∧ c = nonce +:+ gcm_Seal k nonce p aad.

Lemma nf_Encrypt_handler req lk lp k p req' w :
  wf w → sec_Data (er_Secret req) = Some lk → bytes_of w lk = Some k → String.length k = KeySize →
  er_Plaintext req = Some lp → bytes_of w lp = Some p → vaults_of req' w ∅ ∅ →
  wpe (Encrypt_handler req req') w
    (λ _ w2, ∃ mp, leaves no_residue [] req' w w2 mp ∧ one_object cipherTextKey (sealed_form k p (er_AAD req)) mp w2)
    (λ e w2, False ∧ ∃ mp, leaves no_residue [] req' w w2 mp).
Proof.
  intros Hw Hsk Hk Hlen Hpt Hp Hv. pose proof Hv as (_ & Hpv & _). unfold Encrypt_handler. rewrite Hsk, Hpt.
  eapply wp_bind; [by apply nf_data_bytes|]. intros ? ? _ _ [-> ->].
  eapply wp_bind; [by apply nf_aes_NewCipher|]. intros ? ? _ _ ->.
  eapply wp_bind; [by apply nf_len|]. intros b ? _ _ [-> Hn].
  eapply wpe_Ok; [exact Hn|]. cbv zeta.
  eapply wp_bind; [eapply (wp_try _ _ _ (λ _ _, False)), nf_Reserve; [done|exact Hpv|done|unfold gcmNonceSize, gcmOverhead; lia]|].
  intros [s|e] w2 Hw2 _ H2; [|by destruct H2]. destruct H2 as (l & Hk2 & Hf & Hv2 & Hs).
  eapply wp_bind; [by apply nf_rand_Read|]. intros nonce w3 Hw3 _ [Hs3 Hlen3].
  assert (lp ≠ l) as Hne by (intros ->; by rewrite (bytes_fresh _ _ Hf) in Hp).
  assert (bytes_of w3 lp = Some p) as Hp3.
  { rewrite <-Hp, <-(kept_bytes _ _ _ _ Hk2); [unfold bytes_of; by rewrite Hs3|by rewrite list_elem_of_singleton]. }
  eapply wp_bind; [eapply nf_write_at; [done|by unfold slice_of in *; rewrite Hs3|]|].
  { apply length_nonempty. rewrite Hlen3. unfold gcmNonceSize. lia. }
  intros ? w4 Hw4 _ (Hk4 & _ & Hs4).
  eapply wp_bind; [eapply (nf_data_bytes _ p); [done|]|].
  { by rewrite (kept_bytes _ _ _ _ Hk4) by (by rewrite list_elem_of_singleton). }
  intros ? ? _ _ [-> ->].
  eapply wp_post; [eapply nf_write_at; [done|exact Hs4|]|].
  { apply length_nonempty. rewrite gcm_Seal_length. unfold gcmOverhead. lia. }
  intros ? w5 _ _ (Hk5 & _ & Hs5). exists {[cipherTextKey := l]}. split.
  - eapply leaves_one; [done..|]. eapply kept_same_l; [exact Hs3|].
    eapply kept_trans; [..|exact Hk4|exact Hk5]; set_solver.
  - eexists l, _. split_and!; [done|by eapply slice_bytes|]. exists nonce. split; [done|].
    rewrite <-Hlen3. apply spliced_nonce. rewrite length_zeros, gcm_Seal_length, Hlen3.
    unfold gcmNonceSize, gcmOverhead. lia.
Qed.

(** Both operations: validation, the checks of the secret, a handler that
    fills one object. *)
Lemma nf_cryptor_op (validate : M ()) cs k (handler : HandlerRequest → M ()) n sn P Ee w :
  wf w → usable_secret w cs k → wpe validate w (λ _ w', w' = w) (λ _ _, False) →
  (∀ req w1, wf w1 → (∀ l, bytes_of w1 l = bytes_of w l) → vaults_of req w1 ∅ ∅ →
    wpe (handler req) w1
      (λ _ w2, ∃ mp, leaves no_residue [] req w1 w2 mp ∧ one_object n P mp w2)
      (λ e w2, Ee e ∧ ∃ mp, leaves no_residue [] req w1 w2 mp)) →
  wpe (validate;; check_secret cs;; resp ← Run handler; get_or_destroy resp n sn) w
    (λ l w', kept [l] [] w w' ∧ bytes_of w l = None ∧ ∃ b, bytes_of w' l = Some b ∧ P b)
    (λ e w', Ee e ∧ kept [] [] w w').
Proof.
  intros Hw Hs Hval Hh. eapply wp_bind; [eapply wp_weaken; [exact Hval|by intros ? ? _ _ H; exact H|done]|].
  intros ? ? _ _ ->. eapply wp_bind; [by eapply nf_check_secret|]. intros ? ? _ _ ->.
  apply nf_Run_get; [done|]. intros. by apply Hh.
Qed.

Lemma nf_validate (d : option positive) ld b cs k w E :
  wf w → d = Some ld → bytes_of w ld = Some b → usable_secret w cs k →
  wpe (bad ← nil_or_empty d; if bad : bool then throw (wrap1 (ESentinel ErrRequest)) else Secret_Validate cs) w
    (λ _ w', w' = w) E.
Proof.
  intros Hw -> Hb Hs. eapply wp_bind; [by eapply nf_nil_or_empty|]. intros ? ? _ _ [-> ->].
  by eapply nf_Secret_Validate.
Qed.

Lemma nf_Encrypt a req lp k p w E :
  wf w → usable_secret w (er_Secret req) k → er_Plaintext req = Some lp → bytes_of w lp = Some p →
  wpe (Encrypt a req) w (λ c w', kept [c] [] w w' ∧ bytes_of w c = None ∧
    ∃ b, bytes_of w' c = Some b ∧ sealed_form k p (er_AAD req) b) E.
Proof.
  intros Hw Hs Hpt Hp. unfold Encrypt. eapply wp_weaken.
  - eapply (nf_cryptor_op _ _ k _ _ _ (sealed_form k p (er_AAD req)) (λ _, False)); [done..| |].
    + unfold EncryptRequest_Validate. by eapply nf_validate.
    + intros req' w1 Hw1 Hb1 Hv1. destruct Hs as (_ & Hlen & lk & Hlk & Hk).
      eapply nf_Encrypt_handler; [done..|by rewrite Hb1|done|done|by rewrite Hb1|done].
  - done.
  - by intros ? ? _ _ [[] _].
Qed.

(** A ciphertext that opens to [p]. *)
Definition opens_to (k c aad p : string) : Prop :=
  gcm_Open k (take_str gcmNonceSize c) (drop_str gcmNonceSize c) aad = Some p.
(** A ciphertext that does not open, or opens to nothing. *)
Definition rejected (k c aad : string) : Prop :=
  (String.length c ≤ gcmNonceSize + gcmOverhead)%nat ∨
  gcm_Open k (take_str gcmNonceSize c) (drop_str gcmNonceSize c) aad = None.

Lemma nf_Decrypt_handler req lk lc k c req' w :
  wf w → sec_Data (dr_Secret req) = Some lk → bytes_of w lk = Some k → String.length k = KeySize →
  dr_Ciphertext req = Some lc → bytes_of w lc = Some c → vaults_of req' w ∅ ∅ →
  wpe (Decrypt_handler req req') w
    (λ _ w2, ∃ mp, leaves no_residue [] req' w w2 mp ∧ one_object plainTextKey (opens_to k c (dr_AAD req)) mp w2)
    (λ e w2, rejected k c (dr_AAD req) ∧ ∃ mp, leaves no_residue [] req' w w2 mp).
Proof.
  intros Hw Hsk Hk Hlen Hct Hc Hv. pose proof Hv as (_ & Hpv & _). unfold Decrypt_handler. rewrite Hsk, Hct.
  assert (leaves no_residue [] req' w w ∅) as Hnone.
  { split; [done|split; [apply keeps_refl|]]. intros l. rewrite objects_empty. by intros ?%not_elem_of_nil. }
  eapply wp_bind; [by apply nf_data_bytes|]. intros ? ? _ _ [-> ->].
  eapply wp_bind; [by apply nf_aes_NewCipher|]. intros ? ? _ _ ->.
  eapply wp_bind; [by apply nf_len|]. intros b ? _ _ [-> Hn].
  eapply wpe_Ok; [exact Hn|]. destruct (Z.ltb_spec (Z.of_nat (String.length c)) (Z.of_nat gcmNonceSize + Z.of_nat gcmOverhead)).
  { apply wp_throw; [done|by eauto with mem|]. split; [left; lia|by eexists]. }
  eapply wp_bind; [eapply (wp_try _ _ _ (λ _ w2, rejected k c (dr_AAD req) ∧ w2 = w)), nf_Reserve; [done|exact Hpv|done|]|].
  { intros ?. split; [left; lia|done]. }
  intros [s|e] w2 Hw2 _ H2; [|destruct H2 as (Hben & Hrej & ->); apply wp_throw; [done|by eauto with mem|]; split; [done|by eexists]].
  destruct H2 as (l & Hk2 & Hf & Hv2 & Hs).
  assert (lc ≠ l) as Hne by (intros ->; by rewrite (bytes_fresh _ _ Hf) in Hc).
  eapply wp_bind; [eapply (nf_data_bytes _ c); [done|]|].
  { rewrite (kept_bytes _ _ _ _ Hk2); [done|by rewrite list_elem_of_singleton]. }
  intros ? ? _ _ [-> ->]. fold (take_str gcmNonceSize c) (drop_str gcmNonceSize c). cbv zeta.
  destruct (gcm_Open k _ _ _) as [p|] eqn:Ho.
  - pose proof (gcm_Open_length _ _ _ _ _ Ho) as Hol. unfold drop_str in Hol.
    rewrite length_unchars, length_drop, length_chars in Hol.
    eapply wp_post; [eapply nf_write_at; [done|exact Hs|]|].
    { apply length_nonempty. pose proof (bytes_nonempty _ _ _ Hw2 (slice_bytes _ _ _ _ _ Hs)) as Hz.
      apply length_nonempty in Hz. rewrite length_zeros in Hz. lia. }
    intros ? w3 _ _ (Hk3 & _ & Hs3). exists {[plainTextKey := l]}. split; [by eapply leaves_one|].
    eexists l, _. split_and!; [done|by eapply slice_bytes|]. unfold opens_to. rewrite Ho. f_equal.
    apply chars_inj. rewrite spliced_end; [by rewrite take_0|]. rewrite length_zeros. lia.
  - apply wp_throw; [done|by eauto with mem|]. split; [by right|]. exists {[plainTextKey := l]}.
    eapply leaves_one; [done..|apply kept_refl].
Qed.

Lemma nf_Decrypt a req lc k c w :
  wf w → usable_secret w (dr_Secret req) k → dr_Ciphertext req = Some lc → bytes_of w lc = Some c →
  wpe (Decrypt a req) w
    (λ l w', kept [l] [] w w' ∧ bytes_of w l = None ∧ ∃ b, bytes_of w' l = Some b ∧ opens_to k c (dr_AAD req) b)
    (λ e w', rejected k c (dr_AAD req) ∧ kept [] [] w w').
Proof.
  intros Hw Hs Hct Hc. unfold Decrypt.
  eapply (nf_cryptor_op _ _ k _ _ _ (opens_to k c (dr_AAD req)) (λ _, rejected k c (dr_AAD req))); [done..| |].
  - unfold DecryptRequest_Validate. by eapply nf_validate.
  - intros req' w1 Hw1 Hb1 Hv1. destruct Hs as (_ & Hlen & lk & Hlk & Hk).
    eapply nf_Decrypt_handler; [done..|by rewrite Hb1|done|done|by rewrite Hb1|done].
Qed.

(** What [Encrypt] writes opens again. *)
Lemma sealed_opens k p aad c : p ≠ "" → sealed_form k p aad c → opens_to k c aad p ∧ ¬ rejected k c aad.
Proof.
  intros Hp (nonce & Hn & ->). unfold opens_to, rejected. rewrite <-Hn, take_str_app, drop_str_app, gcm_Open_Seal.
  split; [done|]. rewrite length_str_app, gcm_Seal_length. apply length_nonempty in Hp. intros [?|?]; [lia|done].
Qed.
End cryptor_effects.

(** ** Properties of the cryptor *)

(** A call whose only outcome is a result. *)
Lemma wpe_returns {A} (m : M A) w (Q : A → world → Prop) :
  wpe m w Q (λ _ _, False) → ∃ a w', m w = (Ok a, w') ∧ wf w' ∧ grows w w' ∧ Q a w'.
Proof.
  unfold wpe. destruct (m w) as [[a|e| |] w']; simpl; intros (Hw & Hg & HQ); try done; [|by destruct HQ].
  by exists a, w'.
Qed.

Section cryptor_properties.
Context {ENV : Env} {NF : NoFaults} {G : GCM}.

(** C22: when no system call fails ([NoFaults]: no mmap, madvise, mlock, mprotect
    or munmap refuses, and the context is not cancelled), encryption succeeds on a
    live plaintext and a usable secret, and the ciphertext is exactly the 12 bytes
    of the nonce and the 16 bytes of the tag longer than the plaintext; it is in a
    new object, and no other object changes. *)
Theorem encrypt_length a req lp k p w :
  wf w → usable_secret w (er_Secret req) k → er_Plaintext req = Some lp → bytes_of w lp = Some p →
  ∃ c w' b, Encrypt a req w = (Ok c, w') ∧ bytes_of w' c = Some b ∧
    String.length b = (12 + String.length p + 16)%nat ∧ bytes_of w c = None ∧
    ∀ l, l ≠ c → bytes_of w' l = bytes_of w l.
Proof.
  intros Hw Hs Hpt Hp. destruct (wpe_returns _ _ _ (nf_Encrypt a req lp k p w _ Hw Hs Hpt Hp))
    as (c & w' & Hrun & _ & _ & Hk & Hf & b & Hb & nonce & Hn & ->).
  exists c, w', (nonce +:+ gcm_Seal k nonce p (er_AAD req)). split_and!; [done..| |done|].
  - rewrite length_str_app, gcm_Seal_length, Hn. unfold gcmNonceSize, gcmOverhead. lia.
  - intros l Hl. apply (kept_bytes _ _ _ _ Hk). by rewrite list_elem_of_singleton.
Qed.

(** C20: when no system call fails, what [Encrypt] returns, [Decrypt] opens: in any later state in which the
    ciphertext is still held and a secret with the same key is at hand,
    decryption under the same additional data returns the plaintext, in a new
    object, and changes nothing else. *)
Theorem encrypt_decrypt_roundtrip a req lp k p w :
  wf w → usable_secret w (er_Secret req) k → er_Plaintext req = Some lp → bytes_of w lp = Some p →
  ∃ c w', Encrypt a req w = (Ok c, w') ∧
    ∀ a' s2 w2, wf w2 → bytes_of w2 c = bytes_of w' c → usable_secret w2 s2 k →
    ∃ l w3, Decrypt a' (mkDecryptRequest s2 (Some c) (er_AAD req)) w2 = (Ok l, w3) ∧
      bytes_of w3 l = Some p ∧ bytes_of w2 l = None ∧ ∀ l', l' ≠ l → bytes_of w3 l' = bytes_of w2 l'.
Proof.
  intros Hw Hs Hpt Hp. destruct (wpe_returns _ _ _ (nf_Encrypt a req lp k p w _ Hw Hs Hpt Hp))
    as (c & w' & Hrun & _ & _ & Hk & Hf & b & Hb & Hform). exists c, w'. split; [done|].
  intros a' s2 w2 Hw2 Hc Hs2. rewrite Hb in Hc.
  destruct (sealed_opens _ _ _ _ (bytes_nonempty _ _ _ Hw Hp) Hform) as [Hopen Hnrej].
  edestruct (wpe_returns (Decrypt a' (mkDecryptRequest s2 (Some c) (er_AAD req))) w2) as (l & w3 & H1 & _ & _ & H2).
  { eapply wp_weaken; [by eapply nf_Decrypt|intros ? ? _ _ HQ; exact HQ|]. by intros ? ? _ _ [Hrej _]. }
  destruct H2 as (Hk2 & Hf2 & b' & Hb' & Ho'). exists l, w3. split_and!; [done| |done|].
  - unfold opens_to in *. simpl in Ho'. congruence.
  - intros l' Hl'. apply (kept_bytes _ _ _ _ Hk2). by rewrite list_elem_of_singleton.
Qed.

(** C21: when no system call fails ([NoFaults]), decryption decides on the tag: on
    a live ciphertext and a usable secret it returns the plaintext the cipher
    opens it to, in a new object, or fails exactly when the ciphertext holds
    nothing beyond nonce and tag or its tag does not verify; a failure leaves no
    object behind. *)
Theorem decrypt_authenticates a req lc k c w :
  wf w → usable_secret w (dr_Secret req) k → dr_Ciphertext req = Some lc → bytes_of w lc = Some c →
  match gcm_Open k (take_str 12 c) (drop_str 12 c) (dr_AAD req) with
  | Some p =>
      if (String.length c <=? 28)%nat
      then ∃ e w', Decrypt a req w = (Err e, w') ∧ ∀ l, bytes_of w' l = bytes_of w l
      else ∃ l w', Decrypt a req w = (Ok l, w') ∧ bytes_of w' l = Some p ∧ bytes_of w l = None ∧
             ∀ l', l' ≠ l → bytes_of w' l' = bytes_of w l'
  | None => ∃ e w', Decrypt a req w = (Err e, w') ∧ ∀ l, bytes_of w' l = bytes_of w l
  end.
Proof.
  intros Hw Hs Hct Hc. pose proof (nf_Decrypt a req lc k c w Hw Hs Hct Hc) as H.
  unfold wpe, rejected, opens_to, gcmNonceSize, gcmOverhead in H.
  destruct (Decrypt a req w) as [[l|e| |] w'] eqn:Hrun; simpl in H; destruct H as (Hw' & Hg & H); try done.
  - destruct H as (Hk & Hf & b & Hb & Ho). rewrite Ho.
    assert (¬ (String.length c ≤ 28)%nat) as Hlen.
    { apply gcm_Open_length in Ho. unfold drop_str in Ho. rewrite length_unchars, length_drop, length_chars in Ho.
      pose proof (bytes_nonempty _ _ _ Hw' Hb) as Hne. apply length_nonempty in Hne. unfold gcmOverhead in Ho. lia. }
    destruct (Nat.leb_spec (String.length c) 28); [lia|].
    exists l, w'. split_and!; [done..|]. intros l' Hl'. apply (kept_bytes _ _ _ _ Hk). by rewrite list_elem_of_singleton.
  - destruct H as (_ & Hrej & Hk).
    assert (∃ e0 w'0, (Err e, w') = (@Err positive e0, w'0) ∧ ∀ l, bytes_of w'0 l = bytes_of w l) as Hgoal.
    { exists e, w'. split; [done|]. intros l. apply (kept_bytes _ _ _ _ Hk), not_elem_of_nil. }
    destruct (gcm_Open k _ _ _); [|done]. destruct (Nat.leb_spec (String.length c) 28); [done|].
    destruct Hrej; [lia|done].
Qed.
End cryptor_properties.
