(* ===== verification/SealingLaws.v ===== *)
(** * Sealing and unsealing as an interface with laws

    [sealer_law] is what a processor relies on of its transport sealer and of its
    parent: sealing returns, in a new object, something that unsealing opens
    again, and nothing else in memory changes except the object handed over and
    new objects with bytes that satisfy [R].  Static-secret sealers leave nothing,
    the manager what the sealers above it leave, the root manager copies of its
    provider's secret: they are the instances, and the theorems on processors are
    proved against the interface.  The theorems say that creating a secret leaves
    nothing else in memory, that a secret created is the secret resolved later,
    and that this composes along the key hierarchy. *)

From S2P Require Import Prelude GoStrings GoRuntime Model World Lifecycle Providers Hierarchy.
From S2P Require Import Sql KeyStore KeyVersionStore StoreInvariant SecureMem SecureMemTheorems SealingEffects.
From S2P Require Import AesGcm Cryptor Sealers Vault KeyProcessor RootManager SealingSafety SealingTheorems.

Local Open Scope string_scope.

(** ** The interface *)

(** [opens t k v aad c p]: under key [k] of tenant [t] in version [v], [c] is a
    ciphertext of [p].  [R] is what a call may leave in new objects, [F] are the
    objects the sealer keeps its own secrets in, [I] what it needs of the state,
    [serves] the keys it knows. *)
Record sealer_law (s : Sealer) (R : string → Prop) (F : positive → Prop) (I : world → Prop)
    (serves : string → string → Z → Prop)
    (opens : string → string → Z → string → string → string → Prop) `{ENV : Env} : Prop := {
  law_live : ∀ w l, I w → F l → bytes_of w l ≠ None;
  law_stable : ∀ w w', I w → (∀ l, F l → bytes_of w' l = bytes_of w l) → w_db w' = w_db w →
    w_vault w' = w_vault w → I w';
  law_functional : ∀ t k v aad c p p', opens t k v aad c p → opens t k v aad c p' → p = p';
  law_nonempty : ∀ t k v aad c p, opens t k v aad c p → c ≠ "";
  law_Seal : ∀ req lp p w E, wf w → I w → serves (sr_TenantID req) (sr_KeyID req) (sr_KeyVersion req) →
    sr_Plaintext req = Some lp → bytes_of w lp = Some p →
    wpe (Seal s req) w (λ c w', keeps R [c; lp] [] w w' ∧ bytes_of w c = None ∧ w_vault w' = w_vault w ∧
      ∃ b, bytes_of w' c = Some b ∧
        opens (sr_TenantID req) (sr_KeyID req) (sr_KeyVersion req) (sr_AAD req) b p) E;
  law_Unseal : ∀ req lc c p w E, wf w → I w → serves (ur_TenantID req) (ur_KeyID req) (ur_KeyVersion req) →
    ur_Ciphertext req = Some lc → bytes_of w lc = Some c →
    opens (ur_TenantID req) (ur_KeyID req) (ur_KeyVersion req) (ur_AAD req) c p →
    wpe (Unseal s req) w (λ l w', keeps R [l; lc] [] w w' ∧ bytes_of w l = None ∧ w_vault w' = w_vault w ∧
      bytes_of w' l = Some p) E;
}.

(** [solve_respects], through the handlers of [Run]. *)
Ltac solve_memonly := repeat (respects_step || (apply memonly_Run; intros ?) || (progress eauto with respects)).

Section instances.
Context {ENV : Env} {NF : NoFaults} {G : GCM} {OS : OsEnv} {BAO : OpenBao} {CLI : SealerClient}.

Lemma memonly_nil_or_empty d : respects memonly (nil_or_empty d).
Proof. unfold nil_or_empty. solve_respects. Qed.
Hint Resolve memonly_nil_or_empty : respects.
Lemma memonly_Secret_Validate s : respects memonly (Secret_Validate s).
Proof. unfold Secret_Validate. solve_respects. Qed.
Lemma memonly_write_at s off src : respects memonly (write_at s off src).
Proof. unfold write_at. solve_respects. Qed.
Lemma memonly_data_bytes d : respects memonly (data_bytes d).
Proof. unfold data_bytes. solve_respects. Qed.
Lemma memonly_get_or_destroy resp n sn : respects memonly (get_or_destroy resp n sn).
Proof. unfold get_or_destroy. solve_respects. Qed.
Lemma memonly_check_secret s : respects memonly (check_secret s).
Proof. unfold check_secret. solve_respects. Qed.
Lemma memonly_aes_NewCipher k : respects memonly (aes_NewCipher k).
Proof. unfold aes_NewCipher. solve_respects. Qed.
Hint Resolve memonly_Secret_Validate memonly_write_at memonly_data_bytes memonly_get_or_destroy
  memonly_check_secret memonly_aes_NewCipher : respects.
Lemma memonly_GenerateSecret : respects memonly GenerateSecret.
Proof. unfold GenerateSecret. solve_memonly. Qed.
Lemma memonly_Encrypt a req : respects memonly (Encrypt a req).
Proof. unfold Encrypt, EncryptRequest_Validate, Encrypt_handler. solve_memonly. Qed.
Lemma memonly_Decrypt a req : respects memonly (Decrypt a req).
Proof. unfold Decrypt, DecryptRequest_Validate, Decrypt_handler. solve_memonly. Qed.

(** ** Static secrets *)

Lemma static_sealer_law R s k :
  String.length k = KeySize →
  sealer_law (static_sealer s) R (eq (st_secret s)) (λ w, bytes_of w (st_secret s) = Some k) (λ _ _ _, True)
    (λ _ _ _ aad c p, opens_to k c aad p ∧ ¬ rejected k c aad).
Proof.
  intros Hk. split.
  - intros w l Hl <-. by rewrite Hl.
  - intros w w' Hl Hb _ _. by rewrite Hb.
  - intros _ _ _ aad c p p'. unfold opens_to. intros [] []. congruence.
  - intros _ _ _ aad c p [_ Hr] ->. apply Hr. left. simpl. lia.
  - intros req lp p w E Hw Hl _ Hpt Hp. unfold static_sealer, Seal, StaticSecret_Seal. rewrite Hpt.
    eapply wp_bind; [by eapply nf_nil_or_empty|]. intros ? ? _ _ [-> ->].
    eapply wp_post; [eapply wpe_rows; [apply memonly_Encrypt|]; eapply nf_Encrypt; [done| |done|done]|].
    { split_and!; [done..|]. by exists (st_secret s). }
    intros c w' _ _ ((Hkp & Hf & b & Hb & Hform) & Hr). split_and!; [|done..|].
    + apply kept_keeps. eapply kept_weaken; [..|exact Hkp]; set_solver.
    + exists b. split; [done|]. eapply sealed_opens; [by eapply bytes_nonempty|done].
  - intros req lc c p w E Hw Hl _ Hct Hc [Ho Hnr]. unfold static_sealer, Unseal, StaticSecret_Unseal. rewrite Hct.
    eapply wp_bind; [by eapply nf_nil_or_empty|]. intros ? ? _ _ [-> ->].
    eapply wp_post; [eapply wpe_rows; [apply memonly_Decrypt|]|].
    + eapply wp_weaken; [eapply nf_Decrypt; [done| |done|done]|intros ? ? _ _ HQ; exact HQ|].
      * split_and!; [done..|]. by exists (st_secret s).
      * by intros ? ? _ _ [Hrej _].
    + intros l w' _ _ ((Hkp & Hf & b & Hb & Ho') & Hr). split_and!; [|done..|].
      * apply kept_keeps. eapply kept_weaken; [..|exact Hkp]; set_solver.
      * unfold opens_to in *. simpl in Ho'. congruence.
Qed.
End instances.

(** ** The SQLite vault *)

Section sqlite_effects.
Context {ENV : Env} {NF : NoFaults} (u : Unsafe).

Lemma nf_clock_Now w E : wf w → wpe clock_Now w (λ _ w', w_sm w' = w_sm w ∧ w_vault w' = w_vault w) E.
Proof. intros Hw. split; [|split]; [done|by apply grows_same|done]. Qed.
Lemma nf_external_rows what w E :
  wf w → wpe (external what) w (λ _ w', w_sm w' = w_sm w ∧ w_vault w' = w_vault w) E.
Proof. intros Hw. apply wpe_rows; [apply memonly_external|by apply nf_external]. Qed.

Lemma nf_Unsafe_ImportKey req l b w E :
  wf w → ik_KeyMaterial req = Some l → bytes_of w l = Some b → ik_TenantID req ≠ "" → ik_KeyID req ≠ "" →
  wpe (Unsafe_ImportKey u req) w (λ _ w', w_sm w' = w_sm w ∧
    w_vault w' = <[(un_source u, ik_ident req) := mkVaultRow b (ik_AAD req)]> (w_vault w)) E.
Proof.
  intros Hw Hl Hb Ht Hk. unfold Unsafe_ImportKey. rewrite Hl.
  destruct (live_slice l b w Hw Hb) as (r & H1 & _ & H3).
  eapply wpe_Ok; [exact H1|]. eapply wpe_Ok; [exact H3|].
  eapply wp_bind; [by apply nf_clock_Now|]. intros ? w1 Hw1 _ [Hs1 Hv1].
  eapply wp_bind; [by apply nf_external_rows|]. intros ? w2 Hw2 _ [Hs2 Hv2].
  apply String.eqb_neq in Ht, Hk. rewrite Ht, Hk, bool_decide_true by eauto. simpl.
  split; [|split; [by apply grows_same|]]; [done|]. simpl. split; congruence.
Qed.

Lemma nf_Unsafe_ExportKey req row w E :
  wf w → w_vault w !! (un_source u, kr_ident req) = Some row → vr_material row ≠ "" →
  wpe (Unsafe_ExportKey u req) w (λ r w', kept [ex_KeyMaterial r] [] w w' ∧ bytes_of w (ex_KeyMaterial r) = None ∧
    bytes_of w' (ex_KeyMaterial r) = Some (vr_material row) ∧ ex_AAD r = vr_aad row ∧ w_vault w' = w_vault w) E.
Proof.
  intros Hw Hrow Hne. unfold Unsafe_ExportKey.
  eapply wp_bind; [by apply nf_external_rows|]. intros ? w1 Hw1 _ [Hs1 Hv1].
  eapply wpe_Ok; [unfold gets; by rewrite Hv1, Hrow|]. apply length_nonempty in Hne.
  eapply wp_bind; [apply wpe_rows; [apply memonly_NewData|apply nf_NewData; [done|lia]]|].
  intros l w2 Hw2 _ ((Hk2 & Hf & Hh & _) & Hv2).
  eapply wp_bind; [by eapply nf_SecureBytes_new|]. intros s ? _ _ [-> Hs].
  eapply wp_bind; [apply wpe_rows; [apply memonly_copy_bytes|eapply nf_copy_bytes; [done|exact Hs|]]|].
  { rewrite length_zeros. lia. }
  intros ? w3 Hw3 _ ((Hk3 & _ & Hs3) & Hv3). apply wp_ret; [done|]. simpl. split_and!; [| | |done|congruence].
  - eapply kept_same_l; [exact Hs1|]. eapply kept_trans; [..|exact Hk2|exact Hk3]; set_solver.
  - apply bytes_fresh. by rewrite <-Hs1.
  - by eapply slice_bytes.
Qed.
End sqlite_effects.

(** ** Processors *)

Section destroy_later.
Context {ENV : Env} {NF : NoFaults}.

(** An object that is destroyed whatever happens. *)
Lemma nf_defer_destroy {A} (m : M A) l w (Q : A → world → Prop) E :
  wf w → valid w (Some l) → wpe m w Q (λ _ _, False) →
  wpe (defer (Data_Destroy (Some l)) m) w
    (λ a w', ∃ w1, Q a w1 ∧ kept [l] [] w1 w' ∧ bytes_of w' l = None ∧ w_vault w' = w_vault w1) E.
Proof.
  intros Hw Hl Hm. eapply wp_defer; [exact Hm| |done]. intros a w1 Hw1 Hg1 HQ.
  destruct (wpe_rows _ _ _ (λ _ _, False) (memonly_Data_Destroy _)
    (nf_Data_Destroy l w1 _ Hw1 (grows_valid _ _ _ Hg1 Hl))) as (Hw2 & Hg2 & H).
  split_and!; [done..|]. destruct (Data_Destroy (Some l) w1) as [[] w2]; simpl in *; try done; [|by destruct H].
  exists w1. by destruct H as [(? & ? & _) ?].
Qed.

Lemma nf_getPersistedSec resp l w E :
  wf w → vault_is w (hr_vault resp) {[persistSecName := l]} →
  wpe (getPersistedSec resp) w (λ l' w', l' = l ∧ w' = w) E.
Proof.
  intros Hw Hv. unfold getPersistedSec. eapply wp_bind; [apply wp_MemVault_Get; [done|by eexists]|].
  intros q ? _ _ (-> & (m' & Hm' & ->) & _).
  assert (m' = {[persistSecName := l]}) as -> by (unfold vault_is in *; congruence).
  rewrite lookup_singleton_eq. by apply wp_ret.
Qed.

(** [encrypt] and [decrypt]: the result of the cryptor, kept for the caller. *)
Lemma nf_Run_import (m : M positive) (P : string → Prop) Ee w :
  wf w → respects memonly m →
  (∀ w1, wf w1 → (∀ l, bytes_of w1 l = bytes_of w l) →
     wpe m w1 (λ c w', kept [c] [] w1 w' ∧ bytes_of w1 c = None ∧ ∃ b, bytes_of w' c = Some b ∧ P b)
       (λ e w', Ee e ∧ kept [] [] w1 w')) →
  wpe (resp ← Run (λ sreq, c ← m; MemVault_Import (persistentVault sreq) persistSecName (Some c)); getPersistedSec resp) w
    (λ c w', kept [c] [] w w' ∧ bytes_of w c = None ∧ (∃ b, bytes_of w' c = Some b ∧ P b) ∧ w_vault w' = w_vault w)
    (λ e w', Ee e ∧ kept [] [] w w').
Proof.
  intros Hw Hmem Hm. eapply wp_bind; [eapply wp_weaken; [eapply (nf_Run no_residue _ _ [] (λ mp w', one_object persistSecName P mp w' ∧
    w_vault w' = w_vault w)); [done|]|by intros ? ? _ _ HQ; exact HQ|by intros ? ? _ _ [? ?%keeps_kept]]|].
  - intros req w1 Hw1 _ Hb1 Hv1 Hvs. pose proof Hvs as (Hvt & Hvp & Hne).
    eapply wp_bind; [eapply wp_weaken; [by apply wpe_memonly, Hm|by intros ? ? _ _ HQ; exact HQ|]|].
    + intros e w2 _ _ ((HEe & Hk) & _). split; [done|]. exists ∅. split; [|split].
      * split_and!; [..|done]; by apply (kept_vaults _ _ _ _ Hk); [apply not_elem_of_nil|].
      * apply kept_keeps. eapply kept_weaken; [..|exact Hk]; set_solver.
      * intros l. rewrite objects_empty. by intros ?%not_elem_of_nil.
    + intros c w2 Hw2 _ ((Hk & Hf & b & Hb & HP') & Hv2).
      eapply wp_post; [apply wpe_rows; [apply memonly_MemVault_Import|]; eapply nf_Import;
        [done|by apply (kept_vaults _ _ _ _ Hk); [apply not_elem_of_nil|exact Hvp]|done|by eapply bytes_valid]|].
      intros ? w3 _ _ ((Hk3 & Hm3) & Hv3). exists {[persistSecName := c]}. split; [|split; [|congruence]].
      * assert (kept [c] [persistentVault req] w1 w3) as Hk' by (eapply kept_trans; [..|exact Hk|exact Hk3]; set_solver).
        split; [|split].
        -- split_and!; [|done|done]. apply (kept_vaults _ _ _ _ Hk'); [by rewrite list_elem_of_singleton|done].
        -- rewrite objects_singleton. apply kept_keeps. eapply kept_weaken; [..|exact Hk']; set_solver.
        -- intros l. rewrite objects_singleton, list_elem_of_singleton. by intros ->.
      * exists c, b. split_and!; [done| |done]. by rewrite (kept_bytes _ _ _ _ Hk3) by apply not_elem_of_nil.
  - intros resp w' Hw' _ (mp & w2 & Hvr & ((c & b & -> & Hb & HP') & Hv2) & Hbs & Hnew & Hk%keeps_kept & Hv').
    rewrite objects_singleton in *. eapply wp_post; [eapply nf_getPersistedSec; [done|exact Hvr]|].
    intros ? ? _ _ [-> ->]. split_and!; [done|apply Hnew; left| |congruence]. exists b. by rewrite Hbs.
Qed.

Lemma nf_copySec src b w E :
  wf w → bytes_of w src = Some b →
  wpe (copySec src) w (λ l w', kept [l] [] w w' ∧ sm_heap (w_sm w) !! l = None ∧ bytes_of w' l = Some b ∧
    w_vault w' = w_vault w) E.
Proof.
  intros Hw Hb. unfold copySec. eapply wp_bind; [apply wp_Name; [done|by eapply bytes_valid]|]. intros n ? _ _ ->.
  destruct (live_slice _ _ _ Hw Hb) as (r & H1 & H2 & _).
  eapply wpe_Ok; [exact H1|]. eapply wpe_Ok; [exact H2|].
  pose proof (bytes_nonempty _ _ _ Hw Hb) as Hne. apply length_nonempty in Hne.
  eapply wp_bind; [apply wpe_rows; [apply memonly_NewData|apply nf_NewData; [done|lia]]|].
  intros l w1 Hw1 _ ((Hk1 & Hf & Hh & _) & Hv1). assert (src ≠ l) as Hsl.
  { intros ->. by rewrite (bytes_fresh _ _ Hf) in Hb. }
  eapply wp_bind; [by eapply nf_SecureBytes_new|]. intros sl ? _ _ [-> Hs].
  eapply wp_bind; [eapply (nf_data_bytes _ b); [done|]|].
  { rewrite (kept_bytes _ _ _ _ Hk1); [done|by rewrite list_elem_of_singleton]. }
  intros ? ? _ _ [-> ->].
  eapply wp_bind; [apply wpe_rows; [apply memonly_copy_bytes|eapply nf_copy_bytes; [done|exact Hs|]]|].
  { rewrite length_zeros. lia. }
  intros ? w2 Hw2 _ ((Hk2 & _ & Hs2) & Hv2). apply wp_ret; [done|]. split_and!; [|done|by eapply slice_bytes|congruence].
  eapply kept_trans; [..|exact Hk1|exact Hk2]; set_solver.
Qed.
End destroy_later.

(** ** Remote parents *)

(** A parent that keeps the promise of its sealer service towards the client:
    what it seals it opens again.  [serves] are the keys it serves. *)
Record remote_parent `{SealerClient} (conn : string) (serves : string → string → Z → Prop)
    (opens : string → string → Z → string → string → string → Prop) : Prop := {
  rp_Seal : ∀ r w, serves (wr_TenantId r) (wr_KeyId r) (wr_KeyVersion r) → wr_Bytes r ≠ "" →
    ∃ b w', rpc_Seal conn r w = (Ok (inl b), w') ∧ w_sm w' = w_sm w ∧ w_vault w' = w_vault w ∧ w_db w' = w_db w ∧
      w_resp w' = w_resp w ∧ opens (wr_TenantId r) (wr_KeyId r) (wr_KeyVersion r) (wr_Aad r) b (wr_Bytes r);
  rp_Unseal : ∀ r p w, serves (wr_TenantId r) (wr_KeyId r) (wr_KeyVersion r) →
    opens (wr_TenantId r) (wr_KeyId r) (wr_KeyVersion r) (wr_Aad r) (wr_Bytes r) p →
    ∃ w', rpc_Unseal conn r w = (Ok (inl p), w') ∧ w_sm w' = w_sm w ∧ w_vault w' = w_vault w ∧ w_db w' = w_db w ∧
      w_resp w' = w_resp w;
  rp_functional : ∀ t k v aad c p p', opens t k v aad c p → opens t k v aad c p' → p = p';
  rp_nonempty : ∀ t k v aad c p, opens t k v aad c p → c ≠ "" ∧ p ≠ "";
}.

Section remote_law.
Context {ENV : Env} {NF : NoFaults} {CLI : SealerClient} (R : string → Prop).

(** The whole call, given the answer of the stub. *)
Lemma nf_rpc call tenant key version lx x aad (P : string → Prop) w E :
  wf w → bytes_of w lx = Some x → (∀ b, P b → b ≠ "") →
  (∀ w1, ∃ b w', call (mkWireRequest tenant key (to_int32 version) x aad) w1 = (Ok (inl b), w') ∧
     w_sm w' = w_sm w1 ∧ w_vault w' = w_vault w1 ∧ w_db w' = w_db w1 ∧ w_resp w' = w_resp w1 ∧ P b) →
  wpe (resp ← Run (rpc_handler call tenant key version (Some lx) aad); rpc_finish resp) w
    (λ c w', keeps R [c; lx] [] w w' ∧ bytes_of w c = None ∧ w_vault w' = w_vault w ∧
       ∃ b, bytes_of w' c = Some b ∧ P b) E.
Proof.
  intros Hw Hx Hne Hcall. eapply wp_bind; [eapply wp_weaken; [eapply (nf_Run R _ _ [lx] (λ mp w', one_object handlerKey P mp w' ∧
    w_vault w' = w_vault w) (λ _, False)); [done|]|by intros ? ? _ _ HQ; exact HQ|by intros ? ? _ _ [[] _]]|].
  - intros req w1 Hw1 _ Hb1 Hv1 (Hvt & Hvp & Hvne). unfold rpc_handler. rewrite <-Hb1 in Hx.
    eapply wp_weaken; [eapply (nf_defer_destroy _ _ _ (λ _ w', ∃ c b, kept [c] [persistentVault req] w1 w' ∧
      sm_heap (w_sm w1) !! c = None ∧ bytes_of w' c = Some b ∧ P b ∧ w_vault w' = w_vault w ∧
      vault_is w' (persistentVault req) {[handlerKey := c]}) (λ _ _, False)); [done|by eapply bytes_valid|]| |done].
    + eapply wp_bind; [by apply nf_data_bytes|]. intros ? ? _ _ [-> ->].
      destruct (Hcall w1) as (answer & w2 & Hrun & Hs2 & Hv2 & Hd2 & Hr2 & HP).
      eapply (wp_bind _ _ _ (λ r w', r = inl answer ∧ w' = w2)).
      { eapply wpe_run; [exact Hrun|by rewrite Hs2|by apply grows_same|done]. }
      intros ? ? Hw2 _ [-> ->]. pose proof (proj1 (length_nonempty _) (Hne _ HP)) as Hlen.
      eapply wp_bind; [apply wpe_rows; [apply memonly_NewData|apply nf_NewData; [done|lia]]|].
      intros c w3 Hw3 _ ((Hk3 & Hf & Hh & _) & Hv3).
      eapply wp_bind; [by eapply nf_SecureBytes_new|]. intros sl ? _ _ [-> Hs].
      eapply wp_bind; [apply wpe_rows; [apply memonly_copy_bytes|eapply nf_copy_bytes; [done|exact Hs|]]|].
      { rewrite length_zeros. lia. }
      intros ? w4 Hw4 _ ((Hk4 & _ & Hs4) & Hv4).
      assert (kept [c] [] w1 w4) as Hk14.
      { eapply kept_same_l; [exact Hs2|]. eapply kept_trans; [..|exact Hk3|exact Hk4]; set_solver. }
      unfold vaultImport. eapply wp_bind; [eapply (wp_try _ _ _ (λ _ _, False)), wpe_rows; [apply memonly_MemVault_Import|];
        eapply nf_Import; [done|by apply (kept_vaults _ _ _ _ Hk14); [apply not_elem_of_nil|exact Hvp]|done|by eapply bytes_valid, slice_bytes]|].
      intros [[]|e] w5 Hw5 _ H5; [|by destruct H5]. destruct H5 as ((Hk5 & Hm5) & Hv5). apply wp_ret; [done|].
      exists c, answer. split_and!; [|by rewrite <-Hs2| |done|congruence|done].
      * eapply kept_trans; [..|exact Hk14|exact Hk5]; set_solver.
      * rewrite (kept_bytes _ _ _ _ Hk5) by apply not_elem_of_nil. by eapply slice_bytes.
    + intros ? w6 _ _ (w5 & (c & b & Hk & Hf & Hb & HP & Hv & Hm) & Hk6 & Hd6 & Hv6).
      assert (c ≠ lx) as Hne' by (intros ->; by rewrite (bytes_fresh _ _ Hf) in Hx).
      assert (kept [c; lx] [persistentVault req] w1 w6) as Hk16 by (eapply kept_trans; [..|exact Hk|exact Hk6]; set_solver).
      exists {[handlerKey := c]}. split; [split; [|split]|split; [|congruence]].
      * split_and!; [|by apply (kept_vaults _ _ _ _ Hk6); [apply not_elem_of_nil|]|done].
        apply (kept_vaults _ _ _ _ Hk16); [by rewrite list_elem_of_singleton|done].
      * rewrite objects_singleton. apply kept_keeps. eapply kept_weaken; [..|exact Hk16]; set_solver.
      * intros l. rewrite objects_singleton, list_elem_of_singleton. intros ->. by apply bytes_fresh.
      * exists c, b. split_and!; [done| |done].
        by rewrite (kept_bytes _ _ _ _ Hk6) by (by rewrite list_elem_of_singleton).
  - intros resp w' Hw' _ (mp & w2 & Hvr & ((c & b & -> & Hb & HP) & Hv2) & Hbs & Hnew & Hk & Hv').
    rewrite objects_singleton in *. unfold rpc_finish. eapply wp_bind; [apply wp_MemVault_Get; [done|by eexists]|].
    intros q ? _ _ (-> & (m' & Hm' & ->) & _).
    assert (m' = {[handlerKey := c]}) as -> by (unfold vault_is in *; congruence).
    rewrite lookup_singleton_eq. apply wp_ret; [done|]. split_and!; [done|apply Hnew; left|congruence|]. exists b. by rewrite Hbs.
Qed.

(** The connection to such a parent is a sealer that leaves nothing, for the
    versions that fit the 32 bits of the wire. *)
Lemma rpc_sealer_law conn serves opens :
  remote_parent conn serves opens →
  sealer_law (rpc_sealer conn) R (λ _, False) (λ _, True) (λ t k v, serves t k v ∧ to_int32 v = v) opens.
Proof.
  intros Hp. split; try done.
  - apply (rp_functional _ _ _ Hp).
  - intros t k v aad c p Ho. apply (rp_nonempty _ _ _ Hp _ _ _ _ _ _ Ho).
  - intros req lp p w E Hw _ [Hs Hv] Hpt Hb. unfold rpc_sealer, Seal, RPCManager_Seal. rewrite Hpt.
    eapply wp_bind; [by eapply nf_nil_or_empty|]. intros ? ? _ _ [-> ->]. cbv iota.
    eapply nf_rpc; [done|done|intros b Ho; apply (rp_nonempty _ _ _ Hp _ _ _ _ _ _ Ho)|].
    intros w1. rewrite Hv. apply (rp_Seal _ _ _ Hp (mkWireRequest _ _ _ _ _)); [done|by eapply bytes_nonempty].
  - intros req lc c p w E Hw _ [Hs Hv] Hct Hb Ho. unfold rpc_sealer, Unseal, RPCManager_Unseal. rewrite Hct.
    eapply wp_bind; [by eapply nf_nil_or_empty|]. intros ? ? _ _ [-> ->]. cbv iota.
    eapply wp_post; [eapply (nf_rpc _ _ _ _ _ _ _ (eq p)); [done|done|intros b <-; apply (rp_nonempty _ _ _ Hp _ _ _ _ _ _ Ho)|]|].
    + intros w1. rewrite Hv. destruct (rp_Unseal _ _ _ Hp (mkWireRequest (ur_TenantID req) (ur_KeyID req) (ur_KeyVersion req) c
        (ur_AAD req)) p w1 Hs Ho) as (w2 & ? & ? & ? & ? & ?). by exists p, w2.
    + intros l w' _ _ (? & ? & ? & b & ? & <-). by split_and!.
Qed.
End remote_law.

Section processor_effects.
Context {ENV : Env} {NF : NoFaults} {G : GCM} {OS : OsEnv} {BAO : OpenBao}.
Context (p : processor Sealer) (u : Unsafe) (Hcr : is_Some (p_cryptor p)) (Hva : p_vault p = Some (sqlite_vault u)).
Context {R : string → Prop} {FT FP : positive → Prop} {IT IP : world → Prop} {servesT servesP : string → string → Z → Prop}.
Context {opensT opensP : string → string → Z → string → string → string → Prop}.
Context (HT : ∀ s, p_transportSealer p = Some s → sealer_law s R FT IT servesT opensT).
Context (HP : sealer_law (p_parent p) R FP IP servesP opensP).

(** What the two sealers need of the state, and of a version to serve it. *)
Definition ready (w : world) : Prop := (is_Some (p_transportSealer p) → IT w) ∧ IP w.
Definition served (kv : KeyVersion) : Prop :=
  (is_Some (p_transportSealer p) → servesT (kv_TenantID kv) (kv_KeyID kv) (kv_Version kv)) ∧
  ∃ parent, kv_ParentKeyID kv = Some parent ∧ servesP (kv_TenantID kv) parent (parent_version kv).

(** [b] is the secret [s] of [kv], sealed for transport and by the parent. *)
Definition transport_opens (kv : KeyVersion) (aad b s : string) : Prop :=
  match p_transportSealer p with
  | None => b = s
  | Some _ => opensT (kv_TenantID kv) (kv_KeyID kv) (kv_Version kv) aad b s
  end.
Definition parent_opens (kv : KeyVersion) (aad b x : string) : Prop :=
  ∃ parent, kv_ParentKeyID kv = Some parent ∧ opensP (kv_TenantID kv) parent (parent_version kv) aad b x.
Definition secret_in (kv : KeyVersion) (aad b s : string) : Prop :=
  ∃ x, parent_opens kv aad b x ∧ transport_opens kv aad x s.

(** The two ways through a sealer: the result is new, or what went in. *)
Definition through (w : world) (i : positive) (o : positive) (w' : world) : Prop :=
  keeps R [o; i] [] w w' ∧ (bytes_of w o = None ∨ o = i) ∧ w_vault w' = w_vault w.

Lemma nf_transportSeal kv sec s aad w E :
  wf w → (is_Some (p_transportSealer p) → IT w) → served kv → bytes_of w sec = Some s →
  wpe (transportSeal p kv sec aad) w
    (λ c w', through w sec c w' ∧ ∃ b, bytes_of w' c = Some b ∧ transport_opens kv aad b s) E.
Proof.
  intros Hw HI [Hserve _] Hs. unfold transportSeal, transport_opens, through in *.
  destruct (p_transportSealer p) as [t|] eqn:Ht.
  - eapply wp_post; [eapply (law_Seal _ _ _ _ _ _ (HT t eq_refl)); [done|by apply HI|by apply Hserve|done|done]|].
    intros c w' _ _ (? & ? & ? & b & ?). split; [split_and!; eauto|]. by exists b.
  - apply wp_ret; [done|]. split; [split_and!; [apply keeps_refl|by right|done]|]. by exists s.
Qed.

Lemma nf_transportUnseal kv sec x s aad w E :
  wf w → (is_Some (p_transportSealer p) → IT w) → served kv → bytes_of w sec = Some x → transport_opens kv aad x s →
  wpe (transportUnseal p kv sec aad) w (λ c w', through w sec c w' ∧ bytes_of w' c = Some s) E.
Proof.
  intros Hw HI [Hserve _] Hx Ho. unfold transportUnseal, transport_opens, through in *.
  destruct (p_transportSealer p) as [t|] eqn:Ht.
  - eapply wp_post; [eapply (law_Unseal _ _ _ _ _ _ (HT t eq_refl)); [done|by apply HI|by apply Hserve|done|done|exact Ho]|].
    intros c w' _ _ (? & ? & ? & ?). split; [split_and!; eauto|done].
  - subst x. apply wp_ret; [done|]. split; [split_and!; [apply keeps_refl|by right|done]|done].
Qed.

Lemma nf_parentSeal kv sec s aad w E :
  wf w → IP w → served kv → bytes_of w sec = Some s →
  wpe (parentSeal p kv sec aad) w
    (λ c w', through w sec c w' ∧ ∃ b, bytes_of w' c = Some b ∧ parent_opens kv aad b s) E.
Proof.
  intros Hw HI [_ (parent & Hpa & Hserve)] Hs. unfold parentSeal. rewrite Hpa.
  eapply wp_post; [eapply (law_Seal _ _ _ _ _ _ HP); [done|done|exact Hserve|done|done]|].
  intros c w' _ _ (? & ? & ? & b & ? & ?). split; [split_and!; eauto|]. exists b. split; [done|]. by exists parent.
Qed.

Lemma nf_parentUnseal kv sec b x aad w E :
  wf w → IP w → served kv → bytes_of w sec = Some b → parent_opens kv aad b x →
  wpe (parentUnseal p kv sec aad) w (λ c w', through w sec c w' ∧ bytes_of w' c = Some x) E.
Proof.
  intros Hw HI [_ (parent & Hpa & Hserve)] Hb (parent' & Hpa' & Ho). simplify_eq. unfold parentUnseal. rewrite Hpa.
  eapply wp_post; [eapply (law_Unseal _ _ _ _ _ _ HP); [done|done|exact Hserve|done|done|exact Ho]|].
  intros c w' _ _ (? & ? & ? & ?). split; [split_and!; eauto|done].
Qed.

(** Objects that did not exist before: what changes is only these. *)
Definition only_new (w w' : world) : Prop :=
  (∀ l, bytes_of w' l = bytes_of w l ∨ bytes_of w l = None) ∧ (∀ v m, vault_is w v m → vault_is w' v m) ∧
  w_vault w' = w_vault w ∧ w_db w' = w_db w.

Lemma law_only_new s R' F I serves opens w w' :
  sealer_law s R' F I serves opens → I w → only_new w w' → I w'.
Proof.
  intros Hl HI (Hb & _ & Hv & Hd). eapply (law_stable _ _ _ _ _ _ Hl); [done| |done..]. intros l HF.
  destruct (Hb l) as [|Hn]; [done|]. by destruct (law_live _ _ _ _ _ _ Hl _ _ HI HF).
Qed.
Lemma ready_only_new w w' : only_new w w' → ready w → ready w'.
Proof.
  intros Hn [HIT HIP]. split; [|by eapply law_only_new].
  intros [t Ht]. eapply law_only_new; [by eapply HT|by apply HIT; eauto|done].
Qed.
Lemma only_new_refl w : only_new w w.
Proof. split_and!; auto. Qed.
Lemma only_new_keeps R' X w w1 w' :
  only_new w w1 → keeps R' X [] w1 w' → (∀ l, l ∈ X → bytes_of w l = None) → grows w1 w' → w_vault w' = w_vault w1 →
  only_new w w'.
Proof.
  intros (Hb & Hv & Hr & Hd) Hk HX Hg Hr'. split_and!; [| |congruence|by rewrite (grows_db _ _ Hg)].
  - intros l. destruct (decide (l ∈ X)) as [|Hn]; [right; auto|].
    destruct (keeps_bytes Hk _ Hn) as [->|[Hl _]]; [apply Hb|]. destruct (Hb l) as [<-|]; auto.
  - intros v m Hm. apply (keeps_vaults Hk); [apply not_elem_of_nil|auto].
Qed.
Lemma only_new_kept X w w1 w' :
  only_new w w1 → kept X [] w1 w' → (∀ l, l ∈ X → bytes_of w l = None) → grows w1 w' → w_vault w' = w_vault w1 →
  only_new w w'.
Proof. intros Hn Hk. by apply (only_new_keeps no_residue), kept_keeps. Qed.
(** An object that was not there, or has gone. *)
Lemma only_new_fresh w w1 l : only_new w w1 → bytes_of w1 l = None → bytes_of w l = None.
Proof. intros (Hb & _) Hn. by destruct (Hb l) as [<-|]. Qed.
Lemma only_new_through w w1 i o w' :
  only_new w w1 → bytes_of w i = None → through w1 i o w' → grows w1 w' → only_new w w' ∧ bytes_of w o = None.
Proof.
  intros Hn Hi (Hk & Ho & Hr) Hg.
  assert (bytes_of w o = None) as Hwo by (destruct Ho as [Ho| ->]; [by eapply only_new_fresh|done]).
  split; [|done]. eapply only_new_keeps; [done..| |done|done]. intros l Hl. set_solver.
Qed.

Definition kv_row (kv : KeyVersion) : string * (string * string * Z * Z) := (un_source u, kr_ident (kv_ref kv)).

(** The secret of [kv] is in the vault; of the new objects, [D] are still to
    be destroyed and [X] are gone; the rest is what the sealers may leave. *)
Definition stored (kv : KeyVersion) (aad : string) (D X : list positive) (w w' : world) : Prop :=
  keeps R (D ++ X) [] w w' ∧ (∀ l, l ∈ (D ++ X)%list → bytes_of w l = None) ∧ (∀ l, l ∈ X → bytes_of w' l = None) ∧
  ∃ s b, String.length s = KeySize ∧ secret_in kv aad b s ∧
    w_vault w' = <[kv_row kv := mkVaultRow b aad]> (w_vault w).

Lemma stored_destroy {A} kv aad l D (m : M A) w0 w E :
  wf w → valid w (Some l) → wpe m w (λ _ w', ∃ X, stored kv aad (l :: D) X w0 w') (λ _ _, False) →
  wpe (defer (Data_Destroy (Some l)) m) w (λ _ w', ∃ X, stored kv aad D X w0 w') E.
Proof.
  intros Hw Hl Hm. eapply wp_post; [by eapply nf_defer_destroy|].
  intros ? w' _ _ (w1 & (X & Hk & HX & Hd & s & b & Hs & Hin & Hv) & Hk' & Hd' & Hv'). exists (l :: X).
  split_and!; [| | |exists s, b; split_and!; [done..|congruence]].
  - eapply keeps_kept_r; [..|exact Hk|exact Hk']; set_solver.
  - intros l' Hl'. apply HX. set_solver.
  - intros l' Hl'. destruct (decide (l' = l)) as [->|]; [done|].
    rewrite (kept_bytes _ _ _ _ Hk'); [|by rewrite list_elem_of_singleton]. apply Hd. set_solver.
Qed.

Lemma nf_createSecret_handler kv aad req w E :
  wf w → ready w → served kv → kv_TenantID kv ≠ "" → kv_KeyID kv ≠ "" →
  wpe (createSecret_handler p kv aad req) w (λ _ w', ∃ X, stored kv aad [] X w w') E.
Proof.
  intros Hw Hr Hserve Ht Hid. unfold createSecret_handler. destruct Hcr as [cr ->]. rewrite Hva. simpl.
  eapply wp_bind; [apply wpe_rows; [apply memonly_GenerateSecret|by apply nf_GenerateSecret]|].
  intros secret w1 Hw1 Hg1 ((Hk1 & Hf1 & s & Hs & Hlen) & Hv1).
  assert (only_new w w1) as Hn1.
  { eapply (only_new_kept _ w w); [apply only_new_refl|done| |done|done]. set_solver. }
  eapply stored_destroy; [done|by eapply bytes_valid|].
  eapply wp_bind; [eapply nf_transportSeal; [done|by apply (ready_only_new _ _ Hn1 Hr)|done|done]|].
  intros trans w2 Hw2 Hg2 (Hth & x & Hx & Hxo).
  destruct (only_new_through _ _ _ _ _ Hn1 Hf1 Hth Hg2) as [Hn2 Hft].
  eapply stored_destroy; [done|by eapply bytes_valid|].
  eapply wp_bind; [eapply nf_parentSeal; [done|by apply (ready_only_new _ _ Hn2 Hr)|done|done]|].
  intros parent w3 Hw3 Hg3 (Hpa & b & Hb & Hbo).
  destruct (only_new_through _ _ _ _ _ Hn2 Hft Hpa Hg3) as [Hn3 Hfp].
  eapply stored_destroy; [done|by eapply bytes_valid|].
  eapply wp_post; [by eapply nf_Unsafe_ImportKey|]. intros ? w4 _ _ [Hs4 Hv4]. exists [].
  split_and!; [|set_solver..|].
  - assert (keeps R [secret; trans] [] w w2) as Hk2 by (eapply keeps_kept_l; [..|exact Hk1|apply Hth]; set_solver).
    assert (keeps R [parent; trans] [] w2 w4) as Hk4.
    { eapply keeps_kept_r; [..|apply Hpa|by apply kept_same]; set_solver. }
    eapply keeps_trans; [..|exact Hk2|exact Hk4]; set_solver.
  - exists s, b. split_and!; [done|by exists x|]. rewrite Hv4. by destruct Hn3 as (_ & _ & -> & _).
Qed.

Lemma ready_same w w' :
  (∀ l, bytes_of w' l = bytes_of w l) → w_db w' = w_db w → w_vault w' = w_vault w → ready w → ready w'.
Proof.
  intros Hb Hd Hv [HIT HIP]. split; [|by eapply (law_stable _ _ _ _ _ _ HP)].
  intros [t Ht]. eapply (law_stable _ _ _ _ _ _ (HT t Ht)); eauto.
Qed.

Lemma nf_createSecret kv aad w E :
  wf w → ready w → served kv → kv_TenantID kv ≠ "" → kv_KeyID kv ≠ "" →
  wpe (createSecret p kv aad) w (λ _ w', keeps R [] [] w w' ∧ ∃ s b, String.length s = KeySize ∧ secret_in kv aad b s ∧
    w_vault w' = <[kv_row kv := mkVaultRow b aad]> (w_vault w)) E.
Proof.
  intros Hw Hr Hserve Ht Hid. unfold createSecret. eapply wp_bind; [eapply wp_weaken|].
  - eapply (nf_Run R _ _ [] (λ mp w', mp = ∅ ∧ ∃ s b, String.length s = KeySize ∧ secret_in kv aad b s ∧
      w_vault w' = <[kv_row kv := mkVaultRow b aad]> (w_vault w)) (λ _, False)); [done|].
    intros req w1 Hw1 Hg1 Hb1 Hv1 Hvs.
    eapply wp_weaken; [eapply (nf_createSecret_handler _ _ _ _ (λ _ _, False)); [done| |done..]| |done].
    { eapply ready_same; [done|by apply Hg1|done|done]. }
    intros ? w2 _ _ (X & Hk & HX & Hd & s & b & Hs & Hin & Hr2). exists ∅. split; [|split; [done|]].
    + assert (keeps R [] [] w1 w2) as Hk' by (eapply (keeps_dead _ X); [by rewrite app_nil_r|]; eauto).
      split; [|split].
      * unfold vaults_of in *. destruct Hvs as (Hvt & Hvp & Hne).
        split_and!; [..|done]; by apply (keeps_vaults Hk'); [apply not_elem_of_nil|].
      * eapply keeps_weaken; [..|exact Hk']; set_solver.
      * intros l. rewrite objects_empty. by intros ?%not_elem_of_nil.
    + exists s, b. by rewrite <-Hv1.
  - intros resp w' _ _ HQ. exact HQ.
  - by intros ? ? _ _ [[] _].
  - intros resp w' Hw' _ (mp & w2 & _ & (-> & s & b & Hs & Hin & Hv) & _ & _ & Hk & Hv').
    apply wp_ret; [done|]. rewrite objects_empty in Hk. split; [done|]. exists s, b. split_and!; [done..|congruence].
Qed.

(** The way back: [s] is in the new object of the vault [pv]. *)
Definition fetched (s : string) (pv : positive) (D X : list positive) (w w' : world) : Prop :=
  ∃ sec, keeps R (sec :: D ++ X) [pv] w w' ∧ sec ∉ (D ++ X)%list ∧ bytes_of w sec = None ∧
    (∀ l, l ∈ (D ++ X)%list → bytes_of w l = None) ∧ (∀ l, l ∈ X → bytes_of w' l = None) ∧
    bytes_of w' sec = Some s ∧ vault_is w' pv {[persistSecName := sec]} ∧ w_vault w' = w_vault w.

Lemma fetched_destroy {A} s pv l D (m : M A) w0 w E :
  wf w → valid w (Some l) → wpe m w (λ _ w', ∃ X, fetched s pv (l :: D) X w0 w') (λ _ _, False) →
  wpe (defer (Data_Destroy (Some l)) m) w (λ _ w', ∃ X, fetched s pv D X w0 w') E.
Proof.
  intros Hw Hl Hm. eapply wp_post; [by eapply nf_defer_destroy|].
  intros ? w' _ _ (w1 & (X & sec & Hk & Hsec & Hf & HX & Hd & Hs & Hm1 & Hv) & Hk' & Hd' & Hv').
  exists (l :: X), sec. split_and!; [| |done| | | | |congruence].
  - eapply keeps_kept_r; [..|exact Hk|exact Hk']; set_solver.
  - set_solver.
  - intros l' Hl'. apply HX. set_solver.
  - intros l' Hl'. destruct (decide (l' = l)) as [->|]; [done|].
    rewrite (kept_bytes _ _ _ _ Hk'); [|by rewrite list_elem_of_singleton]. apply Hd. set_solver.
  - rewrite (kept_bytes _ _ _ _ Hk'); [done|]. set_solver.
  - apply (kept_vaults _ _ _ _ Hk'); [apply not_elem_of_nil|done].
Qed.

Lemma fresh_not_valid w l l' : sm_heap (w_sm w) !! l = None → valid w (Some l') → l ≠ l'.
Proof. intros Hl [d Hd] ->. congruence. Qed.

Lemma nf_resolveSecret_handler kv row s req w E :
  wf w → ready w → served kv → w_vault w !! kv_row kv = Some row → secret_in kv (vr_aad row) (vr_material row) s →
  vaults_of req w ∅ ∅ →
  wpe (resolveSecret_handler p kv req) w (λ _ w', ∃ X, fetched s (persistentVault req) [] X w w') E.
Proof.
  intros Hw Hr Hserve Hrow (x & (pid & Hpid & Hbo) & Hxo) (_ & Hpv & _). unfold resolveSecret_handler. rewrite Hva. cbn [on_vault ExportKey sqlite_vault].
  eapply wp_bind; [eapply nf_Unsafe_ExportKey; [done|exact Hrow|by eapply (law_nonempty _ _ _ _ _ _ HP)]|].
  intros [ex aad] w1 Hw1 Hg1 (Hk1 & Hf1 & Hb1 & -> & Hv1). cbn [ex_KeyMaterial ex_AAD] in *.
  assert (only_new w w1) as Hn1.
  { eapply (only_new_kept _ w w); [apply only_new_refl|done| |done|done]. set_solver. }
  eapply fetched_destroy; [done|by eapply bytes_valid|].
  eapply wp_bind; [eapply nf_parentUnseal; [done|by apply (ready_only_new _ _ Hn1 Hr)|done|done|by exists pid]|].
  intros pu w2 Hw2 Hg2 (Hpu & Hx). destruct (only_new_through _ _ _ _ _ Hn1 Hf1 Hpu Hg2) as [Hn2 Hfp].
  eapply fetched_destroy; [done|by eapply bytes_valid|].
  eapply wp_bind; [eapply nf_transportUnseal; [done|by apply (ready_only_new _ _ Hn2 Hr)|done|done|done]|].
  intros tu w3 Hw3 Hg3 (Htu & Hs). destruct (only_new_through _ _ _ _ _ Hn2 Hfp Htu Hg3) as [Hn3 Hft].
  eapply fetched_destroy; [done|by eapply bytes_valid|].
  eapply wp_bind; [by eapply nf_copySec|]. intros sec w4 Hw4 Hg4 (Hk4 & Hf4 & Hb4 & Hv4).
  assert (vault_is w4 (persistentVault req) ∅) as Hpv4.
  { apply (kept_vaults _ _ _ _ Hk4); [apply not_elem_of_nil|]. by apply Hn3. }
  eapply wp_post; [apply wpe_rows; [apply memonly_MemVault_Import|eapply nf_Import; [done|exact Hpv4|done|by eapply bytes_valid]]|].
  intros ? w5 _ _ ((Hk5 & Hm5) & Hv5). exists [], sec.
  assert (sec ∉ [tu; pu; ex]) as Hsec.
  { rewrite !not_elem_of_cons. split_and!; [| | |apply not_elem_of_nil]; eapply fresh_not_valid; try exact Hf4.
    - by eapply bytes_valid.
    - eapply grows_valid; [exact Hg3|by eapply bytes_valid].
    - eapply grows_valid; [exact Hg3|]. eapply grows_valid; [exact Hg2|by eapply bytes_valid]. }
  split_and!; [|done| |set_solver|set_solver| |done|].
  - assert (keeps R [pu; ex] [] w w2) as Hk2 by (eapply keeps_kept_l; [..|exact Hk1|apply Hpu]; set_solver).
    assert (keeps R [tu; pu; sec] [] w2 w4) as Hk24 by (eapply keeps_kept_r; [..|apply Htu|exact Hk4]; set_solver).
    assert (keeps R [sec; tu; pu; ex] [] w w4) as Hkk by (eapply keeps_trans; [..|exact Hk2|exact Hk24]; set_solver).
    eapply keeps_kept_r; [..|exact Hkk|exact Hk5]; set_solver.
  - eapply only_new_fresh; [exact Hn3|by apply bytes_fresh].
  - by rewrite (kept_bytes _ _ _ _ Hk5) by apply not_elem_of_nil.
  - rewrite Hv5, Hv4. by destruct Hn3 as (_ & _ & -> & _).
Qed.

Lemma nf_resolveSecret kv row s w E :
  wf w → ready w → served kv → w_vault w !! kv_row kv = Some row → secret_in kv (vr_aad row) (vr_material row) s →
  wpe (resolveSecret p kv) w (λ sec w', ∃ l, sec = mkSecret KeyAlgorithmAES256 (Some l) ∧ keeps R [l] [] w w' ∧
    bytes_of w l = None ∧ bytes_of w' l = Some s ∧ w_vault w' = w_vault w) E.
Proof.
  intros Hw Hr Hserve Hrow Hin. unfold resolveSecret. eapply wp_bind; [eapply wp_weaken|].
  - eapply (nf_Run R _ _ [] (λ mp w', ∃ l, mp = {[persistSecName := l]} ∧ bytes_of w' l = Some s ∧
      w_vault w' = w_vault w) (λ _, False)); [done|].
    intros req w1 Hw1 Hg1 Hb1 Hv1 Hvs.
    eapply wp_weaken; [eapply (nf_resolveSecret_handler _ row s _ _ (λ _ _, False)); [done| |done|by rewrite Hv1|done..]| |done].
    { eapply ready_same; [done|by apply Hg1|done|done]. }
    intros ? w2 _ _ (X & sec & Hk & Hsec & Hf & HX & Hd & Hs & Hm2 & Hv2). simpl in *.
    exists {[persistSecName := sec]}. split; [|exists sec; split_and!; [done..|congruence]].
    assert (keeps R [sec] [persistentVault req] w1 w2) as Hk'.
    { apply (keeps_dead _ X); [|by auto]. eapply keeps_weaken; [..|exact Hk]; set_solver. }
    destruct Hvs as (Hvt & Hvp & Hne). split; [|split].
    + split_and!; [|done|done]. apply (keeps_vaults Hk'); [by rewrite list_elem_of_singleton|done].
    + rewrite objects_singleton. eapply keeps_weaken; [..|exact Hk']; set_solver.
    + intros l. rewrite objects_singleton, list_elem_of_singleton. by intros ->.
  - intros resp w' _ _ HQ. exact HQ.
  - by intros ? ? _ _ [[] _].
  - intros resp w' Hw' _ (mp & w2 & Hvr & (l & -> & Hs & Hv) & Hb & Hnew & Hk & Hv').
    rewrite objects_singleton in *. eapply wp_bind; [eapply nf_getPersistedSec; [done|exact Hvr]|].
    intros l' ? _ _ [-> ->]. apply wp_ret; [done|]. exists l. split_and!; [done..| | |congruence].
    + apply Hnew. left.
    + by rewrite Hb.
Qed.

(** C9: a secret a processor creates is the secret it resolves later, for a
    processor over a SQLite vault whose transport sealer and parent obey
    [sealer_law], when no system call and no statement fails.  Creating the
    secret succeeds, and no object of secure memory keeps it: every object holds
    what it held before, or is new and holds what the sealers may leave ([R]:
    nothing for a remote parent, the provider's secret for a root manager).  In
    any later state in which the vault still has the row and the sealers are
    ready, resolving returns the 32 bytes of the secret in a new object, and
    changes no other in any other way. *)
Theorem created_secret_resolves kv aad w :
  wf w → ready w → served kv → kv_TenantID kv ≠ "" → kv_KeyID kv ≠ "" →
  ∃ s w1, String.length s = 32 ∧ createSecret p kv aad w = (Ok (), w1) ∧ (∀ l, same_or_residue R w w1 l) ∧
    ∀ w2, wf w2 → ready w2 → w_vault w2 !! kv_row kv = w_vault w1 !! kv_row kv →
    ∃ l w3, resolveSecret p kv w2 = (Ok (mkSecret KeyAlgorithmAES256 (Some l)), w3) ∧ bytes_of w3 l = Some s ∧
      bytes_of w2 l = None ∧ ∀ l', l' ≠ l → same_or_residue R w2 w3 l'.
Proof.
  intros Hw Hr Hserve Ht Hk. destruct (wpe_returns _ _ _ (nf_createSecret kv aad w _ Hw Hr Hserve Ht Hk))
    as ([] & w1 & Hrun & _ & _ & Hk1 & s & b & Hs & Hin & Hv1).
  exists s, w1. split_and!; [done..| |].
  { intros l. apply (keeps_bytes Hk1), not_elem_of_nil. }
  intros w2 Hw2 Hr2. rewrite Hv1, lookup_insert_eq. intros Hrow.
  destruct (wpe_returns _ _ _ (nf_resolveSecret kv _ s w2 _ Hw2 Hr2 Hserve Hrow Hin))
    as (sec & w3 & Hrun2 & _ & _ & l & -> & Hk2 & Hf & Hb & _).
  exists l, w3. split_and!; [done..|]. intros l' Hl'. apply (keeps_bytes Hk2). by rewrite list_elem_of_singleton.
Qed.
End processor_effects.
