(* ===== verification/ManagerLaws.v ===== *)
(** * The key hierarchy seals and unseals

    The manager is the parent sealer of its own processors.  If the transport
    sealers and the sealers above the manager keep [sealer_law] with a residue
    [R], so does the manager at every height: opening a key climbs one level per call, decrypting
    the key of each level with the key of the level above ([manager_sealer_law]).
    The keys the manager serves are those [resolveActiveKey] finds in the
    database whose vault row holds a secret sealed by the level above. *)

From S2P Require Import Prelude GoStrings GoRuntime Model World Lifecycle Providers Hierarchy.
From S2P Require Import Sql KeyStore KeyVersionStore StoreInvariant SecureMem SecureMemTheorems SealingEffects.
From S2P Require Import AesGcm Cryptor Sealers Vault KeyProcessor RootManager SealingSafety SealingTheorems SealingLaws.

Local Open Scope string_scope.

(** ** Reads of the database *)

(** A call that only reads the database: the result depends on nothing else. *)
Definition reads_db {A} (m : M A) : Prop := ∀ w,
  (w_sm (m w).2 = w_sm w ∧ w_vault (m w).2 = w_vault w ∧ w_db (m w).2 = w_db w ∧ w_resp (m w).2 = w_resp w) ∧
  ∀ w', w_db w' = w_db w → (m w').1 = (m w).1.

Section reads.
Context {ENV : Env} {NF : NoFaults}.

Lemma reads_ret {A} (a : A) : reads_db (mret a).
Proof. by intros w. Qed.
Lemma reads_throw {A} e : reads_db (@throw world A e).
Proof. by intros w. Qed.
Lemma reads_get_db : reads_db get_db.
Proof. intros w. split; [done|]. intros w' Hd. unfold get_db, gets. simpl. by rewrite Hd. Qed.
Lemma reads_bind {A B} (m : M A) (k : A → M B) : reads_db m → (∀ a, reads_db (k a)) → reads_db (m ≫= k).
Proof.
  intros Hm Hk w. rewrite bind_run. destruct (Hm w) as [Hs Hr]. destruct (m w) as [[a|e| |] w1] eqn:Hmw; simpl in *.
  { destruct (Hk a w1) as [Hs1 Hr1]. split; [intuition congruence|]. intros w' Hd. rewrite bind_run.
    specialize (Hr w' Hd). destruct (m w') as [? w1'] eqn:Hmw'. simpl in *. subst. apply Hr1.
    pose proof (Hm w') as [Hs' _]. rewrite Hmw' in Hs'. simpl in Hs'. intuition congruence. }
  all: split; [done|]; intros w' Hd; rewrite bind_run; specialize (Hr w' Hd); destruct (m w') as [? w1']; simpl in *; by subst.
Qed.
Lemma reads_external what : reads_db (external what).
Proof. intros w. rewrite external_nf. split; [done|]. intros w' _. by rewrite external_nf. Qed.

Lemma reads_check e : reads_db (check e : M ()).
Proof. destruct e; [apply reads_throw|apply reads_ret]. Qed.
End reads.

(** Split a read into its statements. *)
Ltac reads_step :=
  lazymatch goal with
  | |- reads_db (mret _) => apply reads_ret
  | |- reads_db (throw _) => apply reads_throw
  | |- reads_db get_db => apply reads_get_db
  | |- reads_db (gets w_db) => apply reads_get_db
  | |- reads_db (external _) => apply reads_external
  | |- reads_db (check _) => apply reads_check
  | |- reads_db (_ ≫= _) => apply reads_bind; [|intros ?]
  | |- reads_db (match ?x with _ => _ end) => destruct x
  | |- reads_db (let _ := _ in _) => cbv zeta
  end.

Section statements.
Context {ENV : Env} {NF : NoFaults}.

Lemma reads_arg_uuid s : reads_db (arg_uuid s).
Proof. unfold arg_uuid. repeat reads_step. Qed.
Lemma reads_arg_int4 z : reads_db (arg_int4 z).
Proof. unfold arg_int4. repeat reads_step. Qed.
Lemma reads_statement t : reads_db (statement t).
Proof. unfold statement. repeat reads_step. Qed.
End statements.

Ltac solve_reads := repeat (reads_step || apply reads_arg_uuid || apply reads_arg_int4 || apply reads_statement).

Section reads_ops.
Context {ENV : Env} {NF : NoFaults}.

Lemma reads_resolveActiveKey t k v : reads_db (resolveActiveKey t k v).
Proof.
  unfold resolveActiveKey, resolveUsableKeyVersion, ListKeyVersions, GetKeyByID, scan_row.
  solve_reads.
Qed.

(** What a successful read is worth. *)
Lemma nf_reads {A} (m : M A) w a E :
  wf w → reads_db m → (m w).1 = Ok a → wpe m w (λ a' w', a' = a ∧ w_sm w' = w_sm w ∧ w_vault w' = w_vault w) E.
Proof.
  intros Hw Hm Ha. destruct (Hm w) as [(Hs & Hv & Hd & Hr) _]. unfold wpe.
  destruct (m w) as [res w']. simpl in *. subst res. split; [by rewrite Hs|]. split; [by apply grows_same|done].
Qed.
End reads_ops.

(** ** One level *)

(** A law with its parameters. *)
Record sealer_spec := mkSpec {
  sp_F : positive → Prop;
  sp_I : world → Prop;
  sp_serves : string → string → Z → Prop;
  sp_opens : string → string → Z → string → string → string → Prop;
}.
Definition spec_law `{ENV : Env} (R : string → Prop) (s : Sealer) (sp : sealer_spec) : Prop :=
  sealer_law s R (sp_F sp) (sp_I sp) (sp_serves sp) (sp_opens sp).

Section manager_law.
Context {ENV : Env} {NF : NoFaults} {G : GCM} {OS : OsEnv} {BAO : OpenBao} {CLI : SealerClient}.
Context (R : string → Prop) (m : Manager) (src : KeyKind → Unsafe) (transport outer : KeyKind → sealer_spec).

(** The processors are complete, their vaults are SQLite vaults, and the
    sealers that are not the manager keep their laws. *)
Record manager_sealers : Prop := {
  ms_cryptor : ∀ kind pr, m_processors m !! kind = Some pr → is_Some (p_cryptor pr);
  ms_vault : ∀ kind pr, m_processors m !! kind = Some pr → p_vault pr = Some (sqlite_vault (src kind));
  ms_transport : ∀ kind pr s, m_processors m !! kind = Some pr → p_transportSealer pr = Some s →
    spec_law R s (transport kind);
  ms_outer : ∀ kind pr s, m_processors m !! kind = Some pr → p_parent pr = PSealer s → spec_law R s (outer kind);
}.
Context (Hms : manager_sealers).

(** What [resolveActiveKey] finds, and the rows of the vaults. *)
Context (act : string → string → Z → option (Key * KeyVersion)).
Context (rows : gmap (string * (string * string * Z * Z)) VaultRow).

Section step.
Context (self : Sealer) (sp : sealer_spec).

Definition parent_spec (kind : KeyKind) (pr : processor ParentRef) : sealer_spec :=
  match p_parent pr with PSelf => sp | PSealer _ => outer kind end.

Definition proc_served (kind : KeyKind) (pr : processor ParentRef) (kv : KeyVersion) : Prop :=
  served (with_parent self pr) (servesT := sp_serves (transport kind)) (servesP := sp_serves (parent_spec kind pr)) kv.
Definition proc_secret (kind : KeyKind) (pr : processor ParentRef) : KeyVersion → string → string → string → Prop :=
  secret_in (with_parent self pr) (opensT := sp_opens (transport kind)) (opensP := sp_opens (parent_spec kind pr)).

(** The secret of a key: its row opens to it. *)
Definition key_secret (t k : string) (v : Z) (s : string) : Prop :=
  v ≠ 0%Z ∧ String.length s = KeySize ∧ ∃ key kv pr row,
    act t k v = Some (key, kv) ∧ m_processors m !! k_Kind key = Some pr ∧ proc_served (k_Kind key) pr kv ∧
    rows !! kv_row (src (k_Kind key)) kv = Some row ∧
    proc_secret (k_Kind key) pr kv (vr_aad row) (vr_material row) s.

Definition level_up : sealer_spec := {|
  sp_F := λ l, ∃ kind pr, m_processors m !! kind = Some pr ∧
    ((is_Some (p_transportSealer pr) ∧ sp_F (transport kind) l) ∨ sp_F (parent_spec kind pr) l);
  sp_I := λ w, rows ⊆ w_vault w ∧ (∀ t k v r, act t k v = Some r → (resolveActiveKey t k v w).1 = Ok r) ∧
    ∀ kind pr, m_processors m !! kind = Some pr →
      ready (with_parent self pr) (IT := sp_I (transport kind)) (IP := sp_I (parent_spec kind pr)) w;
  sp_serves := λ t k v, ∃ s, key_secret t k v s;
  sp_opens := λ t k v aad c p, ∃ s, key_secret t k v s ∧ opens_to s c aad p ∧ ¬ rejected s c aad;
|}.

Context (Hself : spec_law R self sp).

Lemma parent_law kind pr :
  m_processors m !! kind = Some pr → spec_law R (p_parent (with_parent self pr)) (parent_spec kind pr).
Proof.
  intros Hp. unfold parent_spec, with_parent. simpl. destruct (p_parent pr) eqn:E; [done|]. by eapply (ms_outer Hms).
Qed.
Lemma transport_law kind pr s :
  m_processors m !! kind = Some pr → p_transportSealer (with_parent self pr) = Some s → spec_law R s (transport kind).
Proof. apply (ms_transport Hms). Qed.

Lemma key_secret_functional t k v s s' : key_secret t k v s → key_secret t k v s' → s = s'.
Proof.
  intros (_ & _ & key & kv & pr & row & Ha & Hp & _ & Hrow & (x & (pid & Hpid & Hx) & Hs))
    (_ & _ & key' & kv' & pr' & row' & Ha' & Hp' & _ & Hrow' & (x' & (pid' & Hpid' & Hx') & Hs')).
  simplify_eq. assert (x = x') as <- by (by eapply (law_functional _ _ _ _ _ _ (parent_law _ _ Hp))).
  unfold transport_opens in *. destruct (p_transportSealer (with_parent self pr)) eqn:E; [|congruence].
  by eapply (law_functional _ _ _ _ _ _ (transport_law _ _ _ Hp E)).
Qed.

(** Resolving a served key. *)
Lemma nf_resolveProcessorAndSecret t k v s w E :
  wf w → sp_I level_up w → key_secret t k v s →
  wpe (resolveProcessorAndSecret self m t k v) w
    (λ r w', ∃ l c, r = (r.1, mkSecret KeyAlgorithmAES256 (Some l)) ∧ p_cryptor r.1 = Some c ∧
       keeps R [l] [] w w' ∧ bytes_of w l = None ∧ bytes_of w' l = Some s ∧ w_vault w' = w_vault w) E.
Proof.
  intros Hw (Hrows & Hact & Hready) (Hv & Hlen & key & kv & pr & row & Ha & Hp & Hserved & Hrow & Hin).
  unfold resolveProcessorAndSecret. eapply wp_bind; [eapply nf_reads; [done|apply reads_resolveActiveKey|by apply Hact]|].
  intros ? w1 Hw1 Hg1 (-> & Hs1 & Hv1). rewrite Hp. destruct (ms_cryptor Hms _ _ Hp) as [c Hc].
  eapply wp_bind; [eapply (nf_resolveSecret (with_parent self pr) _ (ms_cryptor Hms _ _ Hp) (ms_vault Hms _ _ Hp) (λ t' H', transport_law _ _ t' Hp H') (parent_law _ _ Hp)
     kv row s); [done| |exact Hserved| |exact Hin]|].
  - eapply ready_same; [by intros; eapply transport_law|by apply parent_law| |by apply Hg1|done|by apply Hready].
    intros l. unfold bytes_of. by rewrite Hs1.
  - rewrite Hv1. by eapply lookup_weaken.
  - intros sec w2 Hw2 _ (l & -> & Hk & Hf & Hb & Hv2). apply wp_ret; [done|]. exists l, c.
    split_and!; [done|done|by eapply keeps_same_l| |done|congruence]. unfold bytes_of in *. by rewrite <-Hs1.
Qed.

(** What both operations do with the secret: use it, and destroy it. *)
Lemma nf_with_secret (l : positive) (body : M positive) s P w E :
  wf w → bytes_of w l = Some s → respects memonly body →
  wpe body w (λ c w', kept [c] [] w w' ∧ bytes_of w c = None ∧ (∃ b, bytes_of w' c = Some b ∧ P b) ∧
    w_vault w' = w_vault w) (λ _ _, False) →
  wpe (defer (Data_Destroy (Some l)) body) w (λ c w', kept [c; l] [] w w' ∧ c ≠ l ∧ bytes_of w c = None ∧
    bytes_of w' l = None ∧ (∃ b, bytes_of w' c = Some b ∧ P b) ∧ w_vault w' = w_vault w) E.
Proof.
  intros Hw Hl Hmem Hb. eapply wp_post; [eapply nf_defer_destroy; [done|by eapply bytes_valid|exact Hb]|].
  intros c w2 _ _ (w1 & (Hk1 & Hf & (b & Hbc & HP) & Hv1) & Hk2 & Hd & Hv2).
  assert (c ≠ l) as Hcl by (intros ->; congruence).
  split_and!; [|done|done|done| |congruence].
  - eapply kept_trans; [..|exact Hk1|exact Hk2]; set_solver.
  - exists b. split; [|done]. rewrite (kept_bytes _ _ _ _ Hk2); [done|by rewrite list_elem_of_singleton].
Qed.

(** [resolveProcessorAndSecret], then the cryptor with the secret. *)
Lemma nf_resolve_and_use t k v s (use : processor Sealer → Secret → M positive) P lx w E :
  wf w → sp_I level_up w → key_secret t k v s → is_Some (bytes_of w lx) →
  (∀ pr c l w1, wf w1 → p_cryptor pr = Some c → bytes_of w1 l = Some s → bytes_of w1 lx = bytes_of w lx →
     respects memonly (use pr (mkSecret KeyAlgorithmAES256 (Some l))) ∧
     wpe (use pr (mkSecret KeyAlgorithmAES256 (Some l))) w1
       (λ c w', kept [c] [] w1 w' ∧ bytes_of w1 c = None ∧ (∃ b, bytes_of w' c = Some b ∧ P b) ∧
          w_vault w' = w_vault w1) (λ _ _, False)) →
  wpe ('(pr, sec) ← resolveProcessorAndSecret self m t k v; defer (Data_Destroy (sec_Data sec)) (use pr sec)) w
    (λ c w', keeps R [c; lx] [] w w' ∧ bytes_of w c = None ∧ w_vault w' = w_vault w ∧
       ∃ b, bytes_of w' c = Some b ∧ P b) E.
Proof.
  intros Hw HI Hs Hlx Huse. eapply wp_bind; [by eapply nf_resolveProcessorAndSecret|].
  intros [pr sec] w1 Hw1 _ (l & c & Heq & Hc & Hk & Hf & Hb & Hv). simpl in Heq, Hc. injection Heq as ->. cbn [sec_Data].
  assert (lx ≠ l) as Hne by (intros ->; rewrite Hf in Hlx; by destruct Hlx).
  destruct (Huse pr c l w1) as [Hmem Hrun]; [done..| |].
  { destruct Hlx as [x Hx]. rewrite Hx. by apply (keeps_live Hk); [rewrite list_elem_of_singleton|]. }
  eapply wp_post; [by eapply nf_with_secret|].
  intros o w2 _ _ (Hk2 & Hol & Hfo & Hdl & Hbo & Hv2). split_and!; [| |congruence|done].
  - apply (keeps_weaken _ [o] _ [] _); [set_solver|done|]. eapply (keeps_drop _ l); [left; by rewrite Hdl, Hf|].
    eapply keeps_kept_r; [..|exact Hk|exact Hk2]; set_solver.
  - apply (keeps_none Hk); [by rewrite list_elem_of_singleton|done].
Qed.

Lemma memonly_getPersistedSec resp : respects memonly (getPersistedSec resp).
Proof. unfold getPersistedSec. solve_respects. Qed.
Hint Resolve memonly_getPersistedSec memonly_Encrypt memonly_Decrypt : respects.
Lemma memonly_encrypt pr req : respects memonly (encrypt pr req).
Proof. unfold encrypt, on_cryptor. solve_memonly. Qed.
Lemma memonly_decrypt pr req : respects memonly (decrypt pr req).
Proof. unfold decrypt, on_cryptor. solve_memonly. Qed.

Lemma nf_encrypt pr c l s lp p aad w :
  wf w → p_cryptor pr = Some c → bytes_of w l = Some s → String.length s = KeySize → bytes_of w lp = Some p →
  wpe (encrypt pr (mkEncryptRequest (mkSecret KeyAlgorithmAES256 (Some l)) (Some lp) aad)) w
    (λ o w', kept [o] [] w w' ∧ bytes_of w o = None ∧
       (∃ b, bytes_of w' o = Some b ∧ opens_to s b aad p ∧ ¬ rejected s b aad) ∧ w_vault w' = w_vault w) (λ _ _, False).
Proof.
  intros Hw Hc Hl Hlen Hp. unfold encrypt, on_cryptor. rewrite Hc.
  eapply wp_weaken; [eapply (nf_Run_import _ (λ b, opens_to s b aad p ∧ ¬ rejected s b aad) (λ _, False));
    [done|apply memonly_Encrypt|]|by intros ? ? _ _ HQ; exact HQ|by intros ? ? _ _ [[] _]].
  intros w1 Hw1 Hb1. eapply wp_weaken; [eapply (nf_Encrypt _ _ lp s p _ (λ _ _, False)); [done| |done|by rewrite Hb1]| |done].
  - split_and!; [done..|]. exists l. by rewrite Hb1.
  - intros o w' _ _ (Hk & Hf & b & Hb & Hform). split_and!; [done..|]. exists b. split; [done|].
    eapply sealed_opens; [by eapply (bytes_nonempty w)|exact Hform].
Qed.

Lemma nf_decrypt pr c l s lc ct p aad w :
  wf w → p_cryptor pr = Some c → bytes_of w l = Some s → String.length s = KeySize → bytes_of w lc = Some ct →
  opens_to s ct aad p → ¬ rejected s ct aad →
  wpe (decrypt pr (mkDecryptRequest (mkSecret KeyAlgorithmAES256 (Some l)) (Some lc) aad)) w
    (λ o w', kept [o] [] w w' ∧ bytes_of w o = None ∧ (∃ b, bytes_of w' o = Some b ∧ b = p) ∧
       w_vault w' = w_vault w) (λ _ _, False).
Proof.
  intros Hw Hc Hl Hlen Hct Ho Hnr. unfold decrypt, on_cryptor. rewrite Hc.
  eapply wp_weaken; [eapply (nf_Run_import _ (λ b, b = p) (λ _, False));
    [done|apply memonly_Decrypt|]|by intros ? ? _ _ HQ; exact HQ|by intros ? ? _ _ [[] _]].
  intros w1 Hw1 Hb1. eapply wp_weaken; [eapply (nf_Decrypt _ _ lc s ct); [done| |done|by rewrite Hb1]| |].
  - split_and!; [done..|]. exists l. by rewrite Hb1.
  - intros o w' _ _ (Hk & Hf & b & Hb & Hop). split_and!; [done..|]. exists b. split; [done|].
    unfold opens_to in *. simpl in Hop. congruence.
  - by intros ? ? _ _ [Hrej _].
Qed.

Lemma level_live w l : sp_I level_up w → sp_F level_up l → bytes_of w l ≠ None.
Proof.
  intros (_ & _ & Hready) (kind & pr & Hp & [[[t Ht] Hl]|Hl]); destruct (Hready _ _ Hp) as [HIT HIP].
  - eapply (law_live _ _ _ _ _ _ (transport_law _ _ t Hp Ht)); [|done]. apply HIT. by exists t.
  - by eapply (law_live _ _ _ _ _ _ (parent_law _ _ Hp)).
Qed.

Lemma level_stable w w' :
  sp_I level_up w → (∀ l, sp_F level_up l → bytes_of w' l = bytes_of w l) → w_db w' = w_db w →
  w_vault w' = w_vault w → sp_I level_up w'.
Proof.
  intros (Hrows & Hact & Hready) Hb Hd Hv. split; [by rewrite Hv|split].
  - intros t k v r Ha. rewrite <-(Hact _ _ _ _ Ha). by apply reads_resolveActiveKey.
  - intros kind pr Hp. destruct (Hready _ _ Hp) as [HIT HIP]. split.
    + intros [t Ht]. eapply (law_stable _ _ _ _ _ _ (transport_law _ _ t Hp Ht)); [by apply HIT; exists t| |done..].
      intros l Hl. apply Hb. exists kind, pr. split; [done|]. left. split; [by exists t|done].
    + eapply (law_stable _ _ _ _ _ _ (parent_law _ _ Hp)); [done| |done..].
      intros l Hl. apply Hb. exists kind, pr. by eauto.
Qed.

Lemma level_up_law : spec_law R (mkSealer (Manager_Seal self m) (Manager_Unseal self m)) level_up.
Proof.
  split.
  - apply level_live.
  - apply level_stable.
  - intros t k v aad c p p' (s & Hs & Ho & _) (s' & Hs' & Ho' & _).
    rewrite (key_secret_functional _ _ _ _ _ Hs Hs') in Ho. unfold opens_to in *. congruence.
  - intros t k v aad c p (s & _ & _ & Hr) ->. apply Hr. left. simpl. lia.
  - intros req lp p w E Hw HI (s & Hs) Hpt Hp. simpl. unfold Manager_Seal.
    destruct (Z.eqb_spec (sr_KeyVersion req) 0) as [|_]; [by destruct Hs|]. rewrite Hpt.
    eapply wp_post; [eapply (nf_resolve_and_use _ _ _ s (λ pr sec, encrypt pr (mkEncryptRequest sec (Some lp) (sr_AAD req)))
      (λ b, opens_to s b (sr_AAD req) p ∧ ¬ rejected s b (sr_AAD req)) lp); [done|done|exact Hs|by rewrite Hp|]|].
    + intros pr c l w1 Hw1 Hc Hl Hlp. split; [apply memonly_encrypt|].
      eapply nf_encrypt; [done|exact Hc|done|apply Hs|by rewrite Hlp].
    + intros c w' _ _ (? & ? & ? & b & ? & ? & ?). split_and!; [done..|]. exists b. split; [done|]. by exists s.
  - intros req lc c p w E Hw HI _ Hct Hc (s & Hs & Ho & Hnr). simpl. unfold Manager_Unseal.
    destruct (Z.eqb_spec (ur_KeyVersion req) 0) as [|_]; [by destruct Hs|]. rewrite Hct.
    eapply wp_post; [eapply (nf_resolve_and_use _ _ _ s (λ pr sec, decrypt pr (mkDecryptRequest sec (Some lc) (ur_AAD req)))
      (λ b, b = p) lc); [done|done|exact Hs|by rewrite Hc|]|].
    + intros pr cr l w1 Hw1 Hcr Hl Hlc. split; [apply memonly_decrypt|].
      eapply nf_decrypt; [done|exact Hcr|done|apply Hs|by rewrite Hlc|done|done].
    + intros l w' _ _ (? & ? & ? & b & Hb & ->). by split_and!.
Qed.
End step.

(** ** All levels *)

(** What the manager serves from [n] levels. *)
Fixpoint level (n : nat) : sealer_spec :=
  match n with
  | 0 => mkSpec (λ _, False) (λ _, True) (λ _ _ _, False) (λ _ _ _ _ _ _, False)
  | S n => level_up (manager_sealer n m) (level n)
  end.

Lemma manager_level_law n : spec_law R (manager_sealer n m) (level n).
Proof.
  induction n as [|n IH]; [|by apply level_up_law].
  split; simpl; try done.
Qed.

(** C8: sealing composes along the key hierarchy, when no system call and no
    statement fails, the vaults are SQLite vaults, and the transport sealers and
    the sealers above the manager obey [sealer_law] with a residue [R] (the root
    manager does, [root_sealer_law], and a remote parent, [rpc_sealer_law]).  In
    a state from which the manager serves a key through [n] levels, [Seal] on any
    live plaintext succeeds; what it returns, [Unseal] with the same key and
    additional data opens to the same plaintext in every later state from which
    the key is still served.  No key of the manager stays behind: besides the
    result and the object handed over, every object of secure memory holds what
    it held before, or is new and holds what the sealers above may leave. *)
Theorem hierarchy_seal_unseal n req lp p w :
  wf w → sp_I (level n) w → sp_serves (level n) (sr_TenantID req) (sr_KeyID req) (sr_KeyVersion req) →
  sr_Plaintext req = Some lp → bytes_of w lp = Some p →
  ∃ c w1, Seal (manager_sealer n m) req w = (Ok c, w1) ∧ bytes_of w c = None ∧
    (∀ l, l ≠ c → l ≠ lp → same_or_residue R w w1 l) ∧
    ∀ w2 metadata, wf w2 → sp_I (level n) w2 → bytes_of w2 c = bytes_of w1 c →
    ∃ l w3, Unseal (manager_sealer n m)
              (mkUnsealRequest (sr_TenantID req) (sr_KeyID req) (sr_KeyVersion req) (Some c) (sr_AAD req) metadata) w2
            = (Ok l, w3) ∧ bytes_of w3 l = Some p ∧ bytes_of w2 l = None ∧
      ∀ l', l' ≠ l → l' ≠ c → same_or_residue R w2 w3 l'.
Proof.
  intros Hw HI Hserve Hpt Hp. pose proof (manager_level_law n) as Hlaw.
  destruct (wpe_returns _ _ _ (law_Seal _ _ _ _ _ _ Hlaw req lp p w _ Hw HI Hserve Hpt Hp))
    as (c & w1 & Hrun & _ & _ & Hk & Hf & _ & b & Hb & Ho). exists c, w1. split_and!; [done..| |].
  { intros l Hlc Hlp. apply (keeps_bytes Hk). set_solver. }
  intros w2 md Hw2 HI2 Hc. rewrite Hb in Hc.
  destruct (wpe_returns _ _ _ (law_Unseal _ _ _ _ _ _ Hlaw
    (mkUnsealRequest (sr_TenantID req) (sr_KeyID req) (sr_KeyVersion req) (Some c) (sr_AAD req) md)
    c b p w2 _ Hw2 HI2 Hserve eq_refl Hc Ho)) as (l & w3 & Hrun2 & _ & _ & Hk2 & Hf2 & _ & Hl).
  exists l, w3. split_and!; [done..|]. intros l' ? ?. apply (keeps_bytes Hk2). set_solver.
Qed.
End manager_law.
