(* ===== verification/SealerServiceTheorems.v ===== *)
(** * The sealer service leaves no key behind

    A call of [SealerService] (pkg/api/v1/proto/sealer/service.go) under the
    per-RPC vault of internal/securemem/rpc_handler.go: [TagRPC] opens a vault for
    the call, the handler gives the answer to it, and [HandleRPC] destroys it when
    the call ends. *)

From S2P Require Import Prelude GoStrings GoRuntime Model World Lifecycle Providers Hierarchy.
From S2P Require Import Sql KeyStore KeyVersionStore StoreInvariant SecureMem SecureMemTheorems SealingEffects.
From S2P Require Import AesGcm Cryptor Sealers Vault KeyProcessor RootManager RootKeyService SealingSafety.
From S2P Require Import SealingTheorems SealingLaws ManagerLaws.

Local Open Scope string_scope.

Section service.
Context {ENV : Env} {NF : NoFaults} (R : string → Prop).

Lemma nf_newData size w E :
  wf w → (0 < size)%Z →
  wpe (SealerService.newData size) w (λ l w', kept [l] [] w w' ∧ sm_heap (w_sm w) !! l = None ∧
    holds w' l "text" (zeros (Z.to_nat size)) false ∧ w_vault w' = w_vault w) E.
Proof.
  intros Hw Hs. unfold SealerService.newData.
  eapply wp_bind; [eapply (wp_try _ _ _ (λ _ _, False)), wpe_rows; [apply memonly_NewData|by apply nf_NewData]|].
  intros [l|e] w1 Hw1 _ H1; [|by destruct H1]. destruct H1 as ((Hk & Hf & Hh & _) & Hv). by apply wp_ret.
Qed.

Lemma nf_service_import v m n l w E :
  wf w → vault_is w v m → m !! n = None → valid w (Some l) →
  wpe (SealerService.vaultImport v n (Some l)) w (λ _ w', kept [] [v] w w' ∧ vault_is w' v (<[n := l]> m) ∧
    w_vault w' = w_vault w) E.
Proof.
  intros Hw Hv Hn Hl. unfold SealerService.vaultImport.
  eapply wp_bind; [eapply (wp_try _ _ _ (λ _ _, False)), wpe_rows; [apply memonly_MemVault_Import|by eapply nf_Import]|].
  intros [[]|e] w1 Hw1 _ H1; [|by destruct H1]. destruct H1 as ((Hk & Hm) & Hr). by apply wp_ret.
Qed.

(** What the operation on the payload must do. *)
Definition op_ok (op : option positive → M positive) (payload : string) (P : string → Prop) (w : world) : Prop :=
  ∀ w1 text, wf w1 → only_new w w1 → bytes_of w text = None → bytes_of w1 text = Some payload →
  wpe (op (Some text)) w1 (λ c w', keeps R [c; text] [] w1 w' ∧ bytes_of w1 c = None ∧ w_vault w' = w_vault w1 ∧
    ∃ b, bytes_of w' c = Some b ∧ P b) (λ _ _, False).

Lemma nf_service_handler op on_error r P req w :
  wf w → op_ok op (SealerService.rq_Payload r) P w → SealerService.rq_Payload r ≠ "" → vaults_of req w ∅ ∅ →
  wpe (SealerService.service_handler op on_error r req) w
    (λ _ w', ∃ mp, leaves R [] req w w' mp ∧ one_object SealerService.handlerKey P mp w') (λ _ _, False).
Proof.
  intros Hw Hop Hpay (Hvt & Hvp & Hne). unfold SealerService.service_handler.
  apply length_nonempty in Hpay.
  eapply wp_bind; [apply nf_newData; [done|lia]|]. intros text w1 Hw1 Hg1 (Hk1 & Hf1 & Hh1 & Hv1).
  eapply wp_post; [eapply (nf_defer_destroy _ _ _ (λ _ w', ∃ c b, keeps R [c; text] [persistentVault req] w w' ∧
    c ≠ text ∧ bytes_of w c = None ∧ bytes_of w' c = Some b ∧ P b ∧
    vault_is w' (persistentVault req) {[SealerService.handlerKey := c]})); [done|by eapply holds_valid|]|].
  - eapply wp_bind; [by eapply nf_SecureBytes_new|]. intros s ? _ _ [-> Hs].
    eapply wp_bind; [apply wpe_rows; [apply memonly_copy_bytes|eapply nf_copy_bytes; [done|exact Hs|]]|].
    { rewrite length_zeros. lia. }
    intros ? w2 Hw2 Hg2 ((Hk2 & _ & Hs2) & Hv2). apply slice_bytes in Hs2.
    assert (bytes_of w text = None) as Hnt by (by apply bytes_fresh).
    assert (kept [text] [] w w2) as Hk02 by (eapply kept_trans; [..|exact Hk1|exact Hk2]; set_solver).
    assert (grows w w2) as Hg02 by (by etrans).
    eapply wp_bind; [eapply (wp_try _ _ _ (λ _ _, False)), Hop; [done| |done|exact Hs2]|].
    + eapply only_new_kept; [apply only_new_refl|exact Hk02| |done|congruence].
      intros l. rewrite list_elem_of_singleton. by intros ->.
    + intros [c|e] w3 Hw3 Hg3 H3; [|by destruct H3]. destruct H3 as (Hk3 & Hf3 & Hv3 & b & Hb & HP).
      assert (c ≠ text) as Hct by (intros ->; congruence).
      assert (keeps R [c; text] [] w w3) as Hk03 by (eapply keeps_kept_l; [..|exact Hk02|exact Hk3]; set_solver).
      eapply wp_post; [eapply nf_service_import; [done|by apply (keeps_vaults Hk03); [apply not_elem_of_nil|exact Hvp]|done|by eapply bytes_valid]|].
      intros ? w4 _ _ (Hk4 & Hm4 & Hv4). exists c, b. split_and!; [|done| | |done|done].
      * eapply keeps_kept_r; [..|exact Hk03|exact Hk4]; set_solver.
      * rewrite <-Hf3. symmetry. apply (kept_bytes _ _ _ _ Hk02). by rewrite list_elem_of_singleton.
      * by rewrite (kept_bytes _ _ _ _ Hk4) by apply not_elem_of_nil.
  - intros ? w5 _ _ (w4 & (c & b & Hk & Hct & Hfc & Hb & HP & Hm) & Hk5 & Hd5 & Hv5).
    assert (bytes_of w5 c = Some b) as Hb5 by (by rewrite (kept_bytes _ _ _ _ Hk5) by (by rewrite list_elem_of_singleton)).
    exists {[SealerService.handlerKey := c]}. split; [|by exists c, b].
    assert (keeps R [c] [persistentVault req] w w5) as Hk05.
    { eapply (keeps_drop _ text); [left; by rewrite Hd5, bytes_fresh|]. eapply keeps_kept_r; [..|exact Hk|exact Hk5]; set_solver. }
    split; [|split].
    + split_and!; [|by apply (kept_vaults _ _ _ _ Hk5); [apply not_elem_of_nil|]|done].
      apply (keeps_vaults Hk05); [by rewrite list_elem_of_singleton|done].
    + rewrite objects_singleton. eapply keeps_weaken; [..|exact Hk05]; set_solver.
    + intros l. rewrite objects_singleton, list_elem_of_singleton. by intros ->.
Qed.

(** [uuid.New] names the answer in the empty vault of the call. *)
Lemma nf_addToContextVault v l w E :
  wf w → vault_is w v ∅ → valid w (Some l) →
  wpe (SealerService.addToContextVault (Some v) (Some l)) w
    (λ _ w', kept [] [v] w w' ∧ ∃ n, vault_is w' v {[n := l]}) E.
Proof.
  intros Hw Hv Hl. unfold SealerService.addToContextVault. simpl.
  eapply (wp_bind _ _ _ (λ _ w', w_sm w' = w_sm w)).
  { split; [|split]; [done|by apply grows_same|done]. }
  intros n w1 Hw1 Hg1 Hs1.
  eapply wp_post; [eapply (nf_service_import v ∅ n l); [done|unfold vault_is; by rewrite Hs1|done|by eapply grows_valid]|].
  intros ? w2 _ _ (Hk & Hm & _). split; [by eapply kept_same_l|]. by exists n.
Qed.

(** The handler of a call: the answer is in the vault of the call, alone. *)
Lemma nf_service op on_error r P v w E :
  wf w → (∀ w1, wf w1 → (∀ l, bytes_of w1 l = bytes_of w l) → w_db w1 = w_db w → w_vault w1 = w_vault w →
            op_ok op (SealerService.rq_Payload r) P w1) →
  SealerService.validateRequest r = None → vault_is w v ∅ →
  wpe (check (SealerService.validateRequest r);; resp ← Run (SealerService.service_handler op on_error r);
       SealerService.service_finish (Some v) resp) w
    (λ b w', ∃ c bytes n, keeps R [c] [v] w w' ∧ bytes_of w c = None ∧ vault_is w' v {[n := c]} ∧
       read_bytes b w' = (Ok bytes, w') ∧ P bytes) E.
Proof.
  intros Hw Hop Hval Hv. rewrite Hval.
  assert (SealerService.rq_Payload r ≠ "") as Hpay.
  { intros Hp. unfold SealerService.validateRequest, SealerService.request_complaints in Hval.
    rewrite Hp in Hval. repeat case_match; done. }
  eapply wp_bind; [by apply (wp_ret _ _ (λ _ w', w' = w))|]. intros ? ? _ _ ->.
  eapply wp_bind; [eapply wp_weaken; [eapply (nf_Run R _ _ [] (one_object SealerService.handlerKey P) (λ _, False)); [done|]|
    by intros ? ? _ _ HQ; exact HQ|by intros ? ? _ _ [[] _]]|].
  { intros req w1 Hw1 Hg1 Hb1 Hr1 Hvs. eapply wp_weaken; [eapply nf_service_handler; [done| |done|done]|by intros ? ? _ _ HQ; exact HQ|by intros ? ? _ _ []].
    apply Hop; [done..|by apply Hg1|done]. }
  intros resp w1 Hw1 _ (mp & w2 & Hvr & (c & b & -> & Hb & HP) & Hbs & Hnew & Hk & _). rewrite objects_singleton in *.
  assert (bytes_of w1 c = Some b) as Hb1 by (by rewrite Hbs).
  assert (vault_is w1 v ∅) as Hv1 by (apply (keeps_vaults Hk); [apply not_elem_of_nil|done]).
  unfold SealerService.service_finish. eapply wp_bind; [apply wp_MemVault_Get; [done|by eexists]|].
  intros p ? _ _ (-> & (m' & Hm' & ->) & _).
  assert (m' = {[SealerService.handlerKey := c]}) as -> by (unfold vault_is in *; congruence).
  rewrite lookup_singleton_eq.
  eapply wp_bind; [eapply (wp_try _ _ _ (λ _ _, False)), nf_addToContextVault; [done..|by eapply bytes_valid]|].
  intros [[]|e] w3 Hw3 _ H3; [|by destruct H3]. destruct H3 as [Hk3 [n Hn]].
  assert (bytes_of w3 c = Some b) as Hb3 by (by rewrite (kept_bytes _ _ _ _ Hk3) by apply not_elem_of_nil).
  destruct (live_slice c b w3 Hw3 Hb3) as (sl & H1 & _ & H2).
  eapply (wpe_run _ _ (Some sl) w3); [done|done|done|]. exists c, b, n. split_and!; [|apply Hnew; left|done..].
  eapply keeps_kept_r; [..|exact Hk|exact Hk3]; set_solver.
Qed.

(** The whole call: the answer does not stay. *)
Lemma nf_rpc_end v c n w w' E :
  wf w' → keeps R [c] [v] w w' → bytes_of w c = None → vault_is w' v {[n := c]} →
  wpe (HandleRPC (Some v) StatsEnd) w' (λ _ w'', ∀ l, same_or_residue R w w'' l) E.
Proof.
  intros Hw Hk Hf Hv. unfold HandleRPC. simpl.
  eapply wp_bind; [by eapply (wp_err_of _ _ _ (λ _ _, False)), nf_DestroyAll|].
  intros [e|] w1 Hw1 _ H1; [by destruct H1|]. destruct H1 as (_ & Hk1 & Hd). rewrite objects_singleton in *.
  apply wp_ret; [done|]. intros l. destruct (decide (l = c)) as [->|Hne].
  - left. rewrite Hd, Hf; [done|left].
  - unfold same_or_residue. rewrite (kept_bytes _ _ _ _ Hk1) by (by rewrite list_elem_of_singleton).
    apply (keeps_bytes Hk). by rewrite list_elem_of_singleton.
Qed.
End service.

(** ** The calls *)

Section calls.
Context {ENV : Env} {NF : NoFaults} (s : Sealer).
Context {R : string → Prop} {F : positive → Prop} {I : world → Prop} {serves : string → string → Z → Prop}.
Context {opens : string → string → Z → string → string → string → Prop}.
Context (Hlaw : sealer_law s R F I serves opens).

(** [TagRPC]: an empty vault for the call, and nothing else. *)
Lemma nf_TagRPC w E :
  wf w → wpe (TagRPC None) w (λ ctx w', ∃ v, ctx = Some v ∧ vault_is w' v ∅ ∧ (∀ l, bytes_of w' l = bytes_of w l) ∧
    w_vault w' = w_vault w) E.
Proof.
  intros Hw. unfold TagRPC, vaultToContext. eapply wp_bind; [apply wpe_rows; [apply memonly_NewMemVault|by apply wp_NewMemVault]|].
  intros v w1 Hw1 _ H1. apply wp_ret; [done|]. exists v. destruct H1 as [(_ & Hv & Hh & Hm & _) Hr].
  split_and!; try done. intros l. unfold bytes_of. by rewrite Hh, Hm.
Qed.
(** From the sealer to the operation of a handler. *)
Lemma law_op (op : option positive → M positive) payload P w :
  I w → (∀ w1 text, wf w1 → I w1 → bytes_of w1 text = Some payload →
    wpe (op (Some text)) w1 (λ c w', keeps R [c; text] [] w1 w' ∧ bytes_of w1 c = None ∧ w_vault w' = w_vault w1 ∧
      ∃ b, bytes_of w' c = Some b ∧ P b) (λ _ _, False)) →
  ∀ w1, wf w1 → (∀ l, bytes_of w1 l = bytes_of w l) → w_db w1 = w_db w → w_vault w1 = w_vault w → op_ok R op payload P w1.
Proof.
  intros HI Hop w1 Hw1 Hb1 Hd1 Hv1 w2 text Hw2 Hn Hf Ht. apply Hop; [done| |done].
  eapply (law_only_new _ _ _ _ _ _ w1 w2); [exact Hlaw| |done]. by eapply (law_stable _ _ _ _ _ _ Hlaw).
Qed.

(** A call whose handler is [nf_service]. *)
Lemma rpc_call op on_error r P w (call : option positive → M (option positive)) :
  wf w → I w → (∀ v, call (Some v) = (check (SealerService.validateRequest r);;
    resp ← Run (SealerService.service_handler op on_error r); SealerService.service_finish (Some v) resp)) →
  (∀ w1 text, wf w1 → I w1 → bytes_of w1 text = Some (SealerService.rq_Payload r) →
    wpe (op (Some text)) w1 (λ c w', keeps R [c; text] [] w1 w' ∧ bytes_of w1 c = None ∧ w_vault w' = w_vault w1 ∧
      ∃ b, bytes_of w' c = Some b ∧ P b) (λ _ _, False)) →
  SealerService.validateRequest r = None →
  ∃ ctx w1 b w2 answer w3, TagRPC None w = (Ok ctx, w1) ∧ call ctx w1 = (Ok b, w2) ∧
    read_bytes b w2 = (Ok answer, w2) ∧ P answer ∧
    HandleRPC ctx StatsEnd w2 = (Ok (), w3) ∧ ∀ l, same_or_residue R w w3 l.
Proof.
  intros Hw HI Hcall Hop Hval.
  destruct (wpe_returns _ _ _ (nf_TagRPC w _ Hw)) as (ctx & w1 & Hrun1 & Hw1 & Hg1 & v & -> & Hv & Hb1 & Hr1).
  assert (I w1) as HI1 by (eapply (law_stable _ _ _ _ _ _ Hlaw); [done..|by apply Hg1|done]).
  destruct (wpe_returns _ _ _ (nf_service R op on_error r P v w1 _ Hw1 (law_op _ _ _ _ HI1 Hop) Hval Hv))
    as (b & w2 & Hrun2 & Hw2 & _ & c & answer & n & Hk & Hf & Hvn & Hread & HP).
  destruct (wpe_returns _ _ _ (nf_rpc_end R v c n w1 w2 _ Hw2 Hk Hf Hvn)) as ([] & w3 & Hrun3 & _ & _ & Hb3).
  exists (Some v), w1, b, w2, answer, w3. rewrite Hcall. split_and!; [done..|]. intros l.
  unfold same_or_residue. rewrite <-Hb1. apply Hb3.
Qed.

(** C13: a call of the sealer service leaves neither key, payload nor answer in
    memory, when no system call and no statement fails and the sealer behind the
    service obeys [sealer_law] with a residue [R].  For a valid request on a key
    the sealer serves, [Seal] answers with bytes that open to the plaintext of
    the request, and [Unseal] of a ciphertext answers with its plaintext; the
    answer stays readable until the call ends, and when the stats handler has
    seen the end of the call every object of secure memory holds what it held
    before the call, or is new and holds what the sealer may leave: nothing with
    a remote parent above, copies of the provider's secret above a root manager,
    which stay until the garbage collector's clean-up. *)
Theorem sealer_call_leaves_no_key r w :
  wf w → I w → SealerService.validateRequest r = None →
  serves (SealerService.rq_TenantId r) (SealerService.rq_KeyId r) (SealerService.rq_KeyVersion r) →
  let opened c p := opens (SealerService.rq_TenantId r) (SealerService.rq_KeyId r) (SealerService.rq_KeyVersion r)
                      (SealerService.rq_Aad r) c p in
  (∃ ctx w1 b w2 answer w3, TagRPC None w = (Ok ctx, w1) ∧ SealerService.Seal s ctx r w1 = (Ok b, w2) ∧
    read_bytes b w2 = (Ok answer, w2) ∧ opened answer (SealerService.rq_Payload r) ∧
    HandleRPC ctx StatsEnd w2 = (Ok (), w3) ∧ ∀ l, same_or_residue R w w3 l) ∧
  (∀ p, opened (SealerService.rq_Payload r) p →
   ∃ ctx w1 b w2 answer w3, TagRPC None w = (Ok ctx, w1) ∧ SealerService.Unseal s ctx r w1 = (Ok b, w2) ∧
    read_bytes b w2 = (Ok answer, w2) ∧ answer = p ∧
    HandleRPC ctx StatsEnd w2 = (Ok (), w3) ∧ ∀ l, same_or_residue R w w3 l).
Proof.
  intros Hw HI Hval Hserve opened. split.
  - eapply rpc_call; [done..| |done]. intros w1 text Hw1 HI1 Ht.
    eapply (law_Seal _ _ _ _ _ _ Hlaw); [done..|]. exact Ht.
  - intros p Ho. eapply rpc_call; [done..| |done]. intros w1 text Hw1 HI1 Ht.
    eapply wp_post; [eapply (law_Unseal _ _ _ _ _ _ Hlaw); [done|done|exact Hserve|done|exact Ht|exact Ho]|].
    intros c w' _ _ (? & ? & ? & ?). split_and!; [done..|]. by exists p.
Qed.
End calls.
