(* ===== verification/RootManagerTheorems.v ===== *)
(** * The root key's provider seals and unseals

    [RootManager.Seal] and [Unseal] (internal/keyprocessor/rootmanager.go) with a
    provider the root key service bound: what they compute when no system call
    fails, and what they leave in secure memory. *)

From S2P Require Import Prelude GoStrings GoRuntime Model World Lifecycle Providers Hierarchy.
From S2P Require Import Config Sql KeyStore KeyVersionStore StoreInvariant Validator SecureMem SecureMemTheorems.
From S2P Require Import SealingEffects AesGcm Cryptor Sealers Vault SpecYaml KeyProcessor RootManager RootKeyService.
From S2P Require Import SealingSafety.
From S2P Require Import SealingTheorems SealingLaws ManagerLaws.

Local Open Scope string_scope.

Section root.
Context {ENV : Env} {NF : NoFaults} {G : GCM} {OS : OsEnv} {BAO : OpenBao} {YAML : Yaml}.

(** ** Loading the secret *)

Lemma nf_inline_LoadSecret raw key w E :
  wf w → raw ≠ "" → Base64.StdDecodeString raw = Some key → key ≠ "" →
  wpe (inline_LoadSecret raw) w (λ l w', kept [l] [] w w' ∧ bytes_of w l = None ∧ bytes_of w' l = Some key ∧
    w_vault w' = w_vault w) E.
Proof.
  intros Hw Hraw Hdec Hkey. unfold inline_LoadSecret. rewrite (proj2 (String.eqb_neq _ _) Hraw).
  eapply wp_bind; [eapply (wp_try _ _ _ (λ _ _, False)); eapply wp_weaken;
    [eapply (nf_Run no_residue _ _ [] (λ mp w', one_object inline_memKey (eq key) mp w' ∧ w_vault w' = w_vault w) (λ _, False)); [done|]
    |by intros ? ? _ _ HQ; exact HQ|by intros ? ? _ _ [[] _]]|].
  - intros req w1 Hw1 _ Hb1 Hv1 Hvs. pose proof Hvs as (_ & Hvp & _). unfold load_handler. rewrite Hdec.
    apply length_nonempty in Hkey.
    eapply wp_bind; [apply wpe_rows; [apply memonly_Reserve|eapply nf_Reserve; [done|exact Hvp|done|lia]]|].
    intros s w2 Hw2 _ ((l & Hk2 & Hf & Hv2 & Hs) & Hr2).
    eapply wp_post; [apply wpe_rows; [apply memonly_copy_bytes|eapply nf_copy_bytes; [done|exact Hs|]]|].
    { rewrite length_zeros. lia. }
    intros ? w3 _ _ ((Hk3 & _ & Hs3) & Hr3). exists {[inline_memKey := l]}. split; [by eapply leaves_one|].
    split; [|congruence]. exists l, key. split_and!; [done|by eapply slice_bytes|done].
  - intros [resp|e] w1 Hw1 _ H1; [|by destruct H1].
    destruct H1 as (mp & w2 & Hvr & ((l & b & -> & Hb & <-) & Hr2) & Hbs & Hnew & Hk%keeps_kept & Hr).
    rewrite objects_singleton in *. cbn [load_finish]. eapply wp_bind; [apply wp_MemVault_Get; [done|by eexists]|].
    intros p ? _ _ (-> & (m' & Hm' & ->) & _).
    assert (m' = {[inline_memKey := l]}) as -> by (unfold vault_is in *; congruence).
    rewrite lookup_singleton_eq. apply wp_ret; [done|]. split_and!; [done|apply Hnew; left|by rewrite Hbs|congruence].
Qed.

(** The specification the root key service writes for a static secret, as it is
    read back. *)
Lemma nf_GetSealer spec secret name w E :
  wf w → RootKeyService.staticSecretSpec secret name = inl spec → String.length secret = KeySize → name ≠ "" →
  wpe (GetSealer (SealerSpec_filled spec)) w (λ s w', kept [st_secret s] [] w w' ∧ bytes_of w (st_secret s) = None ∧
    bytes_of w' (st_secret s) = Some secret ∧ w_vault w' = w_vault w) E.
Proof.
  intros Hw Hspec Hlen Hname. unfold RootKeyService.staticSecretSpec in Hspec.
  assert (secret ≠ "") as Hne by (apply length_nonempty; unfold KeySize in Hlen; lia).
  destruct (Nat.eqb_spec (String.length secret) 0) as [|_]; [unfold KeySize in Hlen; lia|]. injection Hspec as <-.
  unfold GetSealer, SealerSpec_filled, SecretSpec_filled, GetSecret, newLoader. simpl.
  eapply wp_bind; [eapply (wp_try _ _ _ (λ _ _, False)), nf_inline_LoadSecret; [done| |apply Base64.decode_encode|done]|].
  { intros He. pose proof (Base64.decode_encode secret) as Hd. rewrite He in Hd. vm_compute in Hd. by injection Hd. }
  intros [l|e] w1 Hw1 _ H1; [|by destruct H1]. destruct H1 as (Hk & Hf & Hb & Hr).
  unfold staticsecret_New. rewrite (proj2 (String.eqb_neq _ _) Hname).
  destruct (live_slice l secret w1 Hw1 Hb) as (r & H1 & H2 & _). rewrite Hlen in H2.
  eapply wpe_Ok; [exact H1|]. eapply wpe_Ok; [exact H2|]. by apply wp_ret.
Qed.

(** ** Reading the binding *)

Section binding.
Context (rm : RootManager) (u : Unsafe) (Hrm : rm_vault rm = sqlite_vault u).

Lemma nf_exportSpec t k row spec w E :
  wf w → w_vault w !! (un_source u, (t, k, 0%Z, 0%Z)) = Some row → vr_material row ≠ "" →
  yaml_Unmarshal (vr_material row) = inl spec →
  wpe (exportSpec rm t k) w (λ r w', r = spec ∧ kept [] [] w w' ∧ w_vault w' = w_vault w) E.
Proof.
  intros Hw Hrow Hne Hy. unfold exportSpec. rewrite Hrm.
  eapply wp_bind; [eapply nf_Unsafe_ExportKey; [done|exact Hrow|done]|].
  intros [l aad] w1 Hw1 _ (Hk1 & Hf & Hb & _ & Hr1). cbn [ex_KeyMaterial] in *.
  eapply wp_post; [eapply (nf_defer_destroy _ _ _ (λ r w', r = spec ∧ w' = w1)); [done|by eapply bytes_valid|]|].
  - eapply wp_bind; [by apply nf_data_bytes|]. intros ? ? _ _ [-> ->]. rewrite Hy. by apply wp_ret.
  - intros r w2 _ _ (? & [-> ->] & Hk2 & Hd & Hr2). split_and!; [done| |congruence].
    eapply (kept_drop l); [by rewrite Hd|]. eapply kept_trans; [..|exact Hk1|exact Hk2]; set_solver.
Qed.

Lemma reads_ValidateTenant t : reads_db (ValidateTenant t).
Proof. unfold ValidateTenant, GetTenant. solve_reads. Qed.
Lemma reads_ValidateKeyUsage t k us : reads_db (ValidateKeyUsage t k us).
Proof. unfold ValidateKeyUsage, GetKeyByID, scan_row. solve_reads. Qed.
Lemma reads_resolveLabel t k v ty : reads_db (resolveLabel t k v ty).
Proof. unfold resolveLabel, fetchOne, ListKeyVersions. solve_reads. Qed.

(** The provider of key [k] is a static secret that the service stored, and
    version [v] may be used for [usage]. *)
Definition provider_bound (w : world) (t k : string) (v : Z) (usage : Z) (secret : string) : Prop :=
  v ≠ 0%Z ∧ String.length secret = KeySize ∧ ∃ row spec name label,
    w_vault w !! (un_source u, (t, k, 0%Z, 0%Z)) = Some row ∧ vr_material row ≠ "" ∧
    yaml_Unmarshal (vr_material row) = inl (SealerSpec_filled spec) ∧
    RootKeyService.staticSecretSpec secret name = inl spec ∧ name ≠ "" ∧
    (ValidateTenant t w).1 = Ok () ∧ (ValidateKeyUsage t k usage w).1 = Ok () ∧
    (resolveLabel t k v TypeStaticSecret w).1 = Ok label.

Lemma provider_bound_same w w' t k v usage secret :
  w_vault w' = w_vault w → w_db w' = w_db w → provider_bound w t k v usage secret → provider_bound w' t k v usage secret.
Proof.
  intros Hv Hd (Hv0 & Hlen & row & spec & name & label & Hrow & Hne & Hy & Hspec & Hname & Ht & Hu & Hl).
  split_and!; [done..|]. exists row, spec, name, label. rewrite Hv. split_and!; try done.
  - rewrite <-Ht. by apply reads_ValidateTenant.
  - rewrite <-Hu. by apply reads_ValidateKeyUsage.
  - rewrite <-Hl. by apply reads_resolveLabel.
Qed.

Lemma nf_provider_of t k v usage secret w E :
  wf w → provider_bound w t k v usage secret →
  wpe (provider_of rm t k v) w (λ r w', kept [st_secret r.1.1] [] w w' ∧ bytes_of w (st_secret r.1.1) = None ∧
    bytes_of w' (st_secret r.1.1) = Some secret ∧ w_vault w' = w_vault w) E.
Proof.
  intros Hw (Hv0 & Hlen & row & spec & name & label & Hrow & Hne & Hy & Hspec & Hname & _ & _ & Hl).
  unfold provider_of. eapply wp_bind; [by eapply nf_exportSpec|]. intros ? w1 Hw1 Hg1 (-> & Hk1 & Hr1).
  assert (sl_Type spec = TypeStaticSecret) as Hty.
  { unfold RootKeyService.staticSecretSpec in Hspec. destruct (Nat.eqb _ _); [done|]. by injection Hspec as <-. }
  eapply wp_bind; [by eapply nf_GetSealer|]. intros s w2 Hw2 Hg2 (Hk2 & Hf & Hb & Hr2).
  eapply wp_bind; [eapply nf_reads; [done|apply reads_resolveLabel|]|].
  { cbn [SealerSpec_filled sl_Type]. rewrite Hty, <-Hl. apply reads_resolveLabel. by rewrite (grows_db _ _ Hg2), (grows_db _ _ Hg1). }
  intros ? w3 Hw3 _ (-> & Hs3 & Hr3). apply wp_ret; [done|]. cbn [fst]. split_and!; [| | |congruence].
  - assert (kept [st_secret s] [] w w2) as Hk by (eapply kept_trans; [..|exact Hk1|exact Hk2]; set_solver).
    eapply kept_trans; [..|exact Hk|by apply kept_same]; set_solver.
  - by rewrite <-(kept_bytes _ _ _ _ Hk1) by apply not_elem_of_nil.
  - unfold bytes_of. by rewrite Hs3.
Qed.

(** A transaction that writes nothing to the database. *)
Lemma nf_Transaction {A} (fn : M A) w (Q : A → world → Prop) E :
  wf w → (∀ a w1 w2, w_sm w2 = w_sm w1 → w_vault w2 = w_vault w1 → Q a w1 → Q a w2) →
  (∀ w1, wf w1 → w_sm w1 = w_sm w → w_vault w1 = w_vault w → w_db w1 = w_db w → wpe fn w1 Q (λ _ _, False)) →
  wpe (Transaction fn) w Q E.
Proof.
  intros Hw HQ Hfn. unfold wpe, Transaction. rewrite external_nf.
  destruct (wpe_returns _ _ _ (Hfn (tick w) Hw eq_refl eq_refl eq_refl)) as (a & w2 & Hrun & Hw2 & Hg2 & Ha).
  rewrite Hrun, external_nf. simpl. split; [done|split; [|by apply (HQ a w2)]].
  assert (grows w (tick w)) by (by apply grows_same). assert (grows w2 (tick w2)) by (by apply grows_same).
  by etrans; [|etrans].
Qed.

(** The answer [c] satisfies [P]; besides it, the object [l] with the secret of
    the provider is new, and stays. *)
Definition answered (lx : positive) (secret : string) (P : string → Prop) (w : world) (c : positive) (w' : world) : Prop :=
  ∃ l, kept [c; l; lx] [] w w' ∧ c ≠ l ∧ l ≠ lx ∧ bytes_of w c = None ∧ bytes_of w l = None ∧
    bytes_of w' l = Some secret ∧ w_vault w' = w_vault w ∧ ∃ b, bytes_of w' c = Some b ∧ P b.

Lemma answered_same lx secret P w c w1 w2 :
  w_sm w2 = w_sm w1 → w_vault w2 = w_vault w1 → answered lx secret P w c w1 → answered lx secret P w c w2.
Proof.
  intros Hs Hr (l & Hk & Hcl & Hll & Hfc & Hfl & Hl & Hrw & Hb). exists l.
  assert (∀ x, bytes_of w2 x = bytes_of w1 x) as Hsame by (intros; unfold bytes_of; by rewrite Hs).
  rewrite !Hsame. split_and!; try done; [|congruence].
  eapply kept_trans; [..|exact Hk|by apply kept_same]; set_solver.
Qed.

(** Both operations: the checks, the provider, and its sealer on the object [lx]. *)
Lemma nf_root_op t k v usage secret lx (use : StaticSecret → string → string → M positive) P w E :
  wf w → provider_bound w t k v usage secret → is_Some (bytes_of w lx) →
  (∀ s name label w1, wf w1 → bytes_of w1 (st_secret s) = Some secret → bytes_of w1 lx = bytes_of w lx →
     wpe (use s name label) w1 (λ c w', kept [c; lx] [] w1 w' ∧ bytes_of w1 c = None ∧ w_vault w' = w_vault w1 ∧
       ∃ b, bytes_of w' c = Some b ∧ P b) (λ _ _, False)) →
  wpe (resp ← ChainTransaction (resp_steps [ValidateTenant t; ValidateKeyUsage t k usage]
         ('(s, name, label) ← provider_of rm t k v; use s name label)) None; or_panic resp) w
    (answered lx secret P w) E.
Proof.
  intros Hw Hbound Hlx Huse. pose proof Hbound as (_ & _ & ? & ? & ? & ? & _ & _ & _ & _ & _ & Ht & Hu & _).
  unfold ChainTransaction, resp_steps. cbn [fmap list_fmap app foldM].
  eapply (wp_bind _ _ _ (λ r w', ∃ c, r = Some c ∧ answered lx secret P w c w')).
  - apply nf_Transaction; [done| |].
    { intros r w1 w2 Hs Hr (c & -> & Ha). exists c. split; [done|]. by eapply answered_same. }
    intros w1 Hw1 Hs1 Hr1 Hd1.
    eapply (wp_bind _ _ _ (λ r w2, r = None ∧ w_sm w2 = w_sm w1 ∧ w_vault w2 = w_vault w1)).
    { eapply wp_bind; [eapply nf_reads; [done|apply reads_ValidateTenant|by rewrite <-Ht; apply reads_ValidateTenant]|].
      intros ? w2 Hw2 _ (_ & HQ). by apply wp_ret. }
    intros ? w2 Hw2 Hg2 (-> & Hs2 & Hr2).
    eapply (wp_bind _ _ _ (λ r w3, r = None ∧ w_sm w3 = w_sm w2 ∧ w_vault w3 = w_vault w2)).
    { eapply wp_bind; [eapply nf_reads; [done|apply reads_ValidateKeyUsage|]|].
      - rewrite <-Hu. apply reads_ValidateKeyUsage. by rewrite (grows_db _ _ Hg2), Hd1.
      - intros ? w3 Hw3 _ (_ & HQ). by apply wp_ret. }
    intros ? w3 Hw3 Hg3 (-> & Hs3 & Hr3).
    assert (kept [] [] w w3) as Hk3 by (apply kept_same; congruence).
    assert (∀ x, bytes_of w3 x = bytes_of w x) as Hsame by (intros; apply (kept_bytes _ _ _ _ Hk3), not_elem_of_nil).
    eapply (wp_bind _ _ _ (λ r w', ∃ c, r = Some c ∧ answered lx secret P w c w')); [|by intros r w5 Hw5 _ Ha; apply wp_ret].
    eapply (wp_bind _ _ _ (answered lx secret P w)); [|intros c w5 Hw5 _ Ha; apply wp_ret; [done|by exists c]].
    eapply wp_bind; [eapply nf_provider_of; [done|]|].
    { eapply provider_bound_same; [| |exact Hbound]; [congruence|]. by rewrite (grows_db _ _ Hg3), (grows_db _ _ Hg2). }
    intros [[s name] label] w4 Hw4 _ (Hk4 & Hf4 & Hb4 & Hr4). cbn [fst] in *.
    assert (st_secret s ≠ lx) as Hne by (intros Heq; rewrite Heq, Hsame in Hf4; rewrite Hf4 in Hlx; by destruct Hlx).
    eapply wp_post; [apply (Huse s name label w4 Hw4 Hb4)|].
    { rewrite (kept_bytes _ _ _ _ Hk4), Hsame; [done|]. by rewrite list_elem_of_singleton. }
    intros c w5 _ _ (Hk5 & Hf5 & Hr5 & b & Hb5 & HP).
    assert (c ≠ st_secret s) as Hcs by (intros ->; congruence).
    exists (st_secret s). split_and!; [|done|done| |by rewrite <-Hsame| |congruence|by exists b].
    + assert (kept [st_secret s] [] w w4) as Hk04 by (eapply kept_trans; [..|exact Hk3|exact Hk4]; set_solver).
      eapply kept_trans; [..|exact Hk04|exact Hk5]; set_solver.
    + rewrite <-Hsame, <-Hf5. symmetry. apply (kept_bytes _ _ _ _ Hk4). by rewrite list_elem_of_singleton.
    + rewrite (kept_bytes _ _ _ _ Hk5); [done|]. rewrite not_elem_of_cons, list_elem_of_singleton. split; [by intros <-|done].
  - intros ? w1 Hw1 _ (c & -> & Ha). by apply wp_ret.
Qed.

Lemma nf_RootManager_Seal req lp p secret w E :
  wf w → provider_bound w (sr_TenantID req) (sr_KeyID req) (sr_KeyVersion req) KeyUsage.KeyUsageEncrypt secret →
  sr_Plaintext req = Some lp → bytes_of w lp = Some p →
  wpe (RootManager_Seal rm req) w
    (answered lp secret (λ b, opens_to secret b (sr_AAD req) p ∧ ¬ rejected secret b (sr_AAD req)) w) E.
Proof.
  intros Hw Hb Hpt Hp. unfold RootManager_Seal. pose proof Hb as (Hv & Hlen & _).
  destruct (Z.eqb_spec (sr_KeyVersion req) 0) as [|_]; [done|].
  eapply (nf_root_op _ _ _ _ _ lp (λ s name label, StaticSecret_Seal s _)); [done|exact Hb|by rewrite Hp|].
  intros s name label w1 Hw1 Hs Hlx.
  eapply wp_post; [refine (law_Seal _ _ _ _ _ _ (static_sealer_law no_residue s secret Hlen) (mkSealRequest _ _ _ _ _ _)
    lp p w1 _ Hw1 Hs _ _ _); [done|done|by rewrite Hlx]|].
  by intros c w2 _ _ (Hk%keeps_kept & Hc).
Qed.

Lemma nf_RootManager_Unseal req lc c p secret w E :
  wf w → provider_bound w (ur_TenantID req) (ur_KeyID req) (ur_KeyVersion req) KeyUsage.KeyUsageDecrypt secret →
  ur_Ciphertext req = Some lc → bytes_of w lc = Some c →
  opens_to secret c (ur_AAD req) p → ¬ rejected secret c (ur_AAD req) →
  wpe (RootManager_Unseal rm req) w (answered lc secret (eq p) w) E.
Proof.
  intros Hw Hb Hct Hc Ho Hr. unfold RootManager_Unseal. pose proof Hb as (Hv & Hlen & _).
  destruct (Z.eqb_spec (ur_KeyVersion req) 0) as [|_]; [done|].
  eapply (nf_root_op _ _ _ _ _ lc (λ s name label, StaticSecret_Unseal s _)); [done|exact Hb|by rewrite Hc|].
  intros s name label w1 Hw1 Hs Hlx.
  eapply wp_post; [eapply (law_Unseal _ _ _ _ _ _ (static_sealer_law no_residue s secret Hlen)); [done|exact Hs|done|done|by rewrite Hlx|by split]|].
  intros o w2 _ _ (Hk%keeps_kept & ? & ? & ?). split_and!; [done..|]. by exists p.
Qed.

(** ** The root manager as a sealer *)

(** [prov t k v]: the secret of the provider of version [v] of key [k], which may
    be used to encrypt and to decrypt. *)
Definition providers_bound (prov : string → string → Z → option string) (w : world) : Prop :=
  ∀ t k v secret, prov t k v = Some secret →
    provider_bound w t k v KeyUsage.KeyUsageEncrypt secret ∧ provider_bound w t k v KeyUsage.KeyUsageDecrypt secret.
(** What its calls leave in new objects: the secret of one of its providers. *)
Definition provider_residue (prov : string → string → Z → option string) (b : string) : Prop :=
  ∃ t k v, prov t k v = Some b.

Lemma answered_keeps prov t k v lx secret P w c w' :
  prov t k v = Some secret → answered lx secret P w c w' →
  keeps (provider_residue prov) [c; lx] [] w w' ∧ bytes_of w c = None ∧ w_vault w' = w_vault w ∧
    ∃ b, bytes_of w' c = Some b ∧ P b.
Proof.
  intros Hs (l & Hk & _ & _ & Hfc & Hfl & Hl & Hr & Hb). split_and!; [|done..].
  apply (keeps_drop _ l).
  - right. split; [done|]. exists secret. split; [done|]. by exists t, k, v.
  - apply kept_keeps. eapply kept_weaken; [..|exact Hk]; set_solver.
Qed.

Lemma root_sealer_law prov :
  sealer_law (root_sealer rm) (provider_residue prov) (λ _, False) (providers_bound prov)
    (λ t k v, is_Some (prov t k v))
    (λ t k v aad c p, ∃ secret, prov t k v = Some secret ∧ opens_to secret c aad p ∧ ¬ rejected secret c aad).
Proof.
  split.
  - done.
  - intros w w' HI _ Hd Hv t k v secret Hs. destruct (HI _ _ _ _ Hs). split; by eapply provider_bound_same.
  - intros t k v aad c p p' (s & Hs & Ho & _) (s' & Hs' & Ho' & _). simplify_eq. unfold opens_to in *. congruence.
  - intros t k v aad c p (s & _ & _ & Hr) ->. apply Hr. left. simpl. lia.
  - intros req lp p w E Hw HI [secret Hs] Hpt Hp. destruct (HI _ _ _ _ Hs) as [Hb _].
    eapply wp_post; [by eapply nf_RootManager_Seal|]. intros c w' _ _ Ha.
    destruct (answered_keeps _ _ _ _ _ _ _ _ _ _ Hs Ha) as (? & ? & ? & b & ? & ? & ?). split_and!; [done..|].
    exists b. split; [done|]. by exists secret.
  - intros req lc c p w E Hw HI _ Hct Hc (secret & Hs & Ho & Hr). destruct (HI _ _ _ _ Hs) as [_ Hb].
    eapply wp_post; [by eapply nf_RootManager_Unseal|]. intros l w' _ _ Ha.
    destruct (answered_keeps _ _ _ _ _ _ _ _ _ _ Hs Ha) as (? & ? & ? & b & ? & <-). by split_and!.
Qed.

(** ** What a call leaves *)

(** Besides the objects [X] of the call, the object [l] is new and holds
    [secret]; the clean-up the collector runs on it wipes it, and then every
    object outside [X] holds what it held before. *)
Definition leaves_to_collector (secret : string) (l : positive) (X : list positive) (w w' : world) : Prop :=
  bytes_of w l = None ∧ bytes_of w' l = Some secret ∧ (∀ x, x ∉ l :: X → bytes_of w' x = bytes_of w x) ∧
  ∃ w'', NewData_cleanup l w' = (Ok (), w'') ∧ (∀ x, x ∉ X → bytes_of w'' x = bytes_of w x) ∧
    ∀ r, owns (w_sm w') l r → sm_mem (w_sm w'') !! r = Some (mkRegion (zeros (String.length secret)) true false).

Lemma answered_collector lx secret P w c w' :
  wf w' → answered lx secret P w c w' → ∃ l, l ∉ [c; lx] ∧ leaves_to_collector secret l [c; lx] w w'.
Proof.
  intros Hw' (l & Hk & Hcl & Hllx & _ & Hfl & Hl & _). exists l. split; [set_solver|]. split_and!; [done..| |].
  - intros x Hx. apply (kept_bytes _ _ _ _ Hk). set_solver.
  - destruct (nf_NewData_cleanup l secret w' Hw' Hl) as (w'' & Hrun & Hb & Hz). exists w''. split_and!; [done| |done].
    intros x Hx. rewrite Hb. destruct (decide (x = l)) as [->|Hne]; [done|]. apply (kept_bytes _ _ _ _ Hk). set_solver.
Qed.

(** A provider that is bound seals, and opens what it sealed. *)
Lemma provider_seal_unseal req lp p secret w :
  wf w → provider_bound w (sr_TenantID req) (sr_KeyID req) (sr_KeyVersion req) KeyUsage.KeyUsageEncrypt secret →
  sr_Plaintext req = Some lp → bytes_of w lp = Some p →
  ∃ c w1 l, RootManager_Seal rm req w = (Ok c, w1) ∧ bytes_of w c = None ∧ l ∉ [c; lp] ∧
    leaves_to_collector secret l [c; lp] w w1 ∧
    ∀ w2 md, wf w2 →
      provider_bound w2 (sr_TenantID req) (sr_KeyID req) (sr_KeyVersion req) KeyUsage.KeyUsageDecrypt secret →
      bytes_of w2 c = bytes_of w1 c →
      ∃ o w3 l2, RootManager_Unseal rm
                (mkUnsealRequest (sr_TenantID req) (sr_KeyID req) (sr_KeyVersion req) (Some c) (sr_AAD req) md) w2
              = (Ok o, w3) ∧ bytes_of w3 o = Some p ∧ bytes_of w2 o = None ∧ l2 ∉ [o; c] ∧
        leaves_to_collector secret l2 [o; c] w2 w3.
Proof.
  intros Hw Hb Hpt Hp. destruct (wpe_returns _ _ _ (nf_RootManager_Seal req lp p secret w _ Hw Hb Hpt Hp))
    as (c & w1 & Hrun & Hw1 & Hg & Ha). destruct (answered_collector _ _ _ _ _ _ Hw1 Ha) as (l & Hl & Hc).
  destruct Ha as (_ & _ & _ & _ & Hfc & _ & _ & _ & b & Hbc & Ho & Hnr).
  exists c, w1, l. split_and!; [done..|]. intros w2 md Hw2 Hb2 Hc2. rewrite Hbc in Hc2.
  destruct (wpe_returns _ _ _ (nf_RootManager_Unseal
    (mkUnsealRequest (sr_TenantID req) (sr_KeyID req) (sr_KeyVersion req) (Some c) (sr_AAD req) md)
    c b p secret w2 _ Hw2 Hb2 eq_refl Hc2 Ho Hnr)) as (o & w3 & Hrun2 & Hw3 & _ & Ha2).
  destruct (answered_collector _ _ _ _ _ _ Hw3 Ha2) as (l2 & Hl2 & Hc3).
  destruct Ha2 as (_ & _ & _ & _ & Hfo & _ & _ & _ & b' & Hb' & <-). by exists o, w3, l2.
Qed.

(** ** Binding a provider *)

Context {L : YamlLaws YAML}.

(** Version [v] of the key may be used now, and names the provider's key. *)
Definition usable_now (w : world) (t k : string) (v : Z) (usage : Z) : Prop :=
  (ValidateTenant t w).1 = Ok () ∧ (ValidateKeyUsage t k usage w).1 = Ok () ∧
  ∃ label, (resolveLabel t k v TypeStaticSecret w).1 = Ok label.

Lemma Transaction_vault {A} (fn : M A) w a w' :
  Transaction fn w = (Ok a, w') → ∃ w2, fn (tick w) = (Ok a, w2) ∧ w_vault w' = w_vault w2.
Proof.
  unfold Transaction. rewrite external_nf. destruct (fn (tick w)) as [[x| | |] w2]; try done.
  rewrite external_nf. intros [= <- <-]. by exists w2.
Qed.

Lemma vault_pkv_create t k v ty id : respects (unchanged w_vault) (pkv_create t k v ty id).
Proof.
  unfold pkv_create, CreateKeyVersion, statement, arg_uuid, arg_int4, arg_uuid_null, arg_int4_null, NewKeyVersion, get_db,
    update_db. solve_respects; try (by apply respects_external); try (by apply respects_clock_Now); try (by intros w).
  all: unfold arg_uuid, arg_int4; solve_respects.
Qed.

(** What an import leaves in the vault. *)
Lemma nf_importSpec t k spec b w E :
  wf w → yaml_Marshal spec = inl b → b ≠ "" → t ≠ "" → k ≠ "" →
  wpe (importSpec rm t k spec) w (λ _ w',
    w_vault w' = <[(un_source u, (t, k, 0%Z, 0%Z)) := mkVaultRow b ""]> (w_vault w)) E.
Proof.
  intros Hw Hb Hne Ht Hk. unfold importSpec. rewrite Hb, Hrm. apply length_nonempty in Hne.
  eapply wp_bind; [apply wpe_rows; [apply memonly_NewData|apply nf_NewData; [done|lia]]|].
  intros l w1 Hw1 _ ((_ & _ & Hl & _) & Hv1). rewrite Nat2Z.id in Hl.
  eapply wp_post; [eapply (nf_defer_destroy _ _ _ (λ _ w',
    w_vault w' = <[(un_source u, (t, k, 0%Z, 0%Z)) := mkVaultRow b ""]> (w_vault w))); [done|by eapply holds_valid|]|].
  - eapply wp_bind; [by eapply nf_SecureBytes_new|]. intros s ? _ _ [-> Hs].
    eapply wp_bind; [apply wpe_rows; [apply memonly_copy_bytes|eapply nf_copy_bytes; [done|exact Hs|by rewrite length_zeros]]|].
    intros ? w2 Hw2 _ ((_ & _ & Hs2) & Hv2).
    eapply wp_post; [eapply (nf_Unsafe_ImportKey u (mkImportKeyRequest t k 0 0 (Some l) "")); [done|reflexivity|by eapply slice_bytes|done..]|].
    intros ? w3 _ _ [_ Hv3]. rewrite Hv3. cbn [ik_AAD]. unfold ik_ident. cbn. congruence.
  - intros ? w2 _ _ (w3 & Hv & _ & _ & Hv2). congruence.
Qed.

Lemma importSpec_stored t k spec w w' :
  wf w → importSpec rm t k spec w = (Ok (), w') → t ≠ "" → k ≠ "" →
  ∃ text, yaml_Marshal spec = inl text ∧ text ≠ "" ∧
    w_vault w' !! (un_source u, (t, k, 0%Z, 0%Z)) = Some (mkVaultRow text "").
Proof.
  intros Hw Hrun Ht Hk. destruct (yaml_Marshal spec) as [b|e] eqn:Hb.
  2:{ unfold importSpec in Hrun. by rewrite Hb in Hrun. }
  exists b. split; [done|]. destruct (String.eqb_spec b "") as [->|Hne].
  { unfold importSpec in Hrun. by rewrite Hb in Hrun. }
  destruct (wpe_returns _ _ _ (nf_importSpec t k spec b w _ Hw Hb Hne Ht Hk)) as ([] & w2 & Hrun2 & _ & _ & Hv).
  rewrite Hrun in Hrun2. injection Hrun2 as <-. by rewrite Hv, lookup_insert_eq.
Qed.

(** The service hands the root manager the specification it will read back. *)
Lemma service_CreateProvider_Ok t k key auth secret name w w' :
  RootKeyService.CreateProvider rm t k key auth (Some (RootKeyService.ProviderConfig_StaticSecret secret name)) w = (Ok (), w') →
  t ≠ "" ∧ k ≠ "" ∧ ∃ spec id, RootKeyService.staticSecretSpec secret name = inl spec ∧
    CreateProvider rm (mkCreateProviderInput t k (SealerSpec_filled spec) id) w = (Ok (), w').
Proof.
  unfold RootKeyService.CreateProvider, RootKeyService.validateIDs.
  destruct (is_valid_uuid t) eqn:Ht; [|done]. destruct (is_valid_uuid k) eqn:Hk; [|done].
  rewrite bind_run. cbn [negb check mret comp_ret RootKeyService.providerSpec].
  destruct (RootKeyService.providerKey key) as [[kt id]|e]; [|done]. cbn [RootKeyService.or_return].
  destruct (RootKeyService.providerAuth auth) as [[at_ []]|e]; [|done]. cbn [RootKeyService.or_return].
  unfold RootKeyService.staticSecretSpec. destruct (Nat.eqb _ 0); [done|]. cbn [RootKeyService.or_return].
  destruct (negb _); [done|]. unfold RootKeyService.mapped. rewrite bind_try. intros H.
  split; [by intros ->|]. split; [by intros ->|]. eexists _, id. split; [done|].
  cbn [sl_Name sl_Type sl_Config SealerSpec_filled SecretSpec_filled ss_Config ss_Type] in *.
  destruct (CreateProvider rm _ w) as [[[]| | |] w1]; done.
Qed.

Lemma CreateProvider_stored inp w w' :
  wf w → CreateProvider rm inp w = (Ok (), w') → cp_TenantID inp ≠ "" → cp_KeyID inp ≠ "" →
  SealerSpec_Validate (cp_Spec inp) = None ∧
  ∃ text, yaml_Marshal (cp_Spec inp) = inl text ∧ text ≠ "" ∧
    w_vault w' !! (un_source u, (cp_TenantID inp, cp_KeyID inp, 0%Z, 0%Z)) = Some (mkVaultRow text "").
Proof.
  intros Hw Hrun Ht Hk. unfold CreateProvider in Hrun. destruct (negb _); [done|].
  destruct (SealerSpec_Validate (cp_Spec inp)); [done|]. split; [done|]. rewrite bind_run in Hrun. simpl in Hrun.
  unfold ChainTransaction in Hrun. apply Transaction_vault in Hrun as (w2 & Hrun & Hv). unfold unit_steps in Hrun.
  cbn [fmap list_fmap foldM] in Hrun. apply bind_inv_Ok in Hrun as ([] & w3 & H3 & Hrun).
  apply bind_inv_Ok in Hrun as ([] & w4 & H4 & Hrun). apply bind_inv_Ok in Hrun as ([] & w6 & H6 & [= <-]).
  apply bind_inv_Ok in H6 as ([] & w5 & H5 & H6).
  destruct (reads_ValidateTenant (cp_TenantID inp) (tick w)) as [(Hs3 & Hv3 & _) _]. rewrite H3 in Hs3, Hv3.
  destruct (reads_ValidateKeyUsage (cp_TenantID inp) (cp_KeyID inp) KeyUsage.KeyUsageLink w3) as [(Hs4 & Hv4 & _) _].
  rewrite H4 in Hs4, Hv4. simpl in *.
  apply importSpec_stored in H5 as (text & Htext & Hne & Hrow); [|by rewrite Hs4, Hs3|done..].
  exists text. split_and!; [done..|]. rewrite Hv.
  pose proof (vault_pkv_create (cp_TenantID inp) (cp_KeyID inp) 1 (sl_Type (cp_Spec inp)) (cp_ProviderKeyID inp) w5) as Hp.
  rewrite H6 in Hp. unfold unchanged in Hp. simpl in Hp. by rewrite Hp.
Qed.

(** A specification of a static secret that validates has a name and a key. *)
Lemma static_spec_validated name secret :
  SealerSpec_Validate (SealerSpec_filled (mkSealerSpec name TypeStaticSecret
    (Some (StaticSecretConfig (mkSecretSpec inline_Type (Some (InlineConfig (Base64.StdEncodeToString secret)))))) None)) = None →
  name ≠ "" ∧ String.length secret = KeySize.
Proof.
  unfold SealerSpec_Validate. cbn [sl_Name sl_Config sl_Auth SealerSpec_filled SecretSpec_filled ss_Config ss_Type].
  destruct (String.eqb_spec name ""); [done|]. intros [Hc _]%or_else_None. split; [done|].
  apply inline_secret_size in Hc as (b & Hb & Hl). rewrite Base64.decode_encode in Hb. by injection Hb as <-.
Qed.

(** A provider that was created is bound in every later state in which its row
    of the vault is still there. *)
Lemma created_provider_bound t k key auth secret name w0 w0' w v usage :
  wf w0 →
  RootKeyService.CreateProvider rm t k key auth (Some (RootKeyService.ProviderConfig_StaticSecret secret name)) w0 = (Ok (), w0') →
  w_vault w !! (un_source u, (t, k, 0%Z, 0%Z)) = w_vault w0' !! (un_source u, (t, k, 0%Z, 0%Z)) →
  v ≠ 0%Z → usable_now w t k v usage → provider_bound w t k v usage secret.
Proof.
  intros Hw Hrun Hrow Hv (Ht & Hu & label & Hl).
  apply service_CreateProvider_Ok in Hrun as (Hnt & Hnk & spec & id & Hspec & Hrun).
  apply CreateProvider_stored in Hrun as (Hval & text & Htext & Hne & Hvault); [|done..]. cbn in Hvault, Hval, Htext.
  rewrite Hvault in Hrow. unfold RootKeyService.staticSecretSpec in Hspec.
  destruct (Nat.eqb_spec (String.length secret) 0) as [|Hlen0]; [done|]. injection Hspec as <-.
  apply static_spec_validated in Hval as [Hname Hlen].
  split_and!; [done|done|]. eexists _, (mkSealerSpec name TypeStaticSecret
    (Some (StaticSecretConfig (mkSecretSpec inline_Type (Some (InlineConfig (Base64.StdEncodeToString secret)))))) None), name, label.
  split_and!; [exact Hrow|exact Hne| |unfold RootKeyService.staticSecretSpec|done|done|done|done].
  - apply (SealerSpec_text _ _) in Htext; [exact Htext|by split].
  - by destruct (Nat.eqb_spec (String.length secret) 0).
Qed.

(** C36: a provider that the root key service created seals for the root key, when
    no system call and no statement fails and the root vault is a SQLite vault.
    After [CreateProvider] succeeded with a static secret, in every later state
    in which the vault still holds what it stored and a version of the key may be
    used for encryption, [Seal] succeeds; and in every later state in which the
    key may decrypt, [Unseal] opens what it returned to the plaintext.  The
    specification goes through YAML and the vault on the way.  Each of the two
    calls loads the secret into a new object and does not destroy it: the secret
    stays there until the collector runs the clean-up of that object, which
    wipes it, and after which nothing but the objects of the call has changed. *)
Theorem created_provider_seals t k v key auth secret name w0 w0' w lp p aad md :
  wf w0 →
  RootKeyService.CreateProvider rm t k key auth (Some (RootKeyService.ProviderConfig_StaticSecret secret name)) w0 = (Ok (), w0') →
  let stored w := w_vault w !! (un_source u, (t, k, 0%Z, 0%Z)) = w_vault w0' !! (un_source u, (t, k, 0%Z, 0%Z)) in
  wf w → stored w → v ≠ 0%Z → usable_now w t k v KeyUsage.KeyUsageEncrypt → bytes_of w lp = Some p →
  ∃ c w1 l, RootManager_Seal rm (mkSealRequest t k v (Some lp) aad md) w = (Ok c, w1) ∧ bytes_of w c = None ∧
    l ∉ [c; lp] ∧ leaves_to_collector secret l [c; lp] w w1 ∧
    ∀ w2 md2, wf w2 → stored w2 → usable_now w2 t k v KeyUsage.KeyUsageDecrypt → bytes_of w2 c = bytes_of w1 c →
      ∃ o w3 l2, RootManager_Unseal rm (mkUnsealRequest t k v (Some c) aad md2) w2 = (Ok o, w3) ∧
        bytes_of w3 o = Some p ∧ bytes_of w2 o = None ∧ l2 ∉ [o; c] ∧ leaves_to_collector secret l2 [o; c] w2 w3.
Proof.
  intros Hw0 Hrun. cbv zeta. intros Hw Hst Hv Hu Hp.
  destruct (provider_seal_unseal (mkSealRequest t k v (Some lp) aad md) lp p secret w) as
    (c & w1 & l & Hs & Hc & Hl & Hx & Hun); [done|by apply (created_provider_bound t k key auth secret name w0 w0')|done|done|].
  exists c, w1, l. split_and!; [done..|]. intros w2 md2 Hw2 Hst2 Hu2 Hc2. apply (Hun w2 md2); [done| |done].
  by apply (created_provider_bound t k key auth secret name w0 w0').
Qed.
End binding.
End root.
