(* ===== verification/Kmip.v ===== *)
(** * The KMIP front end (internal/kmip)

    - auth.go: identifiers [tenant:key:version] and their authorization against
      the client certificate;
    - errors.go: what of an error reaches the wire;
    - handler.go: [Get] and [GetAttributes] on the key processor's manager;
    - server.go: the vault of a connection and its hooks.

    The protocol library (github.com/ovh/kmip-go) parses requests, runs the
    middleware and the routes and encodes answers; of its constants only those
    the code names appear here.  [vaultSeq], a counter of the process, is passed
    along. *)

From S2P Require Import Prelude GoStrings GoRuntime Model World Lifecycle Providers Hierarchy.
From S2P Require Import Sql KeyStore KeyVersionStore SecureMem AesGcm Cryptor Sealers Vault KeyProcessor.
From Stdlib Require Import Ascii.

Local Open Scope string_scope.

(** ** Errors (errors.go) *)

Module Kmip.
Definition ErrKeyNotFound : string := "kmip.ErrKeyNotFound".
Definition ErrKeyNotActive : string := "kmip.ErrKeyNotActive".
Definition ErrNotSupported : string := "kmip.ErrNotSupported".
Definition ErrUnsupportedAlgorithm : string := "kmip.ErrUnsupportedAlgorithm".
Definition ErrNoSecureVault : string := "kmip.ErrNoSecureVault".
Definition ErrInternal : string := "kmip.ErrInternal".
Definition ErrInvalidKeyIdentifier : string := "kmip.ErrInvalidKeyIdentifier".
Definition ErrNoClientCert : string := "kmip.ErrNoClientCert".
Definition ErrTenantMismatch : string := "kmip.ErrTenantMismatch".

Inductive ResultReason :=
  | ResultReasonInvalidField
  | ResultReasonItemNotFound
  | ResultReasonPermissionDenied
  | ResultReasonOperationNotSupported
  | ResultReasonGeneralFailure.
#[export] Instance ResultReason_eq_dec : EqDecision ResultReason.
Proof. solve_decision. Defined.

(** A protocol error with its reason, or an error of the code itself. *)
Notation failure := (ResultReason + error)%type.

Definition toKMIPError (err : error) : failure :=
  if errors_Is err ErrInvalidKeyIdentifier then inl ResultReasonInvalidField
  else if errors_Is err ErrKeyNotFound then inl ResultReasonItemNotFound
  else if errors_Is err ErrKeyNotActive then inl ResultReasonPermissionDenied
  else if (errors_Is err ErrTenantMismatch || errors_Is err ErrNoClientCert)%bool
  then inl ResultReasonPermissionDenied
  else if errors_Is err ErrNotSupported then inl ResultReasonOperationNotSupported
  else if (errors_Is err ErrUnsupportedAlgorithm || errors_Is err ErrNoSecureVault || errors_Is err ErrInternal)%bool
  then inl ResultReasonGeneralFailure
  else inr err.

Definition mapKeyProcessorError (err : error) : error :=
  if (errors_Is err KeyStore.ErrKeyNotFound || errors_Is err ErrNoUsableKeyVersion)%bool
  then EWrap [ESentinel ErrKeyNotFound; err]
  else if errors_Is err ErrKeyNotActivated then EWrap [ESentinel ErrKeyNotActive; err]
  else ESentinel ErrInternal.

Inductive CryptographicAlgorithm := CryptographicAlgorithmAES.

Definition kmipAlgorithmInfo (a : string) : (CryptographicAlgorithm * Z) + error :=
  if String.eqb a KeyAlgorithmAES256 then inl (CryptographicAlgorithmAES, 256%Z)
  else inr (wrap1 (ESentinel ErrUnsupportedAlgorithm)).
Definition kmipAlgorithm (a : string) : CryptographicAlgorithm + error :=
  match kmipAlgorithmInfo a with inl (alg, _) => inl alg | inr e => inr e end.

(** ** Authorization (auth.go) *)

Record keyIdentifier := mkKeyIdentifier { id_TenantID : string; id_KeyID : string; id_Version : Z }.

(** What the code reads of a request context: the subject's common name of each
    peer certificate, the authorized identifier and the connection's vault. *)
Record kmip_context := mkContext {
  kc_certs : list (option string);
  kc_id : option keyIdentifier;
  kc_vault : option positive;
}.
Definition withKeyIdentifier (ctx : kmip_context) (id : keyIdentifier) : kmip_context :=
  mkContext (kc_certs ctx) (Some id) (kc_vault ctx).
Definition keyIdentifierFromCtx (ctx : kmip_context) : option keyIdentifier := kc_id ctx.

(** [strconv.Atoi]: a sign, decimal digits, in the range of int64. *)
Definition digit_value (c : ascii) : option Z :=
  let n := Z.of_nat (nat_of_ascii c) in
  if ((48 <=? n) && (n <=? 57))%Z%bool then Some (n - 48)%Z else None.
Fixpoint digits_value (acc : Z) (l : list ascii) : option Z :=
  match l with
  | [] => Some acc
  | c :: l => match digit_value c with None => None | Some d => digits_value (10 * acc + d) l end
  end.
Definition unsigned (l : list ascii) : option Z :=
  match l with [] => None | _ => digits_value 0 l end.
Definition Atoi (s : string) : option Z :=
  let z := match chars s with
           | c :: l => if Ascii.eqb c "+"%char then unsigned l
                       else if Ascii.eqb c "-"%char then Z.opp <$> unsigned l else unsigned (c :: l)
           | [] => None
           end in
  match z with
  | Some z => if ((- 2^63 <=? z) && (z <? 2^63))%Z%bool then Some z else None
  | None => None
  end.

Definition authorizeIdentifier (ctx : kmip_context) (uniqueIdentifier : string) : keyIdentifier + error :=
  match split ":"%char uniqueIdentifier with
  | [t; k; v] =>
      if (String.eqb t "" || String.eqb k "" || String.eqb v "")%bool
      then inr (ESentinel ErrInvalidKeyIdentifier) else
      match Atoi v with
      | None => inr (ESentinel ErrInvalidKeyIdentifier)
      | Some version =>
          match kc_certs ctx with
          | Some cn :: _ =>
              if String.eqb cn "" then inr (ESentinel ErrNoClientCert)
              else if negb (String.eqb cn t) then inr (ESentinel ErrTenantMismatch)
              else inl (mkKeyIdentifier t k version)
          | _ => inr (ESentinel ErrNoClientCert)
          end
      end
  | _ => inr (ESentinel ErrInvalidKeyIdentifier)
  end.

(** ** Requests *)

Inductive AttributeName :=
  | AttributeNameState
  | AttributeNameCryptographicAlgorithm
  | AttributeNameCryptographicLength
  | AttributeNameObjectType
  | AttributeNameOther (name : string).
#[export] Instance AttributeName_eq_dec : EqDecision AttributeName.
Proof. solve_decision. Defined.

Inductive RequestPayload :=
  | GetRequestPayload (UniqueIdentifier : string)
  | GetAttributesRequestPayload (UniqueIdentifier : string) (Names : list AttributeName)
  | OtherRequestPayload (name : string).

Inductive AttributeValue :=
  | StateActive | Algorithm (a : CryptographicAlgorithm) | LengthBits (n : Z) | ObjectTypeSymmetricKey.

(** The material of a [GetResponse] is a slice of secure memory. *)
Record GetResponse := mkGetResponse {
  gr_UniqueIdentifier : string;
  gr_Algorithm : CryptographicAlgorithm;
  gr_Length : Z;    (* an int32 *)
  gr_Material : option positive;
}.
Record GetAttributesResponse := mkGetAttributesResponse {
  ga_UniqueIdentifier : string;
  ga_Attribute : list (AttributeName * AttributeValue);
}.
Inductive ResponsePayload :=
  | RGet (r : GetResponse) | RGetAttributes (r : GetAttributesResponse) | ROther.

(** ** The vault of a connection (server.go) *)

Definition withMemVault (ctx : kmip_context) (v : positive) : kmip_context := mkContext (kc_certs ctx) (kc_id ctx) (Some v).
Definition memVaultFromCtx (ctx : kmip_context) : option positive := kc_vault ctx.

Definition vaultEntryName (uid : string) (seq : Z) : string := uid +:+ "#" +:+ itoa seq.
(** [vaultSeq.Add(1)]: an atomic uint64, which wraps around. *)
Definition vaultName (uid : string) (vaultSeq : Z) : string * Z :=
  let seq := ((vaultSeq + 1) mod 2^64)%Z in (vaultEntryName uid seq, seq).

Definition defaultAttributeNames : list AttributeName :=
  [AttributeNameState; AttributeNameCryptographicAlgorithm; AttributeNameCryptographicLength; AttributeNameObjectType].

(** The loop over the names; [seen] holds the names already visited. *)
Fixpoint attributes (alg : CryptographicAlgorithm) (bits : Z) (seen : list AttributeName) (names : list AttributeName)
    : list (AttributeName * AttributeValue) :=
  match names with
  | [] => []
  | n :: names =>
      if bool_decide (n ∈ seen) then attributes alg bits seen names else
      let rest := attributes alg bits (n :: seen) names in
      match n with
      | AttributeNameState => (n, StateActive) :: rest
      | AttributeNameCryptographicAlgorithm => (n, Algorithm alg) :: rest
      | AttributeNameCryptographicLength => (n, LengthBits bits) :: rest
      | AttributeNameObjectType => (n, ObjectTypeSymmetricKey) :: rest
      | AttributeNameOther _ => rest
      end
  end.

Section handlers.
Context {ENV : Env} {G : GCM} {OS : OsEnv} {BAO : OpenBao} {CLI : SealerClient} (self : Sealer) (manager : Manager).

(** The hooks of [NewServer]. *)
Definition connectHook (ctx : kmip_context) : M kmip_context := v ← NewMemVault; mret (withMemVault ctx v).
Definition terminateHook (ctx : kmip_context) : M () :=
  match memVaultFromCtx ctx with
  | Some v => _ ← err_of (DestroyAll v); mret ()
  | None => mret ()
  end.

(** ** Operations (handler.go) *)

(** The part of [handleGet] that owns the exported material: the result, the
    counter and the variable [imported]. *)
Definition deliver (ctx : kmip_context) (uid : string) (sec : Secret) (l : positive) (vaultSeq : Z)
    : M ((GetResponse + failure) * Z * bool) :=
  match kmipAlgorithm (sec_Algorithm sec) with
  | inr e => mret (inr (toKMIPError e), vaultSeq, false)
  | inl alg =>
      match memVaultFromCtx ctx with
      | None => mret (inr (toKMIPError (ESentinel ErrNoSecureVault)), vaultSeq, false)
      | Some vault =>
          let '(name, seq) := vaultName uid vaultSeq in
          r ← try (MemVault_Import vault name (Some l));
          match r with
          | inr _ => mret (inr (toKMIPError (ESentinel ErrInternal)), seq, false)
          | inl _ =>
              material ← SecureBytes (Some l);
              n ← len material;
              mret (inl (mkGetResponse uid alg (to_int32 (n * 8)) material), seq, true)
          end
      end
  end.

Definition handleGet (ctx : kmip_context) (uid : string) (vaultSeq : Z) : M ((GetResponse + failure) * Z) :=
  match keyIdentifierFromCtx ctx with
  | None => mret (inr (toKMIPError (ESentinel ErrInternal)), vaultSeq)
  | Some id =>
      r ← try (ExportSecret self manager (id_TenantID id) (id_KeyID id) (id_Version id));
      match r with
      | inr e => mret (inr (toKMIPError (mapKeyProcessorError e)), vaultSeq)
      | inl sec =>
          match sec_Data sec with
          | None => mret (inr (toKMIPError (ESentinel ErrInternal)), vaultSeq)
          | Some l =>
              r ← defer_with (λ r, match r with
                                   | Some (_, _, true) => mret ()
                                   | _ => _ ← err_of (Data_Destroy (Some l)); mret ()
                                   end)
                    (deliver ctx uid sec l vaultSeq);
              mret r.1
          end
      end
  end.

Definition handleGetAttributes (ctx : kmip_context) (uid : string) (names : list AttributeName)
    : M (GetAttributesResponse + failure) :=
  match keyIdentifierFromCtx ctx with
  | None => mret (inr (toKMIPError (ESentinel ErrInternal)))
  | Some id =>
      r ← try (DescribeKey manager (id_TenantID id) (id_KeyID id) (id_Version id));
      match r with
      | inr e => mret (inr (toKMIPError (mapKeyProcessorError e)))
      | inl (_, _, algorithm) =>
          match kmipAlgorithmInfo algorithm with
          | inr e => mret (inr (toKMIPError e))
          | inl (alg, lengthBits) =>
              let names := match names with [] => defaultAttributeNames | _ => names end in
              mret (inl (mkGetAttributesResponse uid (attributes alg lengthBits [] names)))
          end
      end
  end.

(** The routes of [newHandler]; an operation without one is refused. *)
Definition route (ctx : kmip_context) (pl : RequestPayload) (vaultSeq : Z) : M ((ResponsePayload + failure) * Z) :=
  match pl with
  | GetRequestPayload uid =>
      '(r, seq) ← handleGet ctx uid vaultSeq;
      mret (match r with inl x => inl (RGet x) | inr e => inr e end, seq)
  | GetAttributesRequestPayload uid names =>
      r ← handleGetAttributes ctx uid names;
      mret (match r with inl x => inl (RGetAttributes x) | inr e => inr e end, vaultSeq)
  | OtherRequestPayload _ => mret (inr (inl ResultReasonOperationNotSupported), vaultSeq)
  end.

(** The middleware, before a handler [next]. *)
Definition authorize (next : kmip_context → RequestPayload → Z → M ((ResponsePayload + failure) * Z))
    (ctx : kmip_context) (pl : RequestPayload) (vaultSeq : Z) : M ((ResponsePayload + failure) * Z) :=
  match (match pl with
         | GetRequestPayload uid => Some uid
         | GetAttributesRequestPayload uid _ => Some uid
         | OtherRequestPayload _ => None
         end) with
  | None => next ctx pl vaultSeq
  | Some uid =>
      match authorizeIdentifier ctx uid with
      | inr e => mret (inr (toKMIPError e), vaultSeq)
      | inl id => next (withKeyIdentifier ctx id) pl vaultSeq
      end
  end.

(** [newHandler]: one batch item, through the middleware. *)
Definition newHandler : kmip_context → RequestPayload → Z → M ((ResponsePayload + failure) * Z) := authorize route.
End handlers.
End Kmip.
