(* ===== verification/KmipTheorems.v ===== *)
(** * What the KMIP front end grants

    Which requests reach a key, what errors reach the wire, and that a connection
    leaves none of the keys it delivered in memory. *)

From S2P Require Import Prelude GoStrings GoRuntime Model World Lifecycle Providers Hierarchy.
From S2P Require Import Sql KeyStore KeyVersionStore StoreInvariant SecureMem SecureMemTheorems SealingEffects.
From S2P Require Import AesGcm Cryptor Sealers Vault KeyProcessor RootManager SealingSafety SealingTheorems SealingLaws.
From S2P Require Import ManagerLaws Kmip.
From Stdlib Require Import Ascii.

Import Kmip.

Local Open Scope string_scope.

(** ** Identifiers *)

Definition identifier (t k v : string) : string := t +:+ ":" +:+ k +:+ ":" +:+ v.
Definition no_colon (s : string) : Prop := ":"%char ∉ chars s.

Lemma split_identifier uid t k v :
  split ":"%char uid = [t; k; v] ↔ uid = identifier t k v ∧ no_colon t ∧ no_colon k ∧ no_colon v.
Proof.
  split.
  - intros Hs. pose proof (join_split ":"%char uid) as Hj. rewrite Hs in Hj. simpl in Hj. split; [by rewrite <-Hj|].
    pose proof (split_pieces ":"%char uid) as Hp. rewrite Hs, !Forall_cons in Hp. by destruct Hp as (? & ? & ? & _).
  - intros (-> & Ht & Hk & Hv). unfold identifier.
    change (":" +:+ k +:+ ":" +:+ v) with (String ":"%char (k +:+ String ":"%char v)).
    by rewrite (split_app_sep _ _ _ Ht), (split_app_sep _ _ _ Hk), split_no_sep.
Qed.

(** A request may use key [k] of tenant [t]: the first certificate names [t]. *)
Definition entitled (ctx : kmip_context) (uid : string) (id : keyIdentifier) : Prop :=
  (∃ rest, kc_certs ctx = Some (id_TenantID id) :: rest) ∧
  id_TenantID id ≠ "" ∧ id_KeyID id ≠ "" ∧
  ∃ vt, uid = identifier (id_TenantID id) (id_KeyID id) vt ∧ Atoi vt = Some (id_Version id) ∧
    no_colon (id_TenantID id) ∧ no_colon (id_KeyID id) ∧ no_colon vt.

Lemma authorizeIdentifier_iff ctx uid id : authorizeIdentifier ctx uid = inl id ↔ entitled ctx uid id.
Proof.
  unfold authorizeIdentifier, entitled. split.
  - destruct (split ":"%char uid) as [|t [|k [|v [|]]]] eqn:Hs; try done. apply split_identifier in Hs as (-> & Ht & Hk & Hv).
    destruct (String.eqb_spec t "") as [|Ht0]; [done|]. destruct (String.eqb_spec k "") as [|Hk0]; [done|].
    destruct (String.eqb_spec v "") as [|Hv0]; [done|]. simpl.
    destruct (Atoi v) as [n|] eqn:Hn; [|done]. destruct (kc_certs ctx) as [|[cn|] rest]; [done| |done].
    destruct (String.eqb_spec cn "") as [|]; [done|]. destruct (String.eqb_spec cn t) as [->|]; [|done].
    intros [= <-]. simpl. split_and!; [by exists rest|done|done|]. by exists v.
  - destruct id as [t k n]. simpl. intros ([rest ->] & Ht0 & Hk0 & v & -> & Hn & Ht & Hk & Hv).
    assert (v ≠ "") as Hv0 by (intros ->; done).
    rewrite (proj2 (split_identifier _ t k v)) by done.
    rewrite (proj2 (String.eqb_neq _ _) Ht0), (proj2 (String.eqb_neq _ _) Hk0), (proj2 (String.eqb_neq _ _) Hv0). simpl.
    by rewrite Hn, String.eqb_refl.
Qed.

Lemma authorize_refused ctx uid e :
  authorizeIdentifier ctx uid = inr e →
  toKMIPError e = inl ResultReasonInvalidField ∨ toKMIPError e = inl ResultReasonPermissionDenied.
Proof. unfold authorizeIdentifier. repeat case_match; intros; simplify_eq; auto. Qed.

(** ** The wire *)

Lemma mapped_is_protocol e : ∃ r, toKMIPError (mapKeyProcessorError e) = inl r.
Proof.
  unfold mapKeyProcessorError. repeat case_match; unfold toKMIPError; repeat (case_match; [by eauto|]).
  all: by simpl in *.
Qed.

Section handlers.
Context {ENV : Env} {G : GCM} {OS : OsEnv} {BAO : OpenBao} {CLI : SealerClient} (self : Sealer) (manager : Manager).

(** C23: a KMIP request reaches a key exactly when its identifier is
    [tenant:key:version] with three non-empty parts, the version a number, and
    the first peer certificate names that tenant: then the handler runs with
    that identifier, whatever the context held before.  Every other [Get] or
    [GetAttributes] is refused with the reason InvalidField or PermissionDenied
    and nothing happens. *)
Theorem kmip_tenant_isolation ctx pl uid vaultSeq w :
  (pl = GetRequestPayload uid ∨ ∃ names, pl = GetAttributesRequestPayload uid names) →
  (∀ id, entitled ctx uid id →
     newHandler self manager ctx pl vaultSeq w = route self manager (withKeyIdentifier ctx id) pl vaultSeq w) ∧
  ((∀ id, ¬ entitled ctx uid id) →
     ∃ reason, (reason = ResultReasonInvalidField ∨ reason = ResultReasonPermissionDenied) ∧
       newHandler self manager ctx pl vaultSeq w = (Ok (inr (inl reason), vaultSeq), w)).
Proof.
  intros Hpl. assert (newHandler self manager ctx pl vaultSeq =
    match authorizeIdentifier ctx uid with
    | inr e => mret (inr (toKMIPError e), vaultSeq)
    | inl id => route self manager (withKeyIdentifier ctx id) pl vaultSeq
    end) as ->.
  { unfold newHandler, authorize. by destruct Hpl as [->|[names ->]]. }
  split.
  - intros id Hid%authorizeIdentifier_iff. by rewrite Hid.
  - intros Hno. destruct (authorizeIdentifier ctx uid) as [id|e] eqn:Ha.
    + by destruct (Hno id); apply authorizeIdentifier_iff.
    + destruct (authorize_refused _ _ _ Ha) as [Hr|Hr]; rewrite Hr; (eexists; split; [|reflexivity]); auto.
Qed.

Lemma handleGet_protocol ctx uid seq w f seq' w' :
  handleGet self manager ctx uid seq w = (Ok (inr f, seq'), w') → ∃ r, f = inl r.
Proof.
  unfold handleGet. destruct (keyIdentifierFromCtx ctx) as [id|]; [|intros [= <- _ _]; by eexists].
  rewrite bind_try. destruct (ExportSecret _ _ _ _ _ w) as [[sec|e| |] w1]; [| |done..].
  2: { intros [= <- _ _]. destruct (mapped_is_protocol e) as [r Hr]. by exists r. }
  destruct (sec_Data sec) as [l|]; [|intros [= <- _ _]; by eexists].
  rewrite bind_run. unfold defer_with. destruct (deliver ctx uid sec l seq w1) as [[[[r s] i]|e| |] w2] eqn:Hd; [|done..].
  simpl. intros [= -> _ _]. unfold deliver in Hd.
  destruct (kmipAlgorithm _) as [alg|e] eqn:Ha.
  - destruct (memVaultFromCtx ctx); [|injection Hd as <- _ _ _; by eexists].
    destruct (vaultName uid seq) as [name s0]. rewrite bind_try in Hd.
    destruct (MemVault_Import _ _ _ w1) as [[[]|e| |] w3]; [|injection Hd as <- _ _ _; by eexists|done..].
    rewrite bind_run in Hd. destruct (SecureBytes _ w3) as [[b|e| |] w4]; [|done..].
    rewrite bind_run in Hd. by destruct (len b w4) as [[|e| |] w5].
  - unfold kmipAlgorithm, kmipAlgorithmInfo in Ha. destruct (String.eqb _ _); [done|]. injection Ha as <-.
    injection Hd as <- _ _ _. by eexists.
Qed.

(** No error of the key processor, the store or the vaults reaches the
    wire: whatever a batch item fails with is one of the protocol's reasons. *)
Theorem kmip_errors_stay_inside ctx pl vaultSeq w f vaultSeq' w' :
  newHandler self manager ctx pl vaultSeq w = (Ok (inr f, vaultSeq'), w') → ∃ reason, f = inl reason.
Proof.
  unfold newHandler, authorize. destruct pl as [uid|uid names|name]; [..|intros [= <- _ _]; by eexists].
  - destruct (authorizeIdentifier ctx uid) as [id|e] eqn:Ha.
    + simpl. rewrite bind_run. destruct (handleGet _ _ _ uid vaultSeq w) as [[[[x|y] s]| | |] w1] eqn:Hg; try done.
      intros [= <- _ _]. by eapply handleGet_protocol.
    + destruct (authorize_refused _ _ _ Ha) as [Hr|Hr]; rewrite Hr; intros [= <- _ _]; by eexists.
  - destruct (authorizeIdentifier ctx uid) as [id|e] eqn:Ha.
    + simpl. rewrite bind_run. unfold handleGetAttributes. simpl. rewrite bind_try.
      destruct (DescribeKey _ _ _ _ w) as [[[[key kv] alg]|e| |] w1]; [| |done..].
      * unfold kmipAlgorithmInfo. destruct (String.eqb _ _); [done|]. simpl. intros [= <- _ _]. by eexists.
      * simpl. intros [= <- _ _]. destruct (mapped_is_protocol e) as [r Hr]. by exists r.
    + destruct (authorize_refused _ _ _ Ha) as [Hr|Hr]; rewrite Hr; intros [= <- _ _]; by eexists.
Qed.
End handlers.

(** ** Connections *)

(** Entry names of a vault tell the counter. *)
Lemma vaultEntryName_inj uid uid' k k' : vaultEntryName uid k = vaultEntryName uid' k' → k = k'.
Proof.
  assert (∀ z, "#"%char ∉ chars (itoa z)) as Hno.
  { intros z. apply itoa_no_digit; [|done]. intros n Hn. do 10 (destruct n as [|n]; [done|]). lia. }
  intros H. apply (f_equal (λ s, rev (chars s))) in H. unfold vaultEntryName in H. rewrite !chars_app, !rev_app_distr in H.
  simpl in H. rewrite <-!app_assoc in H. simpl in H.
  assert (∀ z, "#"%char ∉ rev (chars (itoa z))) as Hrev by (intros z; rewrite list_elem_of_In, <-in_rev, <-list_elem_of_In; apply Hno).
  apply no_sep_app_inj in H as [H _]; [|apply Hrev..]. apply (f_equal (@rev ascii)) in H. rewrite !rev_involutive in H.
  by apply (inj chars), (inj itoa) in H.
Qed.

Section connection.
Context {ENV : Env} {NF : NoFaults} {G : GCM} {OS : OsEnv} {BAO : OpenBao} {CLI : SealerClient}.
Context (R : string → Prop) (m : Manager) (src : KeyKind → Unsafe) (transport outer : KeyKind → sealer_spec).
Context (Hms : manager_sealers R m src transport outer) (act : string → string → Z → option (Key * KeyVersion)).
Context (rows : gmap (string * (string * string * Z * Z)) VaultRow) (n : nat).

Definition manager_spec : sealer_spec := level m src transport outer act rows (S n).
(** The secret of the identified key version. *)
Definition secret_of (id : keyIdentifier) (s : string) : Prop :=
  key_secret m src transport outer act rows (manager_sealer n m) (level m src transport outer act rows n)
    (id_TenantID id) (id_KeyID id) (id_Version id) s.

Lemma nf_ExportSecret id s w E :
  wf w → sp_I manager_spec w → secret_of id s →
  wpe (ExportSecret (manager_sealer n m) m (id_TenantID id) (id_KeyID id) (id_Version id)) w
    (λ sec w', ∃ l, sec = mkSecret KeyAlgorithmAES256 (Some l) ∧ keeps R [l] [] w w' ∧ bytes_of w l = None ∧
       bytes_of w' l = Some s ∧ w_vault w' = w_vault w) E.
Proof.
  intros Hw HI Hs. unfold ExportSecret.
  eapply wp_bind; [eapply nf_resolveProcessorAndSecret; [exact Hms|apply manager_level_law, Hms|done|exact HI|exact Hs]|].
  intros [pr sec] w1 Hw1 _ (l & c & Heq & _ & Hk & Hf & Hb & Hv). simpl in Heq. injection Heq as ->.
  apply wp_ret; [done|]. by exists l.
Qed.

(** The exported material goes to the vault of the connection. *)
Lemma nf_deliver ctx v mp uid l s w seq E :
  wf w → kc_vault ctx = Some v → vault_is w v mp → mp !! (vaultName uid seq).1 = None → bytes_of w l = Some s →
  wpe (deliver ctx uid (mkSecret KeyAlgorithmAES256 (Some l)) l seq) w
    (λ r w', ∃ sl, r = (inl (mkGetResponse uid CryptographicAlgorithmAES (to_int32 (Z.of_nat (String.length s) * 8)) (Some sl)),
                        (vaultName uid seq).2, true) ∧
       read_bytes (Some sl) w' = (Ok s, w') ∧
       kept [] [v] w w' ∧ vault_is w' v (<[(vaultName uid seq).1 := l]> mp) ∧ w_vault w' = w_vault w) E.
Proof.
  intros Hw Hctx Hv Hn Hl. unfold deliver, memVaultFromCtx, kmipAlgorithm, kmipAlgorithmInfo. rewrite Hctx.
  cbn [sec_Algorithm]. rewrite String.eqb_refl. destruct (vaultName uid seq) as [name seq']. cbn [fst snd] in *.
  eapply wp_bind; [eapply (wp_try _ _ _ (λ _ _, False)), wpe_rows; [apply memonly_MemVault_Import|]; eapply nf_Import;
    [done|exact Hv|exact Hn|by eapply bytes_valid]|].
  intros [[]|e] w1 Hw1 _ H1; [|by destruct H1]. destruct H1 as ((Hk & Hm) & Hr).
  assert (bytes_of w1 l = Some s) as Hl1 by (by rewrite (kept_bytes _ _ _ _ Hk) by apply not_elem_of_nil).
  destruct (live_slice l s w1 Hw1 Hl1) as (sl & H1 & H2 & H3).
  eapply wpe_Ok; [exact H1|]. eapply wpe_Ok; [exact H2|]. apply wp_ret; [done|]. by exists sl.
Qed.

Lemma nf_handleGet ctx id v mp uid s w seq E :
  wf w → sp_I manager_spec w → secret_of id s → kc_id ctx = Some id → kc_vault ctx = Some v → vault_is w v mp →
  mp !! (vaultName uid seq).1 = None →
  wpe (handleGet (manager_sealer n m) m ctx uid seq) w
    (λ r w', ∃ sl l, r = (inl (mkGetResponse uid CryptographicAlgorithmAES 256 (Some sl)), (vaultName uid seq).2) ∧
       read_bytes (Some sl) w' = (Ok s, w') ∧ keeps R [l] [v] w w' ∧ bytes_of w l = None ∧
       vault_is w' v (<[(vaultName uid seq).1 := l]> mp) ∧ w_vault w' = w_vault w) E.
Proof.
  intros Hw HI Hs Hid Hctx Hv Hn. unfold handleGet, keyIdentifierFromCtx. rewrite Hid.
  eapply wp_bind; [by eapply (wp_try _ _ _ (λ _ _, False)), nf_ExportSecret|].
  intros [sec|e] w1 Hw1 _ H1; [|by destruct H1]. destruct H1 as (l & -> & Hk & Hf & Hb & Hr). cbn [sec_Data].
  assert (vault_is w1 v mp) as Hv1 by (apply (keeps_vaults Hk); [apply not_elem_of_nil|done]).
  eapply wp_bind; [eapply wp_defer_with; [eapply (nf_deliver _ _ _ _ _ _ _ _ (λ _ _, False)); done| |done]|].
  - intros a w2 Hw2 _ HQ. destruct HQ as (sl & -> & HQ).
    split; [exact Hw2|split; [reflexivity|]].
    instantiate (1 := λ r w2, ∃ sl, r = (inl (mkGetResponse uid CryptographicAlgorithmAES
      (to_int32 (Z.of_nat (String.length s) * 8)) (Some sl)), (vaultName uid seq).2, true) ∧
      read_bytes (Some sl) w2 = (Ok s, w2) ∧ kept [] [v] w1 w2 ∧
      vault_is w2 v (<[(vaultName uid seq).1 := l]> mp) ∧ w_vault w2 = w_vault w1).
    exists sl. split; [done|exact HQ].
  - intros a w2 Hw2 _ (sl & -> & Hread & Hk2 & Hm2 & Hr2). apply wp_ret; [done|]. exists sl, l.
    split_and!; [|done| |done|done|congruence].
    + destruct Hs as (_ & Hlen & _). by rewrite Hlen.
    + eapply keeps_kept_r; [..|exact Hk|exact Hk2]; set_solver.
Qed.

(** The [Get] requests of a connection, in order: each is handled and its
    answer encoded before the next is read. *)
Fixpoint serve_gets (ctx : kmip_context) (uids : list string) (vaultSeq : Z) : M (list (option string) * Z) :=
  match uids with
  | [] => mret ([], vaultSeq)
  | uid :: uids =>
      '(r, seq) ← newHandler (manager_sealer n m) m ctx (GetRequestPayload uid) vaultSeq;
      answer ← match r with
               | inl (RGet resp) => b ← read_bytes (gr_Material resp); mret (Some b)
               | _ => mret None
               end;
      '(answers, seq) ← serve_gets ctx uids seq;
      mret (answer :: answers, seq)
  end.

(** The state in the middle of a connection that began in [w0]: the vault [v]
    holds [mp], whose objects are all new and, besides what the sealers above
    the manager may leave, the only ones that changed. *)
Record connected (w0 : world) (v : positive) (mp : gmap string positive) (lo hi : Z) (w : world) : Prop := {
  cn_kept : keeps R (objects mp) [v] w0 w;
  cn_new : ∀ l, l ∈ objects mp → bytes_of w0 l = None;
  cn_vault : vault_is w v mp;
  cn_rows : w_vault w = w_vault w0;
  cn_names : ∀ name l, mp !! name = Some l → ∃ uid k, name = vaultEntryName uid k ∧ (lo < k ≤ hi)%Z;
}.

Lemma connected_ready w0 v mp lo hi w :
  connected w0 v mp lo hi w → w_db w = w_db w0 → sp_I manager_spec w0 → sp_I manager_spec w.
Proof.
  intros [Hk Hnew _ Hr _] Hd HI. pose proof (manager_level_law R m src transport outer Hms act rows (S n)) as Hlaw.
  eapply (law_stable _ _ _ _ _ _ Hlaw); [exact HI| |done|done]. intros l Hl.
  pose proof (law_live _ _ _ _ _ _ Hlaw _ _ HI Hl) as Hlive. destruct (bytes_of w0 l) as [b|] eqn:Hb; [|done].
  apply (keeps_live Hk); [|done]. intros Hin. by rewrite (Hnew l Hin) in Hb.
Qed.

Lemma connected_fresh w0 v mp lo seq uid w :
  (0 ≤ lo ≤ seq ∧ seq < 2^64 - 1)%Z → connected w0 v mp lo seq w → mp !! (vaultName uid seq).1 = None.
Proof.
  intros Hseq [_ _ _ _ Hnames]. destruct (mp !! _) eqn:E; [|done]. destruct (Hnames _ _ E) as (uid' & k & Hk & Hle).
  unfold vaultName in Hk. simpl in Hk. rewrite Z.mod_small in Hk by lia. apply vaultEntryName_inj in Hk. lia.
Qed.

Lemma connected_step w0 v mp lo seq uid l w w' :
  (lo ≤ seq < 2^64 - 1)%Z → (0 ≤ lo)%Z → connected w0 v mp lo seq w → keeps R [l] [v] w w' → bytes_of w l = None →
  vault_is w' v (<[(vaultName uid seq).1 := l]> mp) → w_vault w' = w_vault w →
  connected w0 v (<[(vaultName uid seq).1 := l]> mp) lo (vaultName uid seq).2 w' ∧ (vaultName uid seq).2 = (seq + 1)%Z.
Proof.
  intros Hseq Hlo [Hk Hnew Hv Hr Hnames] Hk' Hf Hv' Hr'.
  assert ((vaultName uid seq).2 = (seq + 1)%Z) as Hnext by (unfold vaultName; simpl; rewrite Z.mod_small; lia).
  assert (∀ x, x ∈ objects (<[(vaultName uid seq).1 := l]> mp) → x = l ∨ x ∈ objects mp) as Hin.
  { intros x. rewrite !elem_of_objects. intros (nm & [[_ <-]|[_ ?]]%lookup_insert_Some); [by left|right; eauto]. }
  assert ((vaultName uid seq).1 = vaultEntryName uid (seq + 1)) as Hname.
  { unfold vaultName. simpl. rewrite Z.mod_small; [done|lia]. }
  assert (mp !! (vaultName uid seq).1 = None) as Hfresh by (apply (connected_fresh w0 v mp lo seq uid w); [lia|by split]).
  split; [|done]. split; [| |done|congruence|].
  - eapply keeps_trans; [..|exact Hk|exact Hk']; [| |set_solver..].
    + intros x. rewrite !elem_of_objects. intros (nm & Hnm). exists nm. rewrite lookup_insert_ne; [done|]. intros <-. congruence.
    + intros x. rewrite list_elem_of_singleton, elem_of_objects. intros ->. exists (vaultName uid seq).1. apply lookup_insert_eq.
  - intros x [->|Hx]%Hin; [|by apply Hnew]. destruct (decide (l ∈ objects mp)) as [Hl|Hl]; [by apply Hnew|].
    by apply (keeps_none Hk).
  - intros nm x [[<- _]|[_ Hx]]%lookup_insert_Some.
    + exists uid, (seq + 1)%Z. split; [done|lia].
    + destruct (Hnames _ _ Hx) as (uid' & k & -> & Hle). exists uid', k. split; [done|lia].
Qed.

Lemma connected_start v seq w : vault_is w v ∅ → connected w v ∅ seq seq w.
Proof.
  intros Hv. split; [apply keeps_refl| |done|done|by intros ? ? ?%lookup_empty_Some].
  intros l. rewrite objects_empty. by intros ?%not_elem_of_nil.
Qed.

Lemma nf_connectHook ctx w E :
  wf w → wpe (connectHook ctx) w (λ ctx' w', ∃ v, ctx' = withMemVault ctx v ∧ vault_is w' v ∅ ∧
    (∀ l, bytes_of w' l = bytes_of w l) ∧ w_vault w' = w_vault w) E.
Proof.
  intros Hw. unfold connectHook. eapply wp_bind; [apply wpe_rows; [apply memonly_NewMemVault|by apply wp_NewMemVault]|].
  intros v w1 Hw1 _ H1. apply wp_ret; [done|]. exists v. destruct H1 as [(_ & Hv & Hh & Hm & _) Hr].
  split_and!; try done. intros l. unfold bytes_of. by rewrite Hh, Hm.
Qed.

Lemma nf_terminateHook ctx v w0 mp lo hi w E :
  wf w → connected w0 v mp lo hi w →
  wpe (terminateHook (withMemVault ctx v)) w (λ _ w', ∀ l, same_or_residue R w0 w' l) E.
Proof.
  intros Hw [Hk Hnew Hv _ _]. unfold terminateHook, memVaultFromCtx. cbn [withMemVault kc_vault].
  eapply wp_bind; [by eapply (wp_err_of _ _ _ (λ _ _, False)), nf_DestroyAll|].
  intros [e|] w1 Hw1 _ H1; [by destruct H1|]. destruct H1 as (_ & Hk1 & Hdead).
  apply wp_ret; [done|]. intros l. destruct (decide (l ∈ objects mp)) as [Hl|Hl].
  - left. by rewrite Hdead, Hnew.
  - unfold same_or_residue. rewrite (kept_bytes _ _ _ _ Hk1) by done. by apply (keeps_bytes Hk).
Qed.

(** One [Get] of the connection. *)
Lemma nf_get ctx v w0 uid id s seq w mp lo E :
  wf w → sp_I manager_spec w0 → connected w0 v mp lo seq w → w_db w = w_db w0 → kc_vault ctx = Some v →
  entitled ctx uid id → secret_of id s → (0 ≤ lo ≤ seq ∧ seq < 2^64 - 1)%Z →
  wpe (newHandler (manager_sealer n m) m ctx (GetRequestPayload uid) seq) w
    (λ r w', ∃ sl mp', r = (inl (RGet (mkGetResponse uid CryptographicAlgorithmAES 256 (Some sl))), (seq + 1)%Z) ∧
       read_bytes (Some sl) w' = (Ok s, w') ∧ connected w0 v mp' lo (seq + 1) w') E.
Proof.
  intros Hw HI Hc Hd Hctx Hent Hs Hseq. unfold newHandler, authorize. rewrite (proj2 (authorizeIdentifier_iff _ _ _) Hent).
  unfold route. eapply wp_bind; [eapply nf_handleGet; [done|by eapply connected_ready|exact Hs|reflexivity|exact Hctx|
    exact (cn_vault _ _ _ _ _ _ Hc)|by eapply connected_fresh]|].
  intros [r sq] w1 Hw1 _ (sl & l & Heq & Hread & Hk & Hf & Hv & Hr). injection Heq as -> ->.
  destruct (connected_step w0 v mp lo seq uid l w w1) as [Hc1 Hnext]; [lia|lia|exact Hc|exact Hk|exact Hf|exact Hv|exact Hr|].
  apply wp_ret; [done|]. exists sl, (<[(vaultName uid seq).1 := l]> mp).
  split_and!; [by rewrite Z.mod_small by lia|exact Hread|by rewrite <-Hnext].
Qed.

Lemma nf_serve_gets ctx v w0 lo E uids : ∀ secrets seq w mp,
  wf w → sp_I manager_spec w0 → connected w0 v mp lo seq w → w_db w = w_db w0 → kc_vault ctx = Some v →
  Forall2 (λ uid s, ∃ id, entitled ctx uid id ∧ secret_of id s) uids secrets →
  (0 ≤ lo ≤ seq)%Z → (seq + Z.of_nat (length uids) < 2^64)%Z →
  wpe (serve_gets ctx uids seq) w
    (λ r w', r = (map Some secrets, (seq + Z.of_nat (length uids))%Z) ∧
       ∃ mp', connected w0 v mp' lo (seq + Z.of_nat (length uids)) w') E.
Proof.
  induction uids as [|uid uids IH]; intros secrets seq w mp Hw HI Hc Hd Hctx Hall Hlo Hseq.
  { apply Forall2_nil_inv_l in Hall as ->. apply wp_ret; [done|]. rewrite Z.add_0_r. by eauto. }
  apply Forall2_cons_inv_l in Hall as (s & secrets' & (id & Hent & Hs) & Hall & ->).
  cbn [length] in Hseq. rewrite Nat2Z.inj_succ in Hseq. cbn [serve_gets length map].
  eapply wp_bind; [apply (nf_get ctx v w0 uid id s seq w mp lo); [done|done|exact Hc|done|done|exact Hent|exact Hs|lia]|].
  intros [r sq] w1 Hw1 Hg1 (sl & mp1 & Heq & Hread & Hc1). injection Heq as -> ->. cbn [gr_Material].
  eapply wp_bind; [eapply wpe_Ok; [exact Hread|]; eapply (wp_ret _ _ (λ a w', a = Some s ∧ w' = w1)); done|].
  intros a ? _ _ [-> ->].
  eapply wp_bind; [eapply IH; [done|done|exact Hc1| |done|exact Hall|lia|lia]|].
  { by rewrite (grows_db _ _ Hg1). }
  intros [answers sq] w2 Hw2 _ [Heq (mp2 & Hc2)]. injection Heq as -> ->. apply wp_ret; [done|].
  rewrite Nat2Z.inj_succ. replace (seq + Z.succ (Z.of_nat (length uids)))%Z with (seq + 1 + Z.of_nat (length uids))%Z by lia.
  by eauto.
Qed.

(** C24: a KMIP connection delivers keys and leaves none of them behind, when no
    system call and no statement fails, the vaults are SQLite vaults, and the
    sealers above the manager obey [sealer_law] with a residue [R].  On a
    connection opened by the hook whose requests are all [Get]s of key versions
    the client is entitled to and the manager serves, each is answered with that
    version's secret, in order and readable when its answer is encoded; when the
    connection ends every object of secure memory holds what it held before the
    client connected, or is new and holds what the sealers above the manager may
    leave, on a root copies of the provider's secret.  The counter names each
    delivery differently while it stays within 64 bits. *)
Theorem kmip_connection_leaves_no_key ctx uids secrets seq w :
  wf w → sp_I manager_spec w →
  Forall2 (λ uid s, ∃ id, entitled ctx uid id ∧ secret_of id s) uids secrets →
  (0 ≤ seq)%Z → (seq + Z.of_nat (length uids) < 2^64)%Z →
  ∃ ctx' w1 w2 w3, connectHook ctx w = (Ok ctx', w1) ∧
    serve_gets ctx' uids seq w1 = (Ok (map Some secrets, (seq + Z.of_nat (length uids))%Z), w2) ∧
    terminateHook ctx' w2 = (Ok (), w3) ∧ ∀ l, same_or_residue R w w3 l.
Proof.
  intros Hw HI Hall H0 Hseq.
  destruct (wpe_returns _ _ _ (nf_connectHook ctx w _ Hw)) as (ctx' & w1 & Hrun1 & Hw1 & Hg1 & v & -> & Hv & Hb1 & Hr1).
  pose proof (manager_level_law R m src transport outer Hms act rows (S n)) as Hlaw.
  assert (sp_I manager_spec w1) as HI1 by (eapply (law_stable _ _ _ _ _ _ Hlaw); [exact HI|auto|by apply Hg1|done]).
  destruct (wpe_returns _ _ _ (nf_serve_gets (withMemVault ctx v) v w1 seq _ uids secrets seq w1 ∅ Hw1 HI1
    (connected_start v seq w1 Hv) eq_refl eq_refl Hall (conj H0 (Z.le_refl _)) Hseq))
    as (r & w2 & Hrun2 & Hw2 & _ & -> & mp & Hc).
  destruct (wpe_returns _ _ _ (nf_terminateHook ctx v w1 mp _ _ w2 _ Hw2 Hc)) as ([] & w3 & Hrun3 & _ & _ & Hb3).
  exists (withMemVault ctx v), w1, w2, w3. split_and!; [done..|]. intros l.
  unfold same_or_residue. rewrite <-Hb1. apply Hb3.
Qed.
End connection.
