(* ===== verification/SealingSamples.v ===== *)
(** * Sealing, evaluated

    Concrete runs of the sealing stack with the AES-256-GCM of [AesGcm] that meet
    the hypotheses of its theorems. *)

From S2P Require Import Prelude GoStrings GoRuntime Model World Lifecycle Providers Hierarchy.
From S2P Require Import Config Sql KeyStore KeyVersionStore StoreInvariant StoreTheorems Validator SecureMem SecureMemTheorems.
From S2P Require Import SealingEffects AesGcm Cryptor Sealers Vault KeyProcessor SpecYaml RootManager RootKeyService SealingSafety.
From S2P Require Import ManagerSafety SealingTheorems SealingLaws ManagerLaws SealerServiceTheorems RootManagerTheorems Kmip KmipTheorems.

Import Sample YamlSamples.

Local Open Scope string_scope.

Module SealingSamples.
#[export] Instance os : OsEnv := λ _, "".

(** ** Memory *)

(** A call that succeeds, its result and the state after it. *)
Definition after {A} (m : M A) (w : world) : world := (m w).2.
Definition object (m : M positive) (w : world) : positive := match (m w).1 with Ok l => l | _ => 1%positive end.

Definition key32 : string := "0123456789abcdefghijklmnopqrstuv".
Definition load (secret : string) : M positive := inline_LoadSecret (Base64.StdEncodeToString secret).

Lemma load_wf secret w : wf w → wf (after (load secret) w).
Proof. intros Hw. by destruct (wp_GetSecret (mkSecretSpec inline_Type (Some (InlineConfig (Base64.StdEncodeToString secret)))) w Hw) as [? _]. Qed.

(** A key and a plaintext in secure memory. *)
Definition w0 : world := world0 empty_db.
Definition lkey : positive := object (load key32) w0.
Definition w_key : world := after (load key32) w0.
Definition ltext : positive := object (load "attack at dawn") w_key.
Definition w_text : world := after (load "attack at dawn") w_key.

Lemma w_key_wf : wf w_key.
Proof. apply load_wf. exact empty_secmem_wf. Qed.
Lemma w_text_wf : wf w_text.
Proof. apply load_wf, w_key_wf. Qed.

(** A handler that keeps one object. *)
Definition reserve (req : HandlerRequest) : M () := _ ← Reserve (persistentVault req) "a" 3; mret ().
Definition req0 : HandlerRequest := mkHandlerRequest 1 2.
Definition w_req : world := after newHandlerRequest (tick w0).

Lemma w_req_wf : wf w_req.
Proof. by destruct (wp_newHandlerRequest (tick w0) (λ _ _, True) empty_secmem_wf) as [? _]. Qed.
Lemma w_reserved_wf : wf (after (reserve req0) w_req).
Proof.
  assert (wp (reserve req0) w_req (λ _ _, True)) as (H & _); [|exact H].
  eapply wp_bind; [apply wp_Reserve; [apply w_req_wf|by eexists]|]. intros. by apply wp_ret.
Qed.

Lemma Run_contract_witness :
  vault_is (after (Run reserve) w0) 2 {["a" := 4%positive]} ∧ sealed (after (Run reserve) w0) 4.
Proof.
  destruct (Run_contract reserve w0 req0 w_req (Ok ()) (after (reserve req0) w_req) ∅ {["a" := 4%positive]}
    (Ok (mkHandlerResponse 2)) (after (Run reserve) w0)) as (_ & _ & _ & H1 & H2);
    [exact empty_secmem_wf|reflexivity|vm_compute; reflexivity|vm_compute; reflexivity|discriminate|exact w_reserved_wf
    |split_and!; [vm_compute; reflexivity|vm_compute; reflexivity|discriminate]|vm_compute; reflexivity|].
  split; [exact H1|]. apply (H2 "a"). reflexivity.
Defined.

(** A program that writes a secret, destroys it and writes another. *)
Definition program : list sm_call :=
  [SMNewData "a" 3; SMWrite (Some 2%positive) "abc"; SMDestroy (Some 2%positive);
   SMNewData "b" 3; SMWrite (Some 4%positive) "xyz"].
Definition w_program : world := foldl (λ w c, after (run_sm_call c) w) w0 program.

Lemma program_runs : sm_run w0 program w_program.
Proof.
  assert (∀ w l d, sm_heap (w_sm w) !! l = Some d → d_isReadOnly d = false → ∀ src, call_ok w (SMWrite (Some l) src)) as Hwrite.
  { intros w l d Hl Hd src. split; [by exists d|]. intros l' d' [= <-] Hl'. congruence. }
  repeat eapply sm_run_cons; [done|by eapply Hwrite|intros _; by eexists|done|by eapply Hwrite|apply sm_run_nil].
Qed.

(** The second secret is there, and a region of a live object; the first is not. *)
Lemma no_secret_outlives_its_data_witness :
  r_bytes <$> sm_mem (w_sm w_program) !! 3%positive = Some "xyz" ∧ owns (w_sm w_program) 4 3 ∧
  all_zero (default "" (r_bytes <$> sm_mem (w_sm w_program) !! 1%positive)).
Proof.
  destruct (no_secret_outlives_its_data w0 program w_program 3 (mkRegion "xyz" true true))
    as (_ & l & d & Hl & Hd & _ & Huniq); [exact empty_secmem_wf|exact program_runs|vm_compute; reflexivity|discriminate|].
  split; [vm_compute; reflexivity|]. split; [|vm_compute; reflexivity].
  exists (mkData "b" (Some 3%positive) false). split; vm_compute; reflexivity.
Defined.

Lemma securemem_returns_witness :
  match (run_sm_call (SMMarkReadOnly (Some 4%positive)) w_program).1 with Ok _ | Err _ => True | _ => False end.
Proof.
  apply (securemem_returns w0 program w_program (SMMarkReadOnly (Some 4%positive)) empty_secmem_wf program_runs).
  by eexists.
Defined.

(** ** The cryptor *)

Definition sec : Secret := mkSecret KeyAlgorithmAES256 (Some lkey).
Definition ereq : EncryptRequest := mkEncryptRequest sec (Some ltext) "aad".

Lemma sec_ok : usable_secret w_text sec key32.
Proof. split_and!; [reflexivity..|]. exists lkey. split; vm_compute; reflexivity. Qed.
Lemma text_bytes : bytes_of w_text ltext = Some "attack at dawn".
Proof. vm_compute. reflexivity. Qed.

Lemma encrypt_length_witness :
  ∃ c w' b, Encrypt (aes256gcm_New "c") ereq w_text = (Ok c, w') ∧ bytes_of w' c = Some b ∧ String.length b = 42.
Proof.
  destruct (encrypt_length (aes256gcm_New "c") ereq ltext key32 "attack at dawn" w_text w_text_wf sec_ok eq_refl text_bytes)
    as (c & w' & b & H1 & H2 & H3 & _). exists c, w', b. split_and!; [exact H1|exact H2|exact H3].
Defined.

Lemma encrypt_decrypt_roundtrip_witness :
  ∃ c w' l w3, Encrypt (aes256gcm_New "c") ereq w_text = (Ok c, w') ∧
    Decrypt (aes256gcm_New "d") (mkDecryptRequest sec (Some c) "aad") w' = (Ok l, w3) ∧
    bytes_of w3 l = Some "attack at dawn".
Proof.
  destruct (encrypt_decrypt_roundtrip (aes256gcm_New "c") ereq ltext key32 "attack at dawn" w_text w_text_wf sec_ok
    eq_refl text_bytes) as (c & w' & H1 & H2).
  destruct (wp_Encrypt (aes256gcm_New "c") ereq w_text w_text_wf) as (Hw' & _);
    [intros _; vm_compute; eauto|intros _; vm_compute; eauto|]. rewrite H1 in Hw'.
  assert (w' = after (Encrypt (aes256gcm_New "c") ereq) w_text) as Hw by (unfold after; by rewrite H1).
  assert (usable_secret w' sec key32) as Hs.
  { split_and!; [reflexivity..|]. exists lkey. split; [reflexivity|]. rewrite Hw. vm_compute. reflexivity. }
  destruct (H2 (aes256gcm_New "d") sec w' Hw' eq_refl Hs) as (l & w3 & H3 & H4 & _).
  exists c, w', l, w3. split_and!; [exact H1|exact H3|exact H4].
Defined.

(** A plaintext is no ciphertext. *)
Lemma decrypt_authenticates_witness :
  ∃ e w', Decrypt (aes256gcm_New "c") (mkDecryptRequest sec (Some lkey) "aad") w_text = (Err e, w') ∧
    ∀ l, bytes_of w' l = bytes_of w_text l.
Proof.
  pose proof (decrypt_authenticates (aes256gcm_New "c") (mkDecryptRequest sec (Some lkey) "aad") lkey key32 key32 w_text
    w_text_wf sec_ok eq_refl) as H.
  assert (gcm_Open key32 (take_str 12 key32) (drop_str 12 key32) "aad" = None) as Ho by (vm_compute; reflexivity).
  cbn [dr_AAD] in H. rewrite Ho in H. apply H. vm_compute. reflexivity.
Defined.

(** ** Vaults, sealers and keys *)

#[export] Instance no_bao : OpenBao := {|
  bao_Write := λ _ _, mret (inr BaoOther); bao_Delete := λ _ _, mret (inr BaoOther);
  kv_Put := λ _ _ _ _, mret (inr BaoOther); kv_Get := λ _ _ _, mret (inr BaoOther);
  kv_Delete := λ _ _ _, mret (inr BaoOther) |}.
#[export] Instance no_bao_remote : OpenBaoRemote.
Proof. split; intros; intros w; by eexists _, w. Qed.

Definition st : StaticSecret := mkStaticSecret lkey (aes256gcm_New "s") "s".
Definition u : Unsafe := mkUnsafe "v" TypeUnsafeMemory MemorySource.
Definition version (key : string) (parent : option string) : KeyVersion :=
  mkKeyVersion uuid0 key 1 1 parent (match parent with Some _ => Some 1%Z | None => None end)
    KeyLifeCycleActive KeyVersionUsable ∅ 0 0.
Definition kv1 : KeyVersion := version uuid1 (Some uuid3).

(** ** Keys: K2 under K1 under the root key K0 *)

(** A parent that answers with what it was sent. *)
#[export] Instance echo : SealerClient := {|
  rpc_Seal := λ _ r, mret (inl (wr_Bytes r));
  rpc_Unseal := λ _ r, mret (inl (wr_Bytes r));
|}.
#[export] Instance echo_remote : SealerClientRemote.
Proof. split; intros c r; (split; [intros w; by eexists _, w|done]). Qed.

(** It keeps the promise the client relies on. *)
Lemma echo_parent conn : remote_parent conn (λ _ _ _, True) (λ _ _ _ _ c p, c = p ∧ c ≠ "").
Proof.
  split.
  - intros r w _ Hr. exists (wr_Bytes r), w. split_and!; done.
  - intros r p w _ [<- _]. exists w. split_and!; done.
  - intros _ _ _ _ c p p' [<- _] [<- _]. reflexivity.
  - intros _ _ _ _ c p [<- Hc]. split; exact Hc.
Qed.
Definition echo_law := rpc_sealer_law no_residue "conn" _ _ (echo_parent "conn").

Definition kv0 : KeyVersion := WithLabels (version uuid3 None) {[providerKeyLabel TypeStaticSecret := "provider-key"]}.
Definition kv2 : KeyVersion := version uuid2 (Some uuid1).
Definition key_calls : list store_call :=
  [CMigrate "root"; CStep (SUpsertTenant tenant);
   CStep (SCreateKey (key uuid3 "k0" "K0" None KeyLifeCycleActive KeyProcessingCompleted));
   CStep (SCreateKey (key uuid1 "k1" "K1" (Some uuid3) KeyLifeCycleActive KeyProcessingCompleted));
   CStep (SCreateKey (key uuid2 "k2" "K2" (Some uuid1) KeyLifeCycleActive KeyProcessingCompleted));
   CStep (SCreateKeyVersion kv0); CStep (SCreateKeyVersion kv1); CStep (SCreateKeyVersion kv2)].
Definition key_db : DB := w_db (run_calls key_calls (world0 empty_db)).
Definition w_keys : world := set_db key_db w_key.
Lemma set_db_sm d w : w_sm (set_db d w) = w_sm w.
Proof. reflexivity. Qed.
Lemma set_db_db d w : w_db (set_db d w) = d.
Proof. reflexivity. Qed.
Lemma w_keys_wf : wf w_keys.
Proof. unfold w_keys. rewrite set_db_sm. exact w_key_wf. Qed.
Lemma w_keys_db : w_db w_keys = key_db.
Proof. apply set_db_db. Qed.

Definition rank (_ k : string) : nat := if String.eqb k uuid3 then 0 else if String.eqb k uuid1 then 1 else 2.
Definition rank_ok (kv : KeyVersion) : bool :=
  match kv_ParentKeyID kv with
  | None => true
  | Some q => rank (canon (kv_TenantID kv)) (canon q) <? rank (canon (kv_TenantID kv)) (canon (kv_KeyID kv))
  end%nat.
Lemma ranked_check d : forallb rank_ok (map_to_list (db_kvs d)).*2 = true → ranked d rank.
Proof.
  rewrite forallb_forall. intros H i kv q Hi Hq. specialize (H kv). unfold rank_ok in H. rewrite Hq in H.
  apply Nat.ltb_lt, H, list_elem_of_In, list_elem_of_fmap. exists (i, kv). split; [done|]. by apply elem_of_map_to_list.
Qed.
Lemma key_db_ranked : ranked key_db rank.
Proof. apply ranked_check. vm_compute. reflexivity. Qed.

(** A configuration: K1 under a remote parent, K2 under K1. *)
Definition binding (parent : option string) : KeyBinding :=
  mkKeyBinding None (Some (mkCryptorSpec "c" "aes256gcm" (Some AES256GCMConfig)))
    (Some (mkVaultSpec "v" TypeUnsafeMemory (Some InMemoryConfig))) parent.
Definition cfg : ManagerConfig :=
  mkManagerConfig true true {["K1" := binding (Some "up"); "K2" := binding None]}
    SegmentValidation.Deployment.h (Some {["up" := "conn"]}) None.

Lemma cfg_complete : complete cfg.
Proof.
  assert (∀ kind b, mc_Bindings cfg !! kind = Some b → ∃ parent, b = binding parent) as Hb.
  { intros kind b. simpl. rewrite lookup_insert_Some, lookup_singleton_Some. intros [[_ <-]|[_ [_ <-]]]; eauto. }
  split; [| |done]; intros kind b Hk; destruct (Hb _ _ Hk) as [parent ->]; by eexists.
Qed.
Lemma NewManager_ok : is_ok (NewManager cfg w_keys).1 = true.
Proof. vm_compute. reflexivity. Qed.

Lemma built_manager :
  ∃ m w1, NewManager cfg w_keys = (Ok m, w1) ∧ wf w1 ∧ ranked (w_db w1) rank ∧ valid w1 (Some lkey).
Proof.
  pose proof NewManager_ok as Hok. destruct (wp_NewManager cfg w_keys cfg_complete w_keys_wf) as (Hw & Hg & _).
  destruct (NewManager cfg w_keys) as [[m|e| |] w1]; [|discriminate Hok..]. exists m, w1. simpl in *.
  split_and!; [reflexivity|exact Hw| |].
  - rewrite (grows_db _ _ Hg), w_keys_db. exact key_db_ranked.
  - apply (grows_valid _ _ (Some lkey) Hg). vm_compute. eauto.
Qed.

Lemma manager_keeps_the_promise_witness :
  ∃ m w1, NewManager cfg w_keys = (Ok m, w1) ∧
    let r := Manager_GenerateAndSealSecret (manager_sealer 3 m) m kv2 "aad" "K2" w1 in
    w_db r.2 = w_db w1 ∧ match r.1 with Ok _ | Err _ => True | _ => False end.
Proof.
  destruct built_manager as (m & w1 & Hnew & Hw1 & Hr & _). exists m, w1. split; [exact Hnew|].
  destruct (manager_keeps_the_promise cfg m rank 3 kv2 "aad" "K2" w_keys w1 w1 cfg_complete w_keys_wf Hnew
    (λ _ H, H) Hw1 Hr) as (H1 & _ & _ & H2).
  - intros q [= <-]. apply Nat.ltb_lt. vm_compute. reflexivity.
  - split; [exact H1|]. destruct (Manager_GenerateAndSealSecret _ _ _ _ _ w1).1; done.
Defined.

Lemma manager_sealing_ends_witness :
  ∃ m w1, NewManager cfg w_keys = (Ok m, w1) ∧
    match (Seal (manager_sealer 3 m) (mkSealRequest uuid0 uuid2 1 (Some lkey) "aad" ∅) w1).1 with
    | Ok _ | Err _ => True | _ => False end.
Proof.
  destruct built_manager as (m & w1 & Hnew & Hw1 & Hr & Hl). exists m, w1. split; [exact Hnew|].
  destruct (manager_sealing_ends cfg m rank 3 w_keys w1 w1 (mkSealRequest uuid0 uuid2 1 (Some lkey) "aad" ∅)
    (mkUnsealRequest uuid0 uuid2 1 (Some lkey) "aad" ∅) cfg_complete w_keys_wf Hnew (λ _ H, H) Hw1 Hr)
    as ((_ & _ & H) & _).
  - apply Nat.ltb_lt. vm_compute. reflexivity.
  - intros _. exact Hl.
  - apply Nat.ltb_lt. vm_compute. reflexivity.
  - intros _. exact Hl.
  - destruct (Seal _ _ w1).1; done.
Defined.

(** ** The provider of the root key *)

#[export] Instance yaml_errors : YamlErrors yaml.
Proof.
  split.
  - intros [s|n l] e; simpl; [done|by intros [= <-]].
  - intros [s|[|n] l] k e; simpl; [by intros [= <-]|done|done].
  - intros [s|n l] e; simpl; [by intros [= <-]|done].
  - done.
  - intros b e. simpl. destruct (StoreSamples.undigits b ≫= decode); [done|]. by intros [= <-].
Qed.

Definition link_calls : list store_call :=
  [CMigrate "root"; CStep (SUpsertTenant tenant);
   CStep (SCreateKey (key uuid3 "k0" "K0" None KeyLifeCyclePreActivation KeyProcessingCompleted))].
Definition w_link : world := set_db (w_db (run_calls link_calls (world0 empty_db))) w_key.
Lemma w_link_wf : wf w_link.
Proof. unfold w_link. rewrite set_db_sm. exact w_key_wf. Qed.

Definition rm : RootManager := mkRootManager (sqlite_vault u) {[TypeStaticSecret]}.
(** The provider is created while the key is not active yet, and used when it is. *)
Definition create : M () :=
  RootKeyService.CreateProvider rm uuid0 uuid3 (Some (RootKeyService.ProviderKey_StaticSecret "provider-key"))
    (Some RootKeyService.ProviderAuth_StaticSecret) (Some (RootKeyService.ProviderConfig_StaticSecret key32 "root")).
Definition w_created : world := after create w_link.
Lemma create_ok : create w_link = (Ok (), w_created).
Proof.
  unfold w_created, after. assert (is_ok (create w_link).1 = true) as H by (vm_compute; reflexivity).
  by destruct (create w_link) as [[[]| | |] w].
Qed.

Definition w_root0 : world := set_vault (w_vault w_created) w_keys.
Definition w_root : world := after (load "attack at dawn") w_root0.
Definition ltext_root : positive := object (load "attack at dawn") w_root0.

Lemma set_vault_sm v w : w_sm (set_vault v w) = w_sm w.
Proof. reflexivity. Qed.
Lemma w_root_wf : wf w_root.
Proof. apply load_wf. unfold w_root0. rewrite set_vault_sm. exact w_keys_wf. Qed.

(** The provider is bound wherever the vault holds its row and the keys are
    those of [key_db]. *)
Definition prov (t k : string) (v : Z) : option string :=
  if (String.eqb t uuid0 && String.eqb k uuid3 && Z.eqb v 1)%bool then Some key32 else None.
Definition residue : string → Prop := provider_residue prov.
Definition usable_check (w : world) (usage : Z) : bool :=
  (is_ok (ValidateTenant uuid0 w).1 && is_ok (ValidateKeyUsage uuid0 uuid3 usage w).1 &&
   is_ok (resolveLabel uuid0 uuid3 1 TypeStaticSecret w).1)%bool.
Lemma usable_check_ok w usage : usable_check w usage = true → usable_now w uuid0 uuid3 1 usage.
Proof.
  unfold usable_check, usable_now. rewrite !andb_true_iff. intros [[H1 H2] H3].
  destruct (ValidateTenant uuid0 w).1 as [[]| | |]; [|discriminate H1..].
  destruct (ValidateKeyUsage uuid0 uuid3 usage w).1 as [[]| | |]; [|discriminate H2..].
  destruct (resolveLabel uuid0 uuid3 1 TypeStaticSecret w).1 as [label| | |]; [|discriminate H3..]. eauto.
Qed.
#[local] Instance VaultRow_eq_dec : EqDecision VaultRow.
Proof. solve_decision. Defined.
Definition provider_row (w : world) : option VaultRow := w_vault w !! (un_source u, (uuid0, uuid3, 0%Z, 0%Z)).
Definition bound_check (w : world) : bool :=
  (bool_decide (provider_row w = provider_row w_created) &&
   usable_check w KeyUsage.KeyUsageEncrypt && usable_check w KeyUsage.KeyUsageDecrypt)%bool.
Lemma bound_check_ok w : bound_check w = true → providers_bound u prov w.
Proof.
  unfold bound_check. rewrite !andb_true_iff, bool_decide_eq_true. intros [[Hrow He] Hd] t k v secret. unfold prov.
  destruct (String.eqb_spec t uuid0) as [->|]; [|discriminate]. destruct (String.eqb_spec k uuid3) as [->|]; [|discriminate].
  destruct (Z.eqb_spec v 1) as [->|]; [|discriminate]. intros [= <-]. split;
    (eapply (created_provider_bound rm u eq_refl uuid0 uuid3 _ _ key32 "root" w_link w_created); [exact w_link_wf|exact create_ok|exact Hrow|discriminate|]);
    by apply usable_check_ok.
Qed.
Definition root_law := root_sealer_law rm u eq_refl prov.

Lemma created_provider_seals_witness :
  ∃ c w1 l, RootManager_Seal rm (mkSealRequest uuid0 uuid3 1 (Some ltext_root) "aad" ∅) w_root = (Ok c, w1) ∧
    bytes_of w_root l = None ∧ bytes_of w1 l = Some key32 ∧
    ∃ w2, NewData_cleanup l w1 = (Ok (), w2) ∧ ∀ x, x ∉ [c; ltext_root] → bytes_of w2 x = bytes_of w_root x.
Proof.
  destruct (created_provider_seals rm u eq_refl uuid0 uuid3 1 (Some (RootKeyService.ProviderKey_StaticSecret "provider-key"))
    (Some RootKeyService.ProviderAuth_StaticSecret) key32 "root" w_link w_created w_root ltext_root "attack at dawn" "aad" ∅
    w_link_wf create_ok w_root_wf) as (c & w1 & l & H1 & _ & _ & (H2 & H3 & _ & w2 & H4 & H5 & _) & _).
  - vm_compute. reflexivity.
  - discriminate.
  - apply usable_check_ok. vm_compute. reflexivity.
  - vm_compute. reflexivity.
  - exists c, w1, l. split_and!; [exact H1|exact H2|exact H3|]. exists w2. split; [exact H4|exact H5].
Defined.

(** ** A processor under the root manager *)

Definition proc : processor Sealer :=
  mkProcessor (Some (aes256gcm_New "c")) (Some (static_sealer st)) (root_sealer rm) (Some (sqlite_vault u)).
Definition st_law := static_sealer_law residue st key32 eq_refl.
Lemma proc_transport s :
  p_transportSealer proc = Some s →
  sealer_law s residue (eq (st_secret st)) (λ w, bytes_of w (st_secret st) = Some key32) (λ _ _ _, True)
    (λ _ _ _ aad c p, opens_to key32 c aad p ∧ ¬ rejected key32 c aad).
Proof. intros [= <-]. apply st_law. Qed.

Lemma proc_ready_at w :
  bytes_of w lkey = Some key32 → bound_check w = true →
  ready proc (IT := λ w, bytes_of w (st_secret st) = Some key32) (IP := providers_bound u prov) w.
Proof. intros H Hb. split; [intros _; exact H|by apply bound_check_ok]. Qed.
Lemma proc_serves : served proc (servesT := λ _ _ _, True) (servesP := λ t k v, is_Some (prov t k v)) kv1.
Proof. split; [intros _; exact I|]. exists uuid3. split; [reflexivity|]. eexists. vm_compute. reflexivity. Qed.
Lemma proc_cryptor : is_Some (p_cryptor proc).
Proof. eexists. reflexivity. Qed.
Lemma root0_wf : wf w_root0.
Proof. unfold w_root0. rewrite set_vault_sm. exact w_keys_wf. Qed.
Lemma root0_key : bytes_of w_root0 lkey = Some key32.
Proof. vm_compute. reflexivity. Qed.
Lemma root0_bound : bound_check w_root0 = true.
Proof. vm_compute. reflexivity. Qed.
Definition w_c : world := after (createSecret proc kv1 "aad") w_root0.
Lemma w_c_bound : bound_check w_c = true.
Proof. vm_compute. reflexivity. Qed.

Lemma created_secret_resolves_witness :
  ∃ s w1 l w3, String.length s = 32 ∧ createSecret proc kv1 "aad" w_root0 = (Ok (), w1) ∧
    (∀ x, same_or_residue residue w_root0 w1 x) ∧
    resolveSecret proc kv1 w1 = (Ok (mkSecret KeyAlgorithmAES256 (Some l)), w3) ∧ bytes_of w3 l = Some s.
Proof.
  pose proof (proc_ready_at _ root0_key root0_bound) as Hready.
  destruct (created_secret_resolves proc u proc_cryptor eq_refl proc_transport root_law kv1 "aad" w_root0 root0_wf
    Hready proc_serves) as (s & w1 & Hs & H1 & Hb & H2); [discriminate|discriminate|].
  assert (wf w1) as Hw1.
  { destruct (nf_createSecret proc u proc_cryptor eq_refl proc_transport root_law kv1 "aad" w_root0 (λ _ _, True) root0_wf
      Hready proc_serves) as [Hw _]; [discriminate|discriminate|]. rewrite H1 in Hw. exact Hw. }
  assert (w1 = w_c) as Hc by (unfold w_c, after; by rewrite H1).
  destruct (H2 w1 Hw1) as (l & w3 & H3 & H4 & _); [|reflexivity|].
  { apply proc_ready_at.
    - destruct (Hb lkey) as [-> |[Hn _]]; [exact root0_key|]. rewrite root0_key in Hn. discriminate Hn.
    - rewrite Hc. exact w_c_bound. }
  exists s, w1, l, w3. split_and!; [exact Hs|exact H1|exact Hb|exact H3|exact H4].
Defined.

(** ** The manager of a root

    What [NewManager] builds on a root: K1 under the root key, through the root
    manager, and K2 under K1. *)
Definition root_cfg : ManagerConfig :=
  mkManagerConfig true true {["K1" := binding None; "K2" := binding None]}
    SegmentValidation.Deployment.h None (Some (root_sealer rm)).
Definition p1 : processor ParentRef :=
  mkProcessor (Some (aes256gcm_New "c")) None (PSealer (root_sealer rm)) (Some (sqlite_vault u)).
Definition p2 : processor ParentRef := mkProcessor (Some (aes256gcm_New "c")) None PSelf (Some (sqlite_vault u)).
Definition mgr : Manager :=
  mkManager {["K1" := p1; "K2" := p2]} {["K1" := KeyAlgorithmAES256; "K2" := KeyAlgorithmAES256]}.
Lemma root_bindings : map_to_list (mc_Bindings root_cfg) = [("K1", binding None); ("K2", binding None)].
Proof. vm_compute. reflexivity. Qed.
Lemma mgr_built w : ∃ w', NewManager root_cfg w = (Ok mgr, w').
Proof.
  unfold NewManager. rewrite root_bindings. cbn [negb mc_KeyStore mc_KeyVersionStore root_cfg foldM].
  unfold add_processor at 1. cbn [mc_Hierarchy root_cfg]. eexists. reflexivity.
Qed.

(** The secrets of K1 and K2 are created. *)
Definition w_1 : world := after (Manager_GenerateAndSealSecret (manager_sealer 1 mgr) mgr kv1 "aad1" "K1") w_root0.
Definition w_2 : world := after (Manager_GenerateAndSealSecret (manager_sealer 2 mgr) mgr kv2 "aad2" "K2") w_1.
Definition w_3 : world := after (load "attack at dawn") w_2.
Definition ltext3 : positive := object (load "attack at dawn") w_2.

Definition root_spec : sealer_spec :=
  mkSpec (λ _, False) (providers_bound u prov) (λ t k v, is_Some (prov t k v))
    (λ t k v aad c p, ∃ secret, prov t k v = Some secret ∧ opens_to secret c aad p ∧ ¬ rejected secret c aad).

Lemma mgr_cases kind pr :
  m_processors mgr !! kind = Some pr → (kind = "K1" ∧ pr = p1) ∨ (kind = "K2" ∧ pr = p2).
Proof. unfold mgr, m_processors. rewrite lookup_insert_Some, lookup_singleton_Some. naive_solver. Qed.
Lemma mgr_K1 kind : kind = "K1" → m_processors mgr !! kind = Some p1.
Proof. intros ->. apply lookup_insert_eq. Qed.
Lemma mgr_K2 kind : kind = "K2" → m_processors mgr !! kind = Some p2.
Proof. intros ->. unfold mgr, m_processors. rewrite lookup_insert_ne by done. apply lookup_insert_eq. Qed.
Lemma mgr_sealers : manager_sealers residue mgr (λ _, u) (λ _, root_spec) (λ _, root_spec).
Proof.
  split; intros kind pr.
  - intros [[_ ->]|[_ ->]]%mgr_cases; eexists; reflexivity.
  - by intros [[_ ->]|[_ ->]]%mgr_cases.
  - by intros s [[_ ->]|[_ ->]]%mgr_cases.
  - intros s [[_ ->]|[_ ->]]%mgr_cases [= <-]. exact root_law.
Qed.

Lemma mgr_ok w : manager_ok w mgr.
Proof.
  assert (∃ v, Some (sqlite_vault u) = Some v ∧ vault_safe v) as Hv.
  { eexists. split; [reflexivity|]. apply sqlite_vault_safe. }
  split. intros kind pr [[_ ->]|[_ ->]]%mgr_cases; (split_and!; [eexists; reflexivity|exact Hv|done|]); [|done].
  intros s [= <-]. apply root_sealer_safe. apply sqlite_vault_safe.
Qed.
Lemma generate_wf n kv aad kind w :
  wf w → ranked (w_db w) rank → parent_served (within rank n) kv →
  let w' := after (Manager_GenerateAndSealSecret (manager_sealer n mgr) mgr kv aad kind) w in
  wf w' ∧ grows w w'.
Proof.
  intros Hw Hr Hs.
  destruct (wp_GenerateAndSealSecret w rank mgr Hr (mgr_ok w) n kv aad kind w Hw (reflexivity w) Hs) as (H1 & H2 & _).
  exact (conj H1 H2).
Qed.

Lemma root0_db : w_db w_root0 = key_db.
Proof. unfold w_root0. exact w_keys_db. Qed.
Lemma w_1_wf : wf w_1 ∧ grows w_root0 w_1.
Proof.
  apply generate_wf; [exact root0_wf|rewrite root0_db; exact key_db_ranked|].
  intros q [= <-]. apply Nat.ltb_lt. vm_compute. reflexivity.
Qed.
Lemma w_2_wf : wf w_2 ∧ grows w_root0 w_2.
Proof.
  destruct w_1_wf as [Hw Hg]. destruct (generate_wf 2 kv2 "aad2" "K2" w_1 Hw) as [Hw2 Hg2].
  - rewrite (grows_db _ _ Hg), root0_db. exact key_db_ranked.
  - intros q [= <-]. apply Nat.ltb_lt. vm_compute. reflexivity.
  - split; [exact Hw2|]. etrans; [exact Hg|exact Hg2].
Qed.
Lemma w_3_wf : wf w_3.
Proof. apply load_wf, w_2_wf. Qed.

(** What the database and the vault hold. *)
Definition found (w : world) (k : string) : option (Key * KeyVersion) :=
  match (resolveActiveKey uuid0 k 1 w).1 with Ok r => Some r | _ => None end.
Definition act (t k : string) (v : Z) : option (Key * KeyVersion) :=
  if (String.eqb t uuid0 && Z.eqb v 1 && (String.eqb k uuid1 || String.eqb k uuid2))%bool then found w_3 k else None.
Definition row_of (kv : KeyVersion) : VaultRow := default (mkVaultRow "" "") (w_vault w_3 !! kv_row u kv).
Definition open_with (k : string) (row : VaultRow) : string :=
  default "" (gcm_Open k (take_str 12 (vr_material row)) (drop_str 12 (vr_material row)) (vr_aad row)).
Definition f1 : Key * KeyVersion := default (key "" "" "" None "" "", kv1) (found w_3 uuid1).
Definition f2 : Key * KeyVersion := default (key "" "" "" None "" "", kv1) (found w_3 uuid2).
Definition s1 : string := open_with key32 (row_of f1.2).
Definition s2 : string := open_with s1 (row_of f2.2).

Lemma found_resolves w k r : found w k = Some r → (resolveActiveKey uuid0 k 1 w).1 = Ok r.
Proof. unfold found. destruct (resolveActiveKey uuid0 k 1 w).1; by intros [= ->]. Qed.
Lemma act_resolves t k v r : act t k v = Some r → (resolveActiveKey t k v w_3).1 = Ok r.
Proof.
  unfold act. destruct (String.eqb_spec t uuid0) as [->|]; [|discriminate].
  destruct (Z.eqb_spec v 1) as [->|]; [|discriminate].
  destruct (_ || _)%bool; [apply found_resolves|discriminate].
Qed.

Definition opens_check (k c aad p : string) : bool :=
  ((28 <? String.length c)%nat && bool_decide (gcm_Open k (take_str 12 c) (drop_str 12 c) aad = Some p))%bool.
Lemma opens_check_ok k c aad p : opens_check k c aad p = true → opens_to k c aad p ∧ ¬ rejected k c aad.
Proof.
  unfold opens_check. rewrite andb_true_iff, bool_decide_eq_true, Nat.ltb_lt. intros [Hl Ho]. split; [exact Ho|].
  unfold rejected, gcmNonceSize, gcmOverhead. rewrite Ho. intros [?|?]; [lia|discriminate].
Qed.

Notation level_of n := (level mgr (λ _, u) (λ _, root_spec) (λ _, root_spec) act (w_vault w_3) n).

Lemma key_secret_1 : sp_opens (level_of 1) uuid0 uuid1 1 (vr_aad (row_of f2.2)) (vr_material (row_of f2.2)) s2 ∧
  ∃ s, key_secret mgr (λ _, u) (λ _, root_spec) (λ _, root_spec) act (w_vault w_3) (manager_sealer 0 mgr) (level_of 0) uuid0 uuid1 1 s.
Proof.
  assert (key_secret mgr (λ _, u) (λ _, root_spec) (λ _, root_spec) act (w_vault w_3) (manager_sealer 0 mgr) (level_of 0)
    uuid0 uuid1 1 s1) as H1.
  { split_and!; [discriminate|vm_compute; reflexivity|]. exists f1.1, f1.2, p1, (row_of f1.2).
    split_and!; [vm_compute; reflexivity|apply mgr_K1; vm_compute; reflexivity| |vm_compute; reflexivity|].
    - split; [intros [? [=]]|]. exists uuid3. split; [vm_compute; reflexivity|]. eexists. vm_compute. reflexivity.
    - exists s1. split; [|reflexivity]. exists uuid3. split; [vm_compute; reflexivity|].
      exists key32. split; [vm_compute; reflexivity|]. apply opens_check_ok. vm_compute. reflexivity. }
  split; [|exists s1; exact H1]. exists s1. split; [exact H1|]. apply opens_check_ok. vm_compute. reflexivity.
Qed.

Lemma w_3_bound : providers_bound u prov w_3.
Proof. apply bound_check_ok. vm_compute. reflexivity. Qed.
Lemma level_1_ready : sp_I (level_of 1) w_3.
Proof.
  split; [reflexivity|split; [exact act_resolves|]]. intros kind pr [[-> ->]|[-> ->]]%mgr_cases.
  - split; [intros [? [=]]|]. exact w_3_bound.
  - split; [intros [? [=]]|exact I].
Qed.
Lemma level_2_ready : sp_I (level_of 2) w_3.
Proof.
  split; [reflexivity|split; [exact act_resolves|]]. intros kind pr [[-> ->]|[-> ->]]%mgr_cases.
  - split; [intros [? [=]]|]. exact w_3_bound.
  - split; [intros [? [=]]|exact level_1_ready].
Qed.
Lemma level_2_serves : sp_serves (level_of 2) uuid0 uuid2 1.
Proof.
  destruct key_secret_1 as [H1 H2]. exists s2.
  split_and!; [discriminate|vm_compute; reflexivity|]. exists f2.1, f2.2, p2, (row_of f2.2).
  split_and!; [vm_compute; reflexivity|apply mgr_K2; vm_compute; reflexivity| |vm_compute; reflexivity|].
  - split; [intros [? [=]]|]. exists uuid1. split; [vm_compute; reflexivity|exact H2].
  - exists s2. split; [|reflexivity]. exists uuid1. split; [vm_compute; reflexivity|exact H1].
Qed.

Lemma text3_bytes : bytes_of w_3 ltext3 = Some "attack at dawn".
Proof. vm_compute. reflexivity. Qed.

Definition sreq : SealRequest := mkSealRequest uuid0 uuid2 1 (Some ltext3) "aad" ∅.
Lemma hierarchy_seal_unseal_witness :
  (∃ w', NewManager root_cfg w_root0 = (Ok mgr, w')) ∧
  ∃ c w1, Seal (manager_sealer 2 mgr) sreq w_3 = (Ok c, w1) ∧ bytes_of w_3 c = None ∧
    ∀ l, l ≠ c → l ≠ ltext3 → same_or_residue residue w_3 w1 l.
Proof.
  destruct (hierarchy_seal_unseal residue mgr (λ _, u) (λ _, root_spec) (λ _, root_spec) mgr_sealers act (w_vault w_3) 2 sreq ltext3
    "attack at dawn" w_3 w_3_wf level_2_ready level_2_serves eq_refl text3_bytes) as (c & w1 & H1 & H2 & H3 & _).
  split; [apply mgr_built|].
  exists c, w1. split_and!; [exact H1|exact H2|exact H3].
Defined.

(** The sealer service in front of the manager. *)
Definition rpc_request : SealerService.Request := SealerService.mkRequest uuid0 uuid2 1 "attack at dawn" "aad" ∅.
Lemma sealer_call_leaves_no_key_witness :
  ∃ ctx w1 b w2 answer w3, TagRPC None w_3 = (Ok ctx, w1) ∧
    SealerService.Seal (manager_sealer 2 mgr) ctx rpc_request w1 = (Ok b, w2) ∧ read_bytes b w2 = (Ok answer, w2) ∧
    HandleRPC ctx StatsEnd w2 = (Ok (), w3) ∧ ∀ l, same_or_residue residue w_3 w3 l.
Proof.
  destruct (sealer_call_leaves_no_key (manager_sealer 2 mgr)
    (manager_level_law residue mgr (λ _, u) (λ _, root_spec) (λ _, root_spec) mgr_sealers act (w_vault w_3) 2)
    rpc_request w_3 w_3_wf level_2_ready) as [(ctx & w1 & b & w2 & answer & w3 & H1 & H2 & H3 & _ & H4 & H5) _];
    [vm_compute; reflexivity|exact level_2_serves|].
  exists ctx, w1, b, w2, answer, w3. split_and!; [exact H1|exact H2|exact H3|exact H4|exact H5].
Defined.

(** ** A KMIP client *)

Definition uid2 : string := identifier uuid0 uuid2 "1".
Definition id2 : Kmip.keyIdentifier := Kmip.mkKeyIdentifier uuid0 uuid2 1.
Definition client : Kmip.kmip_context := Kmip.mkContext [Some uuid0] None None.

Lemma client_entitled : entitled client uid2 id2.
Proof. apply authorizeIdentifier_iff. vm_compute. reflexivity. Qed.
Lemma uid_refused : Kmip.authorizeIdentifier (Kmip.mkContext [Some uuid3] None None) uid2 = inr (ESentinel Kmip.ErrTenantMismatch).
Proof. vm_compute. reflexivity. Qed.

Lemma kmip_tenant_isolation_witness :
  Kmip.newHandler (manager_sealer 1 mgr) mgr client (Kmip.GetRequestPayload uid2) 0 w_3 =
  Kmip.route (manager_sealer 1 mgr) mgr (Kmip.withKeyIdentifier client id2) (Kmip.GetRequestPayload uid2) 0 w_3.
Proof.
  destruct (kmip_tenant_isolation (manager_sealer 1 mgr) mgr client (Kmip.GetRequestPayload uid2) uid2 0 w_3
    (or_introl eq_refl)) as [H _]. exact (H id2 client_entitled).
Defined.

Lemma kmip_errors_stay_inside_witness :
  ∃ reason, (inl Kmip.ResultReasonPermissionDenied : Kmip.ResultReason + error) = inl reason.
Proof.
  eapply (kmip_errors_stay_inside (manager_sealer 1 mgr) mgr (Kmip.mkContext [Some uuid3] None None)
    (Kmip.GetRequestPayload uid2) 0 w_3 _ 0 w_3).
  unfold Kmip.newHandler, Kmip.authorize. rewrite uid_refused. reflexivity.
Defined.

Lemma kmip_connection_leaves_no_key_witness :
  ∃ s ctx w1 w2 w3, Kmip.connectHook client w_3 = (Ok ctx, w1) ∧
    serve_gets mgr 1 ctx [uid2; uid2] 0 w1 = (Ok ([Some s; Some s], 2%Z), w2) ∧
    Kmip.terminateHook ctx w2 = (Ok (), w3) ∧ ∀ l, same_or_residue residue w_3 w3 l.
Proof.
  destruct level_2_serves as [s Hs]. exists s.
  destruct (kmip_connection_leaves_no_key residue mgr (λ _, u) (λ _, root_spec) (λ _, root_spec) mgr_sealers act (w_vault w_3) 1
    client [uid2; uid2] [s; s] 0 w_3 w_3_wf level_2_ready) as (ctx & w1 & w2 & w3 & H1 & H2 & H3 & H4).
  - repeat (constructor; [exists id2; split; [exact client_entitled|exact Hs]|]). constructor.
  - lia.
  - apply Z.ltb_lt. vm_compute. reflexivity.
  - exists ctx, w1, w2, w3. split_and!; [exact H1|exact H2|exact H3|exact H4].
Defined.
End SealingSamples.
