(* ===== verification/Worker.v ===== *)
(** * The periodic scheduler (internal/worker)

    [New], [Start], [Stop] and [canStart], with the goroutines that are inside
    [Start].  The operations that hold the mutex are atomic; between them the
    goroutines interleave freely, so an execution is a list of events:
    somebody calls [Start], a goroutine passes [canStart], the ticker fires and
    the task begins, the task returns, a goroutine sees its context done and
    returns, somebody calls [Stop], somebody cancels a parent context.  When
    the ticker has fired and the context is done, [select] may take either
    case, so a tick is possible in a done context too. *)

From S2P Require Import Prelude GoStrings GoRuntime.

Local Open Scope string_scope.

Module Worker.
Definition ErrTaskFnNil : string := "worker.ErrTaskFnNil".
Definition ErrInvalidInterval : string := "worker.ErrInvalidInterval".

(** A scheduler; [cFn] is the context its cancel function cancels. *)
Record Scheduler (TaskFn : Type) := mkScheduler {
  interval : Z;
  task : TaskFn;
  cFn : option nat;
}.
Arguments mkScheduler {_} _ _ _.
Arguments interval {_} _.
Arguments task {_} _.
Arguments cFn {_} _.

(** [New]. *)
Definition New {TaskFn} (d : Z) (t : option TaskFn) : Scheduler TaskFn + error :=
  match t with
  | None => inr (ESentinel ErrTaskFnNil)
  | Some t => if (d <=? 0)%Z then inr (ESentinel ErrInvalidInterval) else inl (mkScheduler d t None)
  end.

(** ** Contexts and goroutines *)

(** A context made by [context.WithCancel]; callers' contexts are numbered. *)
Record context := mkContext { parent : nat; cancelled : bool }.

(** Where a goroutine inside [Start] is. *)
Inductive pc :=
  | Called (ctx : nat)      (* before canStart *)
  | Waiting (nCtx : nat)    (* in the select *)
  | InTask (nCtx : nat)     (* in w.task(nCtx) *)
  | Returned.
#[export] Instance pc_eq_dec : EqDecision pc.
Proof. solve_decision. Defined.

Record state (TaskFn : Type) := mkState {
  sched : Scheduler TaskFn;
  contexts : list context;
  cancelled_parents : list nat;
  goroutines : list pc;
}.
Arguments mkState {_} _ _ _ _.
Arguments sched {_} _.
Arguments contexts {_} _.
Arguments cancelled_parents {_} _.
Arguments goroutines {_} _.

Section scheduler.
Context {TaskFn : Type}.
Implicit Types (w : Scheduler TaskFn) (s : state TaskFn).

Definition set_cFn (c : option nat) w : Scheduler TaskFn := mkScheduler (interval w) (task w) c.

(** [<-ctx.Done()] is ready. *)
Definition Done (c : nat) s : bool :=
  match contexts s !! c with
  | Some x => (cancelled x || bool_decide (parent x ∈ cancelled_parents s))%bool
  | None => false
  end.

(** [canStart]: the derived context, unless there is one. *)
Definition canStart (ctx : nat) s : option nat * state TaskFn :=
  match cFn (sched s) with
  | Some _ => (None, s)
  | None =>
      let nCtx := length (contexts s) in
      (Some nCtx, mkState (set_cFn (Some nCtx) (sched s)) (contexts s ++ [mkContext ctx false])%list
                    (cancelled_parents s) (goroutines s))
  end.

(** [w.cFn()]. *)
Definition cancel (c : nat) (l : list context) : list context :=
  alter (λ x, mkContext (parent x) true) c l.

(** [Stop]. *)
Definition Stop s : state TaskFn :=
  match cFn (sched s) with
  | Some c => mkState (set_cFn None (sched s)) (cancel c (contexts s)) (cancelled_parents s) (goroutines s)
  | None => s
  end.

Definition goto (g : nat) (p : pc) s : state TaskFn :=
  mkState (sched s) (contexts s) (cancelled_parents s) (<[g := p]> (goroutines s)).

(** ** Events *)

Inductive event :=
  | ECall (ctx : nat)      (* go w.Start(ctx) *)
  | ECanStart (g : nat)
  | ETick (g : nat)
  | ETaskDone (g : nat)
  | EReturn (g : nat)
  | EStop
  | ECancel (ctx : nat).   (* a caller cancels its context *)

(** The next state, if the event is possible. *)
Definition exec (e : event) s : option (state TaskFn) :=
  match e with
  | ECall ctx => Some (mkState (sched s) (contexts s) (cancelled_parents s) (goroutines s ++ [Called ctx])%list)
  | ECanStart g =>
      match goroutines s !! g with
      | Some (Called ctx) =>
          Some (match canStart ctx s with
                | (Some nCtx, s') => goto g (Waiting nCtx) s'
                | (None, s') => goto g Returned s'
                end)
      | _ => None
      end
  | ETick g => match goroutines s !! g with Some (Waiting c) => Some (goto g (InTask c) s) | _ => None end
  | ETaskDone g => match goroutines s !! g with Some (InTask c) => Some (goto g (Waiting c) s) | _ => None end
  | EReturn g =>
      match goroutines s !! g with
      | Some (Waiting c) => if Done c s then Some (goto g Returned s) else None
      | _ => None
      end
  | EStop => Some (Stop s)
  | ECancel ctx => Some (mkState (sched s) (contexts s) (ctx :: cancelled_parents s) (goroutines s))
  end.

Fixpoint run (es : list event) s : option (state TaskFn) :=
  match es with
  | [] => Some s
  | e :: es => s' ← exec e s; run es s'
  end.

Definition initial w : state TaskFn := mkState w [] [] [].

(** ** Invariant *)

(** Goroutine [g] runs in context [c]. *)
Definition live s (g c : nat) : Prop := goroutines s !! g = Some (Waiting c) ∨ goroutines s !! g = Some (InTask c).
Definition uncancelled s (c : nat) : Prop := ∃ p, contexts s !! c = Some (mkContext p false).

(** The scheduler's context is the only one that is not cancelled, and no two
    goroutines run in one context. *)
Record inv s : Prop := {
  inv_current : ∀ c, uncancelled s c ↔ cFn (sched s) = Some c;
  inv_bound : ∀ g c, live s g c → c < length (contexts s);
  inv_owner : ∀ g h c, live s g c → live s h c → g = h;
}.

Lemma inv_initial w : cFn w = None → inv (initial w).
Proof.
  intros Hw. split; simpl.
  - intros c. rewrite Hw. split; [|done]. by intros [p ?].
  - by intros g c [?|?].
  - by intros g h c [?|?].
Qed.

(** Goroutines only leave contexts. *)
Lemma inv_shrink s s' :
  inv s → sched s' = sched s → contexts s' = contexts s → (∀ g c, live s' g c → live s g c) → inv s'.
Proof.
  intros [Hc Hb Ho] Hs Hx Hl. split.
  - intros c. unfold uncancelled. rewrite Hx, Hs. apply Hc.
  - intros g c ?%Hl. rewrite Hx. by eapply Hb.
  - intros g h c ?%Hl ?%Hl. by eapply Ho.
Qed.

Lemma live_goto s g q h c :
  live (goto g q s) h c → live s h c ∨ (h = g ∧ (q = Waiting c ∨ q = InTask c)).
Proof.
  unfold live, goto. simpl. destruct (decide (g = h)) as [<-|Hne]; [|rewrite list_lookup_insert_ne by done; auto].
  intros H. right. split; [done|].
  destruct (decide (g < length (goroutines s))) as [Hlt|Hge].
  - rewrite list_lookup_insert_eq in H by done. destruct H as [[= ->]|[= ->]]; auto.
  - rewrite list_insert_ge, lookup_ge_None_2 in H by lia. by destruct H.
Qed.

Lemma inv_goto s g c q :
  inv s → live s g c → (q = Waiting c ∨ q = InTask c ∨ q = Returned) → inv (goto g q s).
Proof.
  intros Hi Hg Hq. eapply inv_shrink; [exact Hi|done..|].
  intros h c' [Hl|(-> & Hq')]%live_goto; [done|]. destruct Hq as [->|[->| ->]], Hq' as [[=]|[=]]; by subst.
Qed.

Lemma uncancelled_cancel s c0 c w ps gs :
  uncancelled (mkState w (cancel c0 (contexts s)) ps gs) c ↔ uncancelled s c ∧ c ≠ c0.
Proof.
  unfold uncancelled, cancel. simpl. destruct (decide (c = c0)) as [->|Hne].
  - rewrite list_lookup_alter_eq. split; [|by intros [_ []]]. intros [p Hp]. by destruct (contexts s !! c0).
  - rewrite list_lookup_alter_ne by done. naive_solver.
Qed.

Lemma inv_Stop s : inv s → inv (Stop s).
Proof.
  intros Hi. unfold Stop. destruct (cFn (sched s)) as [c0|] eqn:Hc0; [|done]. split.
  - intros c. rewrite uncancelled_cancel, (inv_current _ Hi), Hc0. simpl. naive_solver.
  - intros g c Hl. unfold cancel. simpl. rewrite length_alter. by eapply (inv_bound _ Hi).
  - intros g h c. apply (inv_owner _ Hi).
Qed.

(** [canStart] and what [Start] does with its answer. *)
Lemma inv_canStart s g ctx s' :
  inv s → goroutines s !! g = Some (Called ctx) → exec (ECanStart g) s = Some s' → inv s'.
Proof.
  intros Hi Hg. simpl. rewrite Hg. intros [= <-]. unfold canStart. destruct (cFn (sched s)) as [c0|] eqn:Hc0.
  { eapply inv_shrink; [exact Hi|done..|]. intros h c [Hl|(-> & [[=]|[=]])]%live_goto. exact Hl. }
  set (n := length (contexts s)). set (s1 := mkState _ _ _ _).
  assert (∀ h c, live s1 h c ↔ live s h c) as Hl1 by done.
  assert (∀ h c, live (goto g (Waiting n) s1) h c → live s h c ∨ (h = g ∧ c = n)) as Hl.
  { intros h c [Hl|(-> & [[= <-]|[=]])]%live_goto; auto. }
  assert (¬ ∃ h, live s h n) as Hno by (intros [h Hh]; pose proof (inv_bound _ Hi _ _ Hh); lia).
  split.
  - intros c. simpl. unfold uncancelled. simpl. destruct (decide (c = n)) as [->|Hne].
    { split; [done|]. intros _. exists ctx. rewrite lookup_app_r, Nat.sub_diag by done. done. }
    split; [|naive_solver]. intros [p Hp]. exfalso.
    apply lookup_app_Some in Hp as [Hp|[Hge Hp]]; [|apply list_lookup_singleton_Some in Hp as [? _]; lia].
    assert (cFn (sched s) = Some c) as H by (apply (inv_current _ Hi); by exists p). congruence.
  - intros h c [Hh%(inv_bound _ Hi)|(-> & ->)]%Hl; simpl; rewrite length_app; simpl; lia.
  - intros h k c [H1|(-> & ->)]%Hl [H2|(-> & H2)]%Hl; subst; try done; [by eapply (inv_owner _ Hi)| |];
      exfalso; apply Hno; by eexists.
Qed.

Lemma inv_exec e s s' : inv s → exec e s = Some s' → inv s'.
Proof.
  intros Hi. destruct e as [ctx|g|g|g|g| |ctx]; simpl.
  - intros [= <-]. eapply inv_shrink; [exact Hi|done..|]. unfold live. simpl.
    intros g c [H|H]; apply lookup_app_Some in H as [H|[_ H]]; auto; by apply list_lookup_singleton_Some in H as [_ [=]].
  - intros H. destruct (goroutines s !! g) as [[ctx| | |]|] eqn:Hg; try done. eapply inv_canStart; [done|exact Hg|].
    simpl. by rewrite Hg.
  - destruct (goroutines s !! g) as [[|c| |]|] eqn:Hg; try done. intros [= <-]. eapply inv_goto; [done|by left|auto].
  - destruct (goroutines s !! g) as [[| |c|]|] eqn:Hg; try done. intros [= <-]. eapply inv_goto; [done|by right|auto].
  - destruct (goroutines s !! g) as [[|c| |]|] eqn:Hg; try done. destruct (Done c s); [|done].
    intros [= <-]. eapply inv_goto; [done|by left|auto].
  - intros [= <-]. by apply inv_Stop.
  - intros [= <-]. by eapply inv_shrink.
Qed.

Lemma run_inv es : ∀ s s', inv s → run es s = Some s' → inv s'.
Proof.
  induction es as [|e es IH]; intros s s' Hi H; simpl in H; [by simplify_eq|].
  destruct (exec e s) as [s1|] eqn:He; [|done]. simpl in H. eapply IH; [|exact H]. by eapply inv_exec.
Qed.

(** Without [Stop] no context of the scheduler is cancelled. *)
Definition none_cancelled s : Prop := ∀ c x, contexts s !! c = Some x → cancelled x = false.

Lemma exec_none_cancelled e s s' : e ≠ EStop → none_cancelled s → exec e s = Some s' → none_cancelled s'.
Proof.
  intros He Hn. destruct e as [ctx|g|g|g|g| |ctx]; simpl; [..|done|].
  1,6: by intros [= <-].
  - destruct (goroutines s !! g) as [[ctx| | |]|]; try done. intros [= <-]. unfold canStart.
    destruct (cFn (sched s)); [exact Hn|]. intros c x [H|[_ H]]%lookup_app_Some; [by eapply Hn|].
    by apply list_lookup_singleton_Some in H as [_ <-].
  - destruct (goroutines s !! g) as [[|c| |]|]; try done. by intros [= <-].
  - destruct (goroutines s !! g) as [[| |c|]|]; try done. by intros [= <-].
  - destruct (goroutines s !! g) as [[|c| |]|]; try done. destruct (Done c s); [|done]. by intros [= <-].
Qed.

Lemma run_none_cancelled es : ∀ s s', EStop ∉ es → none_cancelled s → run es s = Some s' → none_cancelled s'.
Proof.
  induction es as [|e es IH]; intros s s' Hes Hn H; simpl in H; [by simplify_eq|].
  apply not_elem_of_cons in Hes as [He Hes]. destruct (exec e s) as [s1|] eqn:E; [|done]. simpl in H.
  eapply IH; [done| |exact H]. by eapply exec_none_cancelled; [|exact Hn|].
Qed.

Lemma live_uncancelled s g c : inv s → none_cancelled s → live s g c → uncancelled s c.
Proof.
  intros Hi Hn Hl. destruct (lookup_lt_is_Some_2 (contexts s) _ (inv_bound _ Hi _ _ Hl)) as [[p b] Hp].
  exists p. rewrite Hp. by rewrite (Hn _ _ Hp : b = false).
Qed.

(** A context that is done stays done. *)
Lemma Done_stable e s s' c : exec e s = Some s' → Done c s = true → Done c s' = true.
Proof.
  assert (∀ s1 s2, contexts s2 = contexts s1 → cancelled_parents s2 = cancelled_parents s1 → Done c s1 = true → Done c s2 = true) as Heq.
  { intros s1 s2 H1 H2. unfold Done. by rewrite H1, H2. }
  destruct e as [ctx|g|g|g|g| |ctx]; simpl.
  - intros [= <-]. by apply Heq.
  - destruct (goroutines s !! g) as [[ctx| | |]|]; try done. intros [= <-]. unfold canStart.
    destruct (cFn (sched s)); [by apply Heq|]. unfold Done. simpl. intros H. destruct (contexts s !! c) as [x|] eqn:Hx; [|done].
    by rewrite (lookup_app_l_Some _ _ _ _ Hx).
  - destruct (goroutines s !! g) as [[|c'| |]|]; try done. intros [= <-]. by apply Heq.
  - destruct (goroutines s !! g) as [[| |c'|]|]; try done. intros [= <-]. by apply Heq.
  - destruct (goroutines s !! g) as [[|c'| |]|]; try done. destruct (Done c' s); [|done]. intros [= <-]. by apply Heq.
  - intros [= <-]. unfold Stop. destruct (cFn (sched s)) as [c0|]; [|done]. unfold Done, cancel. simpl.
    destruct (decide (c = c0)) as [->|Hne]; [rewrite list_lookup_alter_eq|by rewrite list_lookup_alter_ne].
    by destruct (contexts s !! c0).
  - intros [= <-]. unfold Done. simpl. destruct (contexts s !! c) as [x|]; [|done].
    rewrite !orb_true_iff, !bool_decide_eq_true. intros [?|?]; [by left|right; by right].
Qed.

Lemma run_Done es : ∀ s s' c, run es s = Some s' → Done c s = true → Done c s' = true.
Proof.
  induction es as [|e es IH]; intros s s' c H Hd; simpl in H; [by simplify_eq|].
  destruct (exec e s) as [s1|] eqn:E; [|done]. simpl in H. eapply IH; [exact H|]. by eapply Done_stable.
Qed.

(** While the scheduler holds a context and nobody calls [Stop], it keeps it and
    no goroutine enters the loop. *)
Lemma exec_started e s s' c :
  e ≠ EStop → cFn (sched s) = Some c → exec e s = Some s' →
  cFn (sched s') = Some c ∧ ∀ g c', live s' g c' → live s g c'.
Proof.
  intros He Hc. assert (∀ g q c0, live s g c0 → (q = Waiting c0 ∨ q = InTask c0 ∨ q = Returned) →
    ∀ h c', live (goto g q s) h c' → live s h c') as Hgoto.
  { intros g q c0 Hg Hq h c' [?|(-> & Hq')]%live_goto; [done|]. destruct Hq as [->|[->| ->]], Hq' as [[=]|[=]]; by subst. }
  destruct e as [ctx|g|g|g|g| |ctx]; simpl; [..|done|by intros [= <-]].
  - intros [= <-]. split; [done|]. unfold live. simpl.
    intros g c' [H|H]; apply lookup_app_Some in H as [H|[_ H]]; auto; by apply list_lookup_singleton_Some in H as [_ [=]].
  - destruct (goroutines s !! g) as [[ctx| | |]|]; try done. intros [= <-]. unfold canStart. rewrite Hc. split; [done|].
    intros h c' [?|(-> & [[=]|[=]])]%live_goto. done.
  - destruct (goroutines s !! g) as [[|c0| |]|] eqn:Hg; try done. intros [= <-]. split; [done|]. eapply Hgoto; [by left|auto].
  - destruct (goroutines s !! g) as [[| |c0|]|] eqn:Hg; try done. intros [= <-]. split; [done|]. eapply Hgoto; [by right|auto].
  - destruct (goroutines s !! g) as [[|c0| |]|] eqn:Hg; try done. destruct (Done c0 s); [|done]. intros [= <-].
    split; [done|]. eapply Hgoto; [by left|auto].
Qed.

(** ** Properties *)

(** C35: the scheduler has one run at a time.  After any interleaving of calls of
    [Start] and [Stop], ticks, task returns and cancellations: two goroutines
    whose contexts are not cancelled are the same one; if [Stop] was never
    called two goroutines in the loop are the same one, so tasks never overlap;
    a call of [Start] while the scheduler holds a context returns and changes
    nothing; and after [Stop] every goroutine in the loop has its context done. *)
Theorem scheduler_runs_once d t w es s :
  New d (Some t) = inl w → run es (initial w) = Some s →
  (∀ g h c c', live s g c → live s h c' → uncancelled s c → uncancelled s c' → g = h) ∧
  (EStop ∉ es → ∀ g h c c', live s g c → live s h c' → g = h) ∧
  (∀ g ctx, cFn (sched s) ≠ None → goroutines s !! g = Some (Called ctx) → exec (ECanStart g) s = Some (goto g Returned s)) ∧
  (∀ g c, live (Stop s) g c → Done c (Stop s) = true).
Proof.
  intros Hw Hrun. assert (cFn w = None) as H0 by (unfold New in Hw; case_match; by simplify_eq).
  pose proof (run_inv _ _ _ (inv_initial w H0) Hrun) as Hi.
  assert (∀ g h c c', live s g c → live s h c' → uncancelled s c → uncancelled s c' → g = h) as Hone.
  { intros g h c c' Hg Hh Hc%(inv_current _ Hi) Hc'%(inv_current _ Hi). assert (c' = c) as -> by congruence.
    by eapply (inv_owner _ Hi). }
  split_and!; [done|..].
  - intros Hes g h c c' Hg Hh. pose proof (run_none_cancelled _ (initial w) _ Hes ltac:(done) Hrun) as Hn.
    by eapply Hone; [exact Hg|exact Hh|eapply live_uncancelled..].
  - intros g ctx Hc Hg. simpl. rewrite Hg. unfold canStart. by destruct (cFn (sched s)).
  - intros g c Hl. pose proof (inv_Stop _ Hi) as Hi'.
    destruct (lookup_lt_is_Some_2 (contexts (Stop s)) _ (inv_bound _ Hi' _ _ Hl)) as [[p b] Hp].
    unfold Done. rewrite Hp. destruct b; [done|]. exfalso.
    assert (cFn (sched (Stop s)) = Some c) as Hc by (apply (inv_current _ Hi'); by exists p).
    unfold Stop in Hc. by destruct (cFn (sched s)) eqn:E; simpl in Hc; congruence.
Qed.

(** A run ends when its context is done, by [Stop] or by the caller.  The
    context stays done whatever happens meanwhile, and from every later state
    in which the goroutine is still in the loop it returns after at most the
    end of its current task. *)
Theorem scheduler_run_ends s g c es s' :
  Done c s = true → run es s = Some s' → live s' g c →
  ∃ es' s'', (length es' ≤ 2)%nat ∧ run es' s' = Some s'' ∧ goroutines s'' !! g = Some Returned.
Proof.
  intros Hd Hrun Hl. pose proof (run_Done _ _ _ _ Hrun Hd) as Hd'.
  assert (∀ s1, goroutines s1 !! g = Some (Waiting c) → Done c s1 = true →
    exec (EReturn g) s1 = Some (goto g Returned s1) ∧ goroutines (goto g Returned s1) !! g = Some Returned) as Hret.
  { intros s1 H1 H2. simpl. rewrite H1, H2. split; [done|]. apply list_lookup_insert_eq. by eapply lookup_lt_Some. }
  destruct Hl as [Hl|Hl].
  - destruct (Hret s' Hl Hd') as [H1 H2]. exists [EReturn g], (goto g Returned s'). simpl in *. rewrite H1. split_and!; [lia|done|done].
  - assert (exec (ETaskDone g) s' = Some (goto g (Waiting c) s')) as Ht by (simpl; by rewrite Hl).
    destruct (Hret (goto g (Waiting c) s')) as [H1 H2]; [apply list_lookup_insert_eq; by eapply lookup_lt_Some|done|].
    exists [ETaskDone g; EReturn g], (goto g Returned (goto g (Waiting c) s')). cbn [run]. rewrite Ht. cbn [mbind option_bind].
    rewrite H1. split_and!; [simpl; lia|done|done].
Qed.

(** A run that ended because the caller's context was cancelled blocks the
    scheduler until [Stop]: while the scheduler holds its context and nobody
    calls [Stop], no further [Start] enters the loop, whatever contexts it is
    given; so when no goroutine is left in the loop, the task is never called
    again. *)
Theorem scheduler_waits_for_Stop es s s' c :
  cFn (sched s) = Some c → EStop ∉ es → run es s = Some s' →
  cFn (sched s') = Some c ∧ ∀ g c', live s' g c' → live s g c'.
Proof.
  revert s. induction es as [|e es IH]; intros s Hc Hes Hrun; simpl in Hrun; [by simplify_eq|].
  apply not_elem_of_cons in Hes as [He Hes]. destruct (exec e s) as [s1|] eqn:E; [|done]. simpl in Hrun.
  destruct (exec_started e s s1 c) as [Hc1 Hl1]; [congruence|done..|].
  destruct (IH s1 Hc1 Hes Hrun) as [Hc' Hl]. split; [done|]. intros g c' Hg. by apply Hl1, Hl.
Qed.
End scheduler.

(** ** Executions *)

Definition beat : Scheduler () := mkScheduler 1000 () None.
Definition at_end (es : list event) : state () := default (initial beat) (run es (initial beat)).

(** Two tasks at once: [Stop] does not wait for the task, and [Start] may follow. *)
Example tasks_overlap_after_Stop :
  goroutines (at_end [ECall 0; ECanStart 0; ETick 0; EStop; ECall 0; ECanStart 1; ETick 1]) = [InTask 0; InTask 1].
Proof. reflexivity. Qed.

Definition first_run : list event := [ECall 0; ECanStart 0; ETick 0].
Lemma scheduler_runs_once_witness :
  goroutines (at_end first_run) = [InTask 0] ∧
  ∀ g h c c', live (at_end first_run) g c → live (at_end first_run) h c' → g = h.
Proof.
  split; [reflexivity|].
  destruct (scheduler_runs_once 1000 () beat first_run (at_end first_run)) as (_ & H & _); [reflexivity|reflexivity|].
  apply H. unfold first_run. rewrite !not_elem_of_cons. split_and!; [discriminate..|apply not_elem_of_nil].
Defined.

Definition stopped : list event := [ECall 0; ECanStart 0; ETick 0; ECancel 0].
Lemma scheduler_run_ends_witness :
  ∃ es' s'', (length es' ≤ 2)%nat ∧ run es' (at_end stopped) = Some s'' ∧ goroutines s'' !! 0 = Some Returned.
Proof. apply (scheduler_run_ends (at_end stopped) 0 0 []); [reflexivity|reflexivity|right; reflexivity]. Defined.

Definition ended : list event := [ECall 0; ECanStart 0; ECancel 0; EReturn 0].
Definition again : list event := [ECall 1; ECanStart 1].
Lemma scheduler_waits_for_Stop_witness :
  goroutines (at_end (ended ++ again)%list) = [Returned; Returned] ∧ ∀ g c, ¬ live (at_end (ended ++ again)%list) g c.
Proof.
  split; [reflexivity|]. intros g c Hl.
  destruct (scheduler_waits_for_Stop again (at_end ended) (at_end (ended ++ again)%list) 0 eq_refl) as [_ H];
    [unfold again; rewrite !not_elem_of_cons; split_and!; [discriminate..|apply not_elem_of_nil]|reflexivity|].
  apply H in Hl as [H1|H1]; destruct g as [|[|]]; discriminate H1.
Defined.
End Worker.
