(* ===== verification/Actions.v ===== *)
(** * Actions (pkg/api/v1/proto/admin/actions, cli/cmd/action.go)

    The service that shows a job group of the scheduler (orbital) as an action,
    and what the command line client makes of the action: the reading of the
    target identifier and the choice of the calls for [--target-info].  The job
    groups live in orbital's store, a parameter of [GetAction]. *)

From S2P Require Import Prelude GoStrings GoRuntime Model World Lifecycle Providers Hierarchy.
From S2P Require Import Config Sql KeyStore KeyVersionStore StoreInvariant StoreTheorems Validator.
From S2P Require Import KeyOperator Orchestrator KeyAction KeyActionTheorems TaskTheorems AdminKeys.
From Stdlib Require Import Ascii.

Local Open Scope string_scope.

Module Actions.

(** ** Messages *)

Inductive ActionType := ACTION_TYPE_UNSPECIFIED | ANNOUNCE_KEY | ACTIVATE_KEY.
Inductive TargetType := TARGET_TYPE_UNSPECIFIED | TARGET_TYPE_TENANT | TARGET_TYPE_KEY | TARGET_TYPE_KEY_VERSION.
#[export] Instance ActionType_eq_dec : EqDecision ActionType.
Proof. solve_decision. Defined.
#[export] Instance TargetType_eq_dec : EqDecision TargetType.
Proof. solve_decision. Defined.

(** [TargetType(TargetType_value[s])]: 0 for a name that is not there. *)
Definition TargetType_value (s : string) : TargetType :=
  if String.eqb s "TARGET_TYPE_TENANT" then TARGET_TYPE_TENANT
  else if String.eqb s "TARGET_TYPE_KEY" then TARGET_TYPE_KEY
  else if String.eqb s "TARGET_TYPE_KEY_VERSION" then TARGET_TYPE_KEY_VERSION
  else TARGET_TYPE_UNSPECIFIED.

(** What the service reads of an [orbital.JobGroup] in the store. *)
Record StoredGroup := mkStoredGroup {
  sg_ID : string;
  sg_Type : string;
  sg_Status : string;
  sg_Labels : gmap string string;
  sg_CreatedAt : Z;
  sg_UpdatedAt : Z;
}.

Record Action := mkAction {
  a_Id : string;
  a_Type : ActionType;
  a_Status : string;
  a_TargetType : TargetType;
  a_TargetId : string;
  a_Cascading : bool;
  a_CreatedAt : Z;
  a_UpdatedAt : Z;
}.

(** ** The service (service.go) *)

Definition actionTypeByJobGroupType (t : string) : option ActionType :=
  if String.eqb t AnnounceKey_type then Some ANNOUNCE_KEY else None.

(** [strconv.ParseBool]. *)
Definition ParseBool (s : string) : option bool :=
  if bool_decide (s ∈ ["1"; "t"; "T"; "true"; "TRUE"; "True"]) then Some true
  else if bool_decide (s ∈ ["0"; "f"; "F"; "false"; "FALSE"; "False"]) then Some false
  else None.

(** [labels[k]]. *)
Definition label (labels : gmap string string) (k : string) : string := default "" (labels !! k).

Definition cascadingFromLabels (labels : gmap string string) : bool :=
  match ParseBool (label labels LabelKeyCascading) with Some b => b | None => false end.

Definition jobGroupToAction (jg : StoredGroup) : Action + error :=
  match actionTypeByJobGroupType (sg_Type jg) with
  | None => inr (EForeign "unknown job group type")
  | Some t =>
      inl (mkAction (sg_ID jg) t (sg_Status jg) (TargetType_value (label (sg_Labels jg) LabelKeyTargetType))
             (label (sg_Labels jg) LabelKeyTargetID) (cascadingFromLabels (sg_Labels jg))
             (sg_CreatedAt jg) (sg_UpdatedAt jg))
  end.

Section service.
Context (GetJobGroup : string → option StoredGroup + error).

Definition GetAction (id : string) : Action + error :=
  match uuid_parse id with
  | None => inr (ErrDetailsWithCode InvalidArgument ERROR_CODE_ABORT)
  | Some id =>
      match GetJobGroup id with
      | inr _ => inr (ErrDetailsWithCode Internal ERROR_CODE_RETRY)
      | inl None => inr (ErrDetailsWithCode NotFound ERROR_CODE_ABORT)
      | inl (Some group) =>
          match jobGroupToAction group with
          | inr _ => inr (ErrDetailsWithCode NotFound ERROR_CODE_ABORT)
          | inl action => inl action
          end
      end
  end.
End service.

(** ** The client (cli/cmd/action.go) *)

Definition actionTypeLabel (t : ActionType) : string :=
  match t with
  | ANNOUNCE_KEY => "announce-key"
  | ACTIVATE_KEY => "activate-key"
  | ACTION_TYPE_UNSPECIFIED => "ACTION_TYPE_UNSPECIFIED"
  end.

Record actionView := mkActionView {
  av_Type : string;
  av_Cascading : bool;
  av_Status : string;
  av_TargetID : string;
  av_ActionID : string;
  av_CreatedAt : Z;
  av_UpdatedAt : Z;
}.
Definition buildActionView (a : Action) : actionView :=
  mkActionView (actionTypeLabel (a_Type a)) (a_Cascading a) (a_Status a) (a_TargetId a) (a_Id a)
    (a_CreatedAt a) (a_UpdatedAt a).

(** [parseTargetID]: the loop over the names. *)
Fixpoint parse_parts (out : gmap string string) (names parts : list string) : gmap string string + error :=
  match names, parts with
  | name :: names, part :: parts =>
      if String.eqb part "" then inr (EForeign "invalid target_id") else parse_parts (<[name := part]> out) names parts
  | _, _ => inl out
  end.
Definition parseTargetID (id : string) (names : list string) : gmap string string + error :=
  let parts := split ":"%char id in
  if negb (length parts =? length names)%nat then inr (EForeign "invalid target_id") else parse_parts ∅ names parts.

(** [getTargetInfo]: the call it makes on the key service. *)
Inductive target_call := CallGetKey (tenant key : string) | CallGetDescendantKeys (tenant key : string).
Definition getTargetInfo (a : Action) : target_call + error :=
  match a_TargetType a with
  | TARGET_TYPE_KEY =>
      match parseTargetID (a_TargetId a) ["tenant"; "key"] with
      | inr e => inr e
      | inl id =>
          let tenant := label id "tenant" in
          let key := label id "key" in
          if a_Cascading a then inl (CallGetDescendantKeys tenant key) else inl (CallGetKey tenant key)
      end
  | _ => inr (EForeign "target-info not supported")
  end.

(** ** Properties *)

Lemma parse_pair t k :
  t ≠ "" → k ≠ "" → ":"%char ∉ chars t → ":"%char ∉ chars k →
  parseTargetID (t +:+ ":" +:+ k) ["tenant"; "key"] = inl {["tenant" := t; "key" := k]}.
Proof.
  intros Ht Hk Hct Hck. unfold parseTargetID.
  change (":" +:+ k) with (String ":"%char k). rewrite (split_app_sep _ _ _ Hct), (split_no_sep _ _ Hck). simpl.
  rewrite (proj2 (String.eqb_neq _ _) Ht), (proj2 (String.eqb_neq _ _) Hk). done.
Qed.

(** An identifier a [uuid] column takes is not empty and has no colon. *)
Lemma scan_no_colon t : ∀ l ds, scan t l = Some ds → ":"%char ∉ l.
Proof.
  induction t as [|[] t IH]; intros l ds; destruct l as [|c l]; simpl; try done; try by (intros; apply not_elem_of_nil).
  - intros (d & Hd & (ds' & Hds & _)%bind_Some)%bind_Some. rewrite not_elem_of_cons. split; [by intros <-|by eapply IH].
  - destruct (Ascii.eqb_spec c "-"%char) as [->|]; [|done]. intros H. rewrite not_elem_of_cons. split; [done|by eapply IH].
Qed.

#[local] Opaque uuid_template.

Lemma uuid_column_plain s : is_Some (uuid_column s) → s ≠ "" ∧ ":"%char ∉ chars s.
Proof.
  intros [u H]. split; [by intros ->|]. unfold uuid_column in H. destruct (has_prefix s "urn:uuid:") eqn:Hp; [done|].
  unfold uuid_parse in H. apply bind_Some in H as (ds & H & _). unfold uuid_digits in H.
  destruct (decide (length (chars s) = 38)) as [H38|H38].
  - rewrite H38 in H. destruct (chars s) as [|c l] eqn:Hs; [done|]. simpl in H38.
    destruct (Ascii.eqb_spec c "{"%char) as [->|]; [|done]. cbn [andb] in H.
    destruct (bool_decide_reflect (last l = Some "}"%char)) as [Hl|]; [|done].
    apply last_Some in Hl as [l' ->]. rewrite length_app in H38. simpl in H38.
    rewrite take_app_length' in H by lia. apply scan_no_colon in H. rewrite not_elem_of_cons, not_elem_of_app.
    split_and!; [done|done|]. by rewrite list_elem_of_singleton.
  - repeat split_match_in H; try done; try (by eapply scan_no_colon); [].
    apply bind_Some in H as (r & Hr & _). rewrite unchars_chars in Hr. unfold has_prefix in Hp. by rewrite Hr in Hp.
Qed.

(** The action of an announcement leads back to the key.  Whatever else the
    scheduler stores with the group that [AnnounceKey] prepares, [GetAction] of
    its identifier answers with an announce-key action on a key, not cascading,
    and the client reads the tenant and the key back from the target. *)
Theorem announced_action_roundtrip GetJobGroup key data g id u :
  is_Some (uuid_column (k_TenantID key)) → is_Some (uuid_column (k_ID key)) →
  uuid_parse id = Some u → GetJobGroup u = inl (Some g) →
  sg_Type g = jg_Type (announceJobGroup key data) → sg_Labels g = jg_Labels (announceJobGroup key data) →
  ∃ a, GetAction GetJobGroup id = inl a ∧ a_Type a = ANNOUNCE_KEY ∧ a_TargetType a = TARGET_TYPE_KEY ∧
    a_Cascading a = false ∧ a_Status a = sg_Status g ∧
    av_Type (buildActionView a) = AnnounceKey_type ∧
    getTargetInfo a = inl (CallGetKey (k_TenantID key) (k_ID key)).
Proof.
  intros [Ht Hct]%uuid_column_plain [Hk Hck]%uuid_column_plain Hid Hg Htype Hlabels.
  unfold GetAction, jobGroupToAction. rewrite Hid, Hg, Htype, Hlabels. eexists. split; [reflexivity|].
  split_and!; [done..|]. unfold getTargetInfo. cbn [a_TargetType a_TargetId a_Cascading].
  change (TargetType_value _) with TARGET_TYPE_KEY. change (cascadingFromLabels _) with false.
  change (label (jg_Labels (announceJobGroup key data)) LabelKeyTargetID) with (k_TenantID key +:+ ":" +:+ k_ID key).
  by rewrite parse_pair.
Qed.

(** [GetAction] is decided by the identifier, the store and the type of the
    group: an invalid identifier is an invalid argument, an error of the store
    asks for a retry, and everything else that is not an announcement is not
    found; in particular the groups of the actions [ActivateKey], [SuspendKey]
    and [DeactivateKey], whose identifiers these calls return. *)
Theorem getAction_errors GetJobGroup id :
  (uuid_parse id = None → GetAction GetJobGroup id = inr (ErrDetailsWithCode InvalidArgument ERROR_CODE_ABORT)) ∧
  ∀ u, uuid_parse id = Some u →
    (∀ e, GetJobGroup u = inr e → GetAction GetJobGroup id = inr (ErrDetailsWithCode Internal ERROR_CODE_RETRY)) ∧
    (GetJobGroup u = inl None → GetAction GetJobGroup id = inr (ErrDetailsWithCode NotFound ERROR_CODE_ABORT)) ∧
    (∀ g, GetJobGroup u = inl (Some g) →
       ((∃ a, GetAction GetJobGroup id = inl a) ↔ sg_Type g = hc_handlerType AnnounceHandlerConfig) ∧
       (hc_handlerType ActivateHandlerConfig = sg_Type g ∨ hc_handlerType SuspendHandlerConfig = sg_Type g ∨
        hc_handlerType DeactivateHandlerConfig = sg_Type g →
        GetAction GetJobGroup id = inr (ErrDetailsWithCode NotFound ERROR_CODE_ABORT))).
Proof.
  unfold GetAction. split; [by intros ->|]. intros u ->. split_and!; [by intros e ->|by intros ->|].
  intros g ->. unfold jobGroupToAction, actionTypeByJobGroupType.
  destruct (String.eqb_spec (sg_Type g) AnnounceKey_type) as [Ht|Hne].
  - split; [split; [done|by eexists]|]. rewrite Ht. by intros [[=]|[[=]|[=]]].
  - split; [|done]. split; [by intros [a [=]]|]. intros Ht. by destruct Hne.
Qed.

(** ** An announcement *)

Definition uuid_a : string := "00000000-0000-4000-8000-00000000000a".
Definition uuid_b : string := "00000000-0000-4000-8000-00000000000b".
Definition new_key : Key := mkKey uuid_a "k" uuid_b "K0" None "root" ∅ KeyLifeCyclePreActivation (mkKeyProcessingState KeyProcessingPending "") 0 0.
Definition stored : StoredGroup :=
  mkStoredGroup uuid_a AnnounceKey_type "CREATED" (jg_Labels (announceJobGroup new_key "{}")) 1 1.
Lemma announced_action_roundtrip_witness :
  ∃ a, GetAction (λ _, inl (Some stored)) uuid_a = inl a ∧ getTargetInfo a = inl (CallGetKey uuid_b uuid_a).
Proof.
  destruct (announced_action_roundtrip (λ _, inl (Some stored)) new_key "{}" stored uuid_a uuid_a)
    as (a & H1 & _ & _ & _ & _ & _ & H2);
    [vm_compute; by eexists|vm_compute; by eexists|vm_compute; reflexivity|reflexivity|reflexivity|reflexivity|].
  exists a. split; [exact H1|exact H2].
Defined.
End Actions.
