(* ===== verification/Wiring.v ===== *)
(** * Orchestrator wiring (internal/orchestrator, cmd/root/main.go)

    The orchestrator registers handlers by type and routes the callbacks of the
    scheduler to them (builder.go, handler.go, orchestrator.go, options.go,
    jobgroup.go); main registers the handlers of a root process.  The handler
    interfaces are records of operations, as Go's interfaces are.  The scheduler
    itself (orbital: manager and embedded client) is the class [Orbital]: what
    its constructors answer, and the lookup of a job group.  Building and
    stopping an orchestrator records the calls it makes of that library. *)

From S2P Require Import Prelude GoStrings GoRuntime Model World Lifecycle Providers Hierarchy.
From S2P Require Import Config Sql KeyStore KeyVersionStore StoreInvariant StoreTheorems Validator.
From S2P Require Import KeyOperator Orchestrator KeyAction KeyActionTheorems TaskTheorems AdminKeys.

Local Open Scope string_scope.

Module Wiring.

(** ** The handler interfaces (handler.go) *)

Record OrbitalTaskResolver := mkOrbitalTaskResolver {
  JobType : string;
  tr_ConfirmJob : Job → M confirm_result;
  tr_ResolveTasks : Job → M resolver_result;
  OnJobDone : Job → M ();
  OnJobFailed : Job → M ();
  OnJobCanceled : Job → M ();
}.

Record OrbitalJobGroupHandler := mkOrbitalJobGroupHandler {
  JobGroupType : string;
  OnJobGroupDone : JobGroup → M ();
  OnJobGroupFailed : JobGroup → M ();
  OnJobGroupCanceled : JobGroup → M ();
}.

Record OrbitalTaskHandler := mkOrbitalTaskHandler {
  TaskType : string;
  th_Handle : string → M ();
}.

(** A nil handler is [None]. *)
Record OrbitalHandlers := mkOrbitalHandlers {
  TaskResolvers : list (option OrbitalTaskResolver);
  GroupHandlers : list (option OrbitalJobGroupHandler);
  TaskHandlers : list (option OrbitalTaskHandler);
}.

(** ** Registration by type (builder.go) *)

Definition ErrJobHandlerRequired : string := "orchestrator.ErrJobHandlerRequired".
Definition ErrJobHandlerNil : string := "orchestrator.ErrJobHandlerNil".
Definition ErrJobTypeEmpty : string := "orchestrator.ErrJobTypeEmpty".
Definition ErrJobHandlerDuplicate : string := "orchestrator.ErrJobHandlerDuplicate".
Definition ErrGroupHandlerNil : string := "orchestrator.ErrGroupHandlerNil".
Definition ErrGroupTypeEmpty : string := "orchestrator.ErrGroupTypeEmpty".
Definition ErrGroupHandlerDuplicate : string := "orchestrator.ErrGroupHandlerDuplicate".

Section register.
Context {H : Type} (typeOf : H → string) (errNil errEmpty errDuplicate : string).

(** The loop the three builders share. *)
Fixpoint register (handlers : list (option H)) (result : gmap string H) : gmap string H + error :=
  match handlers with
  | [] => inl result
  | None :: _ => inr (ESentinel errNil)
  | Some handler :: rest =>
      if String.eqb (typeOf handler) "" then inr (ESentinel errEmpty)
      else if bool_decide (is_Some (result !! typeOf handler))
      then inr (wrap1 (ESentinel errDuplicate))
      else register rest (<[typeOf handler := handler]> result)
  end.
End register.

Definition buildTaskResolverMap (handlers : list (option OrbitalTaskResolver)) :
    gmap string OrbitalTaskResolver + error :=
  if bool_decide (handlers = []) then inr (ESentinel ErrJobHandlerRequired)
  else register JobType ErrJobHandlerNil ErrJobTypeEmpty ErrJobHandlerDuplicate handlers ∅.

Definition buildGroupHandlerMap (handlers : list (option OrbitalJobGroupHandler)) :
    gmap string OrbitalJobGroupHandler + error :=
  register JobGroupType ErrGroupHandlerNil ErrGroupTypeEmpty ErrGroupHandlerDuplicate handlers ∅.

(** ** The scheduler's side *)

(** The fields of [orbital.Manager.Config] the options write; durations in
    nanoseconds. *)
Record OrbitalConfig := mkOrbitalConfig {
  MaxPendingReconciles : Z;
  ConfirmJobAfter : Z;
  ConfirmJobInterval : Z;
  CreateTasksInterval : Z;
  ReconcileInterval : Z;
  NotifyInterval : Z;
  NotifyJobGroupInterval : Z;
  ScheduleJobGroupInterval : Z;
}.

(** The options given to [orbital.NewManager]. *)
Inductive manager_opt :=
  | WithTargets (names : list string)
  | WithJobConfirmFunc | WithJobDoneEventFunc | WithJobFailedEventFunc | WithJobCanceledEventFunc
  | WithJobGroupDoneEventFunc | WithJobGroupFailedEventFunc | WithJobGroupCanceledEventFunc.

Class Orbital := {
  embedded_NewClient : Z → Z → goerror;      (* buffer size, handler timeout *)
  embedded_Close : goerror;
  orbital_NewManager : list manager_opt → OrbitalConfig + error;
  manager_Start : goerror;
  manager_Stop : goerror;
  manager_GetJobGroup : string → M (option JobGroup);
  manager_GetJobGroup_outbound : ∀ id, outbound (manager_GetJobGroup id);
}.

(** The calls made of the library, in order. *)
Inductive orbital_call :=
  | CallNewClient (bufferSize handlerTimeout : Z)
  | CallClose
  | CallNewManager (opts : list manager_opt)
  | CallStart
  | CallStop.

Notation O := (comp (list orbital_call)).
Definition call (c : orbital_call) : O () := modify (λ t, t ++ [c])%list.

(** ** The orchestrator (orchestrator.go, options.go) *)

Definition defaultMaxPendingReconciles : Z := 10.
Definition defaultEmbeddedHandlerTimeout : Z := 90000000000.
Definition defaultEmbeddedBufferSize : Z := 10.
Definition ErrRepositoryNil : string := "orchestrator.ErrRepositoryNil".
Definition ErrJobHandlerNotFound : string := "orchestrator.ErrJobHandlerNotFound".

(** [orbitalManager] is the configuration of the manager, once there is one. *)
Record Orchestrator := mkOrchestrator {
  orbitalManager : option OrbitalConfig;
  jobHandlers : gmap string OrbitalTaskResolver;
  groupHandlers : gmap string OrbitalJobGroupHandler;
  taskHandlers : gmap string OrbitalTaskHandler;
  embeddedBufferSize : Z;
  embeddedHandlerTimeout : Z;
  orbitalMutators : list (OrbitalConfig → OrbitalConfig);
}.

Definition Option : Type := Orchestrator → Orchestrator.

Definition set_manager (m : OrbitalConfig) (o : Orchestrator) : Orchestrator :=
  mkOrchestrator (Some m) (jobHandlers o) (groupHandlers o) (taskHandlers o) (embeddedBufferSize o)
    (embeddedHandlerTimeout o) (orbitalMutators o).
Definition add_mutator (f : OrbitalConfig → OrbitalConfig) : Option := λ o,
  mkOrchestrator (orbitalManager o) (jobHandlers o) (groupHandlers o) (taskHandlers o)
    (embeddedBufferSize o) (embeddedHandlerTimeout o) (orbitalMutators o ++ [f])%list.

Definition set_MaxPendingReconciles (n : Z) (m : OrbitalConfig) : OrbitalConfig :=
  mkOrbitalConfig n (ConfirmJobAfter m) (ConfirmJobInterval m) (CreateTasksInterval m)
    (ReconcileInterval m) (NotifyInterval m) (NotifyJobGroupInterval m) (ScheduleJobGroupInterval m).
Definition set_ConfirmJobAfter (d : Z) (m : OrbitalConfig) : OrbitalConfig :=
  mkOrbitalConfig (MaxPendingReconciles m) d (ConfirmJobInterval m) (CreateTasksInterval m)
    (ReconcileInterval m) (NotifyInterval m) (NotifyJobGroupInterval m) (ScheduleJobGroupInterval m).
Definition set_ExecInterval (d : Z) (m : OrbitalConfig) : OrbitalConfig :=
  mkOrbitalConfig (MaxPendingReconciles m) (ConfirmJobAfter m) d d d d d d.

Definition WithMaxPendingReconciles (n : Z) : Option := add_mutator (set_MaxPendingReconciles n).
Definition WithConfirmJobAfter (d : Z) : Option := add_mutator (set_ConfirmJobAfter d).
Definition WithExecInterval (d : Z) : Option := add_mutator (set_ExecInterval d).
Definition WithEmbeddedHandlerTimeout (d : Z) : Option := λ o,
  mkOrchestrator (orbitalManager o) (jobHandlers o) (groupHandlers o) (taskHandlers o)
    (embeddedBufferSize o) d (orbitalMutators o).
Definition WithEmbeddedBufferSize (size : Z) : Option := λ o,
  mkOrchestrator (orbitalManager o) (jobHandlers o) (groupHandlers o) (taskHandlers o)
    size (embeddedHandlerTimeout o) (orbitalMutators o).

(** [x, err := build(...); if err != nil { return nil, err }]. *)
Definition built {A} (r : A + error) : O A := match r with inl a => mret a | inr e => throw e end.

(** [errors.Join(err, other)] for an [err] that is not nil. *)
Definition joined (err : error) (other : goerror) : error := EWrap (err :: option_list other).

Section orchestrator.
Context {ORB : Orbital}.

Definition NewClient (bufferSize timeout : Z) : O () :=
  _ ← call (CallNewClient bufferSize timeout);
  check (embedded_NewClient bufferSize timeout).
Definition Close : O goerror := _ ← call CallClose; mret embedded_Close.
Definition NewManager (opts : list manager_opt) : O OrbitalConfig :=
  _ ← call (CallNewManager opts); built (orbital_NewManager opts).

Definition manager_opts (groupHandlers : gmap string OrbitalJobGroupHandler) : list manager_opt :=
  [WithTargets [DefaultLocalTargetName]; WithJobConfirmFunc; WithJobDoneEventFunc;
   WithJobFailedEventFunc; WithJobCanceledEventFunc] ++
  (if (0 <? size groupHandlers)%nat
   then [WithJobGroupDoneEventFunc; WithJobGroupFailedEventFunc; WithJobGroupCanceledEventFunc]
   else []).

(** [New]; [repo] says whether a repository was given. *)
Definition New (repo : bool) (handlers : OrbitalHandlers) (opts : list Option) : O Orchestrator :=
  if negb repo then throw (ESentinel ErrRepositoryNil)
  else
    taskResolver ← built (buildTaskResolverMap (TaskResolvers handlers));
    groupHandlers ← built (buildGroupHandlerMap (GroupHandlers handlers));
    taskHandlers ← built (buildTaskHandlerMap TaskType (TaskHandlers handlers));
    let o := foldl (λ o opt, opt o)
               (mkOrchestrator None taskResolver groupHandlers taskHandlers
                  defaultEmbeddedBufferSize defaultEmbeddedHandlerTimeout []) opts in
    _ ← NewClient (embeddedBufferSize o) (embeddedHandlerTimeout o);
    r ← try (NewManager (manager_opts groupHandlers));
    match r with
    | inr err =>
        closeErr ← Close;
        throw (joined err closeErr)
    | inl m =>
        mret (set_manager (foldl (λ m mutate, mutate m)
                             (set_MaxPendingReconciles defaultMaxPendingReconciles m)
                             (orbitalMutators o)) o)
    end.

Definition LocalTarget (o : Orchestrator) : string := DefaultLocalTargetName.

Definition Start (o : Orchestrator) : O () := _ ← call CallStart; check manager_Start.
Definition Stop (o : Orchestrator) : O () :=
  _ ← call CallStop;
  closeErr ← Close;
  check (errors_Join [manager_Stop; closeErr]).

(** *** Callbacks *)

Definition jobHandlerNotFoundError (jobType : string) : error := wrap1 (ESentinel ErrJobHandlerNotFound).

Definition confirmJob (o : Orchestrator) (job : Job) : M confirm_result :=
  match jobHandlers o !! j_Type job with
  | None => mret CancelJobConfirmer
  | Some handler => tr_ConfirmJob handler job
  end.

Definition resolveTasks (o : Orchestrator) (job : Job) : M resolver_result :=
  match jobHandlers o !! j_Type job with
  | None => mret CancelTaskResolver
  | Some handler => tr_ResolveTasks handler job
  end.

Definition jobDone (o : Orchestrator) (job : Job) : M () :=
  match jobHandlers o !! j_Type job with
  | Some handler => OnJobDone handler job
  | None => throw (jobHandlerNotFoundError (j_Type job))
  end.
Definition jobFailed (o : Orchestrator) (job : Job) : M () :=
  match jobHandlers o !! j_Type job with
  | Some handler => OnJobFailed handler job
  | None => throw (jobHandlerNotFoundError (j_Type job))
  end.
Definition jobCanceled (o : Orchestrator) (job : Job) : M () :=
  match jobHandlers o !! j_Type job with
  | Some handler => OnJobCanceled handler job
  | None => throw (jobHandlerNotFoundError (j_Type job))
  end.

Definition dispatchGroupEvent (o : Orchestrator) (group : JobGroup)
    (fn : OrbitalJobGroupHandler → JobGroup → M ()) : M () :=
  match groupHandlers o !! jg_Type group with
  | None => mret ()
  | Some handler =>
      found ← manager_GetJobGroup (jg_ID group);
      match found with
      | Some refetched => fn handler refetched
      | None => fn handler group
      end
  end.
Definition jobGroupDone (o : Orchestrator) (group : JobGroup) : M () :=
  dispatchGroupEvent o group OnJobGroupDone.
Definition jobGroupFailed (o : Orchestrator) (group : JobGroup) : M () :=
  dispatchGroupEvent o group OnJobGroupFailed.
Definition jobGroupCanceled (o : Orchestrator) (group : JobGroup) : M () :=
  dispatchGroupEvent o group OnJobGroupCanceled.

(** The handler of the embedded client: [buildTaskDispatch] on the registered
    handlers. *)
Definition runTask (o : Orchestrator) (task : TaskInfo) : M () :=
  buildTaskDispatch th_Handle (taskHandlers o) (ti_Type task) (ti_Data task).
End orchestrator.

(** ** The handlers of the package *)

Section handlers.
Context {ENV : Env} {MGR : KeyManager} {AGENTS : RemoteAgents} {CODEC : JobCodec}.

(** [TaskResolver] (taskresolver.go); the events only log. *)
Definition TaskResolver_JobType (h : HandlerConfig) : string := hc_handlerType h.
Definition TaskResolver_ConfirmJob (h : HandlerConfig) (job : Job) : M confirm_result := mret CompleteJobConfirmer.
Definition TaskResolver_OnJobCanceled (h : HandlerConfig) (job : Job) : M () := mret ().
Definition TaskResolver_OnJobDone (h : HandlerConfig) (job : Job) : M () := mret ().
Definition TaskResolver_OnJobFailed (h : HandlerConfig) (job : Job) : M () := mret ().
Definition NewTaskResolver (cfg : HandlerConfig) : OrbitalTaskResolver :=
  mkOrbitalTaskResolver (TaskResolver_JobType cfg) (TaskResolver_ConfirmJob cfg)
    (λ job, mret (ResolveTasks cfg job)) (TaskResolver_OnJobDone cfg) (TaskResolver_OnJobFailed cfg)
    (TaskResolver_OnJobCanceled cfg).

(** [AnnounceTaskResolver] (announce_taskresolver.go); the events only log. *)
Definition AnnounceTaskResolver_JobType : string := AnnounceKey_type.
Definition AnnounceTaskResolver_OnJobDone (job : Job) : M () := mret ().
Definition AnnounceTaskResolver_OnJobFailed (job : Job) : M () := mret ().
Definition AnnounceTaskResolver_OnJobCanceled (job : Job) : M () := mret ().
Definition NewAnnounceTaskResolver : OrbitalTaskResolver :=
  mkOrbitalTaskResolver AnnounceTaskResolver_JobType ConfirmJob (λ job, mret (AnnounceResolveTasks job))
    AnnounceTaskResolver_OnJobDone AnnounceTaskResolver_OnJobFailed AnnounceTaskResolver_OnJobCanceled.

(** [JobGroupHandler] (jobgroup.go); the events only log. *)
Definition JobGroupHandler_JobGroupType (h : HandlerConfig) : string := hc_handlerType h.
Definition JobGroupHandler_OnJobGroupDone (h : HandlerConfig) (group : JobGroup) : M () := mret ().
Definition JobGroupHandler_OnJobGroupFailed (h : HandlerConfig) (group : JobGroup) : M () := mret ().
Definition JobGroupHandler_OnJobGroupCanceled (h : HandlerConfig) (group : JobGroup) : M () := mret ().
Definition NewJobGroupHandler (cfg : HandlerConfig) : OrbitalJobGroupHandler :=
  mkOrbitalJobGroupHandler (JobGroupHandler_JobGroupType cfg) (JobGroupHandler_OnJobGroupDone cfg)
    (JobGroupHandler_OnJobGroupFailed cfg) (JobGroupHandler_OnJobGroupCanceled cfg).

(** [TaskHandler] (task.go) and [AnnounceTaskHandler] (announce_task.go). *)
Definition TaskHandler_TaskType (h : HandlerConfig) : string := hc_handlerType h.
Definition NewTaskHandler (hc : HandlerConfig) (cfg : KeyOperatorConfig) : OrbitalTaskHandler :=
  mkOrbitalTaskHandler (TaskHandler_TaskType hc) (Handle cfg hc).
Definition AnnounceTaskHandler_TaskType : string := AnnounceKey_type.
Definition NewAnnounceTaskHandler (registry : gset string) (rootName : string) : OrbitalTaskHandler :=
  mkOrbitalTaskHandler AnnounceTaskHandler_TaskType (AnnounceHandle registry rootName).

(** ** The wiring of a root process (cmd/root/main.go) *)

Section root.
Context (registry : gset string) (cfg : RootConfig).

Definition root_handlers : OrbitalHandlers :=
  mkOrbitalHandlers
    [Some NewAnnounceTaskResolver; Some (NewTaskResolver ActivateHandlerConfig)]
    [Some (NewJobGroupHandler AnnounceHandlerConfig); Some (NewJobGroupHandler ActivateHandlerConfig)]
    [Some (NewAnnounceTaskHandler registry (rc_Name cfg));
     Some (NewTaskHandler ActivateHandlerConfig (mkKeyOperatorConfig true (Some cfg) (Some registry)))].

Definition orchestratorOpts : list Option := [WithExecInterval 10000000].

Definition root_orchestrator {ORB : Orbital} : O Orchestrator := New true root_handlers orchestratorOpts.
End root.
End handlers.

(** ** Registration *)

(** What the builders accept: no nil handler, no empty type, no type twice. *)
Definition well_registered {H} (typeOf : H → string) (l : list H) (hs : list (option H)) : Prop :=
  hs = Some <$> l ∧ NoDup (typeOf <$> l) ∧ ∀ h, h ∈ l → typeOf h ≠ "".

(** The map routes each type to the handler registered for it. *)
Definition routes {H} (typeOf : H → string) (l : list H) (m : gmap string H) : Prop :=
  ∀ t h, m !! t = Some h ↔ h ∈ l ∧ typeOf h = t.

Section register_spec.
Context {H : Type} (typeOf : H → string) (errNil errEmpty errDuplicate : string).
Implicit Types (l : list H) (m : gmap string H).

Let reg := register typeOf errNil errEmpty errDuplicate.

Lemma register_inl hs : ∀ l0 m m',
  routes typeOf l0 m → NoDup (typeOf <$> l0) → (∀ h, h ∈ l0 → typeOf h ≠ "") →
  reg hs m = inl m' → ∃ l, hs = Some <$> l ∧ NoDup (typeOf <$> (l0 ++ l)%list) ∧
    (∀ h, h ∈ (l0 ++ l)%list → typeOf h ≠ "") ∧ routes typeOf (l0 ++ l)%list m'.
Proof.
  induction hs as [|[h|] hs IH]; intros l0 m m' Hr Hnd Hne; cbn [reg register]; [| |done].
  { intros [= <-]. exists []. rewrite app_nil_r. done. }
  destruct (String.eqb_spec (typeOf h) "") as [|He]; [done|].
  destruct (bool_decide_reflect (is_Some (m !! typeOf h))) as [|Hn]; [done|].
  rewrite <-eq_None_not_Some in Hn. intros Hreg.
  assert (typeOf h ∉ typeOf <$> l0) as Hfresh.
  { intros (h0 & Ht & Hin)%list_elem_of_fmap. rewrite (proj2 (Hr (typeOf h) h0)) in Hn; done. }
  destruct (IH (l0 ++ [h])%list (<[typeOf h := h]> m) m') as (l & -> & Hnd' & Hne' & Hr'); [..|exact Hreg|].
  - intros t x. rewrite elem_of_app, list_elem_of_singleton. destruct (decide (typeOf h = t)) as [<-|Hd].
    + rewrite lookup_insert_eq. split; [intros [= ->]; auto|]. intros [[Hin|Hin] Ht]; [|by rewrite Hin].
      destruct Hfresh. apply list_elem_of_fmap. eauto.
    + rewrite lookup_insert_ne by done. rewrite (Hr t x). naive_solver.
  - rewrite fmap_app. apply NoDup_app. split_and!; [done| |apply NoDup_singleton].
    intros t Ht Hs. apply list_elem_of_singleton in Hs as ->. done.
  - intros x [Hx|Hx]%elem_of_app; [auto|]. apply list_elem_of_singleton in Hx as ->. done.
  - exists (h :: l). rewrite <-app_assoc in *. done.
Qed.

Lemma register_accepts l : ∀ m,
  NoDup (typeOf <$> l) → (∀ h, h ∈ l → typeOf h ≠ "" ∧ m !! typeOf h = None) →
  ∃ m', reg (Some <$> l) m = inl m'.
Proof.
  induction l as [|h l IH]; intros m Hnd Hm; cbn [reg register fmap list_fmap]; [eauto|].
  destruct (Hm h) as [He Hn]; [left|]. rewrite (proj2 (String.eqb_neq _ _) He), Hn.
  rewrite bool_decide_false by (by intros [? ?]). cbn in Hnd. apply NoDup_cons in Hnd as [Hh Hnd].
  apply IH; [done|]. intros x Hx. destruct (Hm x) as [Hx1 Hx2]; [by right|]. split; [done|].
  rewrite lookup_insert_ne; [done|]. intros Heq. apply Hh. rewrite Heq. by apply list_elem_of_fmap_2.
Qed.

Lemma register_error hs : ∀ m e,
  reg hs m = inr e →
  e = ESentinel errNil ∨ e = ESentinel errEmpty ∨ e = wrap1 (ESentinel errDuplicate).
Proof.
  induction hs as [|[h|] hs IH]; intros m e; cbn [reg register]; [done| |intros [= <-]; auto].
  destruct (String.eqb _ _); [intros [= <-]; auto|]. destruct (bool_decide _); [intros [= <-]; auto|]. apply IH.
Qed.

(** A builder answers with the routing map, or there is nothing to route. *)
Lemma register_spec hs :
  match reg hs ∅ with
  | inl m => ∃ l, well_registered typeOf l hs ∧ routes typeOf l m
  | inr e => (¬ ∃ l, well_registered typeOf l hs) ∧
      (e = ESentinel errNil ∨ e = ESentinel errEmpty ∨ e = wrap1 (ESentinel errDuplicate))
  end.
Proof.
  destruct (reg hs ∅) as [m|e] eqn:E.
  - apply (register_inl _ []) in E as (l & -> & Hnd & Hne & Hr); [by exists l|intros t h; set_solver|constructor|set_solver].
  - split; [|by eapply register_error]. intros (l & -> & Hnd & Hne).
    destruct (register_accepts l ∅) as [m Hm]; [done| |by rewrite Hm in E].
    intros h Hh. split; [by apply Hne|done].
Qed.
End register_spec.

Lemma build_handlers_register {H} (typeOf : H → string) hs m :
  build_handlers typeOf hs m =
  register typeOf ErrTaskHandlerNil ErrTaskTypeEmpty ErrTaskHandlerDuplicate hs m.
Proof. revert m. induction hs as [|[h|] hs IH]; intros m; simpl; [done| |done]. by repeat case_match. Qed.

(** ** Construction *)

(** The options the package offers. *)
Inductive offered :=
  | OMaxPendingReconciles (n : Z) | OConfirmJobAfter (d : Z) | OExecInterval (d : Z)
  | OHandlerTimeout (d : Z) | OBufferSize (n : Z).
Definition option_of (x : offered) : Option :=
  match x with
  | OMaxPendingReconciles n => WithMaxPendingReconciles n
  | OConfirmJobAfter d => WithConfirmJobAfter d
  | OExecInterval d => WithExecInterval d
  | OHandlerTimeout d => WithEmbeddedHandlerTimeout d
  | OBufferSize n => WithEmbeddedBufferSize n
  end.

(** The value of the last option of a kind, or the default. *)
Definition last_set (pick : offered → option Z) (dflt : Z) (opts : list offered) : Z :=
  foldl (λ d x, default d (pick x)) dflt opts.
Definition pick_max (x : offered) : option Z := match x with OMaxPendingReconciles n => Some n | _ => None end.
Definition pick_after (x : offered) : option Z := match x with OConfirmJobAfter n => Some n | _ => None end.
Definition pick_interval (x : offered) : option Z := match x with OExecInterval n => Some n | _ => None end.
Definition pick_timeout (x : offered) : option Z := match x with OHandlerTimeout n => Some n | _ => None end.
Definition pick_buffer (x : offered) : option Z := match x with OBufferSize n => Some n | _ => None end.

(** The configuration the options describe, from the one orbital starts with. *)
Definition configured (opts : list offered) (m : OrbitalConfig) : OrbitalConfig :=
  let interval d := last_set pick_interval d opts in
  mkOrbitalConfig (last_set pick_max (MaxPendingReconciles m) opts)
    (last_set pick_after (ConfirmJobAfter m) opts)
    (interval (ConfirmJobInterval m)) (interval (CreateTasksInterval m)) (interval (ReconcileInterval m))
    (interval (NotifyInterval m)) (interval (NotifyJobGroupInterval m)) (interval (ScheduleJobGroupInterval m)).

(** Options change the embedded client's parameters and add mutators, and the
    mutators together configure the manager. *)
Lemma options_run opts : ∀ mg jh gh th b t ms,
  ∃ new, foldl (λ o opt, opt o) (mkOrchestrator mg jh gh th b t ms) (option_of <$> opts) =
    mkOrchestrator mg jh gh th (last_set pick_buffer b opts) (last_set pick_timeout t opts) (ms ++ new)%list ∧
  ∀ m, foldl (λ m mutate, mutate m) m new = configured opts m.
Proof.
  induction opts as [|x opts IH]; intros mg jh gh th b t ms; cbn [fmap list_fmap foldl].
  { exists []. rewrite app_nil_r. split; [done|]. by intros []. }
  assert (∀ f, option_of x = add_mutator f → (∀ m, configured opts (f m) = configured (x :: opts) m) →
    pick_buffer x = None → pick_timeout x = None →
    ∃ new, foldl (λ o opt, opt o) (mkOrchestrator mg jh gh th b t ms) (option_of <$> x :: opts) =
      mkOrchestrator mg jh gh th (last_set pick_buffer b (x :: opts)) (last_set pick_timeout t (x :: opts))
        (ms ++ new)%list ∧
    ∀ m, foldl (λ m mutate, mutate m) m new = configured (x :: opts) m) as Hadd.
  { intros f Ho Hf Hb Ht. destruct (IH mg jh gh th b t (ms ++ [f])%list) as (new & Hr & Hm).
    exists (f :: new). rewrite <-app_assoc in Hr. unfold last_set. cbn [fmap list_fmap foldl].
    rewrite Ho, Hb, Ht. split; [exact Hr|]. intros m. by rewrite Hm, Hf. }
  destruct x as [n|d|d|d|n]; [eapply Hadd; [done|by intros []|done..]..| |];
    edestruct (IH mg jh gh th) as (new & Hr & Hm); exists new; (split; [exact Hr|]);
    intros m; rewrite Hm; by destruct m.
Qed.

(** Handlers [New] takes, and what it makes of them. *)
Definition acceptable (hs : OrbitalHandlers) rs gs ts : Prop :=
  rs ≠ [] ∧ well_registered JobType rs (TaskResolvers hs) ∧
  well_registered JobGroupType gs (GroupHandlers hs) ∧
  ts ≠ [] ∧ well_registered TaskType ts (TaskHandlers hs).

Lemma buildTaskResolverMap_spec hs :
  match buildTaskResolverMap hs with
  | inl m => ∃ l, l ≠ [] ∧ well_registered JobType l hs ∧ routes JobType l m
  | inr e => ¬ ∃ l, l ≠ [] ∧ well_registered JobType l hs
  end.
Proof.
  unfold buildTaskResolverMap. case_bool_decide as He.
  - intros (l & Hl & Hw & _). subst hs. by destruct l.
  - pose proof (register_spec JobType ErrJobHandlerNil ErrJobTypeEmpty ErrJobHandlerDuplicate hs) as Hs.
    destruct (register _ _ _ _ _ _) as [m|e].
    + destruct Hs as (l & Hw & Hr). exists l. split; [|done]. intros ->. by destruct Hw as [-> _].
    + destruct Hs as [Hs _]. naive_solver.
Qed.

Lemma buildTaskHandlerMap_spec hs :
  match buildTaskHandlerMap TaskType hs with
  | inl m => ∃ l, l ≠ [] ∧ well_registered TaskType l hs ∧ routes TaskType l m
  | inr e => ¬ ∃ l, l ≠ [] ∧ well_registered TaskType l hs
  end.
Proof.
  unfold buildTaskHandlerMap. rewrite build_handlers_register. case_bool_decide as He.
  - intros (l & Hl & Hw & _). subst hs. by destruct l.
  - pose proof (register_spec TaskType ErrTaskHandlerNil ErrTaskTypeEmpty ErrTaskHandlerDuplicate hs) as Hs.
    destruct (register _ _ _ _ _ _) as [m|e].
    + destruct Hs as (l & Hw & Hr). exists l. split; [|done]. intros ->. by destruct Hw as [-> _].
    + destruct Hs as [Hs _]. naive_solver.
Qed.

Section construction.
Context {ORB : Orbital}.

(** What [New] promises of its outcome and of the calls it made. *)
Definition construction_outcome (repo : bool) (hs : OrbitalHandlers) (opts : list offered)
    (t0 : list orbital_call) (outcome : result Orchestrator * list orbital_call) : Prop :=
  let b := last_set pick_buffer defaultEmbeddedBufferSize opts in
  let d := last_set pick_timeout defaultEmbeddedHandlerTimeout opts in
  match outcome with
  | (Ok o, t) =>
      ∃ rs gs ts mo m, repo = true ∧ acceptable hs rs gs ts ∧
        embedded_NewClient b d = None ∧ mo = manager_opts (groupHandlers o) ∧ orbital_NewManager mo = inl m ∧
        routes JobType rs (jobHandlers o) ∧ routes JobGroupType gs (groupHandlers o) ∧
        routes TaskType ts (taskHandlers o) ∧
        orbitalManager o = Some (configured opts (set_MaxPendingReconciles defaultMaxPendingReconciles m)) ∧
        t = (t0 ++ [CallNewClient b d; CallNewManager mo])%list
  | (Err e, t) =>
      ((repo = false ∨ ¬ ∃ rs gs ts, acceptable hs rs gs ts) ∧ t = t0) ∨
      (embedded_NewClient b d = Some e ∧ t = (t0 ++ [CallNewClient b d])%list) ∨
      (∃ mo err, embedded_NewClient b d = None ∧ orbital_NewManager mo = inr err ∧
         e = joined err embedded_Close ∧
         t = (t0 ++ [CallNewClient b d; CallNewManager mo; CallClose])%list)
  | (Panic, _) | (Diverge, _) => False
  end.

Lemma New_outcome repo hs opts t0 :
  construction_outcome repo hs opts t0 (New repo hs (option_of <$> opts) t0).
Proof.
  unfold construction_outcome. set (b := last_set pick_buffer _ _). set (d := last_set pick_timeout _ _).
  unfold New. destruct repo; cbn [negb]; [|simpl; auto].
  pose proof (buildTaskResolverMap_spec (TaskResolvers hs)) as Hr.
  destruct (buildTaskResolverMap _) as [jh|e]; [|left; split; [right|done]].
  2:{ intros (rs & gs & ts & H1 & H2 & _). eauto. }
  rewrite (bind_Ok _ _ _ jh t0) by done.
  pose proof (register_spec JobGroupType ErrGroupHandlerNil ErrGroupTypeEmpty ErrGroupHandlerDuplicate
    (GroupHandlers hs)) as Hg. change (register _ _ _ _ _ _) with (buildGroupHandlerMap (GroupHandlers hs)) in Hg.
  destruct (buildGroupHandlerMap _) as [gh|e]; [|left; split; [right|done]].
  2:{ intros (rs & gs & ts & _ & _ & H3 & _). destruct Hg as [Hg _]. eauto. }
  rewrite (bind_Ok _ _ _ gh t0) by done.
  pose proof (buildTaskHandlerMap_spec (TaskHandlers hs)) as Ht.
  destruct (buildTaskHandlerMap _ _) as [th|e]; [|left; split; [right|done]].
  2:{ intros (rs & gs & ts & _ & _ & _ & H4 & H5). eauto. }
  rewrite (bind_Ok _ _ _ th t0) by done. cbv zeta.
  destruct Hr as (rs & Hrs & Hwr & Hrr), Hg as (gs & Hwg & Hrg), Ht as (ts & Hts & Hwt & Hrt).
  destruct (options_run opts None jh gh th defaultEmbeddedBufferSize defaultEmbeddedHandlerTimeout [])
    as (new & -> & Hm). cbn [embeddedBufferSize embeddedHandlerTimeout orbitalMutators app]. fold b d.
  rewrite bind_run. unfold NewClient at 1.
  rewrite (bind_Ok _ _ _ () (t0 ++ [CallNewClient b d])%list) by done.
  destruct (embedded_NewClient b d) as [e|] eqn:Ec; [simpl; auto|]. cbn [check].
  set (mo := manager_opts gh). cbn -[try mo]. rewrite bind_try. unfold NewManager.
  rewrite (bind_Ok _ _ _ () (t0 ++ [CallNewClient b d; CallNewManager mo])%list)
    by (unfold call, modify; by rewrite <-app_assoc).
  destruct (orbital_NewManager mo) as [m|err] eqn:Em; cbn.
  - exists rs, gs, ts, mo, m. rewrite Hm. done.
  - right; right. exists mo, err. by rewrite <-app_assoc.
Qed.

Lemma new_routes repo hs opts t0 o t :
  New repo hs (option_of <$> opts) t0 = (Ok o, t) →
  ∃ rs gs ts, acceptable hs rs gs ts ∧ routes JobType rs (jobHandlers o) ∧
    routes JobGroupType gs (groupHandlers o) ∧ routes TaskType ts (taskHandlers o).
Proof.
  intros H. pose proof (New_outcome repo hs opts t0) as Hs. rewrite H in Hs.
  destruct Hs as (rs & gs & ts & mo & m & _ & Ha & _ & _ & _ & Hr & Hg & Ht & _). by exists rs, gs, ts.
Qed.

(** [New] is total and all or nothing.  It succeeds exactly when a
    repository is given, every kind of handler is registered under distinct
    nonempty types with at least one resolver and one task handler, and orbital
    makes the client and the manager.  Then each type is routed to the handler
    registered for it and to no other, the manager is configured by the options
    in order over the default of ten pending reconciles, and one client is open.
    When it fails no client is left open: none was made, or it was closed. *)
Theorem new_outcome repo hs opts t0 :
  let b := last_set pick_buffer defaultEmbeddedBufferSize opts in
  let d := last_set pick_timeout defaultEmbeddedHandlerTimeout opts in
  match New repo hs (option_of <$> opts) t0 with
  | (Ok o, t) =>
      ∃ rs gs ts mo m, repo = true ∧ acceptable hs rs gs ts ∧
        embedded_NewClient b d = None ∧ mo = manager_opts (groupHandlers o) ∧ orbital_NewManager mo = inl m ∧
        routes JobType rs (jobHandlers o) ∧ routes JobGroupType gs (groupHandlers o) ∧
        routes TaskType ts (taskHandlers o) ∧
        orbitalManager o = Some (configured opts (set_MaxPendingReconciles defaultMaxPendingReconciles m)) ∧
        t = (t0 ++ [CallNewClient b d; CallNewManager mo])%list
  | (Err e, t) =>
      ((repo = false ∨ ¬ ∃ rs gs ts, acceptable hs rs gs ts) ∧ t = t0) ∨
      (embedded_NewClient b d = Some e ∧ t = (t0 ++ [CallNewClient b d])%list) ∨
      (∃ mo err, embedded_NewClient b d = None ∧ orbital_NewManager mo = inr err ∧
         e = joined err embedded_Close ∧
         t = (t0 ++ [CallNewClient b d; CallNewManager mo; CallClose])%list)
  | (Panic, _) | (Diverge, _) => False
  end.
Proof. apply (New_outcome repo hs opts t0). Qed.
End construction.

(** ** The root process *)

Section root_process.
Context {ENV : Env} {MGR : KeyManager} {AGENTS : RemoteAgents} {PREP : JobGroupPreparer} {CODEC : JobCodec}.
Context {COL : Collation} {CURSOR : CursorCodec} {ORB : Orbital}.
Context (registry : gset string) (cfg : RootConfig).

Let operator : KeyOperatorConfig := mkKeyOperatorConfig true (Some cfg) (Some registry).

(** What a root's orchestrator has registered. *)
Definition root_table {H} (announce activate : H) (m : gmap string H) : Prop :=
  m !! AnnounceKey_type = Some announce ∧ m !! ActivateKey_type = Some activate ∧
  ∀ t, t ≠ AnnounceKey_type → t ≠ ActivateKey_type → m !! t = None.

Lemma routes_root_table {H} (typeOf : H → string) l announce activate m :
  Some <$> l = [Some announce; Some activate] → routes typeOf l m →
  typeOf announce = AnnounceKey_type → typeOf activate = ActivateKey_type →
  root_table announce activate m.
Proof.
  destruct l as [|x [|y [|]]]; try done. intros [= -> ->] Hr Hn Ht. split_and!; [apply Hr; set_solver..|].
  intros t Hn' Ht'. apply eq_None_not_Some. intros [h [Hin <-]%Hr]. set_solver.
Qed.

Lemma root_orchestrator_tables t0 o t :
  root_orchestrator registry cfg t0 = (Ok o, t) →
  root_table NewAnnounceTaskResolver (NewTaskResolver ActivateHandlerConfig) (jobHandlers o) ∧
  root_table (NewJobGroupHandler AnnounceHandlerConfig) (NewJobGroupHandler ActivateHandlerConfig) (groupHandlers o) ∧
  root_table (NewAnnounceTaskHandler registry (rc_Name cfg)) (NewTaskHandler ActivateHandlerConfig operator)
    (taskHandlers o).
Proof.
  intros Ho. pose proof (new_routes true (root_handlers registry cfg) [OExecInterval 10000000] t0 o t Ho)
    as (rs & gs & ts & (_ & [Hrs _] & [Hgs _] & _ & [Hts _]) & Hr & Hg & Ht).
  split_and!; eapply routes_root_table; done.
Qed.

(** The tasks of a job, by running the callbacks of the orchestrator. *)
Definition job_tasks (o : Orchestrator) (job : Job) (w : world) : option (list TaskInfo) :=
  match (confirmJob o job w).1, (resolveTasks o job w).1 with
  | Ok CompleteJobConfirmer, Ok (CompleteTaskResolver infos) => Some infos
  | _, _ => None
  end.

(** An operation that succeeds planned a job group. *)
Lemma run_op_Ok op req w id w' :
  run_op op req w = (Ok id, w') →
  ∃ w1 g w2, w_db w1 = w_db w ∧ ApplyKeyAction (op_action op req) w1 = (Ok g, w2) ∧ w_db w' = w_db w2.
Proof.
  rewrite run_op_eq. destruct (ValidateKeyRequest _ _); [done|].
  rewrite bind_run, or_mapped_run. unfold ChainTransaction.
  destruct (Transaction _ w) as [r w1] eqn:E.
  apply Transaction_cases in E as [(what & -> & Hdb & _)|(w2 & r2 & w3 & Hdb1 & _ & H & _ & Hr)]; [done|].
  destruct r2 as [g|e| |]; [|destruct Hr as [-> _]; done|by rewrite Hr..].
  destruct Hr as [[-> Hdb]|(what & -> & _)]; [|done]. intros [= <- <-].
  apply op_steps_Ok in H as (w4 & Hdb4 & H). exists w4, g, w3. rewrite Hdb4. done.
Qed.

(** The keys an operation left to its tasks. *)
Lemma run_op_plan op req w id w' :
  db_wf (w_db w) → run_op op req w = (Ok id, w') →
  ∃ kt jobs g w1 w2,
    PrepareJobGroup (mkJobGroup "" (hc_handlerType (op_handler op)) jobs ∅) w1 = (Ok g, w2) ∧ jobs ≠ [] ∧
    (∀ k, k ∈ mjoin kt → db_keys (w_db w) !! k_ID k = Some k) ∧
    moved (hc_toState (op_handler op)) (mjoin kt) (w_db w) (w_db w') ∧
    job_ids <$> jobs = Some <$> planned (hc_toState (op_handler op)) kt ∧
    ∀ j, j ∈ jobs → j_Type j = hc_handlerType (op_handler op).
Proof.
  intros Hwf (w1 & g & w2 & Hdb & H & ->)%run_op_Ok.
  apply ApplyKeyAction_Ok in H as (kt & w3 & jobs & w4 & Hf & Hm & Hp & Hne & Hj & Ht); [|by rewrite Hdb].
  apply fetchKeytree_Ok in Hf as [_ Hk]; [|by rewrite Hdb].
  exists (action_layers (op_action op req) kt), jobs, g, w4, w2. rewrite Hdb in *. split_and!; try done.
  intros k (layer & Hkl & Hl)%list_elem_of_join. eapply Hk; [|done]. by eapply action_layers_elem.
Qed.

(** The identifiers the keys of a plan have can be encoded. *)
Definition encodable (d : DB) : Prop := ∀ id k, db_keys d !! id = Some k → is_Some (marshal_id (identifier k)).

Lemma ResolveTasks_encodable hc job ids :
  job_ids job = Some ids → ids ≠ [] → (∀ i, i ∈ ids → is_Some (marshal_id i)) →
  ∃ infos, ResolveTasks hc job = CompleteTaskResolver infos ∧
    (unmarshal_id ∘ ti_Data) <$> infos = Some <$> ids ∧
    ∀ i, i ∈ infos → ti_Type i = hc_handlerType hc ∧ ti_Target i = DefaultLocalTargetName.
Proof.
  unfold job_ids, ResolveTasks. intros -> Hne Hs. destruct ids as [|i ids]; [done|].
  destruct (mapM marshal_id (i :: ids)) as [datas|] eqn:Em.
  - eexists. split; [done|]. split; [rewrite <-list_fmap_compose; exact (marshalled_ids_read_back _ _ Em)|].
    intros x (d & -> & _)%list_elem_of_fmap. done.
  - apply mapM_None_1, Exists_exists in Em as (x & Hx & Hn). apply Hs in Hx as [? Hx]. congruence.
Qed.

Lemma planned_elem to layers ids :
  ids ∈ planned to layers → ids ≠ [] ∧ ∀ i, i ∈ ids → ∃ k, k ∈ mjoin layers ∧ i = identifier k ∧ finished to k = false.
Proof.
  unfold planned. intros [Hin%list_elem_of_In Hn%negb_true_iff%bool_decide_eq_false]%list_elem_of_In%filter_In.
  split; [done|]. intros i Hi. apply list_elem_of_fmap in Hin as (l & -> & Hl).
  apply list_elem_of_fmap in Hi as (k & -> & Hk). apply list_elem_of_In, filter_In in Hk as [Hk Hf].
  exists k. split_and!; [apply list_elem_of_join; exists l; by rewrite list_elem_of_In|done|by apply negb_true_iff].
Qed.

(** The tasks of a planned activation job, in the process that planned it. *)
Lemma activation_job_tasks t0 o t job ids w :
  root_orchestrator registry cfg t0 = (Ok o, t) → j_Type job = ActivateKey_type →
  job_ids job = Some ids → ids ≠ [] → (∀ i, i ∈ ids → is_Some (marshal_id i)) →
  ∃ infos, job_tasks o job w = Some infos ∧ (unmarshal_id ∘ ti_Data) <$> infos = Some <$> ids ∧
    ∀ i, i ∈ infos → ti_Target i = LocalTarget o ∧ runTask o i = Handle operator ActivateHandlerConfig (ti_Data i).
Proof.
  intros Ho Ht Hi Hne Hs. apply root_orchestrator_tables in Ho as ((_ & Hj & _) & _ & _ & Hr & _).
  destruct (ResolveTasks_encodable ActivateHandlerConfig job ids Hi Hne Hs) as (infos & Hres & Hids & Hty).
  exists infos. unfold job_tasks, confirmJob, resolveTasks. rewrite Ht, Hj. cbn. rewrite Hres.
  split_and!; [done..|]. intros i Hin. destruct (Hty i Hin) as [Hti Hta]. split; [done|].
  unfold runTask, buildTaskDispatch. rewrite Hti. cbn [hc_handlerType ActivateHandlerConfig]. by rewrite Hr.
Qed.

(** C5: what [ActivateKey] schedules on a root is carried out by that root.  When
    the call succeeds, the group it prepared holds jobs that the orchestrator of
    the process confirms and resolves, whatever happened in between, into one
    task per key the call moved, layer by layer; every task is addressed to the
    embedded operator and run there by the activation handler on the identifier
    of that key; and exactly those keys are now active and pending. *)
Theorem activation_is_carried_out req w id w' t0 o t :
  db_wf (w_db w) → encodable (w_db w) → run_op OpActivate req w = (Ok id, w') →
  root_orchestrator registry cfg t0 = (Ok o, t) →
  ∃ kt jobs g w1 w2,
    PrepareJobGroup (mkJobGroup "" ActivateKey_type jobs ∅) w1 = (Ok g, w2) ∧ jobs ≠ [] ∧
    moved KeyLifeCycleActive (mjoin kt) (w_db w) (w_db w') ∧
    ∀ wt, ∃ tasks, mapM (λ j, job_tasks o j wt) jobs = Some tasks ∧
      (λ l, (unmarshal_id ∘ ti_Data) <$> l) <$> tasks = (λ ids, Some <$> ids) <$> planned KeyLifeCycleActive kt ∧
      ∀ task, task ∈ mjoin tasks →
        ti_Target task = LocalTarget o ∧ runTask o task = Handle operator ActivateHandlerConfig (ti_Data task).
Proof.
  intros Hwf He Hrun Ho. apply run_op_plan in Hrun as (kt & jobs & g & w1 & w2 & Hp & Hne & Hk & Hm & Hj & Ht); [|done].
  exists kt, jobs, g, w1, w2. split_and!; [done..|]. intros wt. cbn [op_handler] in *.
  assert (∀ ids, ids ∈ planned KeyLifeCycleActive kt → ids ≠ [] ∧ ∀ i, i ∈ ids → is_Some (marshal_id i)) as Henc.
  { intros ids [Hn Hids]%planned_elem. split; [done|]. intros i (k & Hin & -> & _)%Hids. eapply He. by apply Hk. }
  clear Hm Hp Hne Hk. revert Hj Ht Henc. change (hc_toState ActivateHandlerConfig) with KeyLifeCycleActive.
  generalize (planned KeyLifeCycleActive kt). induction jobs as [|j jobs IH]; intros [|ids plan] Hj Ht Henc; try done.
  { exists []. split_and!; [done..|]. intros task []%elem_of_nil. }
  cbn in Hj. injection Hj as Hj0 Hj.
  destruct (activation_job_tasks t0 o t j ids wt) as (infos & Hi & Hids & Hrun); [done|apply Ht; left|done|apply Henc; left..|].
  destruct (IH plan) as (tasks & Hts & Hplan & Hall); [done|intros; apply Ht; by right|intros; apply Henc; by right|].
  exists (infos :: tasks). cbn. rewrite Hi. cbn. rewrite Hts. cbn. rewrite Hids. split_and!; [done|by f_equal|].
  intros task [?|?]%elem_of_app; auto.
Qed.

(** C14: a root has no handler that carries out suspending or deactivating.  When
    [SuspendKey] or [DeactivateKey] succeeds, at least one key is left pending
    in the target state, and the orchestrator of the process has no handler for
    the jobs it prepared: it cancels them when asked to confirm them or to
    resolve them, answers every event of theirs with an error, ignores the
    events of the group, fails every task of the type, and nothing of this
    writes to the database.  None of the three key actions admits the key that is
    left, except that a suspended one can be deactivated, which leaves it pending
    again.  (Announcing the key again is no key action; it resets the key to
    pre-activation.) *)
Theorem suspension_has_no_handler op req w id w' t0 o t :
  op ≠ OpActivate → db_wf (w_db w) → run_op op req w = (Ok id, w') →
  root_orchestrator registry cfg t0 = (Ok o, t) →
  ∃ jobs g w1 w2,
    PrepareJobGroup (mkJobGroup "" (hc_handlerType (op_handler op)) jobs ∅) w1 = (Ok g, w2) ∧ jobs ≠ [] ∧
    (∀ j wt, j ∈ jobs →
       confirmJob o j wt = (Ok CancelJobConfirmer, wt) ∧ resolveTasks o j wt = (Ok CancelTaskResolver, wt) ∧
       (∀ event, event ∈ [jobDone; jobFailed; jobCanceled] →
          event o j wt = (Err (jobHandlerNotFoundError (j_Type j)), wt))) ∧
    (∀ group wt event, jg_Type group = hc_handlerType (op_handler op) →
       event ∈ [jobGroupDone; jobGroupFailed; jobGroupCanceled] → event o group wt = (Ok (), wt)) ∧
    (∀ task wt, ti_Type task = hc_handlerType (op_handler op) → runTask o task wt = (Ok (), add_resp RFail wt)) ∧
    ∃ i k, db_keys (w_db w') !! i = Some k ∧ k_LifeCycleState k = hc_toState (op_handler op) ∧
      k_Status k = KeyProcessingPending ∧ ∀ op', admitted op' k → op = OpSuspend ∧ op' = OpDeactivate.
Proof.
  intros Hop Hwf Hrun Ho. apply root_orchestrator_tables in Ho as ((_ & _ & Hj) & (_ & _ & Hg) & _ & _ & Ht).
  assert (hc_handlerType (op_handler op) ≠ AnnounceKey_type ∧ hc_handlerType (op_handler op) ≠ ActivateKey_type)
    as [Hn1 Hn2] by (by destruct op).
  apply run_op_plan in Hrun as (kt & jobs & g & w1 & w2 & Hp & Hne & Hk & Hm & Hids & Hty); [|done].
  exists jobs, g, w1, w2. split_and!; try done.
  - intros j wt Hin. specialize (Hty j Hin). unfold confirmJob, resolveTasks. rewrite Hty, Hj by done.
    split_and!; [done..|]. intros event He.
    repeat (apply elem_of_cons in He as [->|He]);
      [unfold jobDone|unfold jobFailed|unfold jobCanceled|by apply elem_of_nil in He]; by rewrite Hty, Hj by done.
  - intros group wt event Hgt He.
    repeat (apply elem_of_cons in He as [->|He]); [..|by apply elem_of_nil in He];
      unfold jobGroupDone, jobGroupFailed, jobGroupCanceled, dispatchGroupEvent; by rewrite Hgt, Hg by done.
  - intros task wt Htt. unfold runTask, buildTaskDispatch. by rewrite Htt, Ht by done.
  - destruct (planned _ kt) as [|ids plan] eqn:Hpl; [by destruct jobs|].
    destruct (planned_elem (hc_toState (op_handler op)) kt ids) as [Hnil Hel]; [rewrite Hpl; left|].
    destruct ids as [|i0 ids]; [done|]. destruct (Hel i0) as (k & Hin & _ & Hf); [left|].
    destruct Hm as [_ Hm]. specialize (Hm (k_ID k)). rewrite (Hk k Hin) in Hm.
    destruct Hm as [[now Hrow] _]; [done|]. exists (k_ID k), (moved_row (hc_toState (op_handler op)) now k).
    split_and!; [done..|]. intros op' (f & Hfs & Hls & Hst).
    change (k_LifeCycleState _) with (hc_toState (op_handler op)) in Hls.
    change (k_Status _) with KeyProcessingPending in Hst.
    destruct op, op'; try done; cbn [op_filters] in Hfs;
      unfold activate_filters, deactivate_filters, suspend_filters in Hfs;
      repeat (apply elem_of_cons in Hfs as [->|Hfs];
              [first [discriminate Hls|apply (bool_decide_eq_true_2 _) in Hst; vm_compute in Hst; discriminate Hst]|]);
      by apply elem_of_nil in Hfs.
Qed.
End root_process.

(** ** A root process *)

Module WiringSamples.
Import Sample StoreSamples OrchestratorSamples AdminSamples.

#[export, refine] Instance orbital : Orbital := {|
  embedded_NewClient := λ _ _, None;
  embedded_Close := None;
  orbital_NewManager := λ _, inl (mkOrbitalConfig 0 0 1 1 1 1 1 1);
  manager_Start := None;
  manager_Stop := None;
  manager_GetJobGroup := λ _, mret None;
|}.
Proof. done. Defined.

(** The tree of the sample, announced. *)
Definition announced_calls : list store_call :=
  (calls ++ settle uuid1 KeyLifeCyclePreActivation ++ settle uuid2 KeyLifeCyclePreActivation)%list.
Definition w3 : world := run_calls announced_calls (world0 empty_db).

Lemma w3_wf : db_wf (w_db w3).
Proof. apply (evolves_run_calls announced_calls (world0 empty_db)). exact empty_db_wf. Qed.

Lemma root_starts : is_ok (root_orchestrator {["agent"]} root []).1 = true.
Proof. vm_compute. reflexivity. Qed.

Definition tree : KeyActionRequest := mkKeyActionRequest uuid0 uuid1 true.

Lemma activation_is_carried_out_witness :
  ∃ id w' o t, run_op OpActivate tree w3 = (Ok id, w') ∧ root_orchestrator {["agent"]} root [] = (Ok o, t) ∧
    ∃ kt, moved KeyLifeCycleActive (mjoin kt) (w_db w3) (w_db w').
Proof.
  assert (is_ok (run_op OpActivate tree w3).1 = true) as E by (vm_compute; reflexivity).
  destruct (run_op OpActivate tree w3) as [[id| | |] w'] eqn:H; try discriminate E.
  pose proof root_starts as Eo.
  destruct (root_orchestrator {["agent"]} root []) as [[o| | |] t] eqn:Ho; try discriminate Eo.
  exists id, w', o, t. split; [reflexivity|]. split; [reflexivity|].
  destruct (activation_is_carried_out {["agent"]} root tree w3 id w' [] o t) as (kt & _ & _ & _ & _ & _ & _ & Hm & _).
  - exact w3_wf.
  - unfold encodable. apply map_Forall_lookup_2. apply (bool_decide_unpack _). vm_compute. exact I.
  - exact H.
  - exact Ho.
  - exists kt. exact Hm.
Defined.

Lemma suspension_has_no_handler_witness :
  ∃ id w' o t, run_op OpSuspend suspend_tree w2 = (Ok id, w') ∧
    root_orchestrator {["agent"]} root [] = (Ok o, t) ∧
    ∃ i k, db_keys (w_db w') !! i = Some k ∧ k_Status k = KeyProcessingPending ∧ ¬ admitted OpSuspend k.
Proof.
  assert (is_ok (run_op OpSuspend suspend_tree w2).1 = true) as E by (vm_compute; reflexivity).
  destruct (run_op OpSuspend suspend_tree w2) as [[id| | |] w'] eqn:H; try discriminate E.
  pose proof root_starts as Eo.
  destruct (root_orchestrator {["agent"]} root []) as [[o| | |] t] eqn:Ho; try discriminate Eo.
  exists id, w', o, t. split; [reflexivity|]. split; [reflexivity|].
  destruct (suspension_has_no_handler {["agent"]} root OpSuspend suspend_tree w2 id w' [] o t)
    as (_ & _ & _ & _ & _ & _ & _ & _ & _ & i & k & Hi & _ & Hs & Ha).
  - discriminate.
  - exact w2_wf.
  - exact H.
  - exact Ho.
  - exists i, k. split; [exact Hi|]. split; [exact Hs|]. intros H1%Ha. destruct H1 as [_ H1]. discriminate H1.
Defined.
End WiringSamples.
End Wiring.
