(* ===== verification/GrpcConn.v ===== *)
(** * The registry of gRPC connections (internal/grpcconn)

    [NewRegistry], [Get] and [Close].  Connections are objects of the gRPC
    library: [dial_error] says which addresses [grpc.NewClient] refuses,
    [close_error] what closing a connection reports; each successful call makes
    a new connection, and a closed one stays closed whatever [Close] reports.
    [range] is the order in which Go walks the map.  A nil map and an empty one
    are alike here: the code only reads, measures and ranges over them. *)

From S2P Require Import Prelude GoStrings GoRuntime Providers Hierarchy Config.

Local Open Scope string_scope.

Module GrpcConn.
Definition ErrDuplicateName : string := "grpcconn.ErrDuplicateName".
Definition ErrUnsupportedAddressType : string := "grpcconn.ErrUnsupportedAddressType".

(** The connections dialed so far and those that are open. *)
Record net := mkNet { dialed : nat; opened : gset nat }.

Notation Registry := (gmap string nat).

Section registry.
Context (dial_error : string → option error) (close_error : nat → option error).
Context (range : Registry → list (string * nat)).

(** [grpc.NewClient] and [ClientConn.Close]. *)
Definition NewClient (url : string) : comp net nat := λ s,
  match dial_error url with
  | Some e => (Err e, s)
  | None => (Ok (dialed s), mkNet (S (dialed s)) ({[dialed s]} ∪ opened s))
  end.
Definition ClientConn_Close (c : nat) : comp net goerror := λ s,
  (Ok (close_error c), mkNet (dialed s) (opened s ∖ {[c]})).

(** [Get]. *)
Definition Get (r : Registry) (name : string) : option nat := r !! name.

(** [Close]: the joined errors and the registry afterwards. *)
Fixpoint close_conns (l : list (string * nat)) : comp net (list error) :=
  match l with
  | [] => mret []
  | (_, c) :: l =>
      e ← ClientConn_Close c;
      errs ← close_conns l;
      mret (match e with Some e => wrap1 e :: errs | None => errs end)
  end.
Definition Close (r : Registry) : comp net (goerror * Registry) :=
  if (size r =? 0)%nat then mret (None, ∅) else
  errs ← close_conns (range r);
  mret (errors_Join (Some <$> errs), ∅).

(** [_ = r.Close(); return nil, err]. *)
Definition fail_closed {A} (r : Registry) (e : error) : comp net A := _ ← Close r; throw e.

(** One turn of the loop of [NewRegistry]. *)
Definition dial_config (r : Registry) (cfg : ConnectionConfig) : comp net Registry :=
  match r !! cc_Name cfg with
  | Some _ => fail_closed r (wrap1 (ESentinel ErrDuplicateName))
  | None =>
      if negb (String.eqb (ad_Type (cc_Address cfg)) AddressTypeGRPC)
      then fail_closed r (wrap1 (ESentinel ErrUnsupportedAddressType)) else
      conn ← try (NewClient (ad_URL (cc_Address cfg)));
      match conn with
      | inr e => fail_closed r (wrap1 e)
      | inl conn => mret (<[cc_Name cfg := conn]> r)
      end
  end.
Definition NewRegistry (cfgs : list ConnectionConfig) : comp net Registry := foldM dial_config ∅ cfgs.

(** ** Closing *)

Definition conns (r : Registry) : gset nat := list_to_set (map_to_list r).*2.

Lemma elem_of_conns r c : c ∈ conns r ↔ ∃ n, r !! n = Some c.
Proof.
  unfold conns. rewrite elem_of_list_to_set, list_elem_of_fmap. setoid_rewrite <-elem_of_map_to_list. split.
  - intros ([n c'] & -> & H). by exists n.
  - intros [n H]. by exists (n, c).
Qed.

Context (range_perm : ∀ r, range r ≡ₚ map_to_list r).

Lemma close_conns_run l s :
  ∃ errs, close_conns l s = (Ok errs, mkNet (dialed s) (opened s ∖ list_to_set l.*2)).
Proof.
  revert s. induction l as [|[n c] l IH]; intros s; simpl.
  - exists []. unfold mret, comp_ret. destruct s as [d o]. simpl. do 2 f_equal. by rewrite difference_empty_L.
  - rewrite bind_run. simpl. destruct (IH (mkNet (dialed s) (opened s ∖ {[c]}))) as [errs H].
    rewrite bind_run, H. simpl. eexists. unfold mret, comp_ret.
    replace (opened s ∖ {[c]} ∖ list_to_set l.*2) with (opened s ∖ ({[c]} ∪ list_to_set l.*2)) by set_solver. reflexivity.
Qed.

Lemma Close_run r s : ∃ e, Close r s = (Ok (e, ∅), mkNet (dialed s) (opened s ∖ conns r)).
Proof.
  unfold Close. destruct (Nat.eqb_spec (size r) 0) as [H|H].
  - apply map_size_empty_inv in H as ->. exists None. unfold mret, comp_ret, conns. rewrite map_to_list_empty. simpl.
    rewrite difference_empty_L. by destruct s.
  - destruct (close_conns_run (range r) s) as [errs Hc]. rewrite bind_run, Hc. eexists. unfold mret, comp_ret.
    unfold conns. by rewrite (list_to_set_perm_L _ _ (fmap_Permutation snd _ _ (range_perm r))).
Qed.

(** ** The loop *)

(** What has been dialed since [s0] is what the registry holds. *)
Record dialing (s0 : net) (r : Registry) (s : net) : Prop := {
  dl_open : opened s = opened s0 ∪ conns r;
  dl_more : (dialed s0 ≤ dialed s)%nat;
  dl_new : ∀ n c, r !! n = Some c → (dialed s0 ≤ c < dialed s)%nat;
  dl_inj : ∀ n m c, r !! n = Some c → r !! m = Some c → n = m;
}.
Definition net_ok (s : net) : Prop := ∀ c, c ∈ opened s → (c < dialed s)%nat.

Lemma dialing_start s : dialing s ∅ s.
Proof.
  split; [|done|by intros ? ? ?|by intros ? ? ? ?].
  apply set_eq. intros c. rewrite elem_of_union, elem_of_conns. split; [by left|]. by intros [?|[n ?]].
Qed.

Lemma dialing_closed s0 r s : net_ok s0 → dialing s0 r s → opened s ∖ conns r = opened s0.
Proof.
  intros Hok Hd. rewrite (dl_open _ _ _ Hd). apply set_eq. intros c. rewrite elem_of_difference, elem_of_union. split.
  - by intros [[?|?] ?].
  - intros H. split; [by left|]. intros [n Hn]%elem_of_conns. pose proof (dl_new _ _ _ Hd _ _ Hn). specialize (Hok _ H). lia.
Qed.

Lemma dialing_insert s0 r s name :
  dialing s0 r s → r !! name = None →
  dialing s0 (<[name := dialed s]> r) (mkNet (S (dialed s)) ({[dialed s]} ∪ opened s)).
Proof.
  intros [Ho Hm Hn Hi] Hname. split; simpl.
  - rewrite Ho. apply set_eq. intros c. rewrite !elem_of_union, elem_of_singleton, !elem_of_conns.
    setoid_rewrite lookup_insert_Some. naive_solver.
  - lia.
  - intros n c [[<- <-]|[_ H]]%lookup_insert_Some; [lia|]. specialize (Hn _ _ H). lia.
  - intros n m c [[<- <-]|[_ H1]]%lookup_insert_Some [[<- H]|[_ H2]]%lookup_insert_Some; [done| | |by eapply Hi].
    + specialize (Hn _ _ H2). lia.
    + specialize (Hn _ _ H1). lia.
Qed.

(** What one turn needs. *)
Definition dialable (cfg : ConnectionConfig) : Prop :=
  ad_Type (cc_Address cfg) = AddressTypeGRPC ∧ dial_error (ad_URL (cc_Address cfg)) = None.

Lemma fail_closed_run {A} r e s : ∃ s', fail_closed r e s = (Err e : result A, s') ∧ opened s' = opened s ∖ conns r.
Proof.
  unfold fail_closed. destruct (Close_run r s) as [e' H]. rewrite bind_run, H. by eexists.
Qed.

Lemma dial_config_cases s0 r s cfg :
  net_ok s0 → dialing s0 r s →
  (r !! cc_Name cfg = None ∧ dialable cfg ∧ ∃ s', dial_config r cfg s = (Ok (<[cc_Name cfg := dialed s]> r), s') ∧
     dialing s0 (<[cc_Name cfg := dialed s]> r) s') ∨
  (¬ (r !! cc_Name cfg = None ∧ dialable cfg) ∧ ∃ e s', dial_config r cfg s = (Err e, s') ∧ opened s' = opened s0).
Proof.
  intros Hok Hd. assert (∀ e, ∃ s', fail_closed r e s = (Err e : result Registry, s') ∧ opened s' = opened s0) as Hfail.
  { intros e. destruct (fail_closed_run (A := Registry) r e s) as (s' & H & Ho). exists s'. split; [done|].
    rewrite Ho. by apply dialing_closed. }
  unfold dial_config, dialable. destruct (r !! cc_Name cfg) as [c|] eqn:Hr.
  { right. split; [by intros [? _]|]. eexists. apply Hfail. }
  destruct (String.eqb_spec (ad_Type (cc_Address cfg)) AddressTypeGRPC) as [Ht|Ht]; simpl.
  2: { right. split; [naive_solver|]. eexists. apply Hfail. }
  unfold NewClient, try. rewrite bind_run. destruct (dial_error _) as [e|].
  - right. split; [naive_solver|]. eexists. apply Hfail.
  - left. split_and!; [done..|]. eexists. split; [reflexivity|]. by apply dialing_insert.
Qed.

Lemma foldM_dial s0 cfgs : ∀ r s,
  net_ok s0 → dialing s0 r s →
  (Forall dialable cfgs ∧ NoDup (cc_Name <$> cfgs) ∧ Forall (λ cfg, r !! cc_Name cfg = None) cfgs ∧
   ∃ r' s', foldM dial_config r cfgs s = (Ok r', s') ∧ dialing s0 r' s' ∧
     dom r' = dom r ∪ list_to_set (cc_Name <$> cfgs)) ∨
  (¬ (Forall dialable cfgs ∧ NoDup (cc_Name <$> cfgs) ∧ Forall (λ cfg, r !! cc_Name cfg = None) cfgs) ∧
   ∃ e s', foldM dial_config r cfgs s = (Err e, s') ∧ opened s' = opened s0).
Proof.
  induction cfgs as [|cfg cfgs IH]; intros r s Hok Hd; cbn [foldM].
  { left. split_and!; [constructor..|]. exists r, s. split_and!; [done|done|]. simpl. set_solver. }
  destruct (dial_config_cases s0 r s cfg Hok Hd) as [(Hr & Hcan & s1 & H1 & Hd1)|(Hno & e & s1 & H1 & Ho)].
  2: { right. split; [rewrite !Forall_cons; naive_solver|]. exists e, s1. by rewrite bind_run, H1. }
  rewrite (bind_Ok _ _ _ _ _ H1), fmap_cons, NoDup_cons, !Forall_cons.
  assert (Forall (λ c, <[cc_Name cfg := dialed s]> r !! cc_Name c = None) cfgs ↔
    cc_Name cfg ∉ (cc_Name <$> cfgs) ∧ Forall (λ c, r !! cc_Name c = None) cfgs) as Hnames.
  { rewrite list_elem_of_fmap, !Forall_forall. setoid_rewrite lookup_insert_None. split.
    - intros H. split; [|naive_solver]. intros (c & Hc & Hin). by destruct (H c Hin).
    - intros [H2 H3] c Hin. split; [by apply H3|]. intros Heq. apply H2. by exists c. }
  destruct (IH _ s1 Hok Hd1) as [(Hc & Hnd & Hf & r' & s' & H2 & Hd2 & Hdom)|(Hno & e & s' & H2 & Ho)].
  - left. apply Hnames in Hf as [Hnot Hf]. split_and!; [done..|]. exists r', s'. split_and!; [done|done|].
    rewrite Hdom, dom_insert_L. simpl. set_solver.
  - right. split; [|by eauto]. intros ([_ ?] & [? ?] & [_ ?]). apply Hno. split_and!; [done|done|]. by apply Hnames.
Qed.

(** A registry has all its connections or none.  [NewRegistry] succeeds
    exactly when the names differ, every address is a gRPC address and every
    dial succeeds; then it holds one new open connection of its own per
    configuration, and [Close] closes exactly these, whatever the single closes
    report, after which it does nothing more.  When it fails, every connection
    dialed on the way is closed again. *)
Theorem registry_all_or_nothing cfgs s :
  net_ok s →
  (Forall dialable cfgs ∧ NoDup (cc_Name <$> cfgs) ∧
   ∃ r s1, NewRegistry cfgs s = (Ok r, s1) ∧
     (∀ name, is_Some (Get r name) ↔ name ∈ cc_Name <$> cfgs) ∧
     (∀ name c, Get r name = Some c → c ∈ opened s1 ∧ c ∉ opened s) ∧
     (∀ n m c, Get r n = Some c → Get r m = Some c → n = m) ∧
     ∃ e s2, Close r s1 = (Ok (e, ∅), s2) ∧ opened s2 = opened s ∧ Close ∅ s2 = (Ok (None, ∅), s2)) ∨
  (¬ (Forall dialable cfgs ∧ NoDup (cc_Name <$> cfgs)) ∧
   ∃ e s1, NewRegistry cfgs s = (Err e, s1) ∧ opened s1 = opened s).
Proof.
  intros Hok. unfold NewRegistry, Get. destruct (foldM_dial s cfgs ∅ s Hok (dialing_start s))
    as [(Hc & Hn & _ & r & s1 & Hrun & Hd & Hdom)|(Hno & e & s1 & Hrun & Ho)].
  - left. split_and!; [done..|]. exists r, s1. split_and!; [done|..].
    + intros name. rewrite <-elem_of_dom, Hdom, dom_empty_L. set_solver.
    + intros name c H. rewrite (dl_open _ _ _ Hd). pose proof (dl_new _ _ _ Hd _ _ H). split.
      * apply elem_of_union. right. apply elem_of_conns. by exists name.
      * intros ?%Hok. lia.
    + apply (dl_inj _ _ _ Hd).
    + destruct (Close_run r s1) as [e Hclose]. eexists e, _. split_and!; [exact Hclose| |done]. by apply dialing_closed.
  - right. split; [|by eauto]. intros [H1 H2]. apply Hno. split_and!; [done..|]. by apply Forall_true.
Qed.
End registry.

(** ** A registry *)

Definition two : list ConnectionConfig :=
  [mkConnectionConfig "a" (mkAddress AddressTypeGRPC "host-a:1"); mkConnectionConfig "b" (mkAddress AddressTypeGRPC "host-b:1")].
Definition host_b_down (url : string) : option error := if String.eqb url "host-b:1" then Some (EForeign "dial") else None.
Definition before : net := mkNet 1 {[0]}.

Example dial_both : (NewRegistry (λ _, None) (λ _, None) map_to_list two before).1 = Ok {["a" := 1; "b" := 2]}.
Proof. vm_compute. reflexivity. Qed.

Lemma registry_all_or_nothing_witness :
  ∃ e s1, NewRegistry host_b_down (λ _, None) map_to_list two before = (Err e, s1) ∧ opened s1 = opened before.
Proof.
  destruct (registry_all_or_nothing host_b_down (λ _, None) map_to_list (λ _, reflexivity _) two before)
    as [(H & _)|(_ & H)]; [| |exact H].
  - intros c H. change (c ∈ ({[0]} : gset nat)) in H. apply elem_of_singleton in H as ->. apply Nat.lt_0_1.
  - unfold two in H. rewrite !Forall_cons in H. destruct H as (_ & (_ & H) & _). discriminate H.
Defined.
End GrpcConn.
