(* ===== verification/GoText.v ===== *)
(** * Text of the Go standard library: runes and tab-aligned columns

    - [runes] is the conversion [[]rune(s)] of a byte string (package
      [unicode/utf8]): a byte that does not begin a well-formed sequence is
      [RuneError], one per byte; [of_runes] is [string(rs)].
    - [tabwriter] is package [text/tabwriter] as the client uses it:
      [NewWriter(w, 0, 0, 2, ' ', 0)], lines written whole, then [Flush].  A
      cell that a tab ends belongs to the column of the lines above and below
      that have such a cell too; the column is as wide as its widest cell and
      two spaces.  The bytes [\v], [\f] and [0xff], which the package treats
      specially, are ordinary characters here. *)

From S2P Require Import Prelude GoStrings.
From Stdlib Require Import Ascii.

Local Open Scope string_scope.

(** ** Runes *)

Definition byte_of (c : ascii) : Z := Z.of_nat (nat_of_ascii c).
Definition of_byte (z : Z) : ascii := ascii_of_nat (Z.to_nat z).

Definition RuneError : Z := 65533.

Local Open Scope Z_scope.

Definition within (lo hi b : Z) : bool := ((lo <=? b) && (b <=? hi))%bool.
Definition cont (b : Z) : bool := within 128 191 b.

(** The well-formed sequences of two, three and four bytes. *)
Definition seq2 (b0 b1 : Z) : bool := (within 194 223 b0 && cont b1)%bool.
Definition seq3 (b0 b1 b2 : Z) : bool :=
  (((b0 =? 224) && within 160 191 b1 || within 225 236 b0 && cont b1 ||
    (b0 =? 237) && within 128 159 b1 || within 238 239 b0 && cont b1) && cont b2)%bool.
Definition seq4 (b0 b1 b2 b3 : Z) : bool :=
  (((b0 =? 240) && within 144 191 b1 || within 241 243 b0 && cont b1 ||
    (b0 =? 244) && within 128 143 b1) && cont b2 && cont b3)%bool.

Definition rune2 (b0 b1 : Z) : Z := (b0 - 192) * 64 + (b1 - 128).
Definition rune3 (b0 b1 b2 : Z) : Z := (b0 - 224) * 4096 + (b1 - 128) * 64 + (b2 - 128).
Definition rune4 (b0 b1 b2 b3 : Z) : Z :=
  (b0 - 240) * 262144 + (b1 - 128) * 4096 + (b2 - 128) * 64 + (b3 - 128).

Fixpoint decode_utf8 (l : list ascii) : list Z :=
  match l with
  | [] => []
  | a0 :: l1 =>
      let b0 := byte_of a0 in
      if b0 <? 128 then b0 :: decode_utf8 l1 else
      match l1 with
      | [] => RuneError :: decode_utf8 l1
      | a1 :: l2 =>
          let b1 := byte_of a1 in
          if seq2 b0 b1 then rune2 b0 b1 :: decode_utf8 l2 else
          match l2 with
          | [] => RuneError :: decode_utf8 l1
          | a2 :: l3 =>
              let b2 := byte_of a2 in
              if seq3 b0 b1 b2 then rune3 b0 b1 b2 :: decode_utf8 l3 else
              match l3 with
              | [] => RuneError :: decode_utf8 l1
              | a3 :: l4 =>
                  let b3 := byte_of a3 in
                  if seq4 b0 b1 b2 b3 then rune4 b0 b1 b2 b3 :: decode_utf8 l4 else RuneError :: decode_utf8 l1
              end
          end
      end
  end.

(** A surrogate or a number past the last code point is written as [RuneError]. *)
Definition scalar (r : Z) : bool := (within 0 55295 r || within 57344 1114111 r)%bool.

Definition encode_rune (r : Z) : list ascii :=
  let r := if scalar r then r else RuneError in
  of_byte <$> (if r <? 128 then [r]
   else if r <? 2048 then [192 + r / 64; 128 + r mod 64]
   else if r <? 65536 then [224 + r / 4096; 128 + r / 64 mod 64; 128 + r mod 64]
   else [240 + r / 262144; 128 + r / 4096 mod 64; 128 + r / 64 mod 64; 128 + r mod 64]).
Definition encode_utf8 (rs : list Z) : list ascii := mjoin (encode_rune <$> rs).

Definition runes (s : string) : list Z := decode_utf8 (chars s).
Definition of_runes (rs : list Z) : string := unchars (encode_utf8 rs).

Lemma byte_of_byte z : 0 ≤ z < 256 → byte_of (of_byte z) = z.
Proof. intros H. unfold byte_of, of_byte. rewrite nat_ascii_embedding by lia. lia. Qed.
Lemma byte_of_range c : 0 ≤ byte_of c < 256.
Proof. unfold byte_of. pose proof (nat_ascii_bounded c). lia. Qed.

Ltac zlia := Z.to_euclidean_division_equations; lia.
Ltac bounds := unfold scalar, seq2, seq3, seq4, cont, within, rune2, rune3, rune4, RuneError in *;
  repeat rewrite ?andb_true_iff, ?orb_true_iff, ?andb_false_iff, ?orb_false_iff, ?Z.leb_le, ?Z.ltb_lt, ?Z.eqb_eq,
    ?Z.leb_gt, ?Z.ltb_ge, ?Z.eqb_neq in *.

(** One rune at a time; it can always be encoded. *)
Lemma decode_step l :
  l ≠ [] → ∃ r n, decode_utf8 l = r :: decode_utf8 (drop (S n) l) ∧ (n < length l)%nat ∧ scalar r = true.
Proof.
  destruct l as [|a0 l1]; [done|]. intros _. pose proof (byte_of_range a0).
  cbn [decode_utf8]. destruct (byte_of a0 <? 128) eqn:E0; [exists (byte_of a0), 0%nat; split_and!; [done|simpl; lia|bounds; lia]|].
  assert (∃ r n, RuneError :: decode_utf8 l1 = r :: decode_utf8 (drop (S n) (a0 :: l1)) ∧ (n < length (a0 :: l1))%nat ∧ scalar r = true)
    as Herr by (exists RuneError, 0%nat; split_and!; [done|simpl; lia|done]).
  destruct l1 as [|a1 l2]; [exact Herr|].
  destruct (seq2 _ _) eqn:E2; [eexists _, 1%nat; split_and!; [done|simpl; lia|bounds; lia]|].
  destruct l2 as [|a2 l3]; [exact Herr|].
  destruct (seq3 _ _ _) eqn:E3; [eexists _, 2%nat; split_and!; [done|simpl; lia|bounds; lia]|].
  destruct l3 as [|a3 l4]; [exact Herr|].
  destruct (seq4 _ _ _ _) eqn:E4; [eexists _, 3%nat; split_and!; [done|simpl; lia|bounds; lia]|].
  exact Herr.
Qed.

Lemma decode_ok l : Forall (λ r, scalar r = true) (decode_utf8 l) ∧ (length (decode_utf8 l) ≤ length l)%nat.
Proof.
  remember (length l) as n eqn:Hn. revert l Hn. induction (lt_wf n) as [n _ IH]. intros l ->.
  destruct (decide (l = [])) as [->|Hl]; [by split; [constructor|simpl; lia]|].
  destruct (decode_step l Hl) as (r & k & -> & Hk & Hr).
  destruct (IH (length (drop (S k) l)) ltac:(rewrite length_drop; lia) (drop (S k) l) eq_refl) as [H1 H2].
  split; [by constructor|]. rewrite length_drop in H2. simpl. lia.
Qed.

(** Encoding and decoding. *)
Lemma decode_encode_rune r l : scalar r = true → decode_utf8 (encode_rune r ++ l) = r :: decode_utf8 l.
Proof.
  intros Hr. unfold encode_rune. rewrite Hr.
  destruct (r <? 128) eqn:E1; [|destruct (r <? 2048) eqn:E2; [|destruct (r <? 65536) eqn:E3]]; cbn [fmap list_fmap app decode_utf8].
  - rewrite byte_of_byte by (bounds; zlia). by rewrite E1.
  - rewrite !byte_of_byte by (bounds; zlia). rewrite (proj2 (Z.ltb_ge _ _)) by (bounds; zlia).
    replace (seq2 _ _) with true by (symmetry; bounds; zlia). f_equal. bounds. zlia.
  - rewrite !byte_of_byte by (bounds; zlia). rewrite (proj2 (Z.ltb_ge _ _)) by (bounds; zlia).
    replace (seq2 _ _) with false by (symmetry; bounds; zlia).
    replace (seq3 _ _ _) with true by (symmetry; bounds; zlia). f_equal. bounds. zlia.
  - rewrite !byte_of_byte by (bounds; zlia). rewrite (proj2 (Z.ltb_ge _ _)) by (bounds; zlia).
    replace (seq2 _ _) with false by (symmetry; bounds; zlia).
    replace (seq3 _ _ _) with false by (symmetry; bounds; zlia).
    replace (seq4 _ _ _ _) with true by (symmetry; bounds; zlia). f_equal. bounds. zlia.
Qed.

Lemma decode_encode_runes rs l : Forall (λ r, scalar r = true) rs → decode_utf8 (encode_utf8 rs ++ l) = (rs ++ decode_utf8 l)%list.
Proof.
  induction 1 as [|r rs Hr _ IH]; [done|].
  change (encode_utf8 (r :: rs)) with (encode_rune r ++ encode_utf8 rs)%list.
  rewrite <-app_assoc, decode_encode_rune, IH by done. done.
Qed.

Lemma runes_of_runes rs s : Forall (λ r, scalar r = true) rs → runes (of_runes rs +:+ s) = (rs ++ runes s)%list.
Proof. intros H. unfold runes, of_runes. rewrite chars_app, chars_unchars. by apply decode_encode_runes. Qed.

(** Plain ASCII text. *)
Definition ascii_text (s : string) : Prop := Forall (λ c, byte_of c < 128) (chars s).
Lemma runes_ascii s : ascii_text s → length (runes s) = String.length s.
Proof.
  unfold ascii_text, runes. induction s as [|c s IH]; [done|]. cbn [chars]. rewrite Forall_cons. intros [Hc Hs].
  cbn [decode_utf8]. rewrite (proj2 (Z.ltb_lt _ _) Hc). simpl. by rewrite IH.
Qed.

(** ** Columns *)

Local Open Scope nat_scope.

Definition newline : ascii := ascii_of_nat 10.
Definition tab : ascii := ascii_of_nat 9.
Definition width (cell : string) : nat := length (runes cell).

(** The runs of lines that have a cell: for each line the widest cell of its run
    from the line on, and up to the line. *)
Fixpoint run_from (l : list (option nat)) : list nat :=
  match l with
  | [] => []
  | None :: l => 0 :: run_from l
  | Some n :: l => let r := run_from l in max n (hd 0 r) :: r
  end.
Fixpoint run_to (acc : nat) (l : list (option nat)) : list nat :=
  match l with
  | [] => []
  | None :: l => 0 :: run_to 0 l
  | Some n :: l => max acc n :: run_to (max acc n) l
  end.

(** Cell [j] of a line, if a tab ends it. *)
Definition column_cell (j : nat) (cells : list string) : option nat :=
  if S j <? length cells then width <$> cells !! j else None.
Definition column (j : nat) (lines : list (list string)) : list nat :=
  let l := column_cell j <$> lines in zip_with max (run_from l) (run_to 0 l).

Definition padding : nat := 2.
Definition spaces (n : nat) : string := unchars (replicate n " "%char).

(** One line, with the widths of its columns. *)
Fixpoint write_cells (widths : list nat) (cells : list string) : string :=
  match cells, widths with
  | [], _ => ""
  | [c], _ => c
  | c :: cells, w :: widths => c +:+ spaces (w + padding - width c) +:+ write_cells widths cells
  | c :: cells, [] => c +:+ write_cells [] cells
  end.
Definition line_widths (lines : list (list string)) (i : nat) (cells : list string) : list nat :=
  (λ j, nth i (column j lines) 0) <$> seq 0 (length cells - 1).

Definition align (lines : list (list string)) : list string :=
  imap (λ i cells, write_cells (line_widths lines i cells) cells) lines.

Definition tabwriter (text : string) : string :=
  join (String newline "") (align (split tab <$> split newline text)).

(** No line break comes or goes. *)
Lemma write_cells_chars c ws cells :
  c ≠ " "%char → (∀ s, s ∈ cells → c ∉ chars s) → c ∉ chars (write_cells ws cells).
Proof.
  intros Hc. revert ws. induction cells as [|s cells IH]; intros ws H; [apply not_elem_of_nil|].
  assert (c ∉ chars s) as Hs by (apply H; left).
  assert (∀ ws, c ∉ chars (write_cells ws cells)) as Hr by (intros; apply IH; intros; apply H; by right).
  assert (∀ n, c ∉ chars (spaces n)) as Hsp.
  { intros n. unfold spaces. rewrite chars_unchars. intros [? _]%elem_of_replicate. done. }
  destruct cells as [|s' cells]; [by destruct ws|]. destruct ws as [|w ws].
  - change (c ∉ chars (s +:+ write_cells [] (s' :: cells))). rewrite chars_app, not_elem_of_app. auto.
  - change (c ∉ chars (s +:+ spaces (w + padding - width s) +:+ write_cells ws (s' :: cells))).
    rewrite !chars_app, !not_elem_of_app. auto.
Qed.

Lemma tabwriter_lines text : split newline (tabwriter text) = align (split tab <$> split newline text).
Proof.
  unfold tabwriter. apply split_join.
  - intros H%(f_equal length). unfold align in H. rewrite length_imap, length_fmap in H. simpl in H.
    apply (split_nonempty newline text), nil_length_inv. done.
  - apply Forall_lookup. intros i s H. unfold align in H. rewrite list_lookup_imap in H.
    apply fmap_Some in H as (cells & Hc & ->). rewrite list_lookup_fmap in Hc. apply fmap_Some in Hc as (l & Hl & ->).
    apply write_cells_chars; [done|]. intros s Hs Hin.
    pose proof (split_pieces newline text) as Hp. rewrite Forall_lookup in Hp. apply (Hp _ _ Hl).
    rewrite <-(join_split tab l). clear Hp Hl. induction (split tab l) as [|p ps IH]; [by apply elem_of_nil in Hs|].
    destruct ps as [|q ps]; [apply list_elem_of_singleton in Hs as ->; done|].
    rewrite join_cons, !chars_app, !elem_of_app by done. apply elem_of_cons in Hs as [->|Hs]; auto.
Qed.
