(* ===== verification/Output.v ===== *)
(** * The output of the command line client (cli/output, cli/cmd/format.go)

    [From] turns a value into rows by reflection, formatters change cells, and
    [To] renders the rows as aligned columns, as JSON or as name-value lines;
    [Select] hands the rows to a selector.  [value] has the kinds of values the
    client shows, as package [reflect] sees them; [sprint] is the verb [%v].
    Parameters: the text of an address, of a time in the local zone, and the
    JSON encoder.  The writer takes everything. *)

From S2P Require Import Prelude GoStrings GoRuntime Model GoText.
From Stdlib Require Import Ascii.

Local Open Scope string_scope.

Module Output.
Definition ErrUnsupportedType : string := "output.ErrUnsupportedType".
Definition ErrNoRows : string := "output.ErrNoRows".

(** ** Values *)

Inductive value :=
  | VNil                                    (* a nil interface *)
  | VPointer (target : option value)
  | VStruct (fields : list (string * value))
  | VSlice (elems : list value)
  | VUnixNano (t : Z)
  | VLabels (l : Labels)
  | VString (s : string)
  | VBool (b : bool).

Record Cell := mkCell { c_Name : string; c_Value : value }.
Notation Row := (list Cell).
Notation Rows := (list (list Cell)).

Inductive Format := Tabular | JSON | KeyValue.
Notation Formatter := (string → value → option value).

Section output.
Context (address : value → string) (rfc3339 : Z → string) (json : list (gmap string value) → string + error).

(** [fmt.Sprintf("%v", v)]. *)
Fixpoint sprint (v : value) : string :=
  match v with
  | VNil => "<nil>"
  | VPointer None => "<nil>"
  | VPointer (Some v) => address v
  | VStruct fields =>
      "{" +:+ join " " ((fix go (l : list (string * value)) : list string :=
                          match l with [] => [] | (_, v) :: l => sprint v :: go l end) fields) +:+ "}"
  | VSlice elems => "[" +:+ join " " (sprint <$> elems) +:+ "]"
  | VUnixNano t => itoa t
  | VLabels l => Labels_String l
  | VString s => s
  | VBool b => if b then "true" else "false"
  end.

(** ** Parsing *)

Fixpoint unwrap (v : value) : value :=
  match v with VPointer (Some v) => unwrap v | v => v end.

(** [Interface] panics on a field that is not exported. *)
Definition exported (name : string) : bool :=
  match name with String c _ => within 65 90 (byte_of c) | EmptyString => false end.

(** [NumField] panics on what is not a struct. *)
Definition parseRow (structVal : value) : result Row :=
  match structVal with
  | VStruct fields =>
      if forallb (λ f, exported f.1) fields then Ok ((λ f, mkCell f.1 f.2) <$> fields) else Panic
  | _ => Panic
  end.
Definition parseStruct (v : value) : result Rows :=
  match parseRow v with Ok r => Ok [r] | Err e => Err e | Panic => Panic | Diverge => Diverge end.

Fixpoint parse_items (l : list value) : result Rows :=
  match l with
  | [] => Ok []
  | v :: l =>
      match parseRow (unwrap v), parse_items l with
      | Ok r, Ok rows => Ok (r :: rows)
      | _, _ => Panic
      end
  end.
Definition parseSlice (elems : list value) : result Rows :=
  match elems with
  | [] => Ok []
  | v :: _ => match unwrap v with VStruct _ => parse_items elems | _ => Err (ESentinel ErrUnsupportedType) end
  end.

Definition parse (v : value) : result Rows :=
  match unwrap v with
  | VNil => Ok []
  | VStruct fields => parseStruct (VStruct fields)
  | VSlice elems => parseSlice elems
  | _ => Err (ESentinel ErrUnsupportedType)
  end.

(** ** The builder *)

Record Builder := mkBuilder { b_rows : Rows; b_format : Format; b_formatters : list Formatter }.

Definition From (v : value) : result Builder :=
  match parse v with
  | Ok rows => Ok (mkBuilder rows Tabular [])
  | Err e => Err e
  | Panic => Panic
  | Diverge => Diverge
  end.

Definition ForName (name : string) (fn : value → value) : Formatter :=
  λ n v, if String.eqb n name then Some (fn v) else None.
(** [ForType[T]]: [cast] is the type assertion [value.(T)]. *)
Definition ForType {T} (cast : value → option T) (fn : T → value) : Formatter :=
  λ _ v, fn <$> cast v.

Definition Builder_Format (b : Builder) (fs : list Formatter) : Builder :=
  mkBuilder (b_rows b) (b_format b) (b_formatters b ++ fs)%list.
Definition As (b : Builder) (f : Format) : Builder := mkBuilder (b_rows b) f (b_formatters b).

Definition format_cell (fs : list Formatter) (c : Cell) : Cell :=
  mkCell (c_Name c) (fold_left (λ v f, default v (f (c_Name c) v)) fs (c_Value c)).
(** It changes the rows of the builder. *)
Definition applyFormatters (b : Builder) : Builder :=
  mkBuilder (map (map (format_cell (b_formatters b))) (b_rows b)) (b_format b) (b_formatters b).

(** [strings.Join(values, "\t")] and a line break for each row. *)
Definition row_text (row : Row) : string := join (String tab "") ((λ c, sprint (c_Value c)) <$> row).
Definition lines_text (lines : list string) : string := fold_right (λ l t, l +:+ String newline t) "" lines.

Definition renderTabular (rows : Rows) : string :=
  match rows with
  | [] => ""
  | row :: _ => tabwriter (lines_text (join (String tab "") (c_Name <$> row) :: (row_text <$> rows)))
  end.

Definition row_object (r : Row) : gmap string value := fold_left (λ o c, <[c_Name c := c_Value c]> o) r ∅.
Definition renderJSON (rows : Rows) : string + error :=
  match json (row_object <$> rows) with
  | inl s => inl (s +:+ String newline "")
  | inr e => inr e
  end.

Definition cell_line (c : Cell) : string := c_Name c +:+ ": " +:+ sprint (c_Value c).
Definition renderKeyValue (rows : Rows) : string :=
  fold_right (λ t rest, t +:+ rest) ""
    (imap (λ i r, (if decide (i = 0) then "" else String newline "") +:+ lines_text (cell_line <$> r)) rows).

(** [To]: what is written, and the builder afterwards. *)
Definition To (b : Builder) : (string + error) * Builder :=
  let b := applyFormatters b in
  (match b_format b with
   | JSON => renderJSON (b_rows b)
   | KeyValue => inl (renderKeyValue (b_rows b))
   | Tabular => inl (renderTabular (b_rows b))
   end, b).

(** [Select], with a selector whose answer may not come. *)
Definition Select (b : Builder) (sel : Rows → option (Z + error)) : option (Z + error) * Builder :=
  match b_rows b with
  | [] => (Some (inr (ESentinel ErrNoRows)), b)
  | _ => let b := applyFormatters b in (sel (b_rows b), b)
  end.

(** ** cli/cmd/format.go *)

Definition timeFormatter : Formatter :=
  ForType (λ v, match v with VUnixNano t => Some t | _ => None end)
    (λ t, VString (if (t =? 0)%Z then "" else rfc3339 t)).
Definition labelsFormatter : Formatter :=
  ForType (λ v, match v with VLabels l => Some l | _ => None end) (λ l, VString (Labels_String l)).

Definition formatOutput (b : Builder) (asJSON : bool) : Builder :=
  if asJSON then As (Builder_Format b [timeFormatter]) JSON
  else As (Builder_Format b [timeFormatter; labelsFormatter]) Tabular.

(** ** Lemmas *)

Lemma split_lines lines :
  Forall (λ l, newline ∉ chars l) lines → split newline (lines_text lines) = (lines ++ [""])%list.
Proof.
  induction 1 as [|l lines Hl _ IH]; [done|]. cbn [lines_text fold_right].
  rewrite split_app_sep by done. fold (lines_text lines). by rewrite IH.
Qed.

Lemma parse_slice_rows elems rows : parse (VSlice elems) = Ok rows → length rows = length elems.
Proof.
  assert (∀ l r, parse_items l = Ok r → length r = length l) as Hitems.
  { induction l as [|v l IH]; simpl; [by intros ? [= <-]|]. intros r.
    destruct (parseRow (unwrap v)), (parse_items l) as [rows'| | |]; try done. intros [= <-]. simpl. by rewrite (IH rows'). }
  unfold parse, parseSlice. simpl. destruct elems as [|v l]; [by intros [= <-]|].
  destruct (unwrap v); try done. apply Hitems.
Qed.
End output.
End Output.
