(* ===== verification/Terminal.v ===== *)
(** * The interactive selector (cli/output/terminal)

    [Selector] shows the rows in a window of at most five lines and lets the
    user move through them.  The terminal is what the code asks of it: whether
    the input is a file and a terminal, whether raw mode can be set, its width;
    the input is the list of what successive reads return (a read at the end
    of the input returns no bytes).  An answer [None] says that [run] is still
    waiting after these reads. *)

From S2P Require Import Prelude GoStrings GoRuntime Model GoText Output.
From Stdlib Require Import Ascii.

Local Open Scope string_scope.

Module Terminal.
Import Output.
Definition ErrInterrupt : string := "terminal.ErrInterrupt".
Definition ErrNoItems : string := "terminal.ErrNoItems".
Definition ErrNotFile : string := "terminal.ErrNotFile".
Definition ErrNotTerminal : string := "terminal.ErrNotTerminal".

(** ** Control sequences *)

Definition ESC : ascii := ascii_of_nat 27.
Definition CR : ascii := ascii_of_nat 13.
Definition crlf : string := String CR (String newline "").
Definition clearLine : string := String ESC "[2K".
Definition hideCursor : string := String ESC "[?25l".
Definition showCursor : string := String ESC "[?25h".
Definition invert : string := String ESC "[7m".
Definition dim : string := String ESC "[2m".
Definition resetStyle : string := String ESC "[0m".
(** [\033[%dA]: up by [n] lines. *)
Definition up (n : Z) : string := String ESC ("[" +:+ itoa n +:+ "A").

Definition itemPrefixLen : Z := 4.
Definition maxVisibleItems : Z := 5.

(** ** Keys *)

Inductive key := keyUnknown | keyUp | keyDown | keyEnter | keyCtrlC | keyEsc.
#[export] Instance key_eq_dec : EqDecision key.
Proof. solve_decision. Defined.

(** [readKey], on the bytes one read returned (at most three). *)
Definition readKey (buf : list ascii) : key :=
  match byte_of <$> buf with
  | [b] =>
      if ((b =? 13) || (b =? 10))%Z%bool then keyEnter
      else if (b =? 3)%Z then keyCtrlC
      else if (b =? 27)%Z then keyEsc
      else if (b =? 107)%Z then keyUp
      else if (b =? 106)%Z then keyDown
      else keyUnknown
  | [b0; b1; b2] =>
      if ((b0 =? 27) && (b1 =? 91))%Z%bool then
        if (b2 =? 65)%Z then keyUp else if (b2 =? 66)%Z then keyDown else keyUnknown
      else keyUnknown
  | _ => keyUnknown
  end.

(** ** The selection *)

Record selection := mkSelection { items : list string; cursor : Z; scrollOffset : Z; viewHeight : Z }.

Local Open Scope Z_scope.

Definition moveUp (s : selection) : selection :=
  if 0 <? cursor s then
    let c := cursor s - 1 in
    mkSelection (items s) c (if c <? scrollOffset s then c else scrollOffset s) (viewHeight s)
  else s.

Definition moveDown (s : selection) : selection :=
  if cursor s <? Z.of_nat (length (items s)) - 1 then
    let c := cursor s + 1 in
    mkSelection (items s) c
      (if scrollOffset s + viewHeight s <=? c then c - viewHeight s + 1 else scrollOffset s) (viewHeight s)
  else s.

(** [render]: the lines from [scrollOffset] to [view_end]. *)
Definition view_end (s : selection) : Z := Z.min (scrollOffset s + viewHeight s) (Z.of_nat (length (items s))).
Definition render_item (s : selection) (i : Z) (item : string) : string :=
  clearLine +:+ (if i =? cursor s then "  " +:+ invert +:+ "> " +:+ item +:+ resetStyle +:+ crlf
                 else "    " +:+ item +:+ crlf).
Definition visible (s : selection) : list string :=
  take (Z.to_nat (view_end s - scrollOffset s)) (drop (Z.to_nat (scrollOffset s)) (items s)).
Definition render (s : selection) : string :=
  hideCursor +:+
  fold_right String.append "" (imap (λ k item, render_item s (scrollOffset s + Z.of_nat k) item) (visible s)) +:+
  clearLine +:+ dim +:+ "[use arrows or j/k to move, enter to select, ctrl+c or esc to cancel]" +:+ resetStyle +:+
  String CR (up (view_end s - scrollOffset s)).

Definition clear (s : selection) : string :=
  fold_right String.append "" (replicate (Z.to_nat (viewHeight s + 1)) (clearLine +:+ crlf)) +:+ up (viewHeight s + 1).

(** [run]: the answer and what was written. *)
Fixpoint run (reads : list (list ascii)) (s : selection) (out : string) : option (Z + error) * string :=
  let out := out +:+ render s in
  match reads with
  | [] => (None, out)
  | buf :: reads =>
      match readKey buf with
      | keyUp => run reads (moveUp s) out
      | keyDown => run reads (moveDown s) out
      | keyEnter => (Some (inl (cursor s)), out +:+ clear s)
      | keyCtrlC | keyEsc => (Some (inr (ESentinel ErrInterrupt)), out +:+ clear s)
      | keyUnknown => run reads s out
      end
  end.

(** ** Rows *)

Definition truncate (s : string) (maxWidth : Z) : string :=
  if maxWidth <? 1 then "" else
  let rs := runes s in
  if Z.of_nat (length rs) <=? maxWidth then s
  else if maxWidth <=? 3 then "..."
  else of_runes (take (Z.to_nat (maxWidth - 3)) rs) +:+ "...".

(** [strings.TrimSuffix(s, "\n")]. *)
Fixpoint trim_newline (s : string) : string :=
  match s with
  | EmptyString => ""
  | String c rest => if (Ascii.eqb c newline && String.eqb rest "")%bool then "" else String c (trim_newline rest)
  end.

Section selector.
Context (address : value → string).

Definition renderRows (rows : Rows) (maxWidth : Z) : list string :=
  match rows with
  | [] => []
  | _ => (λ line, truncate line maxWidth) <$> split newline (trim_newline (tabwriter (lines_text (row_text address <$> rows))))
  end.

(** What the code asks of the terminal. *)
Record tty := mkTty {
  is_file : bool;
  is_terminal : bool;
  raw_error : option error;   (* of term.MakeRaw *)
  size : option Z;            (* the width of term.GetSize *)
}.

Definition setupRawMode (t : tty) : option error :=
  if negb (is_terminal t) then Some (ESentinel ErrNotTerminal) else raw_error t.

Definition new_selection (t : tty) (rows : Rows) : selection :=
  let viewWidth := default 80 (size t) in
  mkSelection (renderRows rows (viewWidth - itemPrefixLen - 1)) 0 0 (Z.min maxVisibleItems (Z.of_nat (length rows))).

Definition Selector (t : tty) (reads : list (list ascii)) (rows : Rows) : option (Z + error) * string :=
  if (length rows =? 0)%nat then (Some (inr (ESentinel ErrNoItems)), "") else
  if negb (is_file t) then (Some (inr (ESentinel ErrNotFile)), "") else
  match setupRawMode t with
  | Some e => (Some (inr e), "")
  | None =>
      let '(r, out) := run reads (new_selection t rows) "" in
      (r, match r with Some _ => out +:+ showCursor | None => out end)
  end.
End selector.

(** ** The window *)

(** The cursor is in the window and the window is on the items. *)
Record in_view (s : selection) : Prop := {
  iv_top : 0 ≤ scrollOffset s;
  iv_cursor : scrollOffset s ≤ cursor s < scrollOffset s + viewHeight s;
  iv_bottom : scrollOffset s + viewHeight s ≤ Z.of_nat (length (items s));
}.

Lemma moveUp_view s : in_view s → in_view (moveUp s).
Proof.
  intros [H1 H2 H3]. unfold moveUp. destruct (Z.ltb_spec 0 (cursor s)); [|by split].
  split; simpl; destruct (Z.ltb_spec (cursor s - 1) (scrollOffset s)); lia.
Qed.
Lemma moveDown_view s : in_view s → in_view (moveDown s).
Proof.
  intros [H1 H2 H3]. unfold moveDown. destruct (Z.ltb_spec (cursor s) (Z.of_nat (length (items s)) - 1)); [|by split].
  split; simpl; destruct (Z.leb_spec (scrollOffset s + viewHeight s) (cursor s + 1)); lia.
Qed.

(** The line drawn in reverse is the item under the cursor. *)
Lemma cursor_visible s :
  in_view s → ∃ k item, visible s !! k = Some item ∧ scrollOffset s + Z.of_nat k = cursor s ∧
    items s !! Z.to_nat (cursor s) = Some item.
Proof.
  intros [H1 H2 H3]. destruct (lookup_lt_is_Some_2 (items s) (Z.to_nat (cursor s))) as [item Hi]; [lia|].
  exists (Z.to_nat (cursor s - scrollOffset s)), item. unfold visible, view_end.
  rewrite lookup_take_lt, lookup_drop by lia.
  split_and!; [|lia|done]. by replace (Z.to_nat (scrollOffset s) + Z.to_nat (cursor s - scrollOffset s))%nat
    with (Z.to_nat (cursor s)) by lia.
Qed.

(** ** Reference: a position among [n] items *)

(** The answer to the keys: up and down stop at the ends. *)
Fixpoint choose (n : Z) (pos : Z) (keys : list key) : option (Z + error) :=
  match keys with
  | [] => None
  | keyUp :: keys => choose n (Z.max 0 (pos - 1)) keys
  | keyDown :: keys => choose n (Z.min (n - 1) (pos + 1)) keys
  | keyEnter :: _ => Some (inl pos)
  | keyCtrlC :: _ | keyEsc :: _ => Some (inr (ESentinel ErrInterrupt))
  | keyUnknown :: keys => choose n pos keys
  end.

Lemma run_choose reads : ∀ s out,
  in_view s → (run reads s out).1 = choose (Z.of_nat (length (items s))) (cursor s) (readKey <$> reads).
Proof.
  induction reads as [|buf reads IH]; intros s out Hv; [done|]. cbn [run fmap list_fmap choose].
  destruct (readKey buf); try done.
  - by apply IH.
  - rewrite IH by (by apply moveUp_view). destruct Hv. unfold moveUp.
    destruct (Z.ltb_spec 0 (cursor s)); simpl; f_equal; lia.
  - rewrite IH by (by apply moveDown_view). destruct Hv. unfold moveDown.
    destruct (Z.ltb_spec (cursor s) (Z.of_nat (length (items s)) - 1)); simpl; f_equal; lia.
Qed.

Lemma choose_range n keys : ∀ pos i, 0 ≤ pos < n → choose n pos keys = Some (inl i) → 0 ≤ i < n.
Proof.
  induction keys as [|k keys IH]; intros pos i Hp; simpl; [done|].
  destruct k; [by apply IH|apply IH; lia|apply IH; lia|congruence|done|done].
Qed.

Lemma choose_error n keys : ∀ pos e, choose n pos keys = Some (inr e) → e = ESentinel ErrInterrupt.
Proof. induction keys as [|k keys IH]; intros pos e; simpl; [done|]. destruct k; try done; try apply IH; congruence. Qed.

(** ** Lines and rows *)

Lemma trim_newline_app s : trim_newline (s +:+ String newline "") = s.
Proof.
  induction s as [|c s IH]; [done|].
  change (trim_newline (String c s +:+ String newline "")) with
    (if (Ascii.eqb c newline && String.eqb (s +:+ String newline "") "")%bool then ""
     else String c (trim_newline (s +:+ String newline ""))).
  rewrite IH. destruct (String.eqb_spec (s +:+ String newline "") "") as [H|_]; [by destruct s|]. by rewrite andb_false_r.
Qed.

Lemma join_snoc sep l s : l ≠ [] → join sep (l ++ [s])%list = join sep l +:+ sep +:+ s.
Proof.
  induction l as [|x l IH]; [done|]. intros _. destruct l as [|y l]; [done|].
  change ((x :: y :: l) ++ [s])%list with (x :: ((y :: l) ++ [s]))%list.
  rewrite join_cons by done. rewrite IH by done. rewrite (join_cons sep x (y :: l)) by done. by rewrite !str_app_assoc.
Qed.

(** One item per row, unless a cell has a line break. *)
Lemma renderRows_length address rows w :
  rows ≠ [] → Forall (λ r, newline ∉ chars (row_text address r)) rows → length (renderRows address rows w) = length rows.
Proof.
  intros Hne Hn. unfold renderRows. destruct rows as [|r0 rows0] eqn:Hrows; [done|]. rewrite <-Hrows in *.
  set (lines := row_text address <$> rows). rewrite length_fmap.
  assert (Forall (λ l, newline ∉ chars l) lines) as Hl by (by apply Forall_fmap).
  pose proof (tabwriter_lines (lines_text lines)) as Ht. rewrite split_lines in Ht by done.
  rewrite fmap_app in Ht. unfold align in Ht. rewrite imap_app in Ht. cbn [fmap list_fmap imap] in Ht.
  pose proof (join_split newline (tabwriter (lines_text lines))) as Hj. rewrite Ht in Hj.
  set (A := imap _ (split tab <$> lines)) in *.
  assert (length A = length rows) as HA by (unfold A, lines; by rewrite length_imap, !length_fmap).
  assert (A ≠ []) as HA0 by (intros H; rewrite H in HA; by destruct rows).
  assert (∀ ws, write_cells ws (split tab "") = "") as Hlast by done.
  rewrite join_snoc, Hlast, str_app_nil_r in Hj by done. rewrite <-Hj.
  rewrite trim_newline_app, split_join; [done|done|].
  pose proof (split_pieces newline (tabwriter (lines_text lines))) as Hp. rewrite Ht, Forall_app in Hp. by destruct Hp.
Qed.

(** ** Choosing a tenant (cli/cmd/select.go) *)

Section tenants.
Context (address : value → string) (rfc3339 : Z → string).

(** [model.Tenant] as [reflect] sees it. *)
Definition tenant_value (t : Tenant) : value :=
  VStruct [("ID", VString (t_ID t)); ("Name", VString (t_Name t)); ("Labels", VLabels (t_Labels t));
           ("CreatedAt", VUnixNano (t_CreatedAt t)); ("UpdatedAt", VUnixNano (t_UpdatedAt t))].

(** [selectTenantInteractive], after [ListTenants]; [None]: no answer yet. *)
Definition selectTenantInteractive (listed : list Tenant + error) (t : tty) (reads : list (list ascii))
    : option (result Tenant) :=
  match listed with
  | inr e => Some (Err (wrap1 e))
  | inl [] => Some (Err (EForeign "no tenants found"))
  | inl tenants =>
      match From (VSlice (tenant_value <$> tenants)) with
      | Ok builder =>
          match (Select (formatOutput rfc3339 builder false) (λ rows, (Selector address t reads rows).1)).1 with
          | None => None
          | Some (inr e) =>
              Some (Err (if errors_Is e ErrInterrupt then EForeign "selection cancelled" else wrap1 e))
          | Some (inl idx) =>
              Some (if (0 <=? idx) then match tenants !! Z.to_nat idx with Some x => Ok x | None => Panic end else Panic)
          end
      | Err e => Some (Err (wrap1 e))
      | Panic => Some Panic
      | Diverge => Some Diverge
      end
  end.

(** The cells of a tenant as shown. *)
Definition tenant_cells (t : Tenant) : list Cell :=
  let time z := VString (if z =? 0 then "" else rfc3339 z) in
  [mkCell "ID" (VString (t_ID t)); mkCell "Name" (VString (t_Name t));
   mkCell "Labels" (VString (Labels_String (t_Labels t)));
   mkCell "CreatedAt" (time (t_CreatedAt t)); mkCell "UpdatedAt" (time (t_UpdatedAt t))].

Lemma tenant_rows tenants :
  ∃ b, From (VSlice (tenant_value <$> tenants)) = Ok b ∧
    b_rows (applyFormatters (formatOutput rfc3339 b false)) = tenant_cells <$> tenants ∧
    length (b_rows (formatOutput rfc3339 b false)) = length tenants.
Proof.
  set (raw := λ t, [mkCell "ID" (VString (t_ID t)); mkCell "Name" (VString (t_Name t)); mkCell "Labels" (VLabels (t_Labels t));
    mkCell "CreatedAt" (VUnixNano (t_CreatedAt t)); mkCell "UpdatedAt" (VUnixNano (t_UpdatedAt t))]).
  assert (∀ ts, parse_items (tenant_value <$> ts) = Ok (raw <$> ts)) as Hitems.
  { induction ts as [|t ts IH]; [done|]. cbn [fmap list_fmap parse_items]. rewrite IH. done. }
  exists (mkBuilder (raw <$> tenants) Tabular []). split; [|split].
  - unfold From, parse. cbn [unwrap]. unfold parseSlice. destruct tenants as [|t ts]; [done|].
    change (tenant_value <$> t :: ts) with (tenant_value t :: (tenant_value <$> ts)).
    change (unwrap (tenant_value t)) with (tenant_value t). unfold tenant_value at 1.
    change (tenant_value t :: (tenant_value <$> ts)) with (tenant_value <$> t :: ts). by rewrite Hitems.
  - simpl. induction tenants as [|t ts IH]; [done|]. simpl. f_equal. exact IH.
  - simpl. by rewrite length_fmap.
Qed.

(** The tenant the user picks is the tenant the client stores, when no text
    in the list has a line break.  On a terminal the keys up, down (or j, k)
    move a position that stops at both ends, Enter answers with the tenant at
    that position, Ctrl-C or Escape cancels, other input is ignored, and until
    one of these keys comes there is no answer. *)
Theorem selected_tenant tenants t reads :
  tenants ≠ [] → is_file t = true → setupRawMode t = None →
  Forall (λ x, newline ∉ chars (row_text address (tenant_cells x))) tenants →
  selectTenantInteractive (inl tenants) t reads =
  match choose (Z.of_nat (length tenants)) 0 (readKey <$> reads) with
  | Some (inl i) => Ok <$> tenants !! Z.to_nat i
  | Some (inr _) => Some (Err (EForeign "selection cancelled"))
  | None => None
  end.
Proof.
  intros Hne Hf Hraw Hn. unfold selectTenantInteractive. destruct tenants as [|x xs] eqn:Ht; [done|]. rewrite <-Ht in *.
  destruct (tenant_rows tenants) as (b & -> & Hrows & Hlen). unfold Select.
  destruct (b_rows (formatOutput rfc3339 b false)) as [|r0 rs] eqn:Hb; [rewrite Ht in Hlen; done|]. cbn [fst]. rewrite Hrows.
  unfold Selector. rewrite length_fmap, Hf, Hraw. destruct (Nat.eqb_spec (length tenants) 0) as [H0|_]; [by rewrite Ht in H0|].
  set (s := new_selection address t (tenant_cells <$> tenants)).
  assert (length (items s) = length tenants) as Hitems.
  { unfold s. simpl. rewrite renderRows_length, length_fmap; [done|by rewrite Ht|by apply Forall_fmap]. }
  assert (0 < Z.of_nat (length tenants)) as Hpos by (rewrite Ht; simpl; lia).
  assert (in_view s) as Hv.
  { split; [done|..]; rewrite ?Hitems; unfold s; simpl; rewrite length_fmap; unfold maxVisibleItems; lia. }
  pose proof (run_choose reads s "" Hv) as Hrun. rewrite Hitems in Hrun. change (cursor s) with 0 in Hrun.
  destruct (run reads s "") as [r out]. cbn [negb fst] in *. subst r.
  destruct (choose _ 0 _) as [[i|e]|] eqn:Hc; [| |done].
  - apply choose_range in Hc; [|lia]. destruct (Z.leb_spec 0 i); [|lia].
    destruct (lookup_lt_is_Some_2 tenants (Z.to_nat i)) as [y Hy]; [lia|]. by rewrite Hy.
  - assert (e = ESentinel ErrInterrupt) as -> by (by eapply choose_error). done.
Qed.
End tenants.

(** ** Bounds *)

(** A truncated line has at most the width that was asked for, counted in
    characters, and ends in three dots when something was cut; for a width of
    one or two it is three dots all the same, wider than asked. *)
Theorem truncate_width s w :
  (w < 1 → truncate s w = "") ∧
  (1 ≤ w → Z.of_nat (length (runes s)) ≤ w → truncate s w = s) ∧
  (3 ≤ w < Z.of_nat (length (runes s)) →
     runes (truncate s w) = (take (Z.to_nat (w - 3)) (runes s) ++ runes "...")%list ∧
     Z.of_nat (length (runes (truncate s w))) = w) ∧
  (1 ≤ w < 3 → w < Z.of_nat (length (runes s)) → w < Z.of_nat (length (runes (truncate s w)))).
Proof.
  unfold truncate. split_and!.
  - intros H. by destruct (Z.ltb_spec w 1); [|lia].
  - intros H1 H2. destruct (Z.ltb_spec w 1); [lia|]. by destruct (Z.leb_spec (Z.of_nat (length (runes s))) w); [|lia].
  - intros H. destruct (Z.ltb_spec w 1); [lia|]. destruct (Z.leb_spec (Z.of_nat (length (runes s))) w); [lia|].
    destruct (Z.leb_spec w 3).
    + assert (w = 3) as -> by lia. done.
    + rewrite runes_of_runes by (apply Forall_take, decode_ok). split; [done|].
      rewrite length_app, length_take. change (length (runes "...")) with 3%nat. lia.
  - intros H1 H2. destruct (Z.ltb_spec w 1); [lia|]. destruct (Z.leb_spec (Z.of_nat (length (runes s))) w); [lia|].
    destruct (Z.leb_spec w 3); [|lia]. change (length (runes "...")) with 3%nat. lia.
Qed.

Lemma run_idle n : ∀ s out,
  (run (replicate n []) s out).1 = None ∧ (n + length (chars out) ≤ length (chars (run (replicate n []) s out).2))%nat.
Proof.
  induction n as [|n IH]; intros s out; cbn [replicate run].
  - split; [done|]. simpl. rewrite chars_app, length_app. lia.
  - change (readKey []) with keyUnknown. cbv iota. destruct (IH s (out +:+ render s)) as [H1 H2]. split; [done|].
    rewrite chars_app, length_app in H2. unfold render in H2 at 1. rewrite chars_app, length_app in H2. simpl in H2. lia.
Qed.

(** The selector does not notice the end of its input: reads that return
    nothing are ignored like unknown keys, so however many of them follow the
    keys pressed so far, there is still no answer and the list is drawn again
    for each. *)
Theorem selection_ignores_end_of_input reads s out n :
  (run reads s out).1 = None →
  (run (reads ++ replicate n []) s out).1 = None ∧
  (n ≤ length (chars (run (reads ++ replicate n []) s out).2))%nat.
Proof.
  revert s out. induction reads as [|buf reads IH]; intros s out.
  - intros _. destruct (run_idle n s out). split; [done|]. cbn [app]. lia.
  - cbn [run app]. destruct (readKey buf); try done; apply IH.
Qed.

(** ** Examples *)

Definition keys (s : string) : list (list ascii) := (λ c, [c]) <$> chars s.
Definition enter : list ascii := [CR].
Definition screen : tty := mkTty true true None (Some 60).
Definition no_address (_ : value) : string := "0xc0".
Definition utc (_ : Z) : string := "1970-01-01T00:00:00Z".
Definition tenant (id name : string) : Tenant := mkTenant id name ∅ 0 0.
Definition broken : string := "one" +:+ String newline "two".

(** A tenant whose name has a line break: the second line on the screen is the
    rest of the first tenant, and choosing it selects the other one; the third
    line is the other tenant, and choosing it is out of range. *)
Lemma line_break_selects_another :
  selectTenantInteractive no_address utc (inl [tenant "t1" broken; tenant "t2" "three"]) screen (keys "j" ++ [enter])
    = Some (Ok (tenant "t2" "three")) ∧
  selectTenantInteractive no_address utc (inl [tenant "t1" broken; tenant "t2" "three"]) screen (keys "jj" ++ [enter])
    = Some Panic.
Proof. split; vm_compute; reflexivity. Qed.

Lemma selected_tenant_witness :
  selectTenantInteractive no_address utc (inl [tenant "t1" "one"; tenant "t2" "two"]) screen (keys "jjk?j" ++ [enter])
    = Some (Ok (tenant "t2" "two")).
Proof.
  rewrite (selected_tenant no_address utc [tenant "t1" "one"; tenant "t2" "two"] screen (keys "jjk?j" ++ [enter])).
  - vm_compute. reflexivity.
  - discriminate.
  - reflexivity.
  - reflexivity.
  - apply (bool_decide_unpack _). vm_compute. exact I.
Defined.

Definition three_lines : selection := mkSelection ["a"; "b"; "c"] 0 0 3.
Lemma selection_ignores_end_of_input_witness :
  (run (keys "j" ++ replicate 1000 []) three_lines "").1 = None ∧
  (1000 ≤ length (chars (run (keys "j" ++ replicate 1000 []) three_lines "").2))%nat.
Proof. apply (selection_ignores_end_of_input (keys "j") three_lines "" 1000). vm_compute. reflexivity. Defined.
End Terminal.
