(* ===== verification/ClientAuth.v ===== *)
(** * Client authentication (pkg/authn, cli/state, cli/cmd)

    - pkg/authn: credentials, tokens, the providers [MTLS] and [NoOp] and the
      file store [FS];
    - cli/state: the store of the selected tenant;
    - cli/cmd: the two logins, the connection made from the stored token, the
      selected tenant;
    - internal/config/tls.go: the TLS configurations.

    Files are a map from paths to contents; every call of package [os] may fail
    ([os_fault], by the number of the call), and a [WriteFile] that fails may
    leave anything behind.  Certificates, JSON and the dialing of gRPC are
    parameters ([Pki], [ClientCodec], [dial]).  Paths are put together with a
    slash and not cleaned: a path that is cleaned names the same file. *)

From S2P Require Import Prelude GoStrings GoRuntime Providers Hierarchy Config.
From Stdlib Require Import Ascii.

Local Open Scope string_scope.

Module ClientAuth.

(** ** pkg/authn/authn.go *)

Definition ErrTokenNotFound : string := "authn.ErrTokenNotFound".
Definition ErrTokenNil : string := "authn.ErrTokenNil".
Definition ErrInvalidCredentials : string := "authn.ErrInvalidCredentials".

Definition MTLS : string := "mtls".
Definition NoAuth : string := "no-auth".

Record Credentials := mkCredentials { cr_Type : string; cr_Value : string }.
Record Token := mkToken {
  tk_Type : string;
  tk_Value : string;
  tk_ExpiredAt : Z;
  tk_Attributes : gmap string string;
}.
Inductive ValidationStatus := ValidStatus | InvalidStatus | ExpiredStatus.
#[export] Instance ValidationStatus_eq_dec : EqDecision ValidationStatus.
Proof. solve_decision. Defined.

Record MTLSCredentialsValue := mkMTLSCredentialsValue {
  PublicCertPath : string;
  PrivateKeyPath : string;
  CaCertPath : string;
}.

Record TenantSelection := mkTenantSelection { ts_ID : string; ts_Name : string }.
Record State := mkState { st_Tenant : option TenantSelection }.

(** ** Parameters *)

(** JSON: what was written is read back.  A token has a JSON text if its
    attributes have one; the code makes tokens without. *)
Class ClientCodec := {
  marshal_token : Token → option string;
  unmarshal_token : string → option Token;
  marshal_creds : MTLSCredentialsValue → option string;
  unmarshal_creds : string → option MTLSCredentialsValue;
  marshal_state : State → option string;
  unmarshal_state : string → option State;
  token_roundtrip : ∀ t d, tk_Attributes t = ∅ → marshal_token t = Some d → unmarshal_token d = Some t;
  creds_roundtrip : ∀ v d, marshal_creds v = Some d → unmarshal_creds d = Some v;
  state_roundtrip : ∀ s d, marshal_state s = Some d → unmarshal_state d = Some s;
}.

(** Packages [crypto/tls] and [crypto/x509], on the certificate files. *)
Class Pki := {
  x509 : Type;
  pool : Type;
  LoadX509KeyPair : string → string → list string + error;
  ParseCertificate : string → x509 + error;
  ReadCA : string → string + error;
  AppendCertsFromPEM : string → option pool;
  (* roots, intermediates; the key usage is always client authentication *)
  x509_Verify : x509 → pool → option (list x509) → option error;
}.

(** ** Files *)

Record fs := mkFs { files : gmap string string; calls : nat }.

Class Os := {
  UserHomeDir : string + error;
  os_fault : nat → option error;
  os_partial : nat → option string;   (* what a failed WriteFile leaves *)
}.

Definition ErrNotExist : string := "fs.ErrNotExist".
(** [os.IsNotExist]. *)
Definition IsNotExist (e : error) : bool := errors_Is e ErrNotExist.

Section os.
Context {OS : Os}.

Definition os_call {A} (fail : nat → fs → fs) (body : comp fs A) : comp fs A := λ s,
  let k := calls s in
  let s' := mkFs (files s) (S k) in
  match os_fault k with
  | Some e => (Err e, fail k s')
  | None => body s'
  end.
Definition no_change (k : nat) (s : fs) : fs := s.

Definition MkdirAll (path : string) : comp fs () := os_call no_change (mret ()).
Definition WriteFile (path data : string) : comp fs () :=
  os_call (λ k s, match os_partial k with Some d => mkFs (<[path := d]> (files s)) (calls s) | None => s end)
    (λ s, (Ok (), mkFs (<[path := data]> (files s)) (calls s))).
Definition Rename (old new : string) : comp fs () :=
  os_call no_change (λ s, match files s !! old with
    | Some d => (Ok (), mkFs (<[new := d]> (delete old (files s))) (calls s))
    | None => (Err (ESentinel ErrNotExist), s)
    end).
Definition ReadFile (path : string) : comp fs string :=
  os_call no_change (λ s, match files s !! path with
    | Some d => (Ok d, s)
    | None => (Err (ESentinel ErrNotExist), s)
    end).
Definition Remove (path : string) : comp fs () :=
  os_call no_change (λ s, match files s !! path with
    | Some _ => (Ok (), mkFs (delete path (files s)) (calls s))
    | None => (Err (ESentinel ErrNotExist), s)
    end).

Definition path_join (dir name : string) : string := dir +:+ "/" +:+ name.

(** ** pkg/authn/store/fs.go *)

Definition Directory : string := ".krypton".
Definition TokenFileName : string := "token.json".

Record FS := mkFS { dirPath : string; tokenPath : string }.

Definition NewFS : comp fs FS :=
  match UserHomeDir with
  | inr e => throw e
  | inl home =>
      let path := path_join home Directory in
      MkdirAll path;; mret (mkFS path (path_join path TokenFileName))
  end.

(** Both stores write a temporary file and rename it. *)
Definition write_and_rename (tmpPath path data : string) : comp fs () :=
  WriteFile tmpPath data;; Rename tmpPath path.

Context {CODEC : ClientCodec}.

Definition FS_Store (f : FS) (t : option Token) : comp fs () :=
  match t with
  | None => throw (ESentinel ErrTokenNil)
  | Some t =>
      match marshal_token t with
      | None => throw (EForeign "json")
      | Some data => write_and_rename (path_join (dirPath f) ".tmp") (tokenPath f) data
      end
  end.

Definition FS_Get (f : FS) : comp fs Token :=
  r ← try (ReadFile (tokenPath f));
  match r with
  | inr e => throw (if IsNotExist e then ESentinel ErrTokenNotFound else e)
  | inl data => match unmarshal_token data with Some t => mret t | None => throw (EForeign "json") end
  end.

Definition FS_Delete (f : FS) : comp fs () :=
  r ← try (Remove (tokenPath f));
  match r with
  | inr e => if IsNotExist e then mret () else throw e
  | inl _ => mret ()
  end.

(** ** cli/state/state.go *)

Definition ErrStateNotFound : string := "state.ErrStateNotFound".
Definition ErrStateNil : string := "state.ErrStateNil".
Definition stateFileName : string := "state.lock".

Record Store := mkStore { st_dirPath : string; statePath : string }.

Definition NewStore : comp fs Store :=
  match UserHomeDir with
  | inr e => throw e
  | inl home =>
      let path := path_join home Directory in
      MkdirAll path;; mret (mkStore path (path_join path stateFileName))
  end.

Definition Save (s : Store) (st : option State) : comp fs () :=
  match st with
  | None => throw (ESentinel ErrStateNil)
  | Some st =>
      match marshal_state st with
      | None => throw (EForeign "json")
      | Some data => write_and_rename (path_join (st_dirPath s) ".state.tmp") (statePath s) data
      end
  end.

Definition Load (s : Store) : comp fs State :=
  r ← try (ReadFile (statePath s));
  match r with
  | inr e => throw (if IsNotExist e then ESentinel ErrStateNotFound else e)
  | inl data => match unmarshal_state data with Some st => mret st | None => throw (EForeign "json") end
  end.

Definition Clear (s : Store) : comp fs () :=
  r ← try (Remove (statePath s));
  match r with
  | inr e => if IsNotExist e then mret () else throw e
  | inl _ => mret ()
  end.

(** ** internal/config/tls.go *)

Definition ErrCAInvalid : string := "config.ErrCAInvalid".

Context {PKI : Pki}.

Definition tlsConfig (cert key ca : string) : (list string * pool) + error :=
  match LoadX509KeyPair cert key with
  | inr e => inr (wrap1 e)
  | inl serverCert =>
      match ReadCA ca with
      | inr e => inr (wrap1 e)
      | inl caPEM =>
          match AppendCertsFromPEM caPEM with
          | None => inr (ESentinel ErrCAInvalid)
          | Some p => inl (serverCert, p)
          end
      end
  end.

Inductive ClientAuthType := NoClientCert | RequireAndVerifyClientCert.
Inductive tls_version := VersionTLS12 | VersionTLS13.
(** The fields of [tls.Config] the code sets; the others keep Go's defaults. *)
Record TlsConfig := mkTlsConfig {
  tc_Certificates : list (list string);
  tc_RootCAs : option pool;
  tc_ClientCAs : option pool;
  tc_ClientAuth : ClientAuthType;
  tc_MinVersion : tls_version;
}.
Definition TLSClient_BuildTLSConfig (cfg : TLSPaths) : TlsConfig + error :=
  match tlsConfig (tls_CertPath cfg) (tls_KeyPath cfg) (tls_CAPath cfg) with
  | inr e => inr e
  | inl (certs, p) => inl (mkTlsConfig [certs] (Some p) None NoClientCert VersionTLS13)
  end.
Definition TLSServer_BuildTLSConfig (cfg : TLSPaths) : TlsConfig + error :=
  match tlsConfig (tls_CertPath cfg) (tls_KeyPath cfg) (tls_CAPath cfg) with
  | inr e => inr e
  | inl (certs, p) => inl (mkTlsConfig [certs] None (Some p) RequireAndVerifyClientCert VersionTLS13)
  end.

(** ** pkg/authn/provider *)

Definition errCertAppendFailed : string := "provider.errCertAppendFailed".

(** The loop over the rest of the chain. *)
Fixpoint parse_chain (ders : list string) : list x509 + error :=
  match ders with
  | [] => inl []
  | der :: ders =>
      match ParseCertificate der with
      | inr e => inr (wrap1 e)
      | inl c => match parse_chain ders with inr e => inr e | inl cs => inl (c :: cs) end
      end
  end.

(** [verifyCertChain]; a key pair without a certificate would be a panic. *)
Definition verifyCertChain (v : MTLSCredentialsValue) : result () :=
  match LoadX509KeyPair (PublicCertPath v) (PrivateKeyPath v) with
  | inr e => Err (wrap1 e)
  | inl [] => Panic
  | inl (der :: ders) =>
      match ParseCertificate der with
      | inr e => Err (wrap1 e)
      | inl x509Cert =>
          match ReadCA (CaCertPath v) with
          | inr e => Err (wrap1 e)
          | inl caCert =>
              match AppendCertsFromPEM caCert with
              | None => Err (ESentinel errCertAppendFailed)
              | Some certPool =>
                  match (match ders with [] => inl None | _ => match parse_chain ders with inl cs => inl (Some cs) | inr e => inr e end end) with
                  | inr e => Err e
                  | inl intermediates =>
                      match x509_Verify x509Cert certPool intermediates with
                      | Some e => Err (wrap1 e)
                      | None => Ok ()
                      end
                  end
              end
          end
      end
  end.

Definition MTLS_Validate (t : Token) : result ValidationStatus :=
  if negb (String.eqb (tk_Type t) MTLS) then Ok InvalidStatus else
  match unmarshal_creds (tk_Value t) with
  | None => Ok InvalidStatus
  | Some v =>
      match verifyCertChain v with
      | Ok _ => Ok ValidStatus
      | Err _ => Ok InvalidStatus
      | Panic => Panic
      | Diverge => Diverge
      end
  end.

Definition MTLS_Verify (creds : option Credentials) : result Token :=
  match creds with
  | None => Err (wrap1 (ESentinel ErrInvalidCredentials))
  | Some creds =>
      if negb (String.eqb (cr_Type creds) MTLS) then Err (wrap1 (ESentinel ErrInvalidCredentials)) else
      match unmarshal_creds (cr_Value creds) with
      | None => Err (wrap1 (EWrap [EForeign "json"; ESentinel ErrInvalidCredentials]))
      | Some v =>
          match verifyCertChain v with
          | Ok _ => Ok (mkToken MTLS (cr_Value creds) 0 ∅)
          | Err e => Err (wrap1 (EWrap [e; ESentinel ErrInvalidCredentials]))
          | Panic => Panic
          | Diverge => Diverge
          end
      end
  end.

Definition NewMTLSCredentialsValue (b : string) : MTLSCredentialsValue + error :=
  match unmarshal_creds b with Some v => inl v | None => inr (wrap1 (EForeign "json")) end.

Definition TLSConfig (v : MTLSCredentialsValue) : TlsConfig + error :=
  TLSClient_BuildTLSConfig (mkTLSPaths (PublicCertPath v) (PrivateKeyPath v) (CaCertPath v)).

Definition NoOp_Verify (c : option Credentials) : result Token := Ok (mkToken NoAuth "" 0 ∅).
Definition NoOp_Validate (t : Token) : result ValidationStatus :=
  if negb (String.eqb (tk_Type t) NoAuth) then Ok InvalidStatus else Ok ValidStatus.

(** ** cli/cmd *)

Definition errNotValidStatus : string := "cmd.errNotValidStatus".

Definition lift {A} (r : result A) : comp fs A := λ s, (r, s).
Definition lift_sum {A} (r : A + error) : comp fs A :=
  match r with inl a => mret a | inr e => throw (wrap1 e) end.

Definition isValid (validate : Token → result ValidationStatus) (tkn : Token) : comp fs () :=
  status ← lift (validate tkn);
  if decide (status = ValidStatus) then mret () else throw (ESentinel errNotValidStatus).

(** How a connection is secured. *)
Inductive transport := TLSTransport (c : TlsConfig) | InsecureTransport.

Section commands.
Context (dial : string → transport → option error).

Definition NewClient (serverAddr : string) (t : transport) : comp fs transport :=
  match dial serverAddr t with Some e => throw e | None => mret t end.

Definition newConnection (serverAddr : string) : comp fs transport :=
  f ← NewFS;
  r ← try (FS_Get f);
  match r with
  | inr e => throw (wrap1 e)
  | inl tkn =>
      if String.eqb (tk_Type tkn) MTLS then
        isValid MTLS_Validate tkn;;
        creds ← lift_sum (NewMTLSCredentialsValue (tk_Value tkn));
        tlsCfg ← lift_sum (TLSConfig creds);
        NewClient serverAddr (TLSTransport tlsCfg)
      else if String.eqb (tk_Type tkn) NoAuth then
        isValid NoOp_Validate tkn;; NewClient serverAddr InsecureTransport
      else throw (EForeign "unsupported token type")
  end.

(** [login mtls]: [PreRunE], then [RunE]. *)
Definition mtlsLogin (certPath keyPath caPath : string) : comp fs () :=
  f ← NewFS;
  match marshal_creds (mkMTLSCredentialsValue certPath keyPath caPath) with
  | None => throw (wrap1 (EForeign "json"))
  | Some b => tkn ← lift (MTLS_Verify (Some (mkCredentials MTLS b))); FS_Store f (Some tkn)
  end.

(** [login no-auth]: the message it prints. *)
Inductive login_message := AlreadyLoggedIn | LoginSuccessful.
Definition noAuthLogin : comp fs login_message :=
  f ← NewFS;
  r ← try (FS_Get f);
  match r with
  | inr e =>
      if errors_Is e ErrTokenNotFound
      then token ← lift (NoOp_Verify None); FS_Store f (Some token);; mret LoginSuccessful
      else throw e
  | inl token =>
      status ← lift (NoOp_Validate token);
      if decide (status = ValidStatus) then mret AlreadyLoggedIn
      else token ← lift (NoOp_Verify None); FS_Store f (Some token);; mret LoginSuccessful
  end.

(** [selectedTenantID]. *)
Definition selectedTenantID : comp fs string :=
  r ← try NewStore;
  match r with
  | inr e => throw (wrap1 e)
  | inl stateStore =>
      r ← try (Load stateStore);
      match r with
      | inr e => throw (if errors_Is e ErrStateNotFound then EForeign "no tenant selected" else wrap1 e)
      | inl st => match st_Tenant st with None => throw (EForeign "no tenant selected") | Some t => mret (ts_ID t) end
      end
  end.

(** [select tenant]: what it stores of the tenant that was found. *)
Definition storeSelection (stateStore : Store) (id name : string) : comp fs () :=
  r ← try (Save stateStore (Some (mkState (Some (mkTenantSelection id name)))));
  match r with inr e => throw (wrap1 e) | inl _ => mret () end.
End commands.

(** ** Reasoning about files *)

(** [write_and_rename]: the target has the new content or is untouched. *)
Lemma write_and_rename_atomic tmp path data s r s' :
  tmp ≠ path → write_and_rename tmp path data s = (r, s') →
  ((r = Ok () ∧ files s' !! path = Some data) ∨ ((∃ e, r = Err e) ∧ files s' !! path = files s !! path)) ∧
  ∀ p, p ≠ tmp → p ≠ path → files s' !! p = files s !! p.
Proof.
  intros Hne. unfold write_and_rename, WriteFile. rewrite bind_run. unfold os_call at 1.
  destruct (os_fault (calls s)) as [e|].
  { intros [= <- <-]. destruct (os_partial (calls s)) as [d|]; simpl; (split; [right; split; [by eexists|]|]);
      try done; intros; by rewrite ?lookup_insert_ne. }
  unfold Rename, os_call. simpl. destruct (os_fault (S (calls s))) as [e|]; simpl.
  { intros [= <- <-]. simpl. split; [right; split; [by eexists|by rewrite lookup_insert_ne]|].
    intros. by rewrite lookup_insert_ne. }
  rewrite lookup_insert_eq. intros [= <- <-]. simpl. split; [left; split; [done|by rewrite lookup_insert_eq]|].
  intros p H1 H2. by rewrite lookup_insert_ne, lookup_delete_ne, lookup_insert_ne.
Qed.

Lemma path_join_inj dir a b : path_join dir a = path_join dir b → a = b.
Proof. unfold path_join. intros H%(inj (String.append dir)). by apply (inj (String.append "/")) in H. Qed.

(** The stores of a home directory. *)
Definition token_store (home : string) : FS :=
  let path := path_join home Directory in mkFS path (path_join path TokenFileName).
Definition state_store (home : string) : Store :=
  let path := path_join home Directory in mkStore path (path_join path stateFileName).

(** The client's files are replaced whole.  Storing a token or a selection
    either returns without error and the file holds exactly the new text, or
    returns an error and the file is what it was, whichever call of the
    operating system fails and whatever a failed write leaves behind; besides
    its temporary file nothing else changes, so the two stores do not disturb
    each other. *)
Theorem client_files_replaced_whole home t st s :
  (let '(r, s') := FS_Store (token_store home) (Some t) s in
   let path := tokenPath (token_store home) in
   ((∃ d, marshal_token t = Some d ∧ r = Ok () ∧ files s' !! path = Some d) ∨
    ((∃ e, r = Err e) ∧ files s' !! path = files s !! path)) ∧
   files s' !! statePath (state_store home) = files s !! statePath (state_store home)) ∧
  (let '(r, s') := Save (state_store home) (Some st) s in
   let path := statePath (state_store home) in
   ((∃ d, marshal_state st = Some d ∧ r = Ok () ∧ files s' !! path = Some d) ∨
    ((∃ e, r = Err e) ∧ files s' !! path = files s !! path)) ∧
   files s' !! tokenPath (token_store home) = files s !! tokenPath (token_store home)).
Proof.
  assert (∀ a b, a ≠ b → path_join (path_join home Directory) a ≠ path_join (path_join home Directory) b) as Hne
    by (intros a b H ?%path_join_inj; done).
  unfold FS_Store, Save. split.
  - destruct (marshal_token t) as [d|]; [|split; [right; split; [by eexists|done]|done]].
    destruct (write_and_rename _ _ _ s) as [r s'] eqn:H.
    destruct (write_and_rename_atomic _ _ _ _ _ _ (Hne ".tmp" TokenFileName ltac:(done)) H) as [[[-> Hf]|He] Ho];
      (split; [|apply Ho; apply Hne; done]); [left; by exists d|by right].
  - destruct (marshal_state st) as [d|]; [|split; [right; split; [by eexists|done]|done]].
    destruct (write_and_rename _ _ _ s) as [r s'] eqn:H.
    destruct (write_and_rename_atomic _ _ _ _ _ _ (Hne ".state.tmp" stateFileName ltac:(done)) H) as [[[-> Hf]|He] Ho];
      (split; [|apply Ho; apply Hne; done]); [left; by exists d|by right].
Qed.

Lemma NewFS_Ok f s s' : NewFS s = (Ok f, s') → ∃ home, UserHomeDir = inl home ∧ f = token_store home ∧ files s' = files s.
Proof.
  unfold NewFS. destruct UserHomeDir as [home|e]; [|done]. rewrite bind_run. unfold MkdirAll, os_call.
  destruct (os_fault (calls s)); [done|]. intros [= <- <-]. by exists home.
Qed.

Lemma FS_Get_Ok f t s s' :
  FS_Get f s = (Ok t, s') → (∃ d, files s !! tokenPath f = Some d ∧ unmarshal_token d = Some t) ∧ files s' = files s.
Proof.
  unfold FS_Get, ReadFile, os_call. unfold try. rewrite bind_run.
  destruct (os_fault (calls s)); [done|]. simpl. destruct (files s !! tokenPath f) as [d|]; [|done].
  destruct (unmarshal_token d) as [t'|] eqn:E; [|done]. intros [= <- <-]. split; [by exists d|done].
Qed.

(** A pair of files that verifies makes a TLS configuration. *)
Lemma verified_config v :
  verifyCertChain v = Ok () → ∃ certs p, TLSConfig v = inl (mkTlsConfig [certs] (Some p) None NoClientCert VersionTLS13) ∧
    LoadX509KeyPair (PublicCertPath v) (PrivateKeyPath v) = inl certs.
Proof.
  unfold verifyCertChain, TLSConfig, TLSClient_BuildTLSConfig, tlsConfig. simpl.
  destruct (LoadX509KeyPair _ _) as [[|der ders]|]; [done| |done]. destruct (ParseCertificate der); [|done].
  destruct (ReadCA _); [|done]. destruct (AppendCertsFromPEM _) as [p|]; [|done]. intros _. by exists (der :: ders), p.
Qed.

Lemma isValid_Ok validate t s s' : isValid validate t s = (Ok (), s') → s' = s ∧ validate t = Ok ValidStatus.
Proof.
  unfold isValid, lift. rewrite bind_run. destruct (validate t) as [st| | |]; try done.
  destruct (decide (st = ValidStatus)) as [->|]; [|done]. by intros [= <-].
Qed.

Lemma MTLS_Validate_valid t :
  MTLS_Validate t = Ok ValidStatus → tk_Type t = MTLS ∧ ∃ v, unmarshal_creds (tk_Value t) = Some v ∧ verifyCertChain v = Ok ().
Proof.
  unfold MTLS_Validate. destruct (String.eqb_spec (tk_Type t) MTLS) as [Hm|]; [|done]. simpl.
  destruct (unmarshal_creds (tk_Value t)) as [v|]; [|done]. destruct (verifyCertChain v) as [[]| | |] eqn:Hc; try done.
  intros _. split; [done|]. by exists v.
Qed.

Section connect.
Context (dial : string → transport → option error).

(** The transport a token stands for. *)
Definition grants (t : Token) (tr : transport) : Prop :=
  (tk_Type t = NoAuth ∧ tr = InsecureTransport) ∨
  (tk_Type t = MTLS ∧ ∃ v c, unmarshal_creds (tk_Value t) = Some v ∧ verifyCertChain v = Ok () ∧ TLSConfig v = inl c ∧
     tr = TLSTransport c ∧ tc_MinVersion c = VersionTLS13 ∧ tc_RootCAs c ≠ None).

Lemma connection_granted serverAddr s tr s' :
  newConnection dial serverAddr s = (Ok tr, s') →
  ∃ home d t, UserHomeDir = inl home ∧ files s !! tokenPath (token_store home) = Some d ∧ unmarshal_token d = Some t ∧
    grants t tr ∧ files s' = files s.
Proof.
  unfold newConnection. intros (f & s1 & (home & Hh & -> & Hf1)%NewFS_Ok & H)%bind_inv_Ok.
  rewrite bind_run in H. unfold try at 1 in H. destruct (FS_Get (token_store home) s1) as [[t|e| |] s2] eqn:Hg; [|done..].
  apply FS_Get_Ok in Hg as ((d & Hd & Ht) & Hf2). rewrite Hf1 in Hd, Hf2. exists home, d, t.
  enough (grants t tr ∧ s' = s2) as [? ->] by done. clear - H.
  destruct (String.eqb_spec (tk_Type t) MTLS) as [Hm|Hm];
    [|destruct (String.eqb_spec (tk_Type t) NoAuth) as [Hn|Hn]; [|done]];
    apply bind_inv_Ok in H as ([] & s3 & [-> Hvalid]%isValid_Ok & H).
  - apply MTLS_Validate_valid in Hvalid as (_ & v & Hv & Hc).
    destruct (verified_config v Hc) as (certs & p & Hcfg & _). unfold NewMTLSCredentialsValue in H. rewrite Hv in H.
    simpl in H. rewrite bind_run in H. simpl in H. rewrite Hcfg in H. rewrite bind_run in H. simpl in H. unfold NewClient in H.
    destruct (dial _ _); [done|]. injection H as <- <-. split; [|done]. right. split; [done|]. eexists v, _. by split_and!.
  - unfold NewClient in H. destruct (dial _ _); [done|]. injection H as <- <-. split; [|done]. by left.
Qed.

(** A connection is what the stored token grants: the client connects only
    when there is a token; an mTLS token gives a TLS 1.3 connection with the
    token's key pair and CA, and only if that certificate verifies at this
    moment; only a no-auth token gives an insecure one.  Connecting changes no
    file. *)
Theorem connection_needs_login serverAddr s tr s' :
  newConnection dial serverAddr s = (Ok tr, s') →
  ∃ home d t, UserHomeDir = inl home ∧ files s !! tokenPath (token_store home) = Some d ∧ unmarshal_token d = Some t ∧
    grants t tr ∧ files s' = files s.
Proof. apply connection_granted. Qed.

Context (no_fault : ∀ k, os_fault k = None) (home : string) (has_home : UserHomeDir = inl home).

Lemma NewFS_run s : NewFS s = (Ok (token_store home), mkFs (files s) (S (calls s))).
Proof. unfold NewFS, MkdirAll, os_call. by rewrite has_home, bind_run, no_fault. Qed.
Lemma NewStore_run s : NewStore s = (Ok (state_store home), mkFs (files s) (S (calls s))).
Proof. unfold NewStore, MkdirAll, os_call. by rewrite has_home, bind_run, no_fault. Qed.

Lemma write_and_rename_run tmp path data s :
  ∃ s', write_and_rename tmp path data s = (Ok (), s') ∧ files s' !! path = Some data.
Proof.
  unfold write_and_rename, WriteFile, Rename, os_call. rewrite bind_run, no_fault. simpl. rewrite no_fault. simpl.
  rewrite lookup_insert_eq. eexists. split; [done|]. apply lookup_insert_eq.
Qed.
Lemma ReadFile_run path d s : files s !! path = Some d → ReadFile path s = (Ok d, mkFs (files s) (S (calls s))).
Proof. intros H. unfold ReadFile, os_call. rewrite no_fault. simpl. by rewrite H. Qed.

Lemma FS_Get_run f d t s :
  files s !! tokenPath f = Some d → unmarshal_token d = Some t → FS_Get f s = (Ok t, mkFs (files s) (S (calls s))).
Proof.
  intros Hf Ht. unfold FS_Get. rewrite bind_try, (ReadFile_run _ d) by done. by rewrite Ht.
Qed.

(** A client that logged in can connect.  When no call of the operating
    system fails: after a login with a key pair whose chain verifies, a
    connection is made over TLS 1.3 with exactly this key pair; after a no-auth
    login over a fresh home it is insecure; and a tenant that was selected is
    the one later commands use. *)
Theorem login_then_connect v b d serverAddr s :
  marshal_creds v = Some b → marshal_token (mkToken MTLS b 0 ∅) = Some d → verifyCertChain v = Ok () →
  (∀ tr, dial serverAddr tr = None) →
  (∃ s1 c certs s2, mtlsLogin (PublicCertPath v) (PrivateKeyPath v) (CaCertPath v) s = (Ok (), s1) ∧
     newConnection dial serverAddr s1 = (Ok (TLSTransport c), s2) ∧
     LoadX509KeyPair (PublicCertPath v) (PrivateKeyPath v) = inl certs ∧
     tc_Certificates c = [certs] ∧ tc_MinVersion c = VersionTLS13) ∧
  (∀ d', marshal_token (mkToken NoAuth "" 0 ∅) = Some d' → files s !! tokenPath (token_store home) = None →
   ∃ s1 s2, noAuthLogin s = (Ok LoginSuccessful, s1) ∧ newConnection dial serverAddr s1 = (Ok InsecureTransport, s2)) ∧
  (∀ id name data, marshal_state (mkState (Some (mkTenantSelection id name))) = Some data →
   ∃ s1 s2, storeSelection (state_store home) id name s = (Ok (), s1) ∧ selectedTenantID s1 = (Ok id, s2)).
Proof.
  intros Hb Hd Hc Hdial. split_and!.
  - destruct (write_and_rename_run (path_join (path_join home Directory) ".tmp") (tokenPath (token_store home)) d
      (mkFs (files s) (S (calls s)))) as (s1 & Hw & Hf).
    destruct (verified_config v Hc) as (certs & p & Hcfg & Hload).
    exists s1, (mkTlsConfig [certs] (Some p) None NoClientCert VersionTLS13), certs. eexists. split; [|split; [|done]].
    + unfold mtlsLogin. rewrite (bind_Ok _ _ _ _ _ (NewFS_run s)).
      replace (mkMTLSCredentialsValue _ _ _) with v by (by destruct v). rewrite Hb.
      unfold MTLS_Verify. simpl. rewrite (creds_roundtrip _ _ Hb), Hc. unfold lift. rewrite bind_run. unfold FS_Store.
      by rewrite Hd.
    + unfold newConnection. rewrite (bind_Ok _ _ _ _ _ (NewFS_run s1)).
      rewrite bind_try.
      rewrite (FS_Get_run _ d _ (mkFs (files s1) (S (calls s1))) Hf (token_roundtrip (mkToken MTLS b 0 ∅) _ eq_refl Hd)). simpl.
      unfold isValid, MTLS_Validate, NewMTLSCredentialsValue. simpl. rewrite (creds_roundtrip _ _ Hb), Hc.
      unfold lift, mbind, comp_bind. simpl. rewrite Hcfg. simpl. unfold NewClient. by rewrite Hdial.
  - intros d' Hd' Hnone.
    destruct (write_and_rename_run (path_join (path_join home Directory) ".tmp") (tokenPath (token_store home)) d'
      (mkFs (files s) (S (S (calls s))))) as (s1 & Hw & Hf).
    exists s1. eexists. split.
    + unfold noAuthLogin. rewrite (bind_Ok _ _ _ _ _ (NewFS_run s)).
      unfold FS_Get, ReadFile, os_call, try, mbind, comp_bind. rewrite no_fault. simpl in *. rewrite Hnone. simpl.
      unfold FS_Store, lift. rewrite Hd'. by rewrite Hw.
    + unfold newConnection. rewrite (bind_Ok _ _ _ _ _ (NewFS_run s1)).
      rewrite bind_try.
      rewrite (FS_Get_run _ d' _ (mkFs (files s1) (S (calls s1))) Hf (token_roundtrip (mkToken NoAuth "" 0 ∅) _ eq_refl Hd')). simpl.
      unfold isValid, lift, mbind, comp_bind. simpl. unfold NewClient. by rewrite Hdial.
  - intros id name data Hst.
    destruct (write_and_rename_run (path_join (path_join home Directory) ".state.tmp") (statePath (state_store home)) data s)
      as (s1 & Hw & Hf).
    exists s1. eexists. split.
    + unfold storeSelection, Save. rewrite Hst. unfold try. rewrite bind_run.
      change (st_dirPath (state_store home)) with (path_join home Directory). by rewrite Hw.
    + unfold selectedTenantID. rewrite bind_try, NewStore_run, bind_try. unfold Load.
      rewrite bind_try, (ReadFile_run _ data) by done. by rewrite (state_roundtrip _ _ Hst).
Qed.
End connect.
End os.

(** ** A client *)

(** A stand-in for JSON: fields with separators between them. *)
Definition plain (c : ascii) (s : string) : bool := negb (contains_any s [c]).
Lemma plain_char c s : plain c s = true → c ∉ chars s.
Proof. unfold plain. rewrite negb_true_iff, contains_any_false. intros H Hin. apply (H c Hin). left. Qed.

Definition sample_token (t : Token) : option string :=
  if (plain "|" (tk_Type t) && (tk_ExpiredAt t =? 0)%Z)%bool then Some (tk_Type t +:+ String "|" (tk_Value t)) else None.
Definition sample_untoken (d : string) : option Token :=
  let '(a, b, ok) := cut "|" d in if (ok : bool) then Some (mkToken a b 0 ∅) else None.
Definition sample_creds (v : MTLSCredentialsValue) : option string :=
  if (plain ";" (PublicCertPath v) && plain ";" (PrivateKeyPath v) && plain ";" (CaCertPath v))%bool
  then Some (PublicCertPath v +:+ String ";" (PrivateKeyPath v +:+ String ";" (CaCertPath v))) else None.
Definition sample_uncreds (d : string) : option MTLSCredentialsValue :=
  match split ";" d with [a; b; c] => Some (mkMTLSCredentialsValue a b c) | _ => None end.
Definition sample_state (s : State) : option string :=
  match st_Tenant s with
  | None => Some ""
  | Some t => if plain "|" (ts_ID t) then Some (ts_ID t +:+ String "|" (ts_Name t)) else None
  end.
Definition sample_unstate (d : string) : option State :=
  let '(a, b, ok) := cut "|" d in
  if (ok : bool) then Some (mkState (Some (mkTenantSelection a b))) else Some (mkState None).

#[export] Instance sample_codec : ClientCodec.
Proof.
  refine {| marshal_token := sample_token; unmarshal_token := sample_untoken; marshal_creds := sample_creds;
            unmarshal_creds := sample_uncreds; marshal_state := sample_state; unmarshal_state := sample_unstate |}.
  - intros [ty v e a] d Ha. unfold sample_token, sample_untoken. simpl in *. subst a.
    destruct (plain "|" ty) eqn:Hp; [|done]. destruct (Z.eqb_spec e 0) as [->|]; [|done]. intros [= <-].
    by rewrite (cut_app_sep _ _ _ (plain_char _ _ Hp)).
  - intros [a b c] d. unfold sample_creds, sample_uncreds. simpl.
    destruct (plain ";" a) eqn:Ha, (plain ";" b) eqn:Hb, (plain ";" c) eqn:Hc; try done. intros [= <-].
    by rewrite (split_app_sep _ _ _ (plain_char _ _ Ha)), (split_app_sep _ _ _ (plain_char _ _ Hb)),
      (split_no_sep _ _ (plain_char _ _ Hc)).
  - intros [[[id name]|]] d; unfold sample_state, sample_unstate; simpl; [|by intros [= <-]].
    destruct (plain "|" id) eqn:Hp; [|done]. intros [= <-]. by rewrite (cut_app_sep _ _ _ (plain_char _ _ Hp)).
Defined.

(** One key pair, signed by one CA. *)
#[export] Instance sample_pki : Pki := {|
  x509 := string; pool := string;
  LoadX509KeyPair := λ cert key, if (String.eqb cert "cert.pem" && String.eqb key "key.pem")%bool
                                 then inl ["leaf by ca"] else inr (EForeign "no such file");
  ParseCertificate := λ der, inl der;
  ReadCA := λ path, if String.eqb path "ca.pem" then inl "ca" else inr (EForeign "no such file");
  AppendCertsFromPEM := λ pem, Some pem;
  x509_Verify := λ c p _, if String.eqb c ("leaf by " +:+ p) then None else Some (EForeign "x509");
|}.
#[export] Instance sample_os : Os := {| UserHomeDir := inl "/home/u"; os_fault := λ _, None; os_partial := λ _, None |}.

Definition our_pair : MTLSCredentialsValue := mkMTLSCredentialsValue "cert.pem" "key.pem" "ca.pem".
Definition empty_home : fs := mkFs ∅ 0.
Definition dials (_ : string) (_ : transport) : option error := None.
Definition logged_in : fs := (mtlsLogin "cert.pem" "key.pem" "ca.pem" empty_home).2.

Lemma login_then_connect_witness :
  ∃ s1 c certs s2, mtlsLogin "cert.pem" "key.pem" "ca.pem" empty_home = (Ok (), s1) ∧
    newConnection dials "localhost:8080" s1 = (Ok (TLSTransport c), s2) ∧
    LoadX509KeyPair "cert.pem" "key.pem" = inl certs ∧ tc_Certificates c = [certs] ∧ tc_MinVersion c = VersionTLS13.
Proof.
  exact (proj1 (login_then_connect dials (λ _, eq_refl) "/home/u" eq_refl our_pair "cert.pem;key.pem;ca.pem"
    "mtls|cert.pem;key.pem;ca.pem" "localhost:8080" empty_home eq_refl eq_refl eq_refl (λ _, eq_refl))).
Defined.

Definition our_transport : transport := TLSTransport (mkTlsConfig [["leaf by ca"]] (Some "ca") None NoClientCert VersionTLS13).
Lemma connection_needs_login_witness :
  ∃ home d t, UserHomeDir = inl home ∧ files logged_in !! tokenPath (token_store home) = Some d ∧
    unmarshal_token d = Some t ∧ grants t our_transport.
Proof.
  destruct (connection_needs_login dials "localhost:8080" logged_in our_transport (mkFs (files logged_in) 5))
    as (home & d & t & H1 & H2 & H3 & H4 & _); [vm_compute; reflexivity|].
  exists home, d, t. split_and!; [exact H1|exact H2|exact H3|exact H4].
Defined.
End ClientAuth.
