(* ===== verification/KmipServer.v ===== *)
(** * The KMIP listener: internal/kmip/server.go

    [NewServer] from the configuration to a listener that asks every peer for a
    certificate, with the handler and the hooks of [Kmip].  Opening a TCP
    listener is the operating system's; serving its connections is the KMIP
    library's. *)

From S2P Require Import Prelude GoStrings GoRuntime Model World Lifecycle Providers Hierarchy.
From S2P Require Import Config Sql KeyStore KeyVersionStore SecureMem AesGcm Cryptor Sealers Vault KeyProcessor Kmip ClientAuth.
From Stdlib Require Import Ascii.

Local Open Scope string_scope.

Module KmipServer.
Import Kmip ClientAuth.

(** [net.JoinHostPort]: a host with a colon or a zone goes into brackets. *)
Definition JoinHostPort (host port : string) : string :=
  if (bool_decide (":"%char ∈ chars host) || bool_decide ("%"%char ∈ chars host))%bool
  then "[" +:+ host +:+ "]:" +:+ port else host +:+ ":" +:+ port.

(** [KMIP.ListenAddress]. *)
Definition ListenAddress (c : KMIP) : string := JoinHostPort (km_BindAddr c) (itoa (km_Port c)).

Section server.
Context {ENV : Env} {G : GCM} {OS : OsEnv} {BAO : OpenBao} {CLI : SealerClient} (self : Sealer).
Context {PKI : Pki} (Listen : string → TlsConfig → option error).

(** The listener, and what the library calls: the handler of a batch item and
    the hooks around a connection. *)
Record KmipListener := mkKmipListener {
  sv_Addr : string;
  sv_TLS : TlsConfig;
  sv_Handler : kmip_context → RequestPayload → Z → M ((ResponsePayload + failure) * Z);
  sv_Connect : kmip_context → M kmip_context;
  sv_Terminate : kmip_context → M ();
}.

Definition NewServer (cfg : KMIP) (mgr : Manager) : KmipListener + error :=
  match KMIP_Validate cfg with
  | Some e => inr (wrap1 e)
  | None =>
      match TLSServer_BuildTLSConfig (km_TLS cfg) with
      | inr e => inr (wrap1 e)
      | inl tlsCfg =>
          match Listen (ListenAddress cfg) tlsCfg with
          | Some e => inr (wrap1 e)
          | None => inl (mkKmipListener (ListenAddress cfg) tlsCfg (newHandler self mgr) connectHook terminateHook)
          end
      end
  end.

(** A KMIP server listens only for peers it can identify: its configuration is
    valid, its certificate and the pool it checks peers against come from the
    configured files, it demands and verifies a certificate and speaks TLS 1.3
    only; otherwise no server exists. *)
Theorem kmip_server_identifies_peers cfg mgr :
  match NewServer cfg mgr with
  | inl s =>
      KMIP_Validate cfg = None ∧ (1 <= km_Port cfg <= 65535)%Z ∧ sv_Addr s = ListenAddress cfg ∧
      Listen (sv_Addr s) (sv_TLS s) = None ∧
      tc_ClientAuth (sv_TLS s) = RequireAndVerifyClientCert ∧ tc_MinVersion (sv_TLS s) = VersionTLS13 ∧
      ∃ certs p, tlsConfig (tls_CertPath (km_TLS cfg)) (tls_KeyPath (km_TLS cfg)) (tls_CAPath (km_TLS cfg)) = inl (certs, p) ∧
        tc_Certificates (sv_TLS s) = [certs] ∧ tc_ClientCAs (sv_TLS s) = Some p
  | inr _ =>
      KMIP_Validate cfg ≠ None ∨ (∃ e, TLSServer_BuildTLSConfig (km_TLS cfg) = inr e) ∨
      ∃ t e, TLSServer_BuildTLSConfig (km_TLS cfg) = inl t ∧ Listen (ListenAddress cfg) t = Some e
  end.
Proof.
  unfold NewServer. destruct (KMIP_Validate cfg) as [e|] eqn:Hv; [by left|].
  assert (1 <= km_Port cfg <= 65535)%Z as Hp.
  { unfold KMIP_Validate in Hv. destruct (String.eqb _ _); [done|].
    destruct (Z.ltb_spec (km_Port cfg) 1), (Z.ltb_spec 65535 (km_Port cfg)); try done; lia. }
  destruct (TLSServer_BuildTLSConfig (km_TLS cfg)) as [t|e] eqn:Ht; [|right; left; by exists e].
  destruct (Listen (ListenAddress cfg) t) as [e|] eqn:Hl; [right; right; by exists t, e|].
  unfold TLSServer_BuildTLSConfig in Ht. destruct (tlsConfig _ _ _) as [[certs p]|]; [|done]. injection Ht as <-.
  split_and!; try done; try lia. by exists certs, p.
Qed.
End server.

Example listen_v4 : ListenAddress (mkKMIP "0.0.0.0" 5696 (mkTLSPaths "c" "k" "ca")) = "0.0.0.0:5696".
Proof. vm_compute. reflexivity. Qed.
Example listen_v6 : ListenAddress (mkKMIP "::1" 5696 (mkTLSPaths "c" "k" "ca")) = "[::1]:5696".
Proof. vm_compute. reflexivity. Qed.
End KmipServer.
