(* ===== verification/ClientCommands.v ===== *)
(** * The commands of the client (cli/cmd)

    Each command as the computation its [RunE] makes: reading the selected
    tenant, connecting with the stored token, calling one service and printing
    the answer.  The state is the files of the client and a trace of what the
    command does outside the process: connections made and closed, calls with
    the connection they go over, text printed.  The server is the class
    [Server]: what it answers to a call, which may depend on when it is made.
    Flags are arguments of the definitions; that required flags are given and
    that arguments are counted before [RunE] runs is cobra's. *)

From S2P Require Import Prelude GoStrings GoRuntime Model World Lifecycle Providers Hierarchy.
From S2P Require Import Config Sql KeyStore KeyVersionStore StoreInvariant StoreTheorems Validator.
From S2P Require Import KeyOperator Orchestrator KeyAction AdminKeys AgentServices Actions.
From S2P Require Import GoText Output Terminal ClientAuth.
From Stdlib Require Import Ascii.

Local Open Scope string_scope.

Module ClientCommands.
Import Actions Output Terminal ClientAuth.

(** ** Calls, events, state *)

(** The requests of the services the client uses. *)
Inductive rpc :=
  | RGetKey (id tenantID : string)
  | RGetParentKeys (id tenantID : string)
  | RGetDescendantKeys (id tenantID : string)
  | RListKeys (req : ListKeysRequest)
  | RActivateKey (req : KeyActionRequest)
  | RAnnounceKey (req : AnnounceKeyRequest)
  | RGetTenant (id : string)
  | RListTenants
  | RCreateTenant (name : string) (labels : Labels)
  | RGetAction (id : string).

(** What the server answers, at a position of the trace; a pointer in an answer
    may be nil. *)
Class Server := {
  srv_GetKey : nat → string → string → option ProtoKey + error;
  srv_GetParentKeys : nat → string → string → list ProtoKey + error;
  srv_GetDescendantKeys : nat → string → string → list (list ProtoKey) + error;
  srv_ListKeys : nat → ListKeysRequest → (list ProtoKey * string) + error;
  srv_ActivateKey : nat → KeyActionRequest → string + error;
  srv_AnnounceKey : nat → AnnounceKeyRequest → option ProtoKey + error;
  srv_GetTenant : nat → string → option ProtoTenant + error;
  srv_ListTenants : nat → list ProtoTenant + error;
  srv_CreateTenant : nat → string → Labels → option ProtoTenant + error;
  srv_GetAction : nat → string → option Action + error;
}.

Section client.
Context {PKI : Pki}.

Inductive event :=
  | EvConnect (conn : transport)
  | EvCall (conn : transport) (r : rpc)
  | EvPrint (text : string)
  | EvClose (conn : transport).

Record client := mkClient { cl_fs : fs; cl_trace : list event }.

Definition emit (e : event) : comp client () := modify (λ c, mkClient (cl_fs c) (cl_trace c ++ [e])%list).
Definition now : comp client nat := gets (λ c, length (cl_trace c)).
Definition on_fs {A} (m : comp fs A) : comp client A := λ c,
  let '(r, s) := m (cl_fs c) in (r, mkClient s (cl_trace c)).

(** [resp, err := client.Call(ctx, req)]. *)
Definition invoke {A} (conn : transport) (r : rpc) (answer : nat → A + error) : comp client (A + error) :=
  t ← now; emit (EvCall conn r);; mret (answer t).

End client.
Notation C := (comp client).

(** [st, ok := status.FromError(err); ok && st.Code() == codes.NotFound]. *)
Definition is_NotFound (e : error) : bool :=
  match errors_AsStatus e with Some (NotFound, _) => true | _ => false end.

(** ** Rows (key.go, announce.go, activate.go) *)

Definition nil_key : ProtoKey := mkProtoKey "" "" "" "" "" "" ∅ "" 0 0 None.
Definition pps (k : ProtoKey) : ProtoProcessingState :=
  default (mkProtoProcessingState "" "") (pk_KeyProcessingState k).

Record keyRow := mkKeyRow {
  kr_Kind : string;
  kr_ID : string;
  kr_Name : string;
  kr_ParentID : string;
  kr_LifeCycleState : string;
  kr_Status : string;
  kr_ManagedBy : string;
  kr_CreatedAt : Z;
  kr_UpdatedAt : Z;
  kr_Labels : Labels;
}.
Definition no_row : keyRow := mkKeyRow "" "" "" "" "" "" "" 0 0 ∅.

Record keyRows := mkKeyRows { krs_Keys : list keyRow; krs_Cursor : string }.

Definition newKeyRow (k : ProtoKey) : keyRow :=
  mkKeyRow (pk_Kind k) (pk_Id k) (pk_Name k) (pk_ParentId k) (pk_LifeCycleState k) (pps_Status (pps k))
    (pk_ManagedBy k) (pk_CreatedAt k) (pk_UpdatedAt k) (pk_Labels k).

(** The structs as [reflect] sees them. *)
Definition keyRow_value (r : keyRow) : value :=
  VStruct [("Kind", VString (kr_Kind r)); ("ID", VString (kr_ID r)); ("Name", VString (kr_Name r));
           ("ParentID", VString (kr_ParentID r)); ("LifeCycleState", VString (kr_LifeCycleState r));
           ("Status", VString (kr_Status r)); ("ManagedBy", VString (kr_ManagedBy r));
           ("CreatedAt", VUnixNano (kr_CreatedAt r)); ("UpdatedAt", VUnixNano (kr_UpdatedAt r));
           ("Labels", VLabels (kr_Labels r))].
Definition keyRows_value (r : keyRows) : value :=
  VStruct [("Keys", VSlice (keyRow_value <$> krs_Keys r)); ("Cursor", VString (krs_Cursor r))].

Record announcedKeyRow := mkAnnouncedKeyRow {
  ar_ID : string; ar_Kind : string; ar_Name : string; ar_ParentID : string; ar_ManagedBy : string;
  ar_Labels : Labels; ar_Status : string; ar_JobID : string;
}.
Definition newAnnouncedKeyRow (k : ProtoKey) : announcedKeyRow :=
  mkAnnouncedKeyRow (pk_Id k) (pk_Kind k) (pk_Name k) (pk_ParentId k) (pk_ManagedBy k) (pk_Labels k)
    (pps_Status (pps k)) (pps_JobId (pps k)).
Definition announcedKeyRow_value (r : announcedKeyRow) : value :=
  VStruct [("ID", VString (ar_ID r)); ("Kind", VString (ar_Kind r)); ("Name", VString (ar_Name r));
           ("ParentID", VString (ar_ParentID r)); ("ManagedBy", VString (ar_ManagedBy r));
           ("Labels", VLabels (ar_Labels r)); ("Status", VString (ar_Status r)); ("JobID", VString (ar_JobID r))].

Record activatedKeyRow := mkActivatedKeyRow { activated_Status : bool }.
Definition activatedKeyRow_value (r : activatedKeyRow) : value := VStruct [("Status", VBool (activated_Status r))].

Definition actionView_value (v : actionView) : value :=
  VStruct [("Type", VString (av_Type v)); ("Cascading", VBool (av_Cascading v)); ("Status", VString (av_Status v));
           ("TargetID", VString (av_TargetID v)); ("ActionID", VString (av_ActionID v));
           ("CreatedAt", VUnixNano (av_CreatedAt v)); ("UpdatedAt", VUnixNano (av_UpdatedAt v))].

Definition nil_tenant : ProtoTenant := mkProtoTenant "" "" ∅ 0 0.

(** ** The commands *)

Section commands.
Context {OS : Os} {CODEC : ClientCodec} {PKI : Pki} {SERVER : Server}.
Context (dial : string → transport → option error) (serverAddr : string).
Context (address : value → string) (rfc3339 : Z → string) (json : list (gmap string value) → string + error).

(** [output.From(v)], its error wrapped or not. *)
Definition from (wrap : error → error) (v : value) : C Builder :=
  match From v with
  | Ok b => mret b
  | Err e => throw (wrap e)
  | Panic => panic
  | Diverge => diverge
  end.
(** [builder.To(cmd.OutOrStdout())]. *)
Definition to_stdout (b : Builder) : C () :=
  match (To address json b).1 with inl text => emit (EvPrint text) | inr e => throw e end.
Definition show (v : value) (asJSON : bool) : C () :=
  builder ← from wrap1 v; to_stdout (formatOutput rfc3339 builder asJSON).

(** [conn, err := newConnection(...)], then [defer conn.Close()] around the rest. *)
Definition connected (body : transport → C ()) : C () :=
  r ← try (on_fs (newConnection dial serverAddr));
  match r with
  | inr e => throw (wrap1 e)
  | inl conn => emit (EvConnect conn);; defer (emit (EvClose conn)) (body conn)
  end.

(** [if tenantID == "" { tenantID = selectedTenantID() }]. *)
Definition tenant_or_selected (tenantID : string) : C string :=
  if String.eqb tenantID "" then
    r ← try (on_fs selectedTenantID);
    match r with inr e => throw (wrap1 e) | inl tID => mret tID end
  else mret tenantID.

Definition not_found (e : error) : C () :=
  throw (if is_NotFound e then EForeign "not found" else wrap1 e).

Definition getKeyCmd (keyID tenantID : string) (asJSON : bool) : C () :=
  tenantID ← tenant_or_selected tenantID;
  connected (λ conn,
    resp ← invoke conn (RGetKey keyID tenantID) (λ t, srv_GetKey t keyID tenantID);
    match resp with
    | inr e => not_found e
    | inl k => show (keyRow_value (newKeyRow (default nil_key k))) asJSON
    end).

Definition getKeyParentsCmd (keyID tenantID : string) (asJSON : bool) : C () :=
  tenantID ← tenant_or_selected tenantID;
  connected (λ conn,
    resp ← invoke conn (RGetParentKeys keyID tenantID) (λ t, srv_GetParentKeys t keyID tenantID);
    match resp with
    | inr e => not_found e
    | inl ks => show (VSlice (keyRow_value <$> (newKeyRow <$> ks))) asJSON
    end).

(** The rows of the layers, each followed by an empty row in a table. *)
Definition layer_rows (asJSON : bool) (trees : list (list ProtoKey)) : list keyRow :=
  mjoin ((λ tree, (newKeyRow <$> tree) ++ (if asJSON then [] else [no_row]))%list <$> trees).

Definition getKeyDescendantsCmd (keyID tenantID : string) (asJSON : bool) : C () :=
  tenantID ← tenant_or_selected tenantID;
  connected (λ conn,
    resp ← invoke conn (RGetDescendantKeys keyID tenantID) (λ t, srv_GetDescendantKeys t keyID tenantID);
    match resp with
    | inr e => not_found e
    | inl trees => show (VSlice (keyRow_value <$> layer_rows asJSON trees)) asJSON
    end).

Record list_flags := mkListFlags {
  lf_tenantID : string; lf_name : string; lf_kind : string; lf_lifeCycleState : string; lf_managedBy : string;
  lf_cursor : string; lf_order : string; lf_labels : Labels; lf_limit : Z; lf_asJSON : bool;
}.
Definition list_request (tenantID : string) (f : list_flags) : ListKeysRequest :=
  mkListKeysRequest tenantID (lf_name f) (lf_kind f) (lf_lifeCycleState f) (lf_managedBy f) (lf_labels f)
    (String.eqb (lf_order f) "asc") (lf_cursor f) (lf_limit f).

Definition getKeysCmd (f : list_flags) : C () :=
  tenantID ← tenant_or_selected (lf_tenantID f);
  connected (λ conn,
    let req := list_request tenantID f in
    resp ← invoke conn (RListKeys req) (λ t, srv_ListKeys t req);
    match resp with
    | inr e => not_found e
    | inl (ks, cursor) =>
        let krs := mkKeyRows (newKeyRow <$> ks) cursor in
        show (if lf_asJSON f then keyRows_value krs else VSlice (keyRow_value <$> krs_Keys krs)) (lf_asJSON f);;
        if (lf_asJSON f || String.eqb (krs_Cursor krs) "")%bool then mret ()
        else emit (EvPrint (String newline ("Cursor: " +:+ krs_Cursor krs +:+ String newline "")))
    end).

Definition getTenantCmd (id : string) (asJSON : bool) : C () :=
  connected (λ conn,
    resp ← invoke conn (RGetTenant id) (λ t, srv_GetTenant t id);
    match resp with
    | inr e => not_found e
    | inl tenant => show (tenant_value (TenantFromProto (default nil_tenant tenant))) asJSON
    end).

Definition getTenantsCmd (asJSON : bool) : C () :=
  connected (λ conn,
    resp ← invoke conn RListTenants srv_ListTenants;
    match resp with
    | inr e => throw (wrap1 e)
    | inl tenants => show (VSlice (tenant_value <$> TenantsFromProto tenants)) asJSON
    end).

Definition createTenantCmd (name : string) (labels : Labels) (asJSON : bool) : C () :=
  connected (λ conn,
    resp ← invoke conn (RCreateTenant name labels) (λ t, srv_CreateTenant t name labels);
    match resp with
    | inr e => throw (wrap1 e)
    | inl tenant => show (tenant_value (TenantFromProto (default nil_tenant tenant))) asJSON
    end).

Definition announceKeyCmd (kind name parent targetName : string) (labels : Labels) (asJSON : bool) : C () :=
  tenantID ← on_fs selectedTenantID;
  connected (λ conn,
    let req := mkAnnounceKeyRequest tenantID kind name parent targetName labels in
    resp ← invoke conn (RAnnounceKey req) (λ t, srv_AnnounceKey t req);
    match resp with
    | inr e => throw (wrap1 e)
    | inl k => show (announcedKeyRow_value (newAnnouncedKeyRow (default nil_key k))) asJSON
    end).

Definition activateKeyCmd (keyID tenantID : string) (asJSON : bool) : C () :=
  tenantID ← tenant_or_selected tenantID;
  connected (λ conn,
    let req := mkKeyActionRequest tenantID keyID false in
    resp ← invoke conn (RActivateKey req) (λ t, srv_ActivateKey t req);
    match resp with
    | inr e => throw (wrap1 e)
    | inl _ => show (activatedKeyRow_value (mkActivatedKeyRow true)) asJSON
    end).

(** *** select tenant (select.go) *)

Definition getTenantByID (conn : transport) (id : string) : C ProtoTenant :=
  resp ← invoke conn (RGetTenant id) (λ t, srv_GetTenant t id);
  match resp with
  | inr e => throw (if is_NotFound e then EForeign "tenant not found" else wrap1 e)
  | inl tenant => mret (default nil_tenant tenant)
  end.

(** The terminal and what is read from it; without an answer the command waits. *)
Definition interactive_tenant (conn : transport) (t : tty) (reads : list (list ascii)) : C ProtoTenant :=
  resp ← invoke conn RListTenants srv_ListTenants;
  let listed := match resp with inl ts => inl (TenantsFromProto ts) | inr e => inr e end in
  match selectTenantInteractive address rfc3339 listed t reads with
  | None => diverge
  | Some (Ok tenant) => mret (TenantToProto tenant)
  | Some (Err e) => throw e
  | Some Panic => panic
  | Some Diverge => diverge
  end.

Definition selectTenantCmd (args : list string) (interactive : bool) (t : tty) (reads : list (list ascii)) : C () :=
  r ← try (on_fs NewStore);
  match r with
  | inr e => throw (wrap1 e)
  | inl stateStore =>
      connected (λ conn,
        tenant ←
          match args, interactive with
          | [_], true => throw (EForeign "cannot use both tenant ID and --interactive flag")
          | [id], false => getTenantByID conn id
          | _, true => interactive_tenant conn t reads
          | _, false => throw (EForeign "tenant ID required")
          end;
        on_fs (storeSelection stateStore (pt_Id tenant) (pt_Name tenant));;
        emit (EvPrint ("Selected tenant: " +:+ pt_Name tenant +:+ " (" +:+ pt_Id tenant +:+ ")" +:+ String newline "")))
  end.

(** *** action status (action.go) *)

Definition getAction (conn : transport) (id : string) : C Action :=
  resp ← invoke conn (RGetAction id) (λ t, srv_GetAction t id);
  match resp with
  | inr e => throw (wrap1 e)
  | inl None => throw (EForeign "server returned an empty action")
  | inl (Some a) => mret a
  end.

Definition getKey (conn : transport) (tenantID keyID : string) : C keyRow :=
  resp ← invoke conn (RGetKey keyID tenantID) (λ t, srv_GetKey t keyID tenantID);
  match resp with
  | inr e => throw (wrap1 e)
  | inl None => throw (EForeign "server returned an empty key")
  | inl (Some k) => mret (newKeyRow k)
  end.

Definition getKeyTree (conn : transport) (tenantID keyID : string) : C (list keyRow) :=
  resp ← invoke conn (RGetDescendantKeys keyID tenantID) (λ t, srv_GetDescendantKeys t keyID tenantID);
  match resp with
  | inr e => throw (wrap1 e)
  | inl trees => mret (newKeyRow <$> mjoin trees)
  end.

(** [getTargetInfo]: the call [Actions.getTargetInfo] decides on, made. *)
Definition target_info (conn : transport) (a : Action) : C value :=
  match getTargetInfo a with
  | inr e => throw e
  | inl (CallGetDescendantKeys tenant key) =>
      rows ← getKeyTree conn tenant key; mret (VSlice (keyRow_value <$> rows))
  | inl (CallGetKey tenant key) => row ← getKey conn tenant key; mret (keyRow_value row)
  end.

Definition renderOverview (view : actionView) (asJSON : bool) : C () :=
  ab ← from id (actionView_value view);
  if asJSON then to_stdout (formatOutput rfc3339 ab true)
  else to_stdout (As (Builder_Format ab [timeFormatter rfc3339]) KeyValue).

Definition renderOverviewWithInfo (view : actionView) (info : value) (asJSON : bool) : C () :=
  if asJSON then
    b ← from id (VStruct [("Action", actionView_value view); ("TargetInfo", info)]);
    to_stdout (formatOutput rfc3339 b true)
  else
    renderOverview view false;;
    emit (EvPrint (String newline ""));;
    tb ← from id info;
    to_stdout (formatOutput rfc3339 tb false).

Definition actionStatusCmd (actionID : string) (targetInfo asJSON : bool) : C () :=
  connected (λ conn,
    action ← getAction conn actionID;
    let view := buildActionView action in
    if negb targetInfo then renderOverview view asJSON
    else info ← target_info conn action; renderOverviewWithInfo view info asJSON).
End commands.

(** ** Effects *)

(** [emits P]: the trace grew by events that satisfy [P]. *)
Definition emits {PKI : Pki} (P : event → Prop) : relation client := λ c c',
  ∃ ev, cl_trace c' = (cl_trace c ++ ev)%list ∧ Forall P ev.

#[export] Instance emits_preorder {PKI : Pki} P : PreOrder (emits P).
Proof.
  split.
  - intros c. exists []. by rewrite app_nil_r.
  - intros c1 c2 c3 (e1 & H1 & F1) (e2 & H2 & F2). exists (e1 ++ e2)%list.
    rewrite H2, H1, app_assoc. split; [done|by apply Forall_app].
Qed.

(** What may happen on a connection. *)
Definition over {PKI : Pki} (conn : transport) (e : event) : Prop :=
  match e with EvCall conn' _ => conn' = conn | EvPrint _ => True | _ => False end.

(** The tenant a call names. *)
Definition scope (q : rpc) : option string :=
  match q with
  | RGetKey _ t | RGetParentKeys _ t | RGetDescendantKeys _ t => Some t
  | RListKeys req => Some (lkr_TenantId req)
  | RActivateKey req => Some (kar_TenantId req)
  | RAnnounceKey req => Some (akr_TenantId req)
  | _ => None
  end.
Definition scoped {PKI : Pki} (t : string) (e : event) : Prop :=
  match e with EvCall _ q => scope q = Some t | _ => True end.

Section effects.
Context {PKI : Pki} (P : event → Prop).

Lemma emits_emit e : P e → respects (emits P) (emit e).
Proof. intros He c. exists [e]. split; [done|by constructor]. Qed.
Lemma emits_on_fs {A} (m : comp fs A) : respects (emits P) (on_fs m).
Proof. intros c. unfold on_fs. destruct (m (cl_fs c)). exists []. simpl. by rewrite app_nil_r. Qed.
Lemma emits_now : respects (emits P) now.
Proof. intros c. exists []. simpl. by rewrite app_nil_r. Qed.
Lemma emits_invoke {A} conn q (answer : nat → A + error) :
  P (EvCall conn q) → respects (emits P) (invoke conn q answer).
Proof.
  intros Hq. unfold invoke. apply respects_bind; [apply _|apply emits_now|intros t].
  apply respects_bind; [apply _|by apply emits_emit|intros _]. apply respects_ret. apply _.
Qed.
Lemma emits_from wrap v : respects (emits P) (from wrap v).
Proof. unfold from. solve_respects. Qed.
Lemma emits_to_stdout address json b : (∀ t, P (EvPrint t)) → respects (emits P) (to_stdout address json b).
Proof. intros Hp. unfold to_stdout. destruct (To address json b).1; [by apply emits_emit|solve_respects]. Qed.
Lemma emits_show address rfc3339 json v j : (∀ t, P (EvPrint t)) → respects (emits P) (show address rfc3339 json v j).
Proof.
  intros Hp. unfold show. apply respects_bind; [apply _|apply emits_from|intros b]. by apply emits_to_stdout.
Qed.
End effects.
#[export] Hint Resolve emits_on_fs emits_now emits_from : respects.
#[export] Hint Extern 1 (respects (emits _) (emit _)) => apply emits_emit; done : respects.
#[export] Hint Extern 1 (respects (emits _) (invoke _ _ _)) => apply emits_invoke; done : respects.
#[export] Hint Extern 1 (respects (emits _) (show _ _ _ _ _)) => apply emits_show; done : respects.
#[export] Hint Extern 1 (respects (emits _) (to_stdout _ _ _)) => apply emits_to_stdout; done : respects.

(** ** All commands *)

Inductive command :=
  | GetKeyCommand (keyID tenantID : string) (asJSON : bool)
  | GetParentKeysCommand (keyID tenantID : string) (asJSON : bool)
  | GetDescendantKeysCommand (keyID tenantID : string) (asJSON : bool)
  | GetKeysCommand (f : list_flags)
  | ActivateKeyCommand (keyID tenantID : string) (asJSON : bool)
  | AnnounceKeyCommand (kind name parent targetName : string) (labels : Labels) (asJSON : bool)
  | GetTenantCommand (id : string) (asJSON : bool)
  | GetTenantsCommand (asJSON : bool)
  | CreateTenantCommand (name : string) (labels : Labels) (asJSON : bool)
  | SelectTenantCommand (args : list string) (interactive : bool) (t : tty) (reads : list (list ascii))
  | ActionStatusCommand (actionID : string) (targetInfo asJSON : bool).

(** The tenant flag of a command that works on a tenant; announcing has none. *)
Definition tenant_flag (cmd : command) : option string :=
  match cmd with
  | GetKeyCommand _ t _ | GetParentKeysCommand _ t _ | GetDescendantKeysCommand _ t _ | ActivateKeyCommand _ t _ => Some t
  | GetKeysCommand f => Some (lf_tenantID f)
  | AnnounceKeyCommand _ _ _ _ _ _ => Some ""
  | _ => None
  end.

Section properties.
Context {OS : Os} {CODEC : ClientCodec} {PKI : Pki} {SERVER : Server}.
Context (dial : string → transport → option error) (serverAddr : string).
Context (address : value → string) (rfc3339 : Z → string) (json : list (gmap string value) → string + error).

Definition run_command (cmd : command) : C () :=
  match cmd with
  | GetKeyCommand k t j => getKeyCmd dial serverAddr address rfc3339 json k t j
  | GetParentKeysCommand k t j => getKeyParentsCmd dial serverAddr address rfc3339 json k t j
  | GetDescendantKeysCommand k t j => getKeyDescendantsCmd dial serverAddr address rfc3339 json k t j
  | GetKeysCommand f => getKeysCmd dial serverAddr address rfc3339 json f
  | ActivateKeyCommand k t j => activateKeyCmd dial serverAddr address rfc3339 json k t j
  | AnnounceKeyCommand a b c d e j => announceKeyCmd dial serverAddr address rfc3339 json a b c d e j
  | GetTenantCommand i j => getTenantCmd dial serverAddr address rfc3339 json i j
  | GetTenantsCommand j => getTenantsCmd dial serverAddr address rfc3339 json j
  | CreateTenantCommand n l j => createTenantCmd dial serverAddr address rfc3339 json n l j
  | SelectTenantCommand a i t r => selectTenantCmd dial serverAddr address rfc3339 a i t r
  | ActionStatusCommand i t j => actionStatusCmd dial serverAddr address rfc3339 json i t j
  end.

Lemma invoke_run {A} conn q (answer : nat → A + error) c :
  invoke conn q answer c =
  (Ok (answer (length (cl_trace c))), mkClient (cl_fs c) (cl_trace c ++ [EvCall conn q])%list).
Proof. done. Qed.

(** *** Reading changes no file *)

Lemma reads_os_call {A} (body : comp fs A) :
  respects (unchanged files) body → respects (unchanged files) (os_call no_change body).
Proof. intros Hb s. unfold os_call, no_change. destruct (os_fault (calls s)); [done|]. apply (Hb (mkFs _ _)). Qed.
Lemma reads_MkdirAll path : respects (unchanged files) (MkdirAll path).
Proof. apply reads_os_call. by intros s. Qed.
Lemma reads_ReadFile path : respects (unchanged files) (ReadFile path).
Proof. apply reads_os_call. intros s. by destruct (files s !! path). Qed.
Lemma reads_lift {A} (r : result A) : respects (unchanged files) (lift r).
Proof. done. Qed.
Lemma reads_lift_sum {A} (r : A + error) : respects (unchanged files) (lift_sum r).
Proof. by destruct r. Qed.
#[local] Hint Resolve reads_MkdirAll reads_ReadFile reads_lift reads_lift_sum : respects.

Lemma reads_NewFS : respects (unchanged files) NewFS.
Proof. unfold NewFS. solve_respects. Qed.
Lemma reads_NewStore : respects (unchanged files) NewStore.
Proof. unfold NewStore. solve_respects. Qed.
#[local] Hint Resolve reads_NewFS reads_NewStore : respects.
Lemma reads_selectedTenantID : respects (unchanged files) selectedTenantID.
Proof. unfold selectedTenantID, Load. solve_respects. Qed.
Lemma reads_newConnection : respects (unchanged files) (newConnection dial serverAddr).
Proof. unfold newConnection, FS_Get, isValid, NewClient. solve_respects. Qed.
#[local] Hint Resolve reads_selectedTenantID reads_newConnection : respects.

Lemma on_fs_inv {A} (m : comp fs A) c r c' :
  on_fs m c = (r, c') → cl_trace c' = cl_trace c ∧ m (cl_fs c) = (r, cl_fs c').
Proof. unfold on_fs. destruct (m (cl_fs c)) as [r0 s]. by intros [= <- <-]. Qed.

(** *** One session *)

(** The token in the client's files grants the connection. *)
Definition granted (c : client) (conn : transport) : Prop :=
  ∃ home d t, UserHomeDir = inl home ∧ files (cl_fs c) !! tokenPath (token_store home) = Some d ∧
    unmarshal_token d = Some t ∧ grants t conn.

(** Nothing, or one connection that the token grants, all calls over it, and
    then its end, unless the command still waits. *)
Definition session (c : client) (r : result ()) (c' : client) : Prop :=
  ∃ ev, cl_trace c' = (cl_trace c ++ ev)%list ∧
    ((ev = [] ∧ r ≠ Ok ()) ∨
     ∃ conn mid, granted c conn ∧ Forall (over conn) mid ∧
       ev = (EvConnect conn :: mid ++ match r with Diverge => [] | _ => [EvClose conn] end)%list).

Lemma defer_emit (m : C ()) e c r c' :
  defer (emit e) m c = (r, c') →
  ∃ c1, m c = (r, c1) ∧ cl_fs c' = cl_fs c1 ∧
    cl_trace c' = (cl_trace c1 ++ match r with Diverge => [] | _ => [e] end)%list.
Proof.
  unfold defer. destruct (m c) as [[[]| | |] c1]; intros [= <- <-]; exists c1;
    rewrite ?app_nil_r; done.
Qed.

Lemma connected_session body c r c' :
  (∀ conn, respects (emits (over conn)) (body conn)) →
  connected dial serverAddr body c = (r, c') → session c r c'.
Proof.
  intros Hb. unfold connected. rewrite bind_try.
  destruct (on_fs (newConnection dial serverAddr) c) as [rc c1] eqn:Hc. apply on_fs_inv in Hc as [Ht Hf].
  assert (∀ r, r ≠ Ok () → session c r c1) as Hnone.
  { intros r0 Hr. exists []. rewrite app_nil_r. auto. }
  destruct rc as [conn|e| |]; [|intros [= <- <-]; by apply Hnone..].
  apply connection_granted in Hf as Hg. rewrite bind_run. cbn -[defer].
  intros (c2 & Hm & _ & Htr)%defer_emit. specialize (Hb conn (mkClient (cl_fs c1) (cl_trace c1 ++ [EvConnect conn])%list)).
  rewrite Hm in Hb. destruct Hb as (mid & Hmid & Hover). cbn in Hmid.
  eexists. split; [rewrite Htr, Hmid, Ht, <-!app_assoc; done|]. right. exists conn, mid.
  split; [|done]. destruct Hg as (home & d & t & ?). exists home, d, t. naive_solver.
Qed.

(** Steps before the session: they only read files. *)
Definition silent : relation client := λ c c', cl_trace c' = cl_trace c ∧ files (cl_fs c') = files (cl_fs c).
#[local] Instance silent_preorder : PreOrder silent.
Proof. split; unfold silent; red; intuition congruence. Qed.
Lemma silent_on_fs {A} (m : comp fs A) : respects (unchanged files) m → respects silent (on_fs m).
Proof. intros Hm c. specialize (Hm (cl_fs c)). unfold on_fs. by destruct (m (cl_fs c)). Qed.
#[local] Hint Resolve silent_on_fs : respects.
Lemma silent_tenant t : respects silent (tenant_or_selected t).
Proof. unfold tenant_or_selected. solve_respects. Qed.

Lemma session_pre {A} (m : C A) (k : A → C ()) c r c' :
  respects silent m → (∀ a c1 r c', k a c1 = (r, c') → session c1 r c') →
  (m ≫= k) c = (r, c') → session c r c'.
Proof.
  intros Hm Hk. specialize (Hm c). rewrite bind_run. destruct (m c) as [rm c1]. destruct Hm as [Ht Hf]. cbn in Ht, Hf.
  assert (∀ r, r ≠ Ok () → session c r c1) as Hnone.
  { intros r0 Hr. exists []. rewrite app_nil_r. auto. }
  destruct rm as [a|e| |]; [|intros [= <- <-]; by apply Hnone..].
  intros H%Hk. destruct H as (ev & Hev & Hs). exists ev. rewrite <-Ht. split; [done|].
  unfold granted in *. by rewrite Hf in Hs.
Qed.

Lemma run_command_session cmd c r c' : run_command cmd c = (r, c') → session c r c'.
Proof.
  destruct cmd; cbn [run_command]; unfold getKeyCmd, getKeyParentsCmd, getKeyDescendantsCmd, getKeysCmd, activateKeyCmd,
    announceKeyCmd, getTenantCmd, getTenantsCmd, createTenantCmd, selectTenantCmd, actionStatusCmd.
  1-5: apply session_pre; [apply silent_tenant|]; intros tenant c1 r1 c2; apply connected_session; intros conn;
    unfold not_found; solve_respects.
  - apply session_pre; [apply silent_on_fs, reads_selectedTenantID|]. intros tenant c1 r1 c2.
    apply connected_session. intros conn. solve_respects.
  - apply connected_session. intros conn. unfold not_found. solve_respects.
  - apply connected_session. intros conn. solve_respects.
  - apply connected_session. intros conn. solve_respects.
  - apply session_pre; [apply respects_try, silent_on_fs, reads_NewStore|]. intros [st|e] c1 r1 c2.
    + apply connected_session. intros conn. unfold getTenantByID, interactive_tenant. solve_respects.
    + intros [= <- <-]. exists []. rewrite app_nil_r. auto.
  - apply connected_session. intros conn.
    unfold getAction, target_info, getKeyTree, getKey, renderOverviewWithInfo, renderOverview. solve_respects.
Qed.

(** *** Files *)

Definition same_files : relation client := unchanged (λ c, files (cl_fs c)).

Lemma same_files_emit e : respects same_files (emit e).
Proof. done. Qed.
Lemma same_files_on_fs {A} (m : comp fs A) : respects (unchanged files) m → respects same_files (on_fs m).
Proof. intros Hm c. specialize (Hm (cl_fs c)). unfold on_fs. by destruct (m (cl_fs c)). Qed.
Lemma same_files_invoke {A} conn q (answer : nat → A + error) : respects same_files (invoke conn q answer).
Proof. done. Qed.
Lemma same_files_from wrap v : respects same_files (from wrap v).
Proof. unfold from. by destruct (From v). Qed.
Lemma same_files_to_stdout b : respects same_files (to_stdout address json b).
Proof. unfold to_stdout. by destruct (To address json b).1. Qed.
#[local] Instance same_files_preorder : PreOrder same_files.
Proof. apply unchanged_preorder. Qed.
#[local] Hint Resolve same_files_emit same_files_on_fs same_files_invoke same_files_from same_files_to_stdout : respects.
Lemma same_files_show v j : respects same_files (show address rfc3339 json v j).
Proof. unfold show. solve_respects. Qed.
Lemma same_files_tenant t : respects same_files (tenant_or_selected t).
Proof. unfold tenant_or_selected. solve_respects. Qed.
#[local] Hint Resolve same_files_show same_files_tenant : respects.
Lemma same_files_connected body :
  (∀ conn, respects same_files (body conn)) → respects same_files (connected dial serverAddr body).
Proof. intros Hb. unfold connected. solve_respects. Qed.

Lemma run_command_files cmd :
  (∀ a i t r, cmd ≠ SelectTenantCommand a i t r) → respects same_files (run_command cmd).
Proof.
  intros Hn. destruct cmd; cbn [run_command]; [..|by destruct (Hn args interactive t reads)|];
    unfold getKeyCmd, getKeyParentsCmd, getKeyDescendantsCmd, getKeysCmd, activateKeyCmd, announceKeyCmd, getTenantCmd,
      getTenantsCmd, createTenantCmd, actionStatusCmd, not_found.
  all: repeat (apply respects_bind; [apply _|by auto with respects|intros ?]).
  all: apply same_files_connected; intros conn.
  all: unfold getAction, target_info, getKeyTree, getKey, renderOverviewWithInfo, renderOverview; solve_respects.
Qed.

(** *** Tenants *)

(** The tenant the client's files select. *)
Definition selected (c : client) (t : string) : Prop :=
  ∃ home d st name, UserHomeDir = inl home ∧ files (cl_fs c) !! statePath (state_store home) = Some d ∧
    unmarshal_state d = Some st ∧ st_Tenant st = Some (mkTenantSelection t name).

Lemma selectedTenantID_Ok s t s' :
  selectedTenantID s = (Ok t, s') →
  ∃ home d st name, UserHomeDir = inl home ∧ files s !! statePath (state_store home) = Some d ∧
    unmarshal_state d = Some st ∧ st_Tenant st = Some (mkTenantSelection t name).
Proof.
  unfold selectedTenantID, NewStore. rewrite bind_try.
  destruct UserHomeDir as [home|]; [|done]. rewrite bind_run. unfold MkdirAll, os_call at 1, no_change at 1.
  destruct (os_fault (calls s)); [done|]. cbn -[Load]. rewrite bind_try. unfold Load. rewrite bind_try.
  unfold ReadFile, os_call, no_change. cbn. destruct (os_fault _); [done|].
  destruct (files s !! _) as [d|] eqn:Hd; [|done]. destruct (unmarshal_state d) as [st|] eqn:Hs; [|done]. cbn.
  destruct (st_Tenant st) as [[t' n]|] eqn:Ht; [|done]. intros [= <- <-]. by exists home, d, st, n.
Qed.

Lemma tenant_or_selected_Ok flag c t c' :
  tenant_or_selected flag c = (Ok t, c') → if String.eqb flag "" then selected c t else t = flag.
Proof.
  unfold tenant_or_selected. destruct (String.eqb_spec flag "") as [->|]; [|by intros [= <- <-]].
  rewrite bind_try. destruct (on_fs selectedTenantID c) as [[t'|e| |] c1] eqn:H; try done. intros [= <- <-].
  by apply on_fs_inv in H as [_ H%selectedTenantID_Ok].
Qed.

(** New events of a run. *)
Definition new_events (c c' : client) : list event := drop (length (cl_trace c)) (cl_trace c').

Lemma emits_new P c c' : emits P c c' → Forall P (new_events c c').
Proof. intros (ev & H & Hp). unfold new_events. by rewrite H, drop_app_length. Qed.

(** After a successful first step, what follows emits. *)
Lemma emits_after {A} P (m : C A) (k : A → C ()) c r c' :
  respects silent m → (∀ a c1, m c = (Ok a, c1) → respects (emits P) (k a)) →
  (m ≫= k) c = (r, c') → Forall P (new_events c c').
Proof.
  intros Hm Hk. specialize (Hm c). rewrite bind_run. destruct (m c) as [rm c1]. destruct Hm as [Ht _]. cbn in Ht.
  assert (Forall P (new_events c c1)) as Hnone.
  { unfold new_events. rewrite Ht, drop_all. constructor. }
  destruct rm as [a|e| |]; [|by intros [= <- <-]..]. intros H. specialize (Hk a c1 eq_refl c1). rewrite H in Hk.
  apply emits_new in Hk. unfold new_events in *. by rewrite <-Ht.
Qed.

Lemma emits_connected P body :
  (∀ conn, P (EvConnect conn)) → (∀ conn, P (EvClose conn)) → (∀ conn, respects (emits P) (body conn)) →
  respects (emits P) (connected dial serverAddr body).
Proof.
  intros H1 H2 Hb. unfold connected. apply respects_bind; [apply _|apply respects_try, emits_on_fs|].
  intros [conn|e]; [|solve_respects]. apply respects_bind; [apply _|by apply emits_emit|intros _].
  apply respects_defer; [apply _|by apply emits_emit|done].
Qed.

Lemma run_command_scope cmd flag c r c' :
  tenant_flag cmd = Some flag → run_command cmd c = (r, c') →
  new_events c c' = [] ∨
  ∃ t, (if String.eqb flag "" then selected c t else t = flag) ∧ Forall (scoped t) (new_events c c').
Proof.
  intros Hflag H.
  assert (∀ (m : C string) (k : string → C ()),
    run_command cmd = m ≫= k → respects silent m →
    (∀ t c1, m c = (Ok t, c1) → if String.eqb flag "" then selected c t else t = flag) →
    (∀ t, respects (emits (scoped t)) (k t)) →
    new_events c c' = [] ∨
    ∃ t, (if String.eqb flag "" then selected c t else t = flag) ∧ Forall (scoped t) (new_events c c')) as Hgo.
  { intros m k Heq Hm Hsel Hk. rewrite Heq in H. destruct (m c) as [rm c1] eqn:Em.
    assert (new_events c c1 = []) as Hnone.
    { specialize (Hm c). rewrite Em in Hm. destruct Hm as [Ht _]. cbn in Ht. unfold new_events. by rewrite Ht, drop_all. }
    destruct rm as [t|e| |]; [|left; rewrite bind_run, Em in H; by injection H as <- <-..].
    right. exists t. split; [by eapply Hsel|]. eapply emits_after; [done| |done].
    intros t' c2 Em2. rewrite Em in Em2. injection Em2 as <- <-. apply Hk. }
  destruct cmd; try discriminate Hflag; injection Hflag as <-; (eapply Hgo; [reflexivity|..]).
  all: try apply silent_tenant; try (intros t c1; apply tenant_or_selected_Ok).
  all: try (intros t; apply emits_connected; [done..|]; intros conn; unfold not_found; solve_respects).
  - apply silent_on_fs, reads_selectedTenantID.
  - intros t c1 [_ Hs]%on_fs_inv. by apply selectedTenantID_Ok in Hs.
Qed.

(** *** Selecting *)

Lemma NewStore_Ok s st s' : NewStore s = (Ok st, s') → ∃ home, UserHomeDir = inl home ∧ st = state_store home.
Proof.
  unfold NewStore. destruct UserHomeDir as [home|]; [|done]. rewrite bind_run.
  destruct (MkdirAll _ s) as [[]]; try done. intros [= <- <-]. by exists home.
Qed.

(** The files a selection may touch. *)
Definition selection_file (p : string) : Prop :=
  ∃ home, UserHomeDir = inl home ∧
    (p = statePath (state_store home) ∨ p = path_join (st_dirPath (state_store home)) ".state.tmp").

Lemma storeSelection_run home id name s r s' :
  storeSelection (state_store home) id name s = (r, s') →
  (∀ p, p ≠ statePath (state_store home) → p ≠ path_join (st_dirPath (state_store home)) ".state.tmp" →
     files s' !! p = files s !! p) ∧
  (r = Ok () → ∃ d, marshal_state (mkState (Some (mkTenantSelection id name))) = Some d ∧
     files s' !! statePath (state_store home) = Some d).
Proof.
  unfold storeSelection, Save. rewrite bind_try.
  destruct (marshal_state _) as [d|]; [|by intros [= <- <-]].
  destruct (write_and_rename _ _ _ s) as [rw sw] eqn:Hw.
  apply write_and_rename_atomic in Hw as [Hr Ho]; [|by intros ?%path_join_inj].
  destruct Hr as [[-> Hd]|[[e ->] _]]; intros [= <- <-]; (split; [intros; by apply Ho|]); [|done].
  intros _. by exists d.
Qed.

Lemma selectTenantCmd_files args interactive t reads c r c' p :
  selectTenantCmd dial serverAddr address rfc3339 args interactive t reads c = (r, c') →
  ¬ selection_file p → files (cl_fs c') !! p = files (cl_fs c) !! p.
Proof.
  intros H Hp. revert r c' H. set (R := unchanged (λ c, files (cl_fs c) !! p)).
  enough (respects R (selectTenantCmd dial serverAddr address rfc3339 args interactive t reads)) as HR.
  { intros r c' H. specialize (HR c). rewrite H in HR. exact HR. }
  clear c. assert (∀ A (m : C A), respects same_files m → respects R m) as Hsame.
  { intros A m Hm c. specialize (Hm c). unfold R, unchanged in *. cbn in *. by rewrite Hm. }
  assert (PreOrder R) as HPO by apply unchanged_preorder.
  unfold selectTenantCmd. intros c. rewrite bind_try.
  destruct (on_fs NewStore c) as [rs c1] eqn:Hs.
  assert (R c c1) as Hc1.
  { pose proof (Hsame _ _ (same_files_on_fs NewStore reads_NewStore) c) as Hr. by rewrite Hs in Hr. }
  destruct rs as [st|e| |]; try done. apply on_fs_inv in Hs as [_ (home & Hh & ->)%NewStore_Ok].
  etrans; [exact Hc1|]. revert c1 Hc1. intros c0 _. revert c0.
  match goal with |- ∀ c, R c (?m c).2 => change (respects R m) end.
  unfold connected. apply respects_bind; [apply _| |intros [conn|e]; [|solve_respects]].
  { apply Hsame, respects_try. auto with respects. }
  apply respects_bind; [apply _|done|intros _]. apply respects_defer; [apply _|done|].
  apply respects_bind; [apply _| |intros tenant].
  { apply Hsame. unfold getTenantByID, interactive_tenant. solve_respects. }
  apply respects_bind; [apply _| |done]. intros c2. unfold R, unchanged, on_fs.
  destruct (storeSelection _ _ _ (cl_fs c2)) as [r s] eqn:Hst. apply storeSelection_run in Hst as [Ho _].
  cbn. apply Ho; intros ->; apply Hp; exists home; auto.
Qed.

(** What a command of the client does outside its process.  It does nothing
    and fails, or it makes one connection, which the stored token grants, sends
    every call over that connection and closes it, whether it succeeds, fails or
    panics; a command that succeeds did connect.  Files are only read, except
    that selecting a tenant writes the file of the selection and its temporary
    file. *)
Theorem command_confined cmd c r c' :
  run_command cmd c = (r, c') →
  session c r c' ∧
  (∀ p, ¬ selection_file p → files (cl_fs c') !! p = files (cl_fs c) !! p) ∧
  ((∀ a i t rs, cmd ≠ SelectTenantCommand a i t rs) → files (cl_fs c') = files (cl_fs c)).
Proof.
  intros H. assert ((∀ a i t rs, cmd ≠ SelectTenantCommand a i t rs) → files (cl_fs c') = files (cl_fs c)) as Hsame.
  { intros Hn. pose proof (run_command_files cmd Hn c) as Hf. by rewrite H in Hf. }
  split_and!; [by apply run_command_session in H| |done]. intros p Hp.
  destruct cmd; try (by rewrite Hsame). cbn [run_command] in H. by eapply selectTenantCmd_files.
Qed.

(** The tenant chosen by [select tenant] is the tenant the next commands work
    on: after a successful selection of an identifier, every call of a command
    without a tenant flag names the tenant the server answered with for it;
    and a tenant flag that is given wins over the selection. *)
Theorem selection_is_used id t reads c c1 cmd flag r c2 :
  selectTenantCmd dial serverAddr address rfc3339 [id] false t reads c = (Ok (), c1) →
  tenant_flag cmd = Some flag → run_command cmd c1 = (r, c2) →
  ∃ n tenant, srv_GetTenant n id = inl tenant ∧
    Forall (scoped (if String.eqb flag "" then pt_Id (default nil_tenant tenant) else flag)) (new_events c1 c2).
Proof.
  intros Hsel Hflag Hrun.
  assert (∃ n tenant, srv_GetTenant n id = inl tenant ∧ ∀ x, selected c1 x → x = pt_Id (default nil_tenant tenant))
    as (n & tenant & Hn & Huniq).
  2:{ exists n, tenant. split; [done|]. apply run_command_scope with (flag := flag) in Hrun; [|done].
      destruct Hrun as [->|(x & Hx & Hs)]; [constructor|]. destruct (String.eqb flag ""); [|by subst x].
      by apply Huniq in Hx as ->. }
  unfold selectTenantCmd in Hsel. rewrite bind_try in Hsel.
  destruct (on_fs NewStore c) as [[st|e| |] c3] eqn:Hs; try done.
  apply on_fs_inv in Hs as [_ (home & Hh & ->)%NewStore_Ok]. unfold connected in Hsel. rewrite bind_try in Hsel.
  destruct (on_fs (newConnection dial serverAddr) c3) as [[conn|e| |] c4]; try done.
  rewrite bind_run in Hsel. cbn -[defer getTenantByID storeSelection] in Hsel.
  apply defer_emit in Hsel as (c5 & Hsel & Hfs & _). apply bind_inv_Ok in Hsel as (tn & c6 & Hget & Hsel).
  unfold getTenantByID in Hget. rewrite bind_run, invoke_run in Hget.
  destruct (srv_GetTenant _ id) as [tenant|e] eqn:Hn; [|discriminate Hget].
  injection Hget as <- <-. eexists _, tenant. split; [exact Hn|].
  apply bind_inv_Ok in Hsel as ([] & c7 & Hstore & [= <-]). apply on_fs_inv in Hstore as [_ Hstore].
  apply storeSelection_run in Hstore as [_ Hstored]. destruct Hstored as (d & Hm & Hd); [done|].
  intros x (home' & d' & st & nm & Hh' & Hd' & Hu & Hst). rewrite Hh in Hh'. injection Hh' as <-.
  rewrite Hfs in Hd'. cbn [cl_fs] in Hd'. rewrite Hd in Hd'. injection Hd' as <-.
  apply state_roundtrip in Hm. rewrite Hm in Hu. injection Hu as <-. by injection Hst.
Qed.

(** *** What is printed *)

(** The cells of a key, in a table or in JSON. *)
Definition key_cells (asJSON : bool) (k : Key) : list Cell :=
  let time z := VString (if (z =? 0)%Z then "" else rfc3339 z) in
  [mkCell "Kind" (VString (k_Kind k)); mkCell "ID" (VString (k_ID k)); mkCell "Name" (VString (k_Name k));
   mkCell "ParentID" (VString (default "" (k_ParentID k))); mkCell "LifeCycleState" (VString (k_LifeCycleState k));
   mkCell "Status" (VString (k_Status k)); mkCell "ManagedBy" (VString (k_ManagedBy k));
   mkCell "CreatedAt" (time (k_CreatedAt k)); mkCell "UpdatedAt" (time (k_UpdatedAt k));
   mkCell "Labels" (if asJSON then VLabels (k_Labels k) else VString (Labels_String (k_Labels k)))].

Lemma show_key_table k c :
  show address rfc3339 json (keyRow_value (newKeyRow (KeyToProto k))) false c =
  (Ok (), mkClient (cl_fs c) (cl_trace c ++ [EvPrint (renderTabular address [key_cells false k])])%list).
Proof. reflexivity. Qed.

(** [get key] on a key the service answers with: the table of its fields. *)
Theorem get_key_prints keyID tenantID k c conn s :
  tenantID ≠ "" → newConnection dial serverAddr (cl_fs c) = (Ok conn, s) →
  srv_GetKey (S (length (cl_trace c))) keyID tenantID = inl (Some (KeyToProto k)) →
  getKeyCmd dial serverAddr address rfc3339 json keyID tenantID false c =
  (Ok (), mkClient s (cl_trace c ++
     [EvConnect conn; EvCall conn (RGetKey keyID tenantID);
      EvPrint (renderTabular address [key_cells false k]); EvClose conn])%list).
Proof.
  intros Ht Hc Hs. unfold getKeyCmd, tenant_or_selected. rewrite (proj2 (String.eqb_neq _ _) Ht), bind_ret_l.
  unfold connected. rewrite bind_try. unfold on_fs. rewrite Hc. rewrite bind_run. cbn -[defer].
  unfold defer. rewrite bind_run, invoke_run. cbn [cl_trace cl_fs]. rewrite length_app. cbn [length].
  replace (length (cl_trace c) + 1)%nat with (S (length (cl_trace c))) by lia. rewrite Hs.
  match goal with |- context [show _ _ _ ?v false ?c] => change (show _ _ _ v false c) with
    (show address rfc3339 json (keyRow_value (newKeyRow (KeyToProto k))) false c) end. rewrite show_key_table.
  cbn [cl_trace cl_fs emit modify snd]. by rewrite <-!app_assoc.
Qed.

(** The formatter of times reaches the fields of a row, not the rows inside a
    field: [get key --json] gives the times as text and [get keys --json] the
    nanoseconds. *)
Theorem listed_times_unformatted k cursor :
  let shown v := match From v with
                 | Ok b => Some (b_rows (applyFormatters (formatOutput rfc3339 b true)))
                 | _ => None
                 end in
  let row := newKeyRow (KeyToProto k) in
  shown (keyRow_value row) = Some [key_cells true k] ∧
  shown (keyRows_value (mkKeyRows [row] cursor)) =
    Some [[mkCell "Keys" (VSlice [keyRow_value row]); mkCell "Cursor" (VString cursor)]].
Proof. done. Qed.
End properties.

(** ** A server and a client *)

Module CommandSamples.

Definition t1 : ProtoTenant := mkProtoTenant "t-1" "one" ∅ 1 1.
Definition k1 : Key := mkKey "k-1" "k" "t-1" "K0" None "root" ∅ KeyLifeCycleActive (mkKeyProcessingState KeyProcessingCompleted "") 1 1.

#[export] Instance server : Server := {|
  srv_GetKey := λ _ _ _, inl (Some (KeyToProto k1));
  srv_GetParentKeys := λ _ _ _, inl [KeyToProto k1];
  srv_GetDescendantKeys := λ _ _ _, inl [[KeyToProto k1]];
  srv_ListKeys := λ _ _, inl ([KeyToProto k1], "");
  srv_ActivateKey := λ _ _, inl "job";
  srv_AnnounceKey := λ _ _, inl (Some (KeyToProto k1));
  srv_GetTenant := λ _ _, inl (Some t1);
  srv_ListTenants := λ _, inl [t1];
  srv_CreateTenant := λ _ _ _, inl (Some t1);
  srv_GetAction := λ _ _, inl None;
|}.

Definition no_json (_ : list (gmap string value)) : string + error := inl "{}".
Definition start : client := mkClient logged_in [].
Definition chosen : client := (selectTenantCmd dials "srv" no_address utc ["t-1"] false screen [] start).2.
Definition get_key : command := GetKeyCommand "k-1" "" false.
Definition ran : result () * client := run_command dials "srv" no_address utc no_json get_key chosen.

Lemma command_confined_witness :
  ran.1 = Ok () ∧ session chosen (Ok ()) ran.2 ∧ length (new_events chosen ran.2) = 4%nat.
Proof.
  assert (ran.1 = Ok ()) as Hr by (vm_compute; reflexivity).
  destruct (command_confined dials "srv" no_address utc no_json get_key chosen (Ok ()) ran.2) as [Hs _].
  { unfold ran in *. destruct (run_command _ _ _ _ _ _ _) as [r c']. simpl in *. rewrite Hr. reflexivity. }
  split; [exact Hr|]. split; [exact Hs|]. vm_compute. reflexivity.
Defined.

Lemma selection_is_used_witness :
  selectTenantCmd dials "srv" no_address utc ["t-1"] false screen [] start = (Ok (), chosen) ∧
  Forall (scoped "t-1") (new_events chosen ran.2).
Proof.
  assert (selectTenantCmd dials "srv" no_address utc ["t-1"] false screen [] start = (Ok (), chosen)) as Hsel.
  { assert ((selectTenantCmd dials "srv" no_address utc ["t-1"] false screen [] start).1 = Ok ()) as E
      by (vm_compute; reflexivity).
    unfold chosen. destruct (selectTenantCmd _ _ _ _ _ _ _ _ _) as [r c']. simpl in *. rewrite E. reflexivity. }
  split; [exact Hsel|].
  destruct (selection_is_used dials "srv" no_address utc no_json "t-1" screen [] start chosen get_key "" ran.1 ran.2)
    as (n & tenant & Hn & Hs); [exact Hsel|reflexivity|unfold ran; destruct (run_command _ _ _ _ _ _ _); reflexivity|].
  injection Hn as <-. exact Hs.
Defined.
End CommandSamples.
End ClientCommands.
