(* ===== verification/Process.v ===== *)
(** * The processes (cmd/root/main.go, cmd/agent/main.go) and loading their
    configuration (internal/config)

    Each main function as the sequence of steps it takes: a step that may fail
    ends the process ([handleErr], [log.Fatal]: deferred calls do not run), and
    its outcome is a parameter, the model of the step itself being in the file
    of its component.  The trace holds the steps in order, with what they are
    given: credentials, addresses, options of the gRPC server.  What a goroutine
    does later is the component's; the trace says when it starts, and the error
    of the gRPC server that ends a root process is part of its runs
    ([root_process]).  A step that panics inside its component is not modelled
    here.  Files and YAML are parameters; what is done with what they hold is
    not. *)

From S2P Require Import Prelude GoStrings GoRuntime Model World Lifecycle Providers Hierarchy Identity.
From S2P Require Import Config Sql KeyStore KeyVersionStore StoreInvariant StoreTheorems AgentRegistry Worker ClientAuth.
From Stdlib Require Import Ascii.

Local Open Scope string_scope.

Module Process.
Import ClientAuth.

(** ** Authentication settings (config/auth.go) *)

Definition no_paths : TLSPaths := mkTLSPaths "" "" "".

(** [newConfig]: the empty [MTLSConfig], to be decoded into. *)
Definition newConfig (t : string) : MTLSConfig + error :=
  if String.eqb t AuthTypeMTLS then inl (mkMTLSConfig no_paths no_paths)
  else inr (wrap1 (ESentinel ErrUnknownAuthType)).

(** [MTLSConfig.AuthType]. *)
Definition MTLSConfig_AuthType (m : MTLSConfig) : string := AuthTypeMTLS.

(** [GetAuthConfig]. *)
Definition GetAuthConfig (c : option MTLSConfig) : MTLSConfig + error :=
  match c with Some cfg => inl cfg | None => inr (wrap1 (ESentinel ErrUnknownAuthType)) end.

(** A YAML node decoded as far as the types go: the discriminator, the
    identities, and the node of the settings, decoded into the given value. *)
Record raw_auth := mkRawAuth {
  raw_AuthType : string;
  raw_IdentityConfigs : list IdentityConfig;
  raw_Auth : option (MTLSConfig → MTLSConfig + error);
}.

Definition decode_details (raw : raw_auth) : MTLSConfig + error :=
  match newConfig (raw_AuthType raw) with
  | inr e => inr e
  | inl cfg =>
      match raw_Auth raw with
      | None => inl cfg
      | Some decode => match decode cfg with inl cfg => inl cfg | inr e => inr (wrap1 e) end
      end
  end.

Definition RootAuthConfig_UnmarshalYAML (node : raw_auth + error) : RootAuthConfig + error :=
  match node with
  | inr e => inr (wrap1 e)
  | inl raw =>
      match decode_details raw with
      | inr e => inr e
      | inl cfg => inl (mkRootAuthConfig (raw_AuthType raw) (raw_IdentityConfigs raw) (Some cfg))
      end
  end.

Definition AgentAuthConfig_UnmarshalYAML (node : raw_auth + error) : AgentAuthConfig + error :=
  match node with
  | inr e => inr (wrap1 e)
  | inl raw =>
      match decode_details raw with
      | inr e => inr e
      | inl cfg => inl (mkAgentAuthConfig (raw_AuthType raw) (Some cfg))
      end
  end.

(** [strconv.Atoi]. *)
Definition digit (c : ascii) : option Z :=
  let n := Z.of_nat (nat_of_ascii c) in if ((48 <=? n) && (n <=? 57))%Z%bool then Some (n - 48)%Z else None.
Fixpoint digits_value (acc : Z) (l : list ascii) : option Z :=
  match l with
  | [] => Some acc
  | c :: l => match digit c with Some d => digits_value (10 * acc + d) l | None => None end
  end.
Definition unsigned (l : list ascii) : option Z := match l with [] => None | _ => digits_value 0 l end.
Definition Atoi (s : string) : option Z :=
  z ← match chars s with
      | "-"%char :: l => Z.opp <$> unsigned l
      | "+"%char :: l => unsigned l
      | l => unsigned l
      end;
  if ((- 2 ^ 63 <=? z) && (z <? 2 ^ 63))%Z%bool then Some z else None.

(** ** Steps *)

Section process.
Context {PKI : Pki}.

(** The options and services of a gRPC server. *)
Record grpc_server := mkGrpcServer {
  gs_Creds : option TlsConfig;
  gs_Interceptor : option Authenticator;
  gs_StatsHandler : bool;
  gs_Services : list string;
}.

Inductive step :=
  | SNoDump
  | SOpenDB (dsn : string)
  | SMigrate (database : string)
  | SOrbitalStore
  | SRegistry (cs : list ConnectionConfig) (t : transport)
  | SRootManager (rk : RootKeySpec)
  | SManager (bindings : Bindings) (h : KeyHierarchy)
  | SOrchestrator
  | SStartOrchestrator
  | SNewServer (s : grpc_server)
  | SListen (addr : string)
  | SServe
  | SStartWorker (interval : Z)
  | SKmip (cfg : KMIP)
  | SServeKmip
  | SSignal
  | SGracefulStop
  | SKmipShutdown
  | SWorkerStop
  | SOrchestratorStop
  | SConnect (url : string) (t : transport)
  | SRegister (agentName instanceID : string)
  | SDeregister (agentName instanceID : string)
  | SCloseDB
  | SCloseConn.

Class Host := {
  Getenv : string → string;
  new_uuid : string;
  read_file : string → string + error;
  unmarshal_root : string → RootConfig + error;
  unmarshal_bootstrap : string → AgentBootstrapConfig + error;
  unmarshal_agent : string → AgentConfig + error;
  register_answer : string;                 (* the configuration a registration returns *)
  outcome : step → goerror;
}.
End process.
Notation P := (comp (list step)).

Section mains.
Context {PKI : Pki} {HOST : Host} {RE : Regexp}.

Definition note (s : step) : P () := modify (λ t, t ++ [s])%list.
(** A step and [handleErr]. *)
Definition must (s : step) : P () := note s;; check (outcome s).
Definition fatal {A} (what : string) : P A := throw (EForeign what).
Definition handled {A} (r : A + error) : P A := match r with inl a => mret a | inr e => throw e end.

(** [os.Getenv] with a default. *)
Definition env_or (name dflt : string) : string :=
  if String.eqb (Getenv name) "" then dflt else Getenv name.

(** ** Loading (config/root.go, config/agent.go) *)

Definition LoadRootConfig (path : string) : RootConfig + error :=
  match read_file path with
  | inr e => inr (wrap1 e)
  | inl data =>
      match unmarshal_root data with
      | inr e => inr (wrap1 e)
      | inl cfg => match RootConfig_Validate cfg with Some e => inr e | None => inl cfg end
      end
  end.

Definition LoadAgentBootstrapConfig (path : string) : AgentBootstrapConfig + error :=
  match read_file path with
  | inr e => inr (wrap1 e)
  | inl data =>
      match unmarshal_bootstrap data with
      | inr e => inr (wrap1 e)
      | inl cfg => match AgentBootstrapConfig_Validate cfg with Some e => inr e | None => inl cfg end
      end
  end.

Definition UnmarshalAgentConfig (b : string) : AgentConfig + error := unmarshal_agent b.

(** ** The root *)

Definition root_loadConfig : P RootConfig :=
  handled (LoadRootConfig (env_or "ROOT_CONFIG_PATH" "config.yaml")).

Definition root_services : list string :=
  ["TenantService"; "agents.Service"; "KeyService"; "rootkey.Service"; "ActionService"; "sealer.Service"].

(** The options of the root's gRPC server. *)
Definition root_server (cfg : RootConfig) : P grpc_server :=
  match rc_Auth cfg with
  | None => mret (mkGrpcServer None None true root_services)
  | Some auth =>
      mtlsConfig ← handled (GetAuthConfig (ra_Config auth));
      authn ← handled (NewAuthenticator (URIs (ra_IdentityConfigs auth)));
      tls ← handled (TLSServer_BuildTLSConfig (mt_Server mtlsConfig));
      mret (mkGrpcServer (Some tls) (Some authn) true root_services)
  end.

(** [initAgentWorker]: [worker.New] of a task that is there. *)
Definition agentWorkerInterval : Z := 10 * second.
Definition initAgentWorker : P Z :=
  match Worker.New agentWorkerInterval (Some ()) with
  | inl w => mret (Worker.interval w)
  | inr e => throw e
  end.

Definition root_main : P () :=
  must SNoDump;;
  let srvPort := env_or "SERVER_PORT" "8080" in
  match Atoi srvPort with
  | None => fatal "invalid SERVER_PORT value"
  | Some _ =>
    let dsn := Getenv "DATABASE_URL" in
    if String.eqb dsn "" then fatal "DATABASE_URL environment variable is required"
    else
      must (SOpenDB dsn);;
      must (SMigrate "root");;
      cfg ← root_loadConfig;
      must SOrbitalStore;;
      must (SRegistry (rc_Connections cfg) InsecureTransport);;
      match rc_RootKey cfg with None => panic | Some rk => must (SRootManager rk) end;;
      must (SManager (rc_KeyBindings cfg) (rc_Hierarchy cfg));;
      must SOrchestrator;;
      note SStartOrchestrator;;
      server ← root_server cfg;
      note (SNewServer server);;
      must (SListen (":" +:+ srvPort));;
      note SServe;;
      interval ← initAgentWorker;
      note (SStartWorker interval);;
      match rc_KMIP cfg with None => mret () | Some k => must (SKmip k);; note SServeKmip end;;
      note SSignal;;
      note SGracefulStop;;
      match rc_KMIP cfg with None => mret () | Some _ => note SKmipShutdown end;;
      note SWorkerStop;;
      note SOrchestratorStop;;
      note SCloseDB
  end.

(** The goroutine of the gRPC server: from [Serve] on, an error it returns ends the
    process wherever [main] is ([log.Fatalf]).  A run of the process is the run
    of [main], or a part of it that reached [Serve] and was cut off. *)
Inductive root_process : result () → list step → Prop :=
  | root_process_main r tr : root_main [] = (r, tr) → root_process r tr
  | root_process_serve_failed r tr cut e :
      root_main [] = (r, tr) → outcome SServe = Some e → cut `prefix_of` tr → SServe ∈ cut →
      root_process (Err e) cut.

(** ** The agent *)

Definition set_root_url (url : string) (cfg : AgentBootstrapConfig) : AgentBootstrapConfig :=
  mkAgentBootstrapConfig (ab_Name cfg) (ab_Role cfg) (ab_Auth cfg) (mkAddress (ad_Type (ab_KryptonRoot cfg)) url).

Definition agent_loadConfig : P AgentBootstrapConfig :=
  cfg ← handled (LoadAgentBootstrapConfig (env_or "AGENT_BOOTSTRAP_CONFIG_PATH" "config.yaml"));
  let portOverride := Getenv "ROOT_SERVER_PORT" in
  if String.eqb portOverride "" then mret cfg
  else match Atoi portOverride with
       | None => fatal "invalid ROOT_SERVER_PORT"
       | Some _ => mret (set_root_url ("127.0.0.1:" +:+ portOverride) cfg)
       end.

(** The credentials towards the root. *)
Definition agent_credentials (cfg : AgentBootstrapConfig) : P transport :=
  match ab_Auth cfg with
  | None => mret InsecureTransport
  | Some auth =>
      mtlsConfig ← handled (GetAuthConfig (aa_Config auth));
      tls ← handled (TLSClient_BuildTLSConfig (mt_Client mtlsConfig));
      mret (TLSTransport tls)
  end.

Definition agent_services : list string :=
  ["KeyService"; "KeyVersionService"; "TenantService"; "sealer.Service"].

Definition setupKeyServiceServer (agentCfg : AgentConfig) : P () :=
  let dsn := Getenv "AGENT_DATABASE_URL" in
  if String.eqb dsn "" then fatal "AGENT_DATABASE_URL environment variable is required"
  else
    must (SOpenDB dsn);;
    must (SMigrate "agent");;
    must (SListen (":" +:+ env_or "AGENT_PORT" "9091"));;
    must (SRegistry (ac_Connections agentCfg) InsecureTransport);;
    must (SManager (ac_KeyBindings agentCfg) (ac_Hierarchy agentCfg));;
    note (SNewServer (mkGrpcServer None None true agent_services)).

(** [time.Duration(agentCfg.KeepAlive) * time.Second], on 64 bits. *)
Definition wrap64 (z : Z) : Z := ((z + 2 ^ 63) mod 2 ^ 64 - 2 ^ 63)%Z.
Definition keepAliveInterval (agentCfg : AgentConfig) : Z := wrap64 (ac_KeepAlive agentCfg * second).

Definition agent_main : P () :=
  must SNoDump;;
  let agentID := env_or "AGENT_ID" new_uuid in
  cfg ← agent_loadConfig;
  creds ← agent_credentials cfg;
  must (SConnect (ad_URL (ab_KryptonRoot cfg)) creds);;
  must (SRegister (ab_Name cfg) agentID);;
  agentCfg ← handled (UnmarshalAgentConfig register_answer);
  interval ← match Worker.New (keepAliveInterval agentCfg) (Some ()) with
             | inl w => mret (Worker.interval w)
             | inr e => throw e
             end;
  note (SStartWorker interval);;
  setupKeyServiceServer agentCfg;;
  note SServe;;
  note SSignal;;
  note SWorkerStop;;
  note SGracefulStop;;
  note (SDeregister (ab_Name cfg) agentID);;
  note SCloseDB;;
  note SCloseConn.

(** ** Running the steps *)

Lemma bind_must {A} s (k : () → P A) t :
  (must s ≫= k) t = match outcome s with None => k () (t ++ [s])%list | Some e => (Err e, (t ++ [s])%list) end.
Proof. unfold must. rewrite !bind_run. cbn. by destruct (outcome s). Qed.
Lemma bind_note {A} s (k : () → P A) t : (note s ≫= k) t = k () (t ++ [s])%list.
Proof. done. Qed.
Lemma bind_handled {A B} (r : A + error) (k : A → P B) t :
  (handled r ≫= k) t = match r with inl a => k a t | inr e => (Err e, t) end.
Proof. by destruct r. Qed.

Lemma LoadRootConfig_valid path cfg :
  LoadRootConfig path = inl cfg → RootConfig_Validate cfg = None ∧ is_Some (rc_RootKey cfg).
Proof.
  unfold LoadRootConfig. destruct (read_file path); [|done]. destruct (unmarshal_root _) as [c|]; [|done].
  destruct (RootConfig_Validate c) eqn:H; [done|]. intros [= <-]. split; [done|].
  unfold RootConfig_Validate in H.
  destruct (String.eqb _ _); [done|]. destruct (negb _); [done|].
  apply or_else_None in H as [_ H]. apply or_else_None in H as [_ H]. apply or_else_None in H as [_ H].
  destruct (bool_decide _); [done|]. by destruct (rc_RootKey c).
Qed.

(** What stands between a root and the network. *)
Definition guarded (cfg : RootConfig) (srv : grpc_server) : Prop :=
  gs_StatsHandler srv = true ∧ gs_Services srv = root_services ∧
  match rc_Auth cfg with
  | None => gs_Creds srv = None ∧ gs_Interceptor srv = None
  | Some auth => ∃ tls au, gs_Creds srv = Some tls ∧ gs_Interceptor srv = Some au ∧
      tc_ClientAuth tls = RequireAndVerifyClientCert ∧ tc_MinVersion tls = VersionTLS13 ∧
      NewAuthenticator (URIs (ra_IdentityConfigs auth)) = inl au
  end.

Lemma root_server_guarded cfg t :
  (∃ srv, root_server cfg t = (Ok srv, t) ∧ guarded cfg srv) ∨ ∃ e, root_server cfg t = (Err e, t).
Proof.
  unfold root_server, guarded. destruct (rc_Auth cfg) as [auth|]; [|left; by eexists].
  rewrite !bind_handled. destruct (GetAuthConfig _) as [m|]; [|eauto].
  rewrite bind_handled. destruct (NewAuthenticator _) as [au|] eqn:Ha; [|eauto].
  rewrite bind_handled. unfold TLSServer_BuildTLSConfig. destruct (tlsConfig _ _ _) as [[certs p]|]; [|eauto].
  left. eexists. split; [done|]. split_and!; [done..|]. by eexists _, au.
Qed.

(** The steps of a root up to the server, and from the signal on. *)
Definition root_prepared (dsn : string) (cfg : RootConfig) (rk : RootKeySpec) : list step :=
  [SNoDump; SOpenDB dsn; SMigrate "root"; SOrbitalStore; SRegistry (rc_Connections cfg) InsecureTransport;
   SRootManager rk; SManager (rc_KeyBindings cfg) (rc_Hierarchy cfg); SOrchestrator; SStartOrchestrator].
Definition root_stopped (cfg : RootConfig) : list step :=
  [SSignal; SGracefulStop] ++ (if rc_KMIP cfg then [SKmipShutdown] else []) ++ [SWorkerStop; SOrchestratorStop; SCloseDB].

Definition serves (s : step) : bool := match s with SServe => true | _ => false end.

Lemma root_main_prepared r tr :
  root_main [] = (r, tr) →
  r ≠ Panic ∧ r ≠ Diverge ∧
  (existsb serves tr = true →
     ∃ cfg rk srv port post, LoadRootConfig (env_or "ROOT_CONFIG_PATH" "config.yaml") = inl cfg ∧
       rc_RootKey cfg = Some rk ∧ guarded cfg srv ∧ is_Some (Atoi port) ∧
       Forall (λ s, s = SStartOrchestrator ∨ outcome s = None) (root_prepared (Getenv "DATABASE_URL") cfg rk) ∧
       tr = (root_prepared (Getenv "DATABASE_URL") cfg rk ++ [SNewServer srv; SListen (":" +:+ port); SServe] ++ post)%list ∧
       (r = Ok () → ∃ mid, post = (mid ++ root_stopped cfg)%list)) ∧
  (r = Ok () → existsb serves tr = true).
Proof.
  unfold root_main. rewrite bind_must. destruct (outcome SNoDump) eqn:O1; [by intros [= <- <-]|].
  set (port := env_or "SERVER_PORT" "8080"). set (dsn := Getenv "DATABASE_URL"). cbv zeta.
  destruct (Atoi port) as [pz|] eqn:Hport; [|by intros [= <- <-]].
  destruct (String.eqb dsn ""); [by intros [= <- <-]|].
  rewrite bind_must. destruct (outcome (SOpenDB dsn)) eqn:O2; [by intros [= <- <-]|].
  rewrite bind_must. destruct (outcome (SMigrate "root")) eqn:O3; [by intros [= <- <-]|].
  unfold root_loadConfig. rewrite bind_handled. set (path := env_or "ROOT_CONFIG_PATH" "config.yaml").
  destruct (LoadRootConfig path) as [cfg|e] eqn:Hcfg; [|by intros [= <- <-]].
  destruct (LoadRootConfig_valid path cfg Hcfg) as [_ [rk Hrk]]. rewrite Hrk.
  rewrite bind_must. destruct (outcome SOrbitalStore) eqn:O4; [by intros [= <- <-]|].
  rewrite bind_must. destruct (outcome (SRegistry _ _)) eqn:O5; [by intros [= <- <-]|].
  rewrite bind_must. destruct (outcome (SRootManager rk)) eqn:O6; [by intros [= <- <-]|].
  rewrite bind_must. destruct (outcome (SManager _ _)) eqn:O7; [by intros [= <- <-]|].
  rewrite bind_must. destruct (outcome SOrchestrator) eqn:O8; [by intros [= <- <-]|].
  rewrite bind_note, bind_run.
  match goal with |- context [root_server cfg ?t] => destruct (root_server_guarded cfg t) as [(srv & -> & Hg)|[e ->]] end;
    [|by intros [= <- <-]].
  rewrite bind_note, bind_must. destruct (outcome (SListen _)) eqn:O9; [by intros [= <- <-]|].
  rewrite bind_note, bind_run. change (initAgentWorker ?t) with (Ok agentWorkerInterval, t). cbv iota beta.
  rewrite bind_note. intros H.
  assert (∃ post, tr = (root_prepared dsn cfg rk ++ [SNewServer srv; SListen (":" +:+ port); SServe] ++ post)%list ∧
    (r = Ok () → ∃ mid, post = (mid ++ root_stopped cfg)%list) ∧ r ≠ Panic ∧ r ≠ Diverge) as (post & -> & Hpost & Hp & Hd).
  { unfold root_stopped. destruct (rc_KMIP cfg) as [k|].
    - rewrite bind_run, bind_must in H. destruct (outcome (SKmip k)); injection H as <- <-;
        (eexists; split; [reflexivity|]; split; [|done]); [done|]. intros _. by exists [SStartWorker agentWorkerInterval; SKmip k; SServeKmip].
    - injection H as <- <-. eexists. split; [reflexivity|]. split; [|done]. intros _. by exists [SStartWorker agentWorkerInterval]. }
  split_and!; [done..| |intros _; by rewrite existsb_app].
  intros _. exists cfg, rk, srv, port, post. split_and!; try done.
  unfold root_prepared. rewrite !Forall_cons. split_and!; auto.
Qed.


(** A part of a run that reached [x], which the steps before it are not. *)
Lemma prefix_reached {A} (f : A → bool) (pre post cut : list A) x :
  cut `prefix_of` (pre ++ x :: post)%list → existsb f cut = true → existsb f pre = false →
  ∃ post', cut = (pre ++ x :: post')%list.
Proof.
  revert cut. induction pre as [|y pre IH]; intros cut [k Hk] Hf Hp; destruct cut as [|z cut]; try done.
  - injection Hk as -> _. by exists cut.
  - injection Hk as -> Hk. cbn in Hp, Hf. apply orb_false_iff in Hp as [Hy Hp]. rewrite Hy in Hf.
    destruct (IH cut) as [post' ->]; [by exists k|done|done|]. by exists post'.
Qed.

(** C25: a root never serves unprepared.  When a run of the process reached
    [Serve], whether it ended in order, with an error or was cut off by the gRPC
    server's goroutine, then before the port was opened memory dumps were
    switched off, the database was opened and the migrations ran, the
    configuration was loaded and is valid, and the orbital store, the connection
    registry, the root manager, the key manager and the orchestrator were built
    without an error; the gRPC server has the handler that clears secrets after
    a call, and with authentication configured it takes only TLS 1.3 peers with
    a verified certificate, behind the interceptor for the configured
    identities.  (The agent worker and the KMIP server are built after the port
    is open.)  The root key that [main] dereferences is never nil.  A run that
    ends in order stopped the server, KMIP, the worker and the orchestrator, in
    that order. *)
Theorem root_serves_prepared r tr :
  root_process r tr →
  r ≠ Panic ∧ r ≠ Diverge ∧
  (existsb serves tr = true →
     ∃ cfg rk srv port post, LoadRootConfig (env_or "ROOT_CONFIG_PATH" "config.yaml") = inl cfg ∧
       rc_RootKey cfg = Some rk ∧ guarded cfg srv ∧ is_Some (Atoi port) ∧
       Forall (λ s, s = SStartOrchestrator ∨ outcome s = None) (root_prepared (Getenv "DATABASE_URL") cfg rk) ∧
       tr = (root_prepared (Getenv "DATABASE_URL") cfg rk ++ [SNewServer srv; SListen (":" +:+ port); SServe] ++ post)%list ∧
       (r = Ok () → ∃ mid, post = (mid ++ root_stopped cfg)%list)) ∧
  (r = Ok () → existsb serves tr = true).
Proof.
  intros [r' tr' Hm|r' tr' cut e Hm _ Hcut Hin]; [by apply root_main_prepared|].
  destruct (root_main_prepared _ _ Hm) as (_ & _ & H & _). split_and!; [done..| |done]. intros Hs.
  assert (existsb serves tr' = true) as Hs'.
  { destruct Hcut as [k ->]. by rewrite existsb_app, Hs. }
  destruct (H Hs') as (cfg & rk & srv & port & post & Hcfg & Hrk & Hg & Hp & Hf & -> & _).
  change ([SNewServer srv; SListen (":" +:+ port); SServe] ++ post)%list with
    ([SNewServer srv; SListen (":" +:+ port)] ++ SServe :: post)%list in Hcut. rewrite app_assoc in Hcut.
  destruct (prefix_reached serves _ _ _ _ Hcut Hs) as [post' ->]; [done|].
  exists cfg, rk, srv, port, post'. by split_and!; [..|rewrite <-app_assoc|].
Qed.

(** ** The agent's life *)

Definition deregisters (s : step) : bool := match s with SDeregister _ _ => true | _ => false end.
Definition registers (s : step) : bool := match s with SRegister _ _ => true | _ => false end.
Definition beats (s : step) : bool := match s with SStartWorker _ => true | _ => false end.

(** The steps an agent may take to set up its service; all of them when it does. *)
Definition agent_setup (agentCfg : AgentConfig) : list step :=
  [SOpenDB (Getenv "AGENT_DATABASE_URL"); SMigrate "agent"; SListen (":" +:+ env_or "AGENT_PORT" "9091");
   SRegistry (ac_Connections agentCfg) InsecureTransport; SManager (ac_KeyBindings agentCfg) (ac_Hierarchy agentCfg)].
Definition agent_server : step := SNewServer (mkGrpcServer None None true agent_services).

Lemma setupKeyServiceServer_run agentCfg t :
  setupKeyServiceServer agentCfg t = (Ok (), (t ++ agent_setup agentCfg ++ [agent_server])%list) ∨
  ∃ e l, setupKeyServiceServer agentCfg t = (Err e, (t ++ l)%list) ∧ l `prefix_of` agent_setup agentCfg.
Proof.
  unfold setupKeyServiceServer. cbv zeta. destruct (String.eqb _ _).
  { right. eexists _, []. rewrite app_nil_r. split; [done|apply prefix_nil]. }
  rewrite bind_must. destruct (outcome (SOpenDB _)); [right; eexists _, [_]; split; [done|by eexists]|].
  rewrite bind_must. destruct (outcome (SMigrate _)); [right; eexists _, [_; _]; rewrite <-app_assoc; split; [done|by eexists]|].
  rewrite bind_must. destruct (outcome (SListen _)); [right; eexists _, [_; _; _]; rewrite <-!app_assoc; split; [done|by eexists]|].
  rewrite bind_must. destruct (outcome (SRegistry _ _)); [right; eexists _, [_; _; _; _]; rewrite <-!app_assoc; split; [done|by eexists]|].
  rewrite bind_must. destruct (outcome (SManager _ _)); [right; eexists _, [_; _; _; _; _]; rewrite <-!app_assoc; split; [done|by eexists]|].
  left. unfold note, modify. by rewrite <-!app_assoc.
Qed.

(** The agent's name and the connection it registers over. *)
Definition agent_boot (cfg : AgentBootstrapConfig) (creds : transport) : list step :=
  [SNoDump; SConnect (ad_URL (ab_KryptonRoot cfg)) creds].

Lemma agent_loadConfig_run t :
  (∃ cfg, agent_loadConfig t = (Ok cfg, t) ∧ AgentBootstrapConfig_Validate cfg = None) ∨
  ∃ e, agent_loadConfig t = (Err e, t).
Proof.
  unfold agent_loadConfig. rewrite bind_handled. unfold LoadAgentBootstrapConfig.
  destruct (read_file _); [|eauto]. destruct (unmarshal_bootstrap _) as [cfg|]; [|eauto].
  destruct (AgentBootstrapConfig_Validate cfg) eqn:Hv; [eauto|]. cbv zeta.
  destruct (String.eqb_spec (Getenv "ROOT_SERVER_PORT") ""); [left; by eexists|].
  destruct (Atoi _); [|right; by eexists]. left. eexists. split; [done|].
  unfold AgentBootstrapConfig_Validate in *. cbn [set_root_url ab_Name ab_Role ab_Auth ab_KryptonRoot].
  destruct (String.eqb (ab_Name cfg) ""); [done|]. destruct (negb _); [done|].
  apply or_else_None in Hv as [Ha ->]. apply or_else_None. split; [|done].
  unfold Address_Validate in *. cbn [ad_Type ad_URL]. destruct (negb (String.eqb (ad_Type _) _)); [by simpl in Ha|]. done.
Qed.

(** The credentials fit the configuration. *)
Definition credentials_of (cfg : AgentBootstrapConfig) (t : transport) : Prop :=
  match ab_Auth cfg with
  | None => t = InsecureTransport
  | Some _ => ∃ tls, t = TLSTransport tls ∧ tc_MinVersion tls = VersionTLS13
  end.

Lemma agent_credentials_run cfg t :
  (∃ creds, agent_credentials cfg t = (Ok creds, t) ∧ credentials_of cfg creds) ∨
  ∃ e, agent_credentials cfg t = (Err e, t).
Proof.
  unfold agent_credentials, credentials_of. destruct (ab_Auth cfg) as [auth|]; [|left; by eexists].
  rewrite bind_handled. destruct (GetAuthConfig _) as [m|]; [|eauto]. rewrite bind_handled.
  unfold TLSClient_BuildTLSConfig. destruct (tlsConfig _ _ _) as [[certs p]|]; [|eauto].
  left. eexists. split; [done|]. by eexists.
Qed.

(** Whatever happens, and whatever authentication the agent is configured with,
    the connections of its registry, over which it has its keys sealed by its
    parent, are made without TLS. *)
Lemma agent_main_registry r tr :
  agent_main [] = (r, tr) → Forall (λ s, ∀ cs t, s = SRegistry cs t → t = InsecureTransport) tr.
Proof.
  set (Q := Forall (λ s, ∀ cs t, s = SRegistry cs t → t = InsecureTransport)).
  assert (∀ s, (∀ cs t, s = SRegistry cs t → t = InsecureTransport) → respects (keeps Q) (note s)) as Hnote.
  { intros s Hs t Ht. apply Forall_app. split; [exact Ht|]. by constructor. }
  assert (∀ s, (∀ cs t, s = SRegistry cs t → t = InsecureTransport) → respects (keeps Q) (must s)) as Hmust.
  { intros s Hs. unfold must. apply respects_bind; [apply _|by apply Hnote|intros _]. apply respects_check. apply _. }
  assert (∀ A (x : A + error), respects (keeps Q) (handled x)) as Hh by (intros A []; by intros t).
  enough (respects (keeps Q) agent_main) as Hm.
  { intros H. specialize (Hm []). rewrite H in Hm. apply Hm. constructor. }
  assert (respects (keeps Q) agent_loadConfig) as Hl.
  { unfold agent_loadConfig, fatal. solve_respects. }
  assert (∀ c, respects (keeps Q) (agent_credentials c)) as Hc.
  { intros c. unfold agent_credentials. solve_respects. }
  assert (∀ c, respects (keeps Q) (setupKeyServiceServer c)) as Hs.
  { intros c. unfold setupKeyServiceServer, fatal.
    repeat (respects_step || apply Hmust || apply Hnote || naive_solver). }
  unfold agent_main. repeat (respects_step || apply Hmust || apply Hnote || apply Hl || apply Hc || apply Hs || apply Hh || naive_solver).
Qed.

(** The life of an agent.  It ends without a panic.  If it ends in order, it
    connected with the credentials of its configuration, registered before it
    sent a heartbeat and opened its service only after that, and on the signal
    it stopped the heartbeat and the service and then deregistered under the
    name and the instance it had registered.  If it fails, it never served,
    and it does not deregister, although it may have registered. *)
Theorem agent_life r tr :
  agent_main [] = (r, tr) →
  match r with
  | Ok _ => ∃ cfg creds id agentCfg, AgentBootstrapConfig_Validate cfg = None ∧ credentials_of cfg creds ∧
      unmarshal_agent register_answer = inl agentCfg ∧ (0 < keepAliveInterval agentCfg)%Z ∧
      tr = (agent_boot cfg creds ++ [SRegister (ab_Name cfg) id; SStartWorker (keepAliveInterval agentCfg)] ++
            agent_setup agentCfg ++
            [agent_server; SServe; SSignal; SWorkerStop; SGracefulStop; SDeregister (ab_Name cfg) id; SCloseDB; SCloseConn])%list
  | Err e => existsb serves tr = false ∧ existsb deregisters tr = false
  | Panic | Diverge => False
  end.
Proof.
  unfold agent_main. rewrite bind_must. destruct (outcome SNoDump); [by intros [= <- <-]|]. cbv zeta.
  set (id := env_or "AGENT_ID" new_uuid). rewrite bind_run.
  match goal with |- context [agent_loadConfig ?t] => destruct (agent_loadConfig_run t) as [(cfg & -> & Hv)|[e ->]] end;
    [|by intros [= <- <-]].
  rewrite bind_run.
  match goal with |- context [agent_credentials cfg ?t] => destruct (agent_credentials_run cfg t) as [(creds & -> & Hc)|[e ->]] end;
    [|by intros [= <- <-]].
  rewrite bind_must. destruct (outcome (SConnect _ _)); [by intros [= <- <-]|].
  rewrite bind_must. destruct (outcome (SRegister _ _)); [by intros [= <- <-]|].
  rewrite bind_handled. unfold UnmarshalAgentConfig.
  destruct (unmarshal_agent register_answer) as [ac|e] eqn:Hac; [|by intros [= <- <-]].
  unfold Worker.New. destruct (Z.leb_spec (keepAliveInterval ac) 0) as [|Hpos]; [by intros [= <- <-]|].
  rewrite bind_ret_l. cbn [Worker.interval]. rewrite bind_note, bind_run.
  match goal with |- context [setupKeyServiceServer ac ?t] =>
    destruct (setupKeyServiceServer_run ac t) as [->|(e & l & -> & Hl)] end.
  - intros [= <- <-]. exists cfg, creds, id, ac. split_and!; try done.
  - intros [= <- <-]. destruct Hl as [k Hk].
    assert (existsb serves (agent_setup ac) = false ∧ existsb deregisters (agent_setup ac) = false) as [H1 H2] by done.
    rewrite Hk, existsb_app, orb_false_iff in H1, H2. simpl.
    destruct H1 as [-> _], H2 as [-> _]. done.
Qed.

End mains.

(** ** Loaded settings *)

(** Authentication settings that were read have the one known type and are not
    nil: the error for nil settings cannot come from a file. *)
Theorem unmarshalled_auth node auth :
  RootAuthConfig_UnmarshalYAML node = inl auth →
  ra_AuthType auth = AuthTypeMTLS ∧ is_Some (ra_Config auth) ∧ ∃ m, GetAuthConfig (ra_Config auth) = inl m.
Proof.
  unfold RootAuthConfig_UnmarshalYAML. destruct node as [raw|]; [|done].
  unfold decode_details, newConfig. destruct (String.eqb_spec (raw_AuthType raw) AuthTypeMTLS) as [Ht|]; [|done].
  destruct (raw_Auth raw) as [decode|].
  - destruct (decode _) as [m|]; [|done]. intros [= <-]. simpl. eauto.
  - intros [= <-]. simpl. eauto.
Qed.

(** ** Heartbeats *)

(** C40: the heartbeat of an agent has no slack.  The interval that a registration
    hands out is exactly the silence after which the root's worker gives up an
    agent: when no statement fails, a run of the worker leaves an agent that was
    registered or healthy so if and only if its last heartbeat is no older than
    that interval when the run starts, and then does not touch its row.  A run
    that falls between the end of the interval and the arrival of the next
    heartbeat gives the agent up, however small the delay. *)
Theorem keepalive_has_no_slack {ENV : Env} {NF : NoFaults} cfg name ac w a r :
  registration_config cfg name = inl ac → agent_registrations ∈ db_tables (w_db w) →
  db_agents (w_db w) !! a = Some r →
  ar_Status r ∈ [AgentRegistrationStatusRegistered; AgentRegistrationStatusHealthy] →
  ∃ w', agent_sweep w = (Ok (), w') ∧
    ((∃ r', db_agents (w_db w') !! a = Some r' ∧
        ar_Status r' ∈ [AgentRegistrationStatusRegistered; AgentRegistrationStatusHealthy]) ↔
     (e_clock (w_tick w) ≤ ar_LastHeartbeat r + keepAliveInterval ac)%Z) ∧
    ((e_clock (w_tick w) ≤ ar_LastHeartbeat r + keepAliveInterval ac)%Z → db_agents (w_db w') !! a = Some r).
Proof.
  intros Hreg Htab Ha Hlive.
  assert (keepAliveInterval ac = 30 * second)%Z as Hk.
  { unfold registration_config in Hreg. repeat (case_match; try done). all: injection Hreg as <-; reflexivity. }
  destruct (agent_sweep_run w Htab) as (t1 & t2 & t3 & w' & Hs & -> & _ & Hall & Hfresh). exists w'. rewrite Hk.
  assert ((e_clock (w_tick w) ≤ ar_LastHeartbeat r + 30 * second)%Z → db_agents (w_db w') !! a = Some r) as Hkeep.
  { intros Hle. apply Hfresh; [done..|]. unfold stale. apply Z.ltb_ge. lia. }
  split_and!; [done| |done]. split; [|by eauto].
  intros (r' & Hr' & Hst). specialize (Hall a). rewrite Ha, Hr' in Hall.
  destruct Hall as (_ & _ & _ & _ & Hnot & _). rewrite !elem_of_cons, elem_of_nil in Hst.
  assert (stale (e_clock (w_tick w)) (30 * second) r = false) as Hge by (apply Hnot; naive_solver).
  unfold stale in Hge. apply Z.ltb_ge in Hge. lia.
Qed.

(** ** A root and an agent *)

Module ProcessSamples.
Import ConfigSamples.
#[local] Instance no_patterns : Regexp := λ _, None.

Definition root_cfg : RootConfig := root_named "root".
Definition agent_cfg : AgentConfig :=
  match registration_config root_cfg "eu" with inl ac => ac | inr _ => mkAgentConfig "" ∅ [] [] (rc_Segment root_cfg) ∅ "" (rc_Hierarchy root_cfg) 0 end.
Definition boot : AgentBootstrapConfig := mkAgentBootstrapConfig "eu" AgentRole None (mkAddress AddressTypeGRPC "root:8080").

#[export] Instance host : Host := {|
  Getenv := λ name, if bool_decide (name ∈ ["DATABASE_URL"; "AGENT_DATABASE_URL"]) then "postgres://db" else "";
  new_uuid := "00000000-0000-4000-8000-00000000000a";
  read_file := λ _, inl "";
  unmarshal_root := λ _, inl root_cfg;
  unmarshal_bootstrap := λ _, inl boot;
  unmarshal_agent := λ _, inl agent_cfg;
  register_answer := "";
  outcome := λ _, None;
|}.

Lemma root_serves_prepared_witness :
  (root_main []).1 = Ok () ∧
  ∃ cfg rk post, (root_main []).2 = (root_prepared "postgres://db" cfg rk ++ post)%list.
Proof.
  assert ((root_main []).1 = Ok () ∧ existsb serves (root_main []).2 = true) as [E1 E2] by (vm_compute; split; reflexivity).
  split; [exact E1|].
  destruct (root_serves_prepared (root_main []).1 (root_main []).2) as (_ & _ & H & _);
    [apply root_process_main; destruct (root_main []); reflexivity|].
  destruct (H E2) as (cfg & rk & srv & port & post & _ & _ & _ & _ & _ & Htr & _).
  exists cfg, rk, (SNewServer srv :: SListen (":" +:+ port) :: SServe :: post). rewrite Htr. reflexivity.
Defined.

Lemma agent_life_witness :
  (agent_main []).1 = Ok () ∧ existsb deregisters (agent_main []).2 = true ∧
  ∃ cfg creds, credentials_of cfg creds ∧ ∃ post, (agent_main []).2 = (agent_boot cfg creds ++ post)%list.
Proof.
  assert ((agent_main []).1 = Ok () ∧ existsb deregisters (agent_main []).2 = true) as [E1 E2] by (vm_compute; split; reflexivity).
  split; [exact E1|]. split; [exact E2|].
  pose proof (agent_life (agent_main []).1 (agent_main []).2) as H. rewrite E1 in H.
  destruct H as (cfg & creds & id & ac & _ & Hc & _ & _ & Htr); [rewrite <-E1; destruct (agent_main []); reflexivity|].
  exists cfg, creds. split; [exact Hc|]. eexists. exact Htr.
Defined.

Import AgentSamples Sample.
Lemma keepalive_has_no_slack_witness :
  (∃ w', agent_sweep (world_with (-31 * second)) = (Ok (), w') ∧
    (ar_Status <$> db_agents (w_db w') !! ("eu", uuid1)) = Some AgentRegistrationStatusUnhealthy) ∧
  ∃ w', agent_sweep (world_with (-29 * second)) = (Ok (), w') ∧
    (ar_Status <$> db_agents (w_db w') !! ("eu", uuid1)) = Some AgentRegistrationStatusHealthy.
Proof.
  split.
  - destruct (keepalive_has_no_slack root_cfg "eu" agent_cfg (world_with (-31 * second)) ("eu", uuid1)
      (default (agent_at 0) (db_agents (w_db (world_with (-31 * second))) !! ("eu", uuid1)))) as (w' & Hs & _).
    + vm_compute. reflexivity.
    + apply (bool_decide_unpack _). vm_compute. exact I.
    + vm_compute. reflexivity.
    + apply (bool_decide_unpack _). vm_compute. exact I.
    + exists w'. split; [exact Hs|]. assert (w' = (agent_sweep (world_with (-31 * second))).2) as -> by (rewrite Hs; reflexivity).
      vm_compute. reflexivity.
  - destruct (keepalive_has_no_slack root_cfg "eu" agent_cfg (world_with (-29 * second)) ("eu", uuid1)
      (default (agent_at 0) (db_agents (w_db (world_with (-29 * second))) !! ("eu", uuid1)))) as (w' & Hs & _ & Hk).
    + vm_compute. reflexivity.
    + apply (bool_decide_unpack _). vm_compute. exact I.
    + vm_compute. reflexivity.
    + apply (bool_decide_unpack _). vm_compute. exact I.
    + exists w'. split; [exact Hs|]. rewrite Hk; [vm_compute; reflexivity|]. apply Z.leb_le. vm_compute. reflexivity.
Defined.
End ProcessSamples.
End Process.
