(* ===== verification/Cursor.v ===== *)
(** * Page cursors (pkg/store/sql/cursor.go)

    A cursor is the identifier and the creation time of the last key of a page,
    as JSON in the URL alphabet of base64 without padding.  The encoding is
    defined here, JSON is the class [CursorJson]; together they are an instance
    of [CursorCodec], the interface the listing of keys is verified against. *)

From Stdlib Require Import Ascii.
From S2P Require Import Prelude GoStrings GoRuntime Model World Lifecycle Providers Hierarchy.
From S2P Require Import Config Sql KeyStore.

Local Open Scope string_scope.

Module Cursor.

(** ** [base64.RawURLEncoding] *)

Definition alphabet : list ascii :=
  chars "ABCDEFGHIJKLMNOPQRSTUVWXYZabcdefghijklmnopqrstuvwxyz0123456789-_".
Definition digit (n : nat) : ascii := nth n alphabet "A"%char.

(** The alphabet differs from the standard one in two characters. *)
Definition value (c : ascii) : option nat :=
  if Ascii.eqb c "-" then Some 62
  else if Ascii.eqb c "_" then Some 63
  else if (Ascii.eqb c "+" || Ascii.eqb c "/")%bool then None
  else Base64.value c.

Fixpoint encode (l : list ascii) : list ascii :=
  match l with
  | [] => []
  | [a] =>
      let a := nat_of_ascii a in
      [digit (Nat.div a 4); digit (16 * Nat.modulo a 4)]
  | [a; b] =>
      let a := nat_of_ascii a in let b := nat_of_ascii b in
      [digit (Nat.div a 4); digit (16 * Nat.modulo a 4 + Nat.div b 16); digit (4 * Nat.modulo b 16)]
  | a :: b :: c :: l' =>
      let a := nat_of_ascii a in let b := nat_of_ascii b in let c := nat_of_ascii c in
      digit (Nat.div a 4) :: digit (16 * Nat.modulo a 4 + Nat.div b 16) ::
      digit (4 * Nat.modulo b 16 + Nat.div c 64) :: digit (Nat.modulo c 64) :: encode l'
  end.

(** Two or three characters are left for one or two bytes; one is an error. *)
Fixpoint decode (l : list ascii) : option (list ascii) :=
  match l with
  | [] => Some []
  | [a; b] => x ← value a; y ← value b; Some [ascii_of_nat (4 * x + Nat.div y 16)]
  | [a; b; c] =>
      x ← value a; y ← value b; z ← value c;
      Some [ascii_of_nat (4 * x + Nat.div y 16); ascii_of_nat (16 * Nat.modulo y 16 + Nat.div z 4)]
  | a :: b :: c :: d :: l' =>
      x ← value a; y ← value b; z ← value c; t ← value d; r ← decode l';
      Some (ascii_of_nat (4 * x + Nat.div y 16) ::
            ascii_of_nat (16 * Nat.modulo y 16 + Nat.div z 4) ::
            ascii_of_nat (64 * Nat.modulo z 4 + t) :: r)
  | _ => None
  end.

Definition EncodeToString (s : string) : string := unchars (encode (chars s)).
(** Line breaks are skipped, as in every encoding of the package. *)
Definition DecodeString (s : string) : option string :=
  unchars <$> decode (Base64.skip_newlines (chars s)).

(** ** The cursor *)

Record cursor := mkCursor { cu_ID : string; cu_CreatedAt : Z }.

(** [json.Marshal] and [json.Unmarshal] of a cursor: the text of a cursor whose
    identifier is a UUID reads back, and it is an object, so not empty. *)
Class CursorJson := {
  json_Marshal : cursor → string;
  json_Unmarshal : string → option cursor;
  json_roundtrip : ∀ c, uuid_column (cu_ID c) = Some (cu_ID c) → json_Unmarshal (json_Marshal c) = Some c;
  json_nonempty : ∀ c, json_Marshal c ≠ "";
}.

Definition NewCursor (id : string) (createdAt : Z) : cursor := mkCursor id createdAt.

Section codec.
Context {JSON : CursorJson}.

Definition Encode (c : cursor) : string := EncodeToString (json_Marshal c).

Definition DecodeCursor (es : string) : option cursor :=
  match DecodeString es with
  | None => None
  | Some b => match json_Unmarshal b with None => None | Some c => Some c end
  end.
End codec.

(** ** Round trips *)

Lemma url_digit_ok n : n < 64 →
  value (digit n) = Some n ∧
  (Nat.eqb (nat_of_ascii (digit n)) 10 || Nat.eqb (nat_of_ascii (digit n)) 13)%bool = false.
Proof.
  intros Hn. assert (Forall (λ n, value (digit n) = Some n ∧
    (Nat.eqb (nat_of_ascii (digit n)) 10 || Nat.eqb (nat_of_ascii (digit n)) 13)%bool = false) (seq 0 64)) as H.
  { repeat constructor. }
  rewrite Forall_forall in H. apply H, elem_of_seq. lia.
Qed.
Lemma url_value_digit n : n < 64 → value (digit n) = Some n.
Proof. intros H. apply (url_digit_ok n H). Qed.
Lemma url_skip_digit n l : n < 64 → Base64.skip_newlines (digit n :: l) = digit n :: Base64.skip_newlines l.
Proof. intros H. unfold Base64.skip_newlines. simpl. by rewrite (proj2 (url_digit_ok n H)). Qed.

#[local] Arguments digit : simpl never.
#[local] Arguments value : simpl never.
#[local] Arguments Nat.div : simpl never.
#[local] Arguments Nat.modulo : simpl never.
#[local] Arguments Nat.mul : simpl never.
#[local] Arguments ascii_of_nat : simpl never.
#[local] Arguments nat_of_ascii : simpl never.

Lemma url_decode_encode l : decode (Base64.skip_newlines (encode l)) = Some l.
Proof.
  induction l as [|a|a b|a b c l IH] using Base64.list_ind3; [done|..].
  - pose proof (Base64.byte_lt a). destruct (Base64.sextets (nat_of_ascii a) 0 0) as (H1 & H2 & _); [lia..|].
    destruct (Base64.octets (nat_of_ascii a) 0 0) as (E1 & _ & _); [lia..|].
    cbn [encode]. rewrite !url_skip_digit by done. cbn. rewrite !url_value_digit by done. cbn.
    cbn in E1. rewrite Nat.add_0_r in E1. rewrite E1. by rewrite ascii_nat_embedding.
  - pose proof (Base64.byte_lt a) as Ba. pose proof (Base64.byte_lt b) as Bb.
    destruct (Base64.sextets (nat_of_ascii a) (nat_of_ascii b) 0) as (H1 & _ & H2 & H3 & _); [lia..|].
    destruct (Base64.octets (nat_of_ascii a) (nat_of_ascii b) 0) as (E1 & E2 & _); [lia..|].
    cbn [encode]. rewrite !url_skip_digit by done. cbn. rewrite !url_value_digit by done. cbn.
    cbn in E1, E2. rewrite !Nat.add_0_r in E2. rewrite E1, E2. by rewrite !ascii_nat_embedding.
  - pose proof (Base64.byte_lt a) as Ba. pose proof (Base64.byte_lt b) as Bb. pose proof (Base64.byte_lt c) as Bc.
    destruct (Base64.sextets (nat_of_ascii a) (nat_of_ascii b) (nat_of_ascii c)) as (H1 & _ & H2 & _ & H3 & H4); [lia..|].
    destruct (Base64.octets (nat_of_ascii a) (nat_of_ascii b) (nat_of_ascii c)) as (E1 & E2 & E3); [lia..|].
    cbn [encode]. rewrite !url_skip_digit by done. cbn [decode].
    rewrite !url_value_digit by done. cbn [mbind option_bind]. rewrite IH. cbn [mbind option_bind].
    rewrite E1, E2, E3. by rewrite !ascii_nat_embedding.
Qed.

Lemma DecodeString_EncodeToString s : DecodeString (EncodeToString s) = Some s.
Proof.
  unfold DecodeString, EncodeToString. rewrite chars_unchars, url_decode_encode. simpl. by rewrite unchars_chars.
Qed.

Lemma EncodeToString_nonempty s : s ≠ "" → EncodeToString s ≠ "".
Proof.
  intros Hs He. pose proof (DecodeString_EncodeToString s) as H. rewrite He in H. by injection H.
Qed.

(** The codec of the source is a [CursorCodec]: what the listing of keys relies
    on follows from base64 as defined here and from JSON reading back. *)
#[export, refine] Instance cursor_codec {JSON : CursorJson} : CursorCodec := {|
  KeyStore.cursor_Encode := λ id t, Encode (NewCursor id t);
  KeyStore.DecodeCursor := λ s, (λ c, (cu_ID c, cu_CreatedAt c)) <$> DecodeCursor s;
|}.
Proof.
  - intros id t Hid. unfold DecodeCursor, Encode. rewrite DecodeString_EncodeToString, json_roundtrip by done. done.
  - intros id t. apply EncodeToString_nonempty, json_nonempty.
Defined.
End Cursor.
