(* ===== verification/CommandTree.v ===== *)
(** * The command line: cli/main.go, cli/cmd

    The tree of commands as the constructors of cli/cmd declare it, with the
    flags, their defaults and the checks on arguments, and what [kr] does with
    a command line.  Splitting the command line is the command library's: the
    class [Cobra] says what it promises about an invocation. *)

From S2P Require Import Prelude GoStrings GoRuntime Model GoText Output Terminal ClientAuth ClientCommands.
From Stdlib Require Import Ascii.

Local Open Scope string_scope.

Module CommandTree.
Import Output Terminal ClientAuth ClientCommands.

(** ** Declarations *)

(** The variables flags are bound to. *)
Inductive flag_val := SV (s : string) | BV (b : bool) | IV (z : Z) | MV (m : Labels).
#[export] Instance flag_val_eq_dec : EqDecision flag_val.
Proof. solve_decision. Defined.

(** The zero value of a flag's kind decides what it takes. *)
Definition fits (declared given : flag_val) : bool :=
  match declared, given with
  | SV _, SV _ | BV _, BV _ | MV _, MV _ => true
  | IV _, IV z => ((-2147483648 <=? z) && (z <=? 2147483647))%Z%bool
  | _, _ => false
  end.

Record flag := mkFlag {
  fl_Name : string; fl_Shorthand : string; fl_Default : flag_val; fl_Usage : string; fl_Required : bool;
}.

Inductive PositionalArgs := NoArgs | ExactArgs (n : nat) | MaximumNArgs (n : nat).

Section declarations.
Context {A : Type}.

Definition values : Type := gmap string flag_val.

(** [cobra.Command]; [Run] is [PreRunE] and then [RunE]. *)
Inductive Command := mkCommand {
  c_Use : string; c_Short : string; c_Long : string; c_Args : option PositionalArgs;
  c_Run : option (values → list string → A);
  c_Flags : list flag; c_PersistentFlags : list flag; c_Commands : list Command;
}.

(** [&cobra.Command{...}], of a group and of a command that runs. *)
Definition group (use short long : string) : Command := mkCommand use short long None None [] [] [].
Definition runs (use short long : string) (args : option PositionalArgs) (run : values → list string → A) : Command :=
  mkCommand use short long args (Some run) [] [] [].

Definition with_flags (f : list flag → list flag) (c : Command) : Command :=
  mkCommand (c_Use c) (c_Short c) (c_Long c) (c_Args c) (c_Run c) (f (c_Flags c)) (c_PersistentFlags c) (c_Commands c).
Definition AddCommand (sub c : Command) : Command :=
  mkCommand (c_Use c) (c_Short c) (c_Long c) (c_Args c) (c_Run c) (c_Flags c) (c_PersistentFlags c) (c_Commands c ++ [sub])%list.
Definition VarP (name shorthand : string) (default : flag_val) (usage : string) : Command → Command :=
  with_flags (λ fs, fs ++ [mkFlag name shorthand default usage false])%list.
Definition StringVar (name default usage : string) : Command → Command := VarP name "" (SV default) usage.
Definition BoolVar (name : string) (default : bool) (usage : string) : Command → Command := VarP name "" (BV default) usage.
Definition BoolVarP (name shorthand : string) (default : bool) (usage : string) : Command → Command :=
  VarP name shorthand (BV default) usage.
Definition Int32Var (name : string) (default : Z) (usage : string) : Command → Command := VarP name "" (IV default) usage.
Definition StringToStringVar (name usage : string) : Command → Command := VarP name "" (MV ∅) usage.
Definition PersistentStringVar (name default usage : string) (c : Command) : Command :=
  mkCommand (c_Use c) (c_Short c) (c_Long c) (c_Args c) (c_Run c) (c_Flags c)
    (c_PersistentFlags c ++ [mkFlag name "" (SV default) usage false])%list (c_Commands c).

(** [MarkFlagRequired]: an error for a flag that is not declared, which every
    caller discards. *)
Definition required (name : string) (f : flag) : flag :=
  if String.eqb (fl_Name f) name
  then mkFlag (fl_Name f) (fl_Shorthand f) (fl_Default f) (fl_Usage f) true else f.
Definition MarkFlagRequired (name : string) (c : Command) : Command := with_flags (fmap (required name)) c.

(** The first word of [Use]. *)
Definition command_name (c : Command) : string := (cut " "%char (c_Use c)).1.1.

(** The command a path of names leads to, with the flags that are declared for
    it and its parents. *)
Fixpoint find_command (c : Command) (path : list string) : option (list flag * Command) :=
  match path with
  | [] => Some ((c_PersistentFlags c ++ c_Flags c)%list, c)
  | n :: path =>
      sub ← List.find (λ s, String.eqb (command_name s) n) (c_Commands c);
      '(fs, t) ← find_command sub path;
      Some ((c_PersistentFlags c ++ fs)%list, t)
  end.

(** ** Invocations *)

Record invocation := mkInvocation {
  iv_Path : list string;
  iv_Flags : values;
  iv_Changed : gset string;    (** the flags the command line sets *)
  iv_Args : list string;
}.

Definition args_ok (a : option PositionalArgs) (args : list string) : bool :=
  match a with
  | None => true
  | Some NoArgs => Nat.eqb (length args) 0
  | Some (ExactArgs n) => Nat.eqb (length args) n
  | Some (MaximumNArgs n) => Nat.leb (length args) n
  end.

(** A flag has a value of its kind: its default, unless the command line sets
    it, which it does when the flag is required. *)
Definition flag_ok (inv : invocation) (f : flag) : bool :=
  let changed := bool_decide (fl_Name f ∈ iv_Changed inv) in
  match iv_Flags inv !! fl_Name f with
  | None => false
  | Some v => (fits (fl_Default f) v && (changed || bool_decide (v = fl_Default f)) && implb (fl_Required f) changed)%bool
  end.

Definition invoked (root : Command) (inv : invocation) : bool :=
  match find_command root (iv_Path inv) with
  | Some (fs, c) => (bool_decide (is_Some (c_Run c)) && args_ok (c_Args c) (iv_Args inv) && forallb (flag_ok inv) fs)%bool
  | None => false
  end.

Inductive parsed := PHelp | PRun (inv : invocation).
End declarations.
Arguments Command : clear implicits.

(** [cobra]: the command line is refused, asks for help (also by naming a
    command that does not run), or invokes a command of the tree. *)
Class Cobra (A : Type) := {
  Parse : Command A → list string → parsed + error;
  Parse_invokes : ∀ root argv inv, Parse root argv = inl (PRun inv) → invoked root inv = true;
}.

(** ** The tree *)

Section tree.
Context {OS : Os} {CODEC : ClientCodec} {PKI : Pki} {SERVER : Server} {COBRA : Cobra (C ())}.
Context (dial : string → transport → option error).
Context (address : value → string) (rfc3339 : Z → string) (json : list (gmap string value) → string + error).
Context (term : tty) (reads : list (list ascii)).

(** The variable of a flag. *)
Definition str (v : values) (n : string) : string := match v !! n with Some (SV s) => s | _ => "" end.
Definition bool_var (v : values) (n : string) : bool := match v !! n with Some (BV b) => b | _ => false end.
Definition int32_var (v : values) (n : string) : Z := match v !! n with Some (IV z) => z | _ => 0%Z end.
Definition map_var (v : values) (n : string) : Labels := match v !! n with Some (MV m) => m | _ => ∅ end.
Definition serverAddr (v : values) : string := str v "server".

Definition json_flag : Command (C ()) → Command (C ()) := BoolVar "json" false "output in JSON format".
Definition keyCmd : string := "key".

(** The three commands that name a key. *)
Definition key_flags (c : Command (C ())) : Command (C ()) :=
  MarkFlagRequired "key-id" (json_flag (StringVar "tenant-id" "" "id of the tenant" (StringVar "key-id" "" "id of the key" c))).

Definition getKeyCommand : Command (C ()) := key_flags
  (runs keyCmd "Get a single key by its tenant ID and key ID" "" (Some NoArgs) (λ v _,
    getKeyCmd dial (serverAddr v) address rfc3339 json (str v "key-id") (str v "tenant-id") (bool_var v "json"))).
Definition getKeyParentsCommand : Command (C ()) := key_flags
  (runs "parent-keys" "Get parent keys by tenant & key ID" "" (Some NoArgs) (λ v _,
    getKeyParentsCmd dial (serverAddr v) address rfc3339 json (str v "key-id") (str v "tenant-id") (bool_var v "json"))).
Definition getKeyDescendantsCommand : Command (C ()) := key_flags
  (runs "descendant-keys" "Get descendants by key & tenant ID" "" (Some NoArgs) (λ v _,
    getKeyDescendantsCmd dial (serverAddr v) address rfc3339 json (str v "key-id") (str v "tenant-id") (bool_var v "json"))).

Definition list_vars (v : values) : list_flags :=
  mkListFlags (str v "tenant-id") (str v "name") (str v "kind") (str v "lifecycle-state") (str v "managed-by")
    (str v "cursor") (str v "order") (map_var v "labels") (int32_var v "limit") (bool_var v "json").
Definition getKeysCommand : Command (C ()) :=
  json_flag
    (Int32Var "limit" 0 "Maximum number of keys to return (0 for no limit)"
    (StringVar "order" "desc" "Sort order by creation time: asc or desc"
    (StringToStringVar "labels" "Filter by labels as key=value pairs (repeatable)"
    (StringVar "cursor" "" "Pagination cursor from a previous response"
    (StringVar "managed-by" "" "Filter keys by managing entity"
    (StringVar "lifecycle-state" "" "Filter keys by lifecycle state"
    (StringVar "kind" "" "Filter keys by kind"
    (StringVar "name" "" "Filter keys by name"
    (StringVar "tenant-id" "" "Tenant identifier to filter keys by"
    (runs "keys" "List keys with optional filters" "" (Some NoArgs) (λ v _,
      getKeysCmd dial (serverAddr v) address rfc3339 json (list_vars v)))))))))))).

(** [args[0]] panics without an argument. *)
Definition getTenantCommand : Command (C ()) :=
  json_flag (runs "tenant <id>" "Get a tenant by ID" "" (Some (ExactArgs 1)) (λ v args,
    match args with
    | [] => connected dial (serverAddr v) (λ _, panic)
    | id :: _ => getTenantCmd dial (serverAddr v) address rfc3339 json id (bool_var v "json")
    end)).
Definition getTenantsCommand : Command (C ()) :=
  json_flag (runs "tenants" "Get tenants" "" (Some NoArgs) (λ v _,
    getTenantsCmd dial (serverAddr v) address rfc3339 json (bool_var v "json"))).

Definition createTenantCommand : Command (C ()) :=
  json_flag
    (StringToStringVar "label" "labels as key=value pairs (can be specified multiple times)"
    (StringVar "name" "" "name of the tenant"
    (runs "tenant" "Create a new tenant" "" None (λ v _,
      createTenantCmd dial (serverAddr v) address rfc3339 json (str v "name") (map_var v "label") (bool_var v "json"))))).

Definition announceKeyCommand : Command (C ()) :=
  MarkFlagRequired "name" (MarkFlagRequired "kind"
    (json_flag
    (StringToStringVar "label" "labels as key=value pairs (can be specified multiple times)"
    (StringVar "target-name" "" "name of the target agent (omit to announce on root)"
    (StringVar "parent" "" "id of the parent key (omit for root keys)"
    (StringVar "name" "" "name of the key"
    (StringVar "kind" "" "kind of the key in the hierarchy (e.g. K0, K1)"
    (runs keyCmd "Announce a new key in the selected tenant's hierarchy" "" (Some NoArgs) (λ v _,
      announceKeyCmd dial (serverAddr v) address rfc3339 json (str v "kind") (str v "name") (str v "parent")
        (str v "target-name") (map_var v "label") (bool_var v "json")))))))))).

Definition activateKeyCommand : Command (C ()) := key_flags
  (runs keyCmd "Activate an existing key by tenant and key ID" "" (Some NoArgs) (λ v _,
    activateKeyCmd dial (serverAddr v) address rfc3339 json (str v "key-id") (str v "tenant-id") (bool_var v "json"))).

Definition selectTenantCommand : Command (C ()) :=
  BoolVarP "interactive" "i" false "interactive selection mode"
    (runs "tenant [id]" "Select a tenant" "Select a tenant by ID, or use -i for interactive selection." (Some (MaximumNArgs 1))
      (λ v args, selectTenantCmd dial (serverAddr v) address rfc3339 args (bool_var v "interactive") term reads)).

Definition actionStatusCommand : Command (C ()) :=
  MarkFlagRequired "action-id"
    (json_flag
    (BoolVar "target-info" false "also fetch and render target-specific info (issues a second call)"
    (StringVar "action-id" "" "id of the action"
    (runs "status" "Show the status of an action" "" (Some NoArgs) (λ v _,
      actionStatusCmd dial (serverAddr v) address rfc3339 json (str v "action-id") (bool_var v "target-info") (bool_var v "json")))))).

Definition println (s : string) : C () := emit (EvPrint (s +:+ String newline "")).
Definition mtls_login (cert key ca : string) : C () := on_fs (mtlsLogin cert key ca);; println "Login successful.".
Definition no_auth_login : C () :=
  m ← on_fs noAuthLogin;
  println (match m with AlreadyLoggedIn => "Already logged in." | LoginSuccessful => "Login successful." end).
Definition mtlsLoginCommand : Command (C ()) :=
  MarkFlagRequired "ca" (MarkFlagRequired "key" (MarkFlagRequired "cert"
    (StringVar "ca" "" "CA certificate path"
    (StringVar "key" "" "Private key path"
    (StringVar "cert" "" "Public certificate path"
    (runs "mtls" "Login to Krypton" "Authenticate with the Krypton server to obtain access using mutual TLS." None (λ v _,
      mtls_login (str v "cert") (str v "key") (str v "ca")))))))).
Definition noAuthLoginCommand : Command (C ()) :=
  runs "no-auth" "Login to Krypton" "Authenticate with the Krypton server to obtain access." None (λ _ _, no_auth_login).

Definition loginCmd : Command (C ()) :=
  AddCommand mtlsLoginCommand (AddCommand noAuthLoginCommand
    (group "login" "Authenticate with the Krypton server using your credentials." "")).
Definition createCmd : Command (C ()) := AddCommand createTenantCommand (group "create" "Create a resource" "").
Definition getCmd : Command (C ()) :=
  AddCommand getKeysCommand (AddCommand getKeyDescendantsCommand (AddCommand getKeyParentsCommand
    (AddCommand getKeyCommand (AddCommand getTenantsCommand (AddCommand getTenantCommand
      (group "get" "Get a resource" "")))))).
Definition selectCmd : Command (C ()) := AddCommand selectTenantCommand (group "select" "Select a resource" "").
Definition announceCmd : Command (C ()) := AddCommand announceKeyCommand (group "announce" "Announce a key" "").
Definition activateCmd : Command (C ()) := AddCommand activateKeyCommand (group "activate" "Activate a key" "").
Definition actionCmd : Command (C ()) := AddCommand actionStatusCommand (group "action" "Inspect actions" "").

(** [rootCmd] after [init]. *)
Definition rootCmd : Command (C ()) :=
  AddCommand actionCmd (AddCommand activateCmd (AddCommand announceCmd (AddCommand selectCmd (AddCommand getCmd
    (AddCommand createCmd (AddCommand loginCmd
      (PersistentStringVar "server" "localhost:8080" "Krypton gRPC server address"
        (group "kr" "A CLI tool for managing Krypton"
           "kr is a command-line interface for managing and interacting with the Krypton server.")))))))).

(** [Execute]. *)
Definition Execute (argv : list string) : C () :=
  match Parse rootCmd argv with
  | inr e => throw e
  | inl PHelp => mret ()
  | inl (PRun inv) =>
      match find_command rootCmd (iv_Path inv) with
      | Some (_, c) => match c_Run c with Some run => run (iv_Flags inv) (iv_Args inv) | None => mret () end
      | None => mret ()
      end
  end.

(** [main] of cli/main.go: the exit status; [log.Fatalf] exits with 1. *)
Definition main (argv : list string) (c : client) : option Z * client :=
  let '(r, c') := Execute argv c in
  (match r with Ok _ => Some 0%Z | Err _ => Some 1%Z | Panic => Some 2%Z | Diverge => None end, c').

(** ** Every command of a tree *)

Section walk.
Context {A : Type} (P : list string → list flag → Command A → Prop).

(** [P] of every command, under the path and the flags that lead to it. *)
Fixpoint tree_all (path : list string) (fs : list flag) (c : Command A) : Prop :=
  P path (fs ++ c_PersistentFlags c ++ c_Flags c)%list c ∧
  (fix all (l : list (Command A)) : Prop :=
     match l with
     | [] => True
     | s :: l => tree_all (path ++ [command_name s])%list (fs ++ c_PersistentFlags c)%list s ∧ all l
     end) (c_Commands c).

Lemma tree_all_find path fs c sub gs t :
  tree_all path fs c → find_command c sub = Some (gs, t) → P (path ++ sub)%list (fs ++ gs)%list t.
Proof.
  revert path fs c gs. induction sub as [|n sub IH]; intros path fs c gs Hall.
  - intros [= <- <-]. rewrite app_nil_r. by destruct c, Hall.
  - cbn [find_command]. intros (s & Hs & Hrest)%bind_Some. apply bind_Some in Hrest as ([hs t'] & Ht & [= <- <-]).
    apply List.find_some in Hs as [Hin Hn%String.eqb_eq].
    assert (tree_all (path ++ [n])%list (fs ++ c_PersistentFlags c)%list s) as Hsub.
    { destruct c as [? ? ? ? ? ? pf cs]. destruct Hall as [_ Hall]. simpl in *. induction cs as [|x cs IHcs]; [done|].
      destruct Hall as [Hx Hcs]. destruct Hin as [->|Hin]; [by rewrite <-Hn|by apply IHcs]. }
    rewrite (cons_middle n path sub), app_assoc, app_assoc. by eapply IH.
Qed.
End walk.

(** *** What the flags of an invocation are *)

Definition required_names (fs : list flag) : list string := fl_Name <$> filter (λ f, fl_Required f = true) fs.

Lemma flag_ok_of inv fs f : forallb (flag_ok inv) fs = true → f ∈ fs → flag_ok inv f = true.
Proof. intros H Hf%list_elem_of_In. by eapply forallb_forall in H. Qed.

Lemma required_given inv fs :
  forallb (flag_ok inv) fs = true → Forall (.∈ iv_Changed inv) (required_names fs).
Proof.
  intros H. apply Forall_fmap, Forall_forall. intros f [Hr Hf]%list_elem_of_filter.
  eapply flag_ok_of in Hf; [|done]. unfold flag_ok in Hf. rewrite Hr in Hf.
  destruct (iv_Flags inv !! fl_Name f); [|done]. simpl in Hf. apply andb_true_iff in Hf as [_ Hf]. by apply bool_decide_eq_true in Hf.
Qed.

Lemma default_kept inv fs f :
  forallb (flag_ok inv) fs = true → f ∈ fs → fl_Name f ∉ iv_Changed inv → iv_Flags inv !! fl_Name f = Some (fl_Default f).
Proof.
  intros H Hf Hc. eapply flag_ok_of in Hf; [|done]. unfold flag_ok in Hf. rewrite (bool_decide_false _ Hc) in Hf.
  destruct (iv_Flags inv !! fl_Name f) as [v|]; [|done]. apply andb_true_iff in Hf as [Hf _].
  apply andb_true_iff in Hf as [_ Hf]. apply bool_decide_eq_true in Hf. by subst.
Qed.

Definition int32 (z : Z) : Prop := (-2147483648 <= z <= 2147483647)%Z.
Lemma int32_given inv fs f z0 :
  forallb (flag_ok inv) fs = true → f ∈ fs → fl_Default f = IV z0 → int32 (int32_var (iv_Flags inv) (fl_Name f)).
Proof.
  intros H Hf Hd. eapply flag_ok_of in Hf; [|done]. unfold flag_ok, int32_var in *. rewrite Hd in Hf.
  destruct (iv_Flags inv !! fl_Name f) as [[]|]; try done. simpl in Hf. unfold int32.
  apply andb_true_iff in Hf as [Hf _]. apply andb_true_iff in Hf as [Hf _]. lia.
Qed.

(** ** What a command line does *)

Definition path_of (cmd : command) : list string :=
  match cmd with
  | GetKeyCommand _ _ _ => ["get"; "key"]
  | GetParentKeysCommand _ _ _ => ["get"; "parent-keys"]
  | GetDescendantKeysCommand _ _ _ => ["get"; "descendant-keys"]
  | GetKeysCommand _ => ["get"; "keys"]
  | ActivateKeyCommand _ _ _ => ["activate"; "key"]
  | AnnounceKeyCommand _ _ _ _ _ _ => ["announce"; "key"]
  | GetTenantCommand _ _ => ["get"; "tenant"]
  | GetTenantsCommand _ => ["get"; "tenants"]
  | CreateTenantCommand _ _ _ => ["create"; "tenant"]
  | SelectTenantCommand _ _ _ _ => ["select"; "tenant"]
  | ActionStatusCommand _ _ _ => ["action"; "status"]
  end.
(** The flags that must be given, and what is known of their values. *)
Definition needs (cmd : command) : list string :=
  match cmd with
  | GetKeyCommand _ _ _ | GetParentKeysCommand _ _ _ | GetDescendantKeysCommand _ _ _ | ActivateKeyCommand _ _ _ => ["key-id"]
  | AnnounceKeyCommand _ _ _ _ _ _ => ["kind"; "name"]
  | ActionStatusCommand _ _ _ => ["action-id"]
  | _ => []
  end.
Definition in_range (cmd : command) : Prop :=
  match cmd with GetKeysCommand f => int32 (lf_limit f) | _ => True end.

(** What runs: a login, or a command of [ClientCommands] on the chosen server. *)
Definition login (inv : invocation) (m : C ()) : Prop :=
  let v := iv_Flags inv in
  iv_Path inv = ["login"; "mtls"] ∧ m = mtls_login (str v "cert") (str v "key") (str v "ca") ∧
    Forall (.∈ iv_Changed inv) ["cert"; "key"; "ca"] ∨
  iv_Path inv = ["login"; "no-auth"] ∧ m = no_auth_login.
Definition dispatched (inv : invocation) (m : C ()) : Prop :=
  login inv m ∨
  ∃ cmd, m = run_command dial (serverAddr (iv_Flags inv)) address rfc3339 json cmd ∧ path_of cmd = iv_Path inv ∧
    Forall (.∈ iv_Changed inv) (needs cmd) ∧ in_range cmd.

Definition dispatches (path : list string) (fs : list flag) (c : Command (C ())) : Prop :=
  ∀ inv run, iv_Path inv = path → forallb (flag_ok inv) fs = true → args_ok (c_Args c) (iv_Args inv) = true →
    c_Run c = Some run →
    ("server" ∉ iv_Changed inv → serverAddr (iv_Flags inv) = "localhost:8080") ∧ dispatched inv (run (iv_Flags inv) (iv_Args inv)).

Lemma server_default inv fs :
  forallb (flag_ok inv) (mkFlag "server" "" (SV "localhost:8080") "Krypton gRPC server address" false :: fs) = true →
  "server" ∉ iv_Changed inv → serverAddr (iv_Flags inv) = "localhost:8080".
Proof.
  intros H Hc. eapply default_kept in H; [|left|exact Hc]. unfold serverAddr, str. simpl in H. by rewrite H.
Qed.

(** A command that runs as one of [ClientCommands]. *)
Lemma dispatched_command inv fs cmd m :
  forallb (flag_ok inv) fs = true → m = run_command dial (serverAddr (iv_Flags inv)) address rfc3339 json cmd →
  path_of cmd = iv_Path inv → required_names fs = needs cmd → in_range cmd → dispatched inv m.
Proof. intros Hf Hm Hp Hn Hr. right. exists cmd. split_and!; try done. rewrite <-Hn. by apply required_given. Qed.

Ltac as_command cmd := eapply (dispatched_command _ _ cmd); [eassumption|reflexivity|by symmetry|reflexivity|exact I].

Lemma rootCmd_dispatches : tree_all dispatches [] [] rootCmd.
Proof.
  cbn -[dispatches]. split_and!; try done; intros inv run Hp Hf Ha Hr; try discriminate Hr; injection Hr as <-.
  all: (split; [by eapply server_default|]); cbn [c_Args] in Ha; set (v := iv_Flags inv) in *.
  - by left; right.
  - left; left. split_and!; [done..|]. exact (required_given inv _ Hf).
  - as_command (CreateTenantCommand (str v "name") (map_var v "label") (bool_var v "json")).
  - destruct (iv_Args inv) as [|id args]; [done|]. as_command (GetTenantCommand id (bool_var v "json")).
  - as_command (GetTenantsCommand (bool_var v "json")).
  - as_command (GetKeyCommand (str v "key-id") (str v "tenant-id") (bool_var v "json")).
  - as_command (GetParentKeysCommand (str v "key-id") (str v "tenant-id") (bool_var v "json")).
  - as_command (GetDescendantKeysCommand (str v "key-id") (str v "tenant-id") (bool_var v "json")).
  - eapply (dispatched_command _ _ (GetKeysCommand (list_vars v))); [exact Hf|reflexivity|by symmetry|reflexivity|].
    eapply (int32_given inv _ (mkFlag "limit" "" (IV 0) "Maximum number of keys to return (0 for no limit)" false)); [exact Hf| |done].
    do 9 right. left.
  - as_command (SelectTenantCommand (iv_Args inv) (bool_var v "interactive") term reads).
  - as_command (AnnounceKeyCommand (str v "kind") (str v "name") (str v "parent") (str v "target-name") (map_var v "label")
                  (bool_var v "json")).
  - as_command (ActivateKeyCommand (str v "key-id") (str v "tenant-id") (bool_var v "json")).
  - as_command (ActionStatusCommand (str v "action-id") (bool_var v "target-info") (bool_var v "json")).
Qed.

Lemma Execute_dispatched argv inv :
  Parse rootCmd argv = inl (PRun inv) →
  ("server" ∉ iv_Changed inv → serverAddr (iv_Flags inv) = "localhost:8080") ∧ dispatched inv (Execute argv).
Proof.
  intros Hp. pose proof (Parse_invokes _ _ _ Hp) as Hi. unfold Execute. rewrite Hp. unfold invoked in Hi.
  destruct (find_command rootCmd (iv_Path inv)) as [[fs c]|] eqn:Hf; [|done].
  apply andb_true_iff in Hi as [Hi Hflags]. apply andb_true_iff in Hi as [Hrun Hargs].
  apply bool_decide_eq_true in Hrun as [run Hrun]. rewrite Hrun.
  exact (tree_all_find _ _ _ _ _ _ _ rootCmd_dispatches Hf inv run eq_refl Hflags Hargs Hrun).
Qed.

(** *** Logins *)

Definition token_file (p : string) : Prop :=
  ∃ home, UserHomeDir = inl home ∧
    (p = tokenPath (token_store home) ∨ p = path_join (path_join home Directory) ".tmp").
Lemma FS_Store_files home t s p :
  p ≠ tokenPath (token_store home) → p ≠ path_join (path_join home Directory) ".tmp" →
  files (FS_Store (token_store home) (Some t) s).2 !! p = files s !! p.
Proof.
  intros Hp Ht. unfold FS_Store. destruct (marshal_token t) as [d|]; [|done].
  destruct (write_and_rename _ _ d s) as [r s'] eqn:H. apply write_and_rename_atomic in H as [_ Ho]; [by apply Ho|].
  by intros ?%path_join_inj.
Qed.

Lemma reads_FS_Get f : respects (unchanged files) (FS_Get f).
Proof.
  intros s. unfold FS_Get. rewrite bind_try. pose proof (reads_ReadFile (tokenPath f) s) as H.
  destruct (ReadFile _ s) as [[d|e| |] s']; try exact H.
  by destruct (unmarshal_token d).
Qed.

(** After [NewFS], on the store of the home directory. *)
Lemma NewFS_then {A} (k : FS → comp fs A) p :
  (∀ home, UserHomeDir = inl home → respects (unchanged (λ s, files s !! p)) (k (token_store home))) →
  respects (unchanged (λ s, files s !! p)) (NewFS ≫= k).
Proof.
  intros Hk s. rewrite bind_run. pose proof (reads_NewFS s) as Hn. destruct (NewFS s) as [[f|e| |] s'] eqn:E;
    try (unfold unchanged in *; simpl in *; by rewrite Hn).
  apply NewFS_Ok in E as (home & Hh & -> & Hf). specialize (Hk home Hh s'). unfold unchanged in *. simpl in *. by rewrite Hk, Hf.
Qed.

Lemma login_files p :
  ¬ token_file p →
  (∀ cert key ca, respects (unchanged (λ s, files s !! p)) (mtlsLogin cert key ca)) ∧
  respects (unchanged (λ s, files s !! p)) noAuthLogin.
Proof.
  intros Hp. assert (∀ home t, UserHomeDir = inl home →
    respects (unchanged (λ s, files s !! p)) (FS_Store (token_store home) (Some t))) as Hst.
  { intros home t Hh s. apply FS_Store_files; intros ->; apply Hp; exists home; auto. }
  split.
  - intros cert key ca. apply NewFS_then. intros home Hh. destruct (marshal_creds _) as [b|]; [|by intros s0].
    apply respects_bind; [apply _|by intros s0|]. intros t. by apply Hst.
  - apply NewFS_then. intros home Hh.
    assert (∀ t, respects (unchanged (λ s, files s !! p)) (lift (NoOp_Verify t))) as Hl by by intros t s.
    apply respects_bind; [apply _| |].
    { intros s. pose proof (reads_FS_Get (token_store home) s) as H. unfold try, unchanged in *.
      destruct (FS_Get _ s) as [[] s']; simpl in *; by rewrite H. }
    intros [t|e].
    + apply respects_bind; [apply _|by intros s|intros st]. case_decide; [by intros s|].
      apply respects_bind; [apply _|apply Hl|intros t']. apply respects_bind; [apply _|by apply Hst|by intros ? s].
    + destruct (errors_Is e ErrTokenNotFound); [|by intros s].
      apply respects_bind; [apply _|apply Hl|intros t']. apply respects_bind; [apply _|by apply Hst|by intros ? s].
Qed.

Definition printed (e : event) : Prop := match e with EvPrint _ => True | _ => False end.

Lemma login_confined inv m c r c' :
  login inv m → m c = (r, c') →
  emits printed c c' ∧ ∀ p, ¬ token_file p → files (cl_fs c') !! p = files (cl_fs c) !! p.
Proof.
  intros Hl Hm.
  assert (respects (emits printed) m ∧ ∀ p, ¬ token_file p → respects (unchanged (λ c, files (cl_fs c) !! p)) m) as [He Hf].
  { assert (∀ A (l : comp fs A) p, respects (unchanged (λ s, files s !! p)) l →
      respects (unchanged (λ c, files (cl_fs c) !! p)) (on_fs l)) as Hon.
    { intros A l p H c0. specialize (H (cl_fs c0)). unfold on_fs, unchanged in *. by destruct (l (cl_fs c0)). }
    destruct Hl as [(_ & -> & _)|[_ ->]]; (split; [unfold mtls_login, no_auth_login, println; solve_respects|]); intros p Hp;
      (apply respects_bind; [apply _|apply Hon; by apply login_files|by intros ? c0]). }
  specialize (He c). rewrite Hm in He. split; [exact He|]. intros p Hp. specialize (Hf p Hp c). by rewrite Hm in Hf.
Qed.

Lemma run_command_confined addr cmd c r c' :
  run_command dial addr address rfc3339 json cmd c = (r, c') →
  session c r c' ∧ ∀ p, ¬ selection_file p → files (cl_fs c') !! p = files (cl_fs c) !! p.
Proof.
  intros H. split; [by eapply run_command_session|]. intros p Hp.
  assert ((∃ a i t rs, cmd = SelectTenantCommand a i t rs) ∨ ∀ a i t rs, cmd ≠ SelectTenantCommand a i t rs) as [(a & i & t & rs & ->)|Hn].
  { destruct cmd; try (by right). left. by eexists _, _, _, _. }
  - cbn [run_command] in H. by eapply selectTenantCmd_files.
  - pose proof (run_command_files dial addr address rfc3339 json cmd Hn c) as Hf. rewrite H in Hf.
    unfold same_files, unchanged in Hf. simpl in Hf. by rewrite Hf.
Qed.

(** C27: what [kr] does, whatever its command line is.  A command line that is
    refused or asks for help does nothing but what the library prints.  Any other is exactly one of the
    commands: a login, which only prints and writes nothing but the token and
    its temporary file; or a command against the server given by [--server]
    (the default address unless the flag is set), where every flag the command
    needs was given, the limit is a 32-bit integer and the argument of
    [get tenant] is there, and which keeps to one session over a connection the
    stored token grants and writes nothing but the selection of a tenant. *)
Theorem command_line_confined argv c r c' :
  Execute argv c = (r, c') →
  match Parse rootCmd argv with
  | inr _ | inl PHelp => c' = c
  | inl (PRun inv) =>
      ("server" ∉ iv_Changed inv → serverAddr (iv_Flags inv) = "localhost:8080") ∧
      ((login inv (Execute argv) ∧ emits printed c c' ∧ ∀ p, ¬ token_file p → files (cl_fs c') !! p = files (cl_fs c) !! p) ∨
       ∃ cmd, run_command dial (serverAddr (iv_Flags inv)) address rfc3339 json cmd c = (r, c') ∧ path_of cmd = iv_Path inv ∧
         Forall (.∈ iv_Changed inv) (needs cmd) ∧ in_range cmd ∧
         session c r c' ∧ ∀ p, ¬ selection_file p → files (cl_fs c') !! p = files (cl_fs c) !! p)
  end.
Proof.
  intros H. destruct (Parse rootCmd argv) as [[|inv]|e] eqn:Hp.
  - unfold Execute in H. rewrite Hp in H. by injection H.
  - destruct (Execute_dispatched argv inv Hp) as [Hs [Hl|(cmd & Hm & Hpath & Hneeds & Hr)]]; (split; [exact Hs|]).
    + left. split; [exact Hl|]. by eapply login_confined.
    + right. exists cmd. rewrite Hm in H. destruct (run_command_confined _ _ _ _ _ H). by split_and!.
  - unfold Execute in H. rewrite Hp in H. by injection H.
Qed.

(** *** The declarations *)

(** The library panics on a flag declared twice and cannot reach the second of
    two commands of one name; it adds [help] and [-h] itself. *)
Definition well_declared (path : list string) (fs : list flag) (c : Command (C ())) : Prop :=
  NoDup ("help" :: (fl_Name <$> fs)) ∧ NoDup ("h" :: filter (λ s, s ≠ "") (fl_Shorthand <$> fs)) ∧
  NoDup (command_name <$> c_Commands c).

Theorem rootCmd_well_declared : tree_all well_declared [] [] rootCmd.
Proof.
  assert (∀ l : list string, bool_decide (NoDup l) = true → NoDup l) as Hb by (intros l; by rewrite bool_decide_eq_true).
  cbn -[well_declared]. split_and!; try done; (split; [|split]); apply Hb; vm_compute; reflexivity.
Qed.
End tree.

(** ** A command line *)

Module TreeSamples.
Import CommandSamples.

(** Reads [--name=value] and [--name]; names of commands first. *)
Definition is_flag (w : string) : bool := String.prefix "--" w.
Definition value_of (declared : flag_val) (w : string) : flag_val :=
  match declared with SV _ => SV w | BV _ => BV (String.eqb w "true") | _ => declared end.
Definition set_flags (fs : list flag) (words : list string) : values * gset string :=
  foldr (λ f '(v, ch),
    match List.find (λ w, String.prefix ("--" +:+ fl_Name f +:+ "=") w) words with
    | Some w => (<[fl_Name f := value_of (fl_Default f) (cut "="%char w).1.2]> v, {[fl_Name f]} ∪ ch)
    | None => (<[fl_Name f := fl_Default f]> v, ch)
    end) (∅, ∅) fs.
Definition sample_parse (root : Command (C ())) (argv : list string) : parsed + error :=
  let path := take 2 argv in
  match find_command root path with
  | None => inr (EForeign "unknown command")
  | Some (fs, _) =>
      let '(v, ch) := set_flags fs argv in
      let inv := mkInvocation path v ch (List.filter (λ w, negb (is_flag w)) (drop 2 argv)) in
      if invoked root inv then inl (PRun inv) else inl PHelp
  end.
#[export, refine] Instance sample_cobra : Cobra (C ()) := {| Parse := sample_parse |}.
Proof.
  intros root argv inv. unfold sample_parse. destruct (find_command _ _) as [[fs c]|]; [|done].
  destruct (set_flags fs argv) as [v ch]. destruct (invoked _ _) eqn:E; [|done]. by intros [= <-].
Defined.

Definition kr (argv : list string) (c : client) : result () * client :=
  Execute dials no_address utc no_json screen [] argv c.
Definition argv : list string := ["get"; "key"; "--key-id=k-1"; "--server=srv:1"; "--json=true"].

Lemma command_line_confined_witness :
  (kr argv chosen).1 = Ok () ∧ session chosen (Ok ()) (kr argv chosen).2 ∧
  (kr ["get"; "key"] chosen).2 = chosen ∧ length (cl_trace (kr argv chosen).2) = (length (cl_trace chosen) + 4)%nat.
Proof.
  assert ((kr argv chosen).1 = Ok ()) as Hr by (vm_compute; reflexivity).
  assert (kr argv chosen = (Ok (), (kr argv chosen).2)) as Hk by (destruct (kr argv chosen); simpl in *; by rewrite Hr).
  split; [exact Hr|]. split; [|split; [|vm_compute; reflexivity]].
  - pose proof (command_line_confined dials no_address utc no_json screen [] argv chosen _ _ Hk) as H.
    destruct (Parse _ argv) as [[|inv]|e] eqn:Hp; [discriminate Hp| |discriminate Hp].
    destruct H as [_ [(Hl & _)|(cmd & _ & _ & _ & _ & Hs & _)]]; [|exact Hs].
    injection Hp as <-. by destruct Hl as [[? _]|[? _]].
  - vm_compute. reflexivity.
Defined.
End TreeSamples.
End CommandTree.
