(* ===== verification/ClientServer.v ===== *)
(** * The client against the root

    The commands of cli/cmd composed with the admin services of the root
    (pkg/api/v1/proto/admin): the answers of the class [Server] are those the
    services give on the state of the root at the moment of the call.  Between
    the events of the client the root goes on: agents, jobs and other clients
    move its database, which only evolves ([db_evolves]). *)

From S2P Require Import Prelude GoStrings GoRuntime Model World Lifecycle Providers Hierarchy.
From S2P Require Import Config Sql KeyStore KeyVersionStore StoreInvariant StoreTheorems Validator.
From S2P Require Import KeyOperator Orchestrator KeyAction KeyActionTheorems TaskTheorems AdminKeys AgentServices Actions.
From S2P Require Import GoText Output Terminal ClientAuth ClientCommands.

Local Open Scope string_scope.

Module ClientServer.
Import Actions Output Terminal ClientAuth ClientCommands.

(** ** The root as the server *)

(** The answer of a handler as the client sees it; a handler that does not
    return breaks the connection. *)
Definition unavailable : error := EForeign "unavailable".
Definition wire {A B} (f : A → B) (r : result A) : B + error :=
  match r with Ok a => inl (f a) | Err e => inr e | Panic | Diverge => inr unavailable end.

Section root.
Context {ENV : Env} {COL : Collation} {CURSOR : CursorCodec} {PREP : JobGroupPreparer} {CODEC : JobCodec}.
Context (config : RootConfig) (GetJobGroup : nat → string → option StoredGroup + error).

(** What a call does at the root. *)
Definition serve (q : rpc) : M () :=
  match q with
  | RGetKey id t => discard (KeyService_GetKey id t)
  | RGetParentKeys id t => discard (KeyService_GetParentKeys id t)
  | RGetDescendantKeys id t => discard (KeyService_GetDescendantKeys id t)
  | RListKeys req => discard (KeyService_ListKeys req)
  | RActivateKey req => discard (KeyService_ActivateKey req)
  | RAnnounceKey req => discard (KeyService_AnnounceKey config req)
  | RGetTenant id => discard (AdminTenant_GetTenant id)
  | RListTenants => discard AdminTenant_ListTenants
  | RCreateTenant name labels => discard (AdminTenant_CreateTenant name labels)
  | RGetAction _ => mret ()
  end.

(** The state of the root at each position of the client's trace. *)
Context (rw : nat → world).

#[local] Instance root_server : Server := {|
  srv_GetKey := λ n id t, wire Some (KeyService_GetKey id t (rw n)).1;
  srv_GetParentKeys := λ n id t, wire (λ x, x) (KeyService_GetParentKeys id t (rw n)).1;
  srv_GetDescendantKeys := λ n id t, wire (λ x, x) (KeyService_GetDescendantKeys id t (rw n)).1;
  srv_ListKeys := λ n req, wire (λ x, x) (KeyService_ListKeys req (rw n)).1;
  srv_ActivateKey := λ n req, wire (λ x, x) (KeyService_ActivateKey req (rw n)).1;
  srv_AnnounceKey := λ n req, wire Some (KeyService_AnnounceKey config req (rw n)).1;
  srv_GetTenant := λ n id, wire Some (AdminTenant_GetTenant id (rw n)).1;
  srv_ListTenants := λ n, wire (λ x, x) (AdminTenant_ListTenants (rw n)).1;
  srv_CreateTenant := λ n name labels, wire Some (AdminTenant_CreateTenant name labels (rw n)).1;
  srv_GetAction := λ n id, match GetAction (GetJobGroup n) id with inl a => inl (Some a) | inr e => inr e end;
|}.

Lemma evolves_ApplyKeyAction a : respects (db_rel db_evolves) (ApplyKeyAction a).
Proof.
  assert (∀ g, respects (db_rel db_evolves) (PrepareJobGroup g)) as Hg.
  { intros g w. unfold db_rel. rewrite (proj1 (PrepareJobGroup_outbound g w)). reflexivity. }
  unfold ApplyKeyAction, fetchKeytree, transition_layer, transition_key. solve_respects.
Qed.

Lemma outbound_PrepareJobGroup g : respects (db_rel db_evolves) (PrepareJobGroup g).
Proof. intros w. unfold db_rel. rewrite (proj1 (PrepareJobGroup_outbound g w)). reflexivity. Qed.

#[local] Hint Resolve evolves_ApplyKeyAction outbound_PrepareJobGroup : respects.

(** A chain of steps that evolve the database. *)
Lemma evolves_chain {A} (steps : list (A → M A)) a :
  Forall (λ s, ∀ x, respects (db_rel db_evolves) (s x)) steps → respects (db_rel db_evolves) (ChainTransaction steps a).
Proof. rewrite Forall_forall. intros H. apply db_rel_ChainTransaction; [apply _|]. intros s x Hs. by apply H. Qed.

Ltac chain_steps := repeat (apply Forall_cons; split; [intros ?; solve_respects|]).

Lemma evolves_or_mapped {A} (m : M A) : respects (db_rel db_evolves) m → respects (db_rel db_evolves) (or_mapped m).
Proof. intros Hm. unfold or_mapped. solve_respects. Qed.

Lemma evolves_serve q : respects (db_rel db_evolves) (serve q).
Proof.
  destruct q; cbn [serve]; try (apply evolves_discard).
  - unfold KeyService_GetKey. solve_respects.
  - unfold KeyService_GetParentKeys. solve_respects.
  - unfold KeyService_GetDescendantKeys. solve_respects.
  - unfold KeyService_ListKeys. solve_respects.
  - unfold KeyService_ActivateKey. solve_respects; apply evolves_or_mapped, evolves_chain; by chain_steps.
  - unfold KeyService_AnnounceKey, KeyService_newKey, prepareAnnounceJobGroup. solve_respects.
    apply evolves_or_mapped, evolves_chain; by chain_steps.
  - unfold AdminTenant_GetTenant. solve_respects.
  - unfold AdminTenant_ListTenants. solve_respects.
  - unfold AdminTenant_CreateTenant. solve_respects.
  - solve_respects.
Qed.

(** ** The history of the root *)

Section history.
Context {PKI : Pki}.

(** What an event of the client does at the root, and what follows. *)
Definition served (e : event) (w : world) : world :=
  match e with EvCall _ q => (serve q w).2 | _ => w end.
Definition history (tr : list event) : Prop :=
  ∀ n e, tr !! n = Some e → db_evolves (w_db (served e (rw n))) (w_db (rw (S n))).

Lemma history_step tr n : history tr → (n < length tr)%nat → db_evolves (w_db (rw n)) (w_db (rw (S n))).
Proof.
  intros Hh [e He]%lookup_lt_is_Some. etrans; [|by eapply Hh]. destruct e; try reflexivity. apply evolves_serve.
Qed.

Lemma history_steps tr n m : history tr → (n ≤ m ≤ length tr)%nat → db_evolves (w_db (rw n)) (w_db (rw m)).
Proof.
  intros Hh [Hnm Hm]. induction Hnm as [|m Hnm IH]; [reflexivity|]. etrans; [apply IH; lia|]. by eapply history_step.
Qed.

(** After a call, up to a later position. *)
Lemma history_after tr n m conn q :
  history tr → tr !! n = Some (EvCall conn q) → (n < m ≤ length tr)%nat → db_evolves (w_db (serve q (rw n)).2) (w_db (rw m)).
Proof. intros Hh Hn [Hnm Hm]. etrans; [exact (Hh n _ Hn)|]. eapply history_steps; [done|]. lia. Qed.
End history.

(** ** Announcing stores the key *)

Definition same_parent (requested stored : option string) : Prop :=
  stored = requested ∨ uuid_column_null requested = Some stored.

(** The row is the key, with identifiers in canonical form. *)
Definition row_of (k row : Key) : Prop :=
  uuid_column (k_ID k) = Some (k_ID row) ∧ uuid_column (k_TenantID k) = Some (k_TenantID row) ∧
  k_Name row = k_Name k ∧ k_Kind row = k_Kind k ∧ k_ManagedBy row = k_ManagedBy k ∧
  same_parent (k_ParentID k) (k_ParentID row).

Lemma UpsertKey_row newKey w k w' :
  db_wf (w_db w) → UpsertKey (Some newKey) w = (Ok k, w') →
  ∃ row, db_keys (w_db w') !! k_ID row = Some row ∧ row_of k row ∧ key_identity k = key_identity newKey.
Proof.
  intros Hwf. unfold UpsertKey. rewrite bind_try. pose proof (CreateKey_spec newKey w) as Hc.
  destruct (CreateKey newKey w) as [[[]|er| |] w1]; try done.
  - destruct Hc as (row & Hrow & _ & Hdb). intros [= <- <-]. exists row. rewrite Hdb. simpl. rewrite lookup_insert_eq.
    split_and!; [done| |done]. unfold stored_key in Hrow.
    destruct (uuid_column (k_ID newKey)) as [id|] eqn:Hi; [|done]. destruct (uuid_column (k_TenantID newKey)) as [t|] eqn:Ht; [|done].
    destruct (uuid_column_null (k_ParentID newKey)) as [p|] eqn:Hp; [|done]. simpl in Hrow.
    destruct (job_column _); [|done]. injection Hrow as <-. split_and!; try done. by right.
  - destruct Hc as [Hdb _]. destruct (errors_Is er ErrKeyInsertConflict); [|done]. cbn [negb].
    intros (e & w2 & He & H)%bind_inv_Ok. rewrite <-Hdb in Hwf. apply existing_key_spec in He as [Hdb2 Hek]; [|done].
    destruct (IsSame (Some e) (Some newKey)) eqn:Es; [|done]. cbn [negb] in H. apply IsSame_spec in Es.
    rewrite bind_try in H. cbv zeta in H. set (q := mkUpdateKeyStatesQuery _ _ _ _ _ _) in H.
    pose proof (UpdateKeyStates_spec q w2) as Hu. rewrite Hdb2 in Hu.
    assert (target (w_db w1) (uk_ID q) (uk_TenantID q) = Some e) as Ht by by eapply target_canonical.
    assert (from_matches q e) as Hm by (split; right; apply list_elem_of_here).
    destruct (UpdateKeyStates q w2) as [[[]|er'| |] w3]; try done.
    + injection H as <- <-. destruct Hu as (x & now & Hx & _ & id & Hid & Hdb3). rewrite Ht in Hx. injection Hx as <-.
      destruct (wf_key_id _ Hwf _ _ Hek) as [_ Hu]. assert (id = k_ID e) as -> by (simpl in Hid; congruence).
      exists (swapped q now e). rewrite Hdb3. simpl. rewrite lookup_insert_eq. split; [done|].
      pose proof (wf_key_tenant _ _ _ Hwf Hek) as Htn. unfold key_identity in Es. injection Es as En Et Em Ekd Ep.
      split_and!; [|done]. split_and!; simpl; try congruence. left. congruence.
    + destruct Hu as [_ [[-> Hn]|[what ->]]]; [by destruct (Hn e Ht)|done].
Qed.

(** The key a request announces. *)
Definition announces (req : AnnounceKeyRequest) (k : Key) : Prop :=
  k_TenantID k = akr_TenantId req ∧ k_Name k = akr_Name req ∧ k_Kind k = akr_Kind req ∧
  k_ManagedBy k = (if String.eqb (akr_TargetName req) "" then rc_Name config else akr_TargetName req) ∧
  default "" (k_ParentID k) = akr_ParentId req.

Lemma AnnounceKey_row req w pk w' :
  db_wf (w_db w) → KeyService_AnnounceKey config req w = (Ok pk, w') →
  ∃ k row, pk = KeyToProto k ∧ announces req k ∧ db_keys (w_db w') !! k_ID row = Some row ∧ row_of k row.
Proof.
  intros Hwf. unfold KeyService_AnnounceKey. destruct (ValidateKeyAnnounceRequest _ _); [done|].
  intros (nk & w1 & Hnew & H)%bind_inv_Ok. apply bind_inv_Ok in H as (k & w2 & H & [= <- <-]).
  unfold KeyService_newKey, NewKey in Hnew. injection Hnew as <- <-. rewrite or_mapped_run in H.
  set (nk := mkKey _ _ _ _ _ _ _ _ _ _ _) in H. set (steps := [_; _; _; _]) in H.
  unfold ChainTransaction in H. destruct (Transaction _ _) as [[x| | |] w3] eqn:E in H; try done. injection H as -> ->.
  apply Transaction_Ok in E as (w4 & w5 & E & Hdb & Hdb2). simpl in Hdb. unfold steps in E. cbn [foldM] in E.
  apply bind_inv_Ok in E as (k1 & wa & E1 & E). apply bind_inv_Ok in E1 as ([] & wa' & Ev & [= <- <-]).
  apply bind_inv_Ok in E as (k2 & wb & E2 & E). apply bind_inv_Ok in E2 as ([] & wb' & Eh & [= <- <-]).
  apply bind_inv_Ok in E as (k3 & wc & E3 & E). apply bind_inv_Ok in E as (k4 & wd & E4 & [= <- <-]).
  apply bind_inv_Ok in E4 as ([] & we & E4 & [= <- <-]).
  pose proof (db_rel_ValidateTenant eq (k_TenantID nk) w4) as Hv. rewrite Ev in Hv.
  pose proof (db_rel_ValidateKeyHierarchy eq nk (rc_Hierarchy config) wa') as Hh. rewrite Eh in Hh. unfold db_rel in Hv, Hh.
  simpl in Hv, Hh. apply UpsertKey_row in E3 as (row & Hrow & Hof & Hid); [|by rewrite <-Hh, <-Hv, Hdb].
  exists k3, row. split; [done|]. split; [|split; [|done]].
  - unfold key_identity in Hid. injection Hid as En Et Em Ek Ep. unfold announces. rewrite En, Et, Em, Ek, Ep. simpl.
    split_and!; try done. by destruct (String.eqb_spec (akr_ParentId req) "").
  - rewrite Hdb2. unfold prepareAnnounceJobGroup in E4. destruct (marshal_key k3) as [data|]; [|done].
    apply bind_inv_Ok in E4 as (g & wg & E4 & [= <-]). pose proof (proj1 (PrepareJobGroup_outbound (announceJobGroup k3 data) wc)) as Hp.
    rewrite E4 in Hp. simpl in Hp. by rewrite Hp.
Qed.

Lemma KeyService_AnnounceKey_proto req w pk w' :
  KeyService_AnnounceKey config req w = (Ok pk, w') → ∃ k, pk = KeyToProto k.
Proof.
  unfold KeyService_AnnounceKey. destruct (ValidateKeyAnnounceRequest _ _); [done|].
  intros (nk & w1 & _ & H)%bind_inv_Ok. apply bind_inv_Ok in H as (k & w2 & _ & [= <- _]). by exists k.
Qed.

(** ** Listing *)

Lemma ListKeys_default_page q w ks cursor w' :
  (lk_Limit q <= 0)%Z → ListKeys q w = (Ok (ks, cursor), w') → (length ks <= 50)%nat.
Proof.
  intros Hl. unfold ListKeys. rewrite (proj2 (Z.leb_le _ _) Hl). change (wrap64 (50 + 1)) with 51%Z.
  intros (after & w1 & _ & H)%bind_inv_Ok. apply bind_inv_Ok in H as (t & w2 & _ & H).
  apply bind_inv_Ok in H as (after' & w3 & _ & H). apply bind_inv_Ok in H as ([] & w4 & _ & H). rewrite bind_get_db in H.
  cbn [Z.ltb Z.compare] in H. set (rows := take _ _) in H. apply bind_inv_Ok in H as ([rs cur] & w5 & Hr & H).
  assert (rs = ks) as ->. { destruct (bool_decide (rs = [])); [done|]. by injection H. }
  destruct (Nat.eqb_spec (length rows) (Z.to_nat 51)) as [E|E].
  - destruct (rows !! _); [|done]. injection Hr as <- _ _. rewrite length_take. lia.
  - injection Hr as <- _ _. unfold rows in *. rewrite length_take in *. lia.
Qed.

(** A limit of 0, which the help of [get keys] calls no limit, is a page of
    fifty keys. *)
Theorem no_limit_is_fifty req w ks cursor w' :
  lkr_Limit req = 0%Z → KeyService_ListKeys req w = (Ok (ks, cursor), w') → (length ks <= 50)%nat.
Proof.
  intros Hl. unfold KeyService_ListKeys. rewrite bind_try. destruct (ListKeys _ w) as [[[rows c]|e| |] w1] eqn:E; try done.
  intros [= <- _ _]. apply ListKeys_default_page in E; [|simpl; lia]. unfold KeysToProto. by rewrite length_fmap.
Qed.

(** ** Reading it back *)

Lemma GetKey_found {NF : NoFaults} id t k w :
  Sql.keys ∈ db_tables (w_db w) → target (w_db w) id t = Some k → (KeyService_GetKey id t w).1 = Ok (KeyToProto k).
Proof.
  intros Htab Hk. unfold KeyService_GetKey. rewrite bind_try.
  assert (∃ w', GetKeyByID id t w = (Ok k, w')) as [w' ->]; [|done]. unfold GetKeyByID, target in *.
  rewrite bind_arg_uuid_eq. destruct (uuid_column id) as [i|]; [|done]. rewrite bind_arg_uuid_eq.
  destruct (uuid_column t) as [tn|]; [|done]. simpl in Hk. rewrite bind_run, statement_NoFaults by done.
  rewrite bind_get_db. simpl. rewrite Hk. by eexists.
Qed.

(** A row that was there is found later under the identifiers the client has. *)
Lemma row_found k row d d' :
  db_wf d → db_evolves d d' → db_keys d !! k_ID row = Some row → row_of k row →
  ∃ row', target d' (k_ID k) (k_TenantID k) = Some row' ∧ row_of k row'.
Proof.
  intros Hwf [_ Hg] Hrow (Hi & Ht & Hn & Hkd & Hm & Hp). destruct (grows_keys _ _ (Hg Hwf) _ _ Hrow) as (row' & Hr' & Hid & Hidn & _).
  unfold key_identity in Hidn. injection Hidn as En Et Em Ek Ep. exists row'. unfold target, find_key.
  rewrite Hi, Ht. simpl. rewrite Hr', Et, String.eqb_refl. split; [done|].
  unfold row_of. rewrite Hid, Et, En, Ek, Em, Ep. by split_and!.
Qed.

Section commands.
Context {NF : NoFaults} {OS : Os} {CLIENT : ClientCodec} {PKI : Pki}.
Context (dial : string → transport → option error) (serverAddr : string).
Context (address : value → string) (rfc3339 : Z → string) (json : list (gmap string value) → string + error).

(** The cells of an announced key in a table. *)
Definition announced_cells (k : Key) : list Cell :=
  [mkCell "ID" (VString (k_ID k)); mkCell "Kind" (VString (k_Kind k)); mkCell "Name" (VString (k_Name k));
   mkCell "ParentID" (VString (default "" (k_ParentID k))); mkCell "ManagedBy" (VString (k_ManagedBy k));
   mkCell "Labels" (VString (Labels_String (k_Labels k))); mkCell "Status" (VString (k_Status k));
   mkCell "JobID" (VString (ps_JobID (k_ProcessingState k)))].

Lemma show_announced_table k c :
  show address rfc3339 json (announcedKeyRow_value (newAnnouncedKeyRow (KeyToProto k))) false c =
  (Ok (), mkClient (cl_fs c) (cl_trace c ++ [EvPrint (renderTabular address [announced_cells k])])%list).
Proof. reflexivity. Qed.

(** A command that announced a key: what it did, and what the root did. *)
Lemma announceKeyCmd_Ok kind name parent target labels c c' :
  announceKeyCmd dial serverAddr address rfc3339 json kind name parent target labels false c = (Ok (), c') →
  ∃ tenantID conn pk w', let req := mkAnnounceKeyRequest tenantID kind name parent target labels in
    KeyService_AnnounceKey config req (rw (S (length (cl_trace c)))) = (Ok pk, w') ∧
    ∀ k, pk = KeyToProto k →
      cl_trace c' = (cl_trace c ++ [EvConnect conn; EvCall conn (RAnnounceKey req);
                                    EvPrint (renderTabular address [announced_cells k]); EvClose conn])%list.
Proof.
  unfold announceKeyCmd. intros (tenantID & c1 & Hsel & H)%bind_inv_Ok. apply on_fs_inv in Hsel as [Htr _].
  unfold connected in H. rewrite bind_try in H.
  destruct (on_fs (newConnection dial serverAddr) c1) as [[conn|e| |] c2] eqn:Hc; try done.
  apply on_fs_inv in Hc as [Htr2 _]. rewrite bind_run in H. cbn -[defer show] in H.
  apply defer_emit in H as (c3 & H & _ & Htr3). rewrite bind_run, invoke_run in H. cbn [cl_trace cl_fs] in H.
  rewrite length_app, Htr2, Htr in H. cbn [length] in H. rewrite Nat.add_1_r in H. cbn [srv_AnnounceKey root_server] in H.
  destruct (KeyService_AnnounceKey config _ _) as [[pk|e| |] w'] eqn:Ha; cbn [fst wire] in H; try discriminate H.
  exists tenantID, conn, pk, w'. cbv zeta. split; [exact Ha|]. intros k ->. cbn [default from_option id] in H.
  rewrite show_announced_table in H. injection H as <-. rewrite Htr3. cbn [cl_trace]. by rewrite <-!app_assoc.
Qed.

(** C7: a key that was announced is shown.  When [announce key] succeeds against
    the root, it prints the key the root stored for the request; and whatever
    the root and other clients do meanwhile, [get key] with the printed
    identifier, on any later connection, prints a row of that key: the same
    identifier, name, kind, manager and parent, with identifiers in canonical
    form. *)
Theorem announced_key_is_shown kind name parent target labels c c1 :
  db_wf (w_db (rw 0)) → Sql.keys ∈ db_tables (w_db (rw 0)) → history (cl_trace c1) →
  announceKeyCmd dial serverAddr address rfc3339 json kind name parent target labels false c = (Ok (), c1) →
  ∃ req conn k, announces req k ∧ req = mkAnnounceKeyRequest (k_TenantID k) kind name parent target labels ∧
    cl_trace c1 = (cl_trace c ++ [EvConnect conn; EvCall conn (RAnnounceKey req);
                                  EvPrint (renderTabular address [announced_cells k]); EvClose conn])%list ∧
    ∀ c2 conn2 s, cl_trace c1 `prefix_of` cl_trace c2 → history (cl_trace c2 ++ [EvConnect conn2])%list →
      newConnection dial serverAddr (cl_fs c2) = (Ok conn2, s) →
      ∃ row, row_of k row ∧
        getKeyCmd dial serverAddr address rfc3339 json (k_ID k) (k_TenantID k) false c2 =
        (Ok (), mkClient s (cl_trace c2 ++
           [EvConnect conn2; EvCall conn2 (RGetKey (k_ID k) (k_TenantID k));
            EvPrint (renderTabular address [key_cells rfc3339 false row]); EvClose conn2])%list).
Proof.
  intros Hwf Htab Hh1 Hrun. apply announceKeyCmd_Ok in Hrun as (tenantID & conn & pk & w' & Ha & Htr). cbv zeta in *.
  set (n := S (length (cl_trace c))) in *.
  set (req := mkAnnounceKeyRequest tenantID kind name parent target labels) in *.
  assert (db_evolves (w_db (rw 0)) (w_db (rw n))) as Hn.
  { destruct (KeyService_AnnounceKey_proto _ _ _ _ Ha) as [k ->]. apply (history_steps (cl_trace c1)); [done|].
    rewrite (Htr k eq_refl), length_app. simpl. lia. }
  destruct (AnnounceKey_row req _ _ _ (proj1 Hn Hwf) Ha) as (k & row & -> & Han & Hrow & Hof).
  specialize (Htr k eq_refl). exists req, conn, k. split; [done|].
  assert (k_TenantID k = tenantID) as Htn by apply Han. split; [by rewrite Htn|]. split; [exact Htr|].
  intros c2 conn2 s Hpre Hh Hdial.
  set (tr := (cl_trace c2 ++ [EvConnect conn2])%list) in *. set (m := S (length (cl_trace c2))).
  assert (length tr = m) as Hm by (unfold tr, m; rewrite length_app; simpl; lia).
  assert (n < m)%nat as Hnm.
  { apply prefix_length in Hpre. rewrite Htr, length_app in Hpre. simpl in Hpre. unfold n, m. lia. }
  assert (tr !! n = Some (EvCall conn (RAnnounceKey req))) as Hcall.
  { destruct Hpre as [l Hl]. unfold tr, n. rewrite Hl, Htr, <-!app_assoc, lookup_app_r by lia.
    by replace (S (length (cl_trace c)) - length (cl_trace c))%nat with 1%nat by lia. }
  assert ((serve (RAnnounceKey req) (rw n)).2 = w') as Hw by (cbn [serve]; unfold discard; rewrite bind_run, Ha; done).
  pose proof (evolves_serve (RAnnounceKey req) (rw n)) as Hs. unfold db_rel in Hs. rewrite Hw in Hs.
  assert (db_evolves (w_db w') (w_db (rw m))) as Hwm by (rewrite <-Hw; apply (history_after tr n m conn); [done..|lia]).
  destruct (row_found k row _ _ (proj1 Hs (proj1 Hn Hwf)) Hwm Hrow Hof) as (row' & Htg & Hof'). exists row'. split; [done|].
  apply get_key_prints; [|done|].
  - intros E. destruct Hof as (_ & Ht & _). rewrite E in Ht. discriminate Ht.
  - cbn [srv_GetKey root_server]. fold m. rewrite (GetKey_found _ _ row'); [done| |done].
    assert (db_evolves (w_db (rw 0)) (w_db (rw m))) as [_ Hg] by (apply (history_steps tr); [done|lia]).
    by apply (grows_tables _ _ (Hg Hwf)).
Qed.
End commands.
End root.

(** ** A client announces a key and reads it back *)

Module ClientServerSamples.
Import Sample StoreSamples OrchestratorSamples CommandSamples.

Definition empty_root : world := run_calls [CMigrate "root"; CStep (SUpsertTenant tenant)] (world0 empty_db).
Lemma empty_root_wf : db_wf (w_db empty_root).
Proof. apply (evolves_run_calls _ (world0 empty_db)). exact empty_db_wf. Qed.

Definition no_groups (_ : nat) (_ : string) : option StoredGroup + error := inl None.

(** The client after [select tenant] against that root. *)
Definition selected : client :=
  mkClient (cl_fs (selectTenantCmd (SERVER := root_server root no_groups (λ _, empty_root))
                     dials "srv" no_address utc [uuid0] false screen [] start).2) [].

(** The root before and after the one call that writes. *)
Definition request : AnnounceKeyRequest := mkAnnounceKeyRequest uuid0 "K0" "master" "" "" ∅.
Definition announced : world := (serve root (RAnnounceKey request) empty_root).2.
Definition around (w w' : world) (n : nat) : world := match n with 0 | 1 => w | _ => w' end.
Definition roots : nat → world := around empty_root announced.
#[local] Instance the_root : Server := root_server root no_groups roots.

Definition announce : result () * client :=
  announceKeyCmd dials "srv" no_address utc no_json "K0" "master" "" "" ∅ false selected.
Definition get (id : string) : result () * client :=
  getKeyCmd dials "srv" no_address utc no_json id uuid0 false announce.2.

(** The events before and after the call do not move the root. *)
Definition quiet (e : event) : Prop := match e with EvCall _ _ => False | _ => True end.
Lemma around_history w w' q rest :
  (serve root q w).2 = w' → Forall quiet rest →
  history root (around w w') (EvConnect our_transport :: EvCall our_transport q :: rest).
Proof.
  intros Hw Hq n e He. destruct n as [|[|n]]; [injection He as <-; simpl; rewrite ?Hw; reflexivity..|].
  pose proof (Forall_lookup_1 _ _ n _ Hq He) as H. by destruct e.
Qed.

Lemma announce_trace :
  take 2 (cl_trace announce.2) = [EvConnect our_transport; EvCall our_transport (RAnnounceKey request)] ∧
  Forall quiet (drop 2 (cl_trace announce.2)).
Proof. split; [vm_compute; reflexivity|]. vm_compute. by repeat constructor. Qed.

Lemma announce_history rest : Forall quiet rest → history root roots (cl_trace announce.2 ++ rest).
Proof.
  intros Hr. destruct announce_trace as [Ht Hq]. rewrite <-(take_drop 2 (cl_trace announce.2)), Ht.
  apply around_history; [reflexivity|]. apply Forall_app. split; [exact Hq|exact Hr].
Qed.

Lemma announced_key_is_shown_witness :
  announce.1 = Ok () ∧ ∃ k row, row_of k row ∧ k_Name row = "master" ∧ k_TenantID k = uuid0 ∧
    (get (k_ID k)).1 = Ok () ∧
    cl_trace (get (k_ID k)).2 = (cl_trace announce.2 ++
      [EvConnect our_transport; EvCall our_transport (RGetKey (k_ID k) uuid0);
       EvPrint (renderTabular no_address [key_cells utc false row]); EvClose our_transport])%list.
Proof.
  assert (announce.1 = Ok ()) as Ha by (vm_compute; reflexivity).
  assert (newConnection dials "srv" (cl_fs announce.2) = (Ok our_transport, (newConnection dials "srv" (cl_fs announce.2)).2))
    as Hc by (vm_compute; reflexivity).
  destruct (announced_key_is_shown root no_groups roots dials "srv" no_address utc no_json "K0" "master" "" "" ∅
    selected announce.2) as (req & conn & k & Han & Hreq & Htr & Hget).
  - exact empty_root_wf.
  - vm_compute. reflexivity.
  - rewrite <-(app_nil_r (cl_trace announce.2)). by apply announce_history.
  - unfold announce in *. destruct (announceKeyCmd _ _ _ _ _ _ _ _ _ _ _ _) as [r c]. simpl in *. by rewrite Ha.
  - assert (k_TenantID k = uuid0) as Ht.
    { pose proof (proj1 announce_trace) as E. rewrite Htr in E. cbn in E. injection E as _ _ E.
      rewrite Hreq in E. by injection E. }
    destruct (Hget announce.2 our_transport _ (reflexivity _) (announce_history [EvConnect our_transport] ltac:(by repeat constructor)) Hc)
      as (row & Hrow & Hrun).
    split; [exact Ha|]. exists k, row. split; [exact Hrow|]. split.
    { destruct Hrow as (_ & _ & -> & _). destruct Han as (_ & -> & _). by rewrite Hreq. }
    split; [exact Ht|]. rewrite Ht in Hrun. unfold get. change the_root with (root_server root no_groups roots).
    rewrite Hrun. split; reflexivity.
Defined.
End ClientServerSamples.
End ClientServer.
